(* ===== verification/_CoqProject ===== *)
-Q . S2P
Prelude.v
Protocol.v
Hash.v
Msgpack.v
Net.v
Zstd.v
Wire.v
Session.v
Decoder.v
BlockWriter.v
Ack.v
Json.v
Log.v
HashTool.v
Server.v
ServerMain.v
Queue.v
Timer.v
Pool.v
Tracker.v
BlockIO.v
Volume.v
Vss.v
Driver.v
Syschk.v
Client.v
Incremental.v
Migrate.v
Prog.v
Config.v
MainRun.v
Commands.v
IncSync.v
EndToEnd.v
Transfer.v
Stream.v
Replica.v
System.v
Interleave.v
Run.v
Complete.v
Returns.v
Tests.v
