(* ===== verification/Prelude.v ===== *)
(** * go2cloud: a verification library

    go2cloud copies the disks of a machine to a receiver over TCP.  The client
    (src/client) reads a disk in blocks of one megabyte, hashes each block,
    records it in an SQLite tracker, wraps it in MsgPack, Zstd and a length-
    prefixed frame and sends it on one of seven connections.  The receiver
    (src/server) reassembles the frames, writes each block to the disk file its
    device number names and answers with a 20-byte response; the client marks
    the block acknowledged.  In tail mode further rounds compare the live disk
    with the recorded hashes and send what changed.

    ** Files and what they model

    - Prelude.v: machine integers, buffers, big- and little-endian images, the
      tactics and the hint databases [g2c] and [len].
    - Protocol.v: src/include/protocol.h, the constants and the response.
    - Hash.v: client/hash.c ([hash_block]).
    - Msgpack.v: client/msgpack.c, the encoder and its growing buffer.
    - Net.v: sockets as scripts of what the kernel answers.
    - Zstd.v: the compression library as the classes [Zstd] (its entry points)
      and [ZstdOk] (what zstd.h documents of them); [stored_zstd] is an instance.
    - Wire.v: client/wire.c, framing and sending.
    - Session.v: server/session.c, the table of connections.
    - Decoder.v: server/protocol_decoder.c, MsgPack decoding and reassembly.
    - BlockWriter.v: server/block_writer.c over a small model of files
      ([kernel]: contents, stable storage, descriptors, scripted failures).
    - Ack.v: server/ack.c, the responses.
    - Json.v: the configuration reader of both main.c ([Receiver], [Sender]) and
      the partition skip list.
    - Log.v: client/log.c and server/log.c, which are the same module.
    - HashTool.v: tools/hash_block.c, a command line around a copy of the hash.
    - Server.v: server/main.c: [handle_session], the turn of the main loop,
      start-up and shutdown of the disks; ServerMain.v: its command line, the
      listening socket and [main] as a whole.
    - Queue.v: client/queue.c, the ring of 256 entries; [Fifo] is its abstract
      specification.
    - Timer.v, Pool.v: client/timer.c, client/pool.c.
    - Tracker.v: client/sqlite.c: T_BLOCK as a finite map, T_VERSION as a list,
      each operation the meaning of its SQL statement.
    - BlockIO.v: client/block_io.c, both branches, and [volume_block_count].
    - Volume.v: client/volume.c, drives, partitions and drive letters.
    - Vss.v: client/vss.c, each function as the calls it makes into Windows.
    - Driver.v: client/driver_inject.c, the search for an INF and the runs of
      devcon.exe; Syschk.v: client/syschk.c, the checks and their report.
    - Client.v: client/main.c, the engine: [process_ack], [send_block],
      [flush_one], [do_retransmit], [do_reconnect].
    - Incremental.v: client/main.c, [shuffle_blocks], [do_incremental_round],
      [timer_cb_real], [should_finish].
    - Migrate.v: client/main.c, [do_migrate]: snapshots, readers, the full
      transfer, partition tables, the drain, the incremental loop, the end.
    - Prog.v: the transfer of Migrate.v without TailSend, and the engine under it,
      as programs: trees of the single operations between which something else can
      happen.  Run without interruption they are the functions of Client.v and
      Migrate.v ([does_transfer]).
    - Config.v: client/main.c, the target address and the configuration file of
      the commands that run a transfer.
    - MainRun.v: the migration command and [cmd_dryrun] around [do_migrate].
    - Commands.v: the other commands of client/main.c and the dispatch of [main].
    - IncSync.v: client/main.c, [cmd_incsync], one incremental pass.
    - EndToEnd.v: client and receiver on one connection; Transfer.v: a queue of
      blocks over all connections.
    - System.v: client, receiver and connections as a transition system
      ([sys_step]) whose steps are the engine's operations, turns of the
      receiver's loop and deliveries of the network, with its invariant
      ([world_ok]).  Stream.v has the invariant of one byte stream under partial
      sends and reads, Replica.v that of the receiver's disks and its answers.
    - Interleave.v: the runs of a program while the receiver and the network move
      between its operations ([irun]), and a program logic for them ([triple]).
    - Run.v: what holds across every operation and every such move holds across a
      run ([RunFrame], [kept_transfer]), so a run is a sequence of the system's
      steps; Complete.v: the rows an undisturbed run records; Returns.v: total
      correctness ([wp]) and when a transfer returns.
    - Tests.v: test/test_protocol.c, the program's own unit tests, run on the
      definitions of this library.

    ** State and environment

    A component's state is a record with the source's fields; an operation is a
    function from state to result and state, -1 and null being the source's
    error values or [None].  What the code asks of its environment is a script
    (the answers to the successive [send], [recv], [write], [fsync], [open],
    [connect] and SQLite calls), a function of a counter (the clocks, the flag
    [g_running], the allocator) or an argument; the theorems quantify over them,
    which covers short writes, split and coalesced reads, would-block, failures
    and exhaustion.  Integers are [Z] with the source's conversions written out
    ([u64], [s32], ...).  Locks make each operation of the queue and the pool one
    step; the two programs are single-threaded.  What the Windows calls of
    Volume.v, Vss.v, Driver.v and Syschk.v answer is an oracle in the same way; in
    Vss.v every call is also recorded, so that theorems can speak about their
    order and about what is released.  Sleeping and the log messages of the
    components have no effect on the state and are left out there.

    ** What the theorems show

    - The encoder and the decoder are inverse to each other through any cutting of
      the stream; decoding arbitrary bytes reads and writes within bounds.
    - The receiver stores every block where it belongs and acknowledges it once;
      its table refines a finite map; a turn of its loop keeps the invariants.
    - What [fsync] makes durable, and what it does not.
    - The queue refines a FIFO; the pool hands out free connections; the tracker's
      queries return exactly the rows they should.
    - [send_block] always returns, with the block queued and recorded or because
      the program stops; [process_ack] marks exactly the acknowledged rows; a round
      touches only the rows it may and keeps the queue short.
    - An incremental pass leaves every readable block recorded with the hash of
      what was read; the blocks of the enumerated volumes have different keys.
    - The snapshot calls follow their protocol and are balanced; the system check,
      the driver search and the block list report exactly what they should; the
      hash tool prints the hash the client records; a dry run without TailSend
      leaves the network alone; the log holds exactly the messages it should.
    - End to end: a flushed block is on the receiver's disk and its row, and only
      its row, acknowledged; the same for a whole queue of disjoint blocks spread
      over the seven connections and served in one turn of the receiver's loop.
    - In every world reachable from a clean start by the steps of the transition
      system, in any order and within its bounds (below: a failed connection stays
      failed, responses arrive whole, no incremental rounds), whatever writes,
      sessions and tracker operations fail, an acknowledged row names a block that
      is on the receiver's disk ([acked_is_stored]).  A
      migration, with the receiver and the network moving between its operations,
      is a sequence of such steps ([migration_is_steps]) and, when nothing disturbs
      the client itself, records every block below [n_blocks] of its readers, so
      that once nothing is left unacknowledged the target holds these blocks of the
      source ([migration_complete]; the end of a snapshot is not among them,
      [snapshot_tail_not_sent]).  It
      returns unless it comes into the loop of [do_reconnect] with fewer than seven
      connections, one of them free ([transfer_returns]).  The
      two assumptions on the connections are those the code makes without
      seeing to them: [torn_frame_acknowledged] and [recv_ack_loses_partial] show what
      happens without.
    - Where the code does something else than it means to, a theorem says what it
      does: the bytes the hash does not see, the tail of a snapshot that is not
      sent, the loop that does not end, the blocks that are dropped or sent twice,
      the retransmission that never happens, the alert that is never sent, the
      push loop that cannot end on dead connections, the block confirmed without
      having been delivered, the dry run that uses the network.

    ** Fuel

    Structural loops need none.  Where a loop consumes something the fuel is that
    amount and a lemma shows it is enough: bytes for the receiving loops, entries
    for the draining loops, 64 doublings for the encoder's buffer.  [PUSH_FUEL]
    (603) covers the 600 turns of [send_block] before a forced drain and the push
    after it ([push_retry_ends]).  [do_reconnect], the timer loop, the
    incremental loop and the push loop of [cmd_incsync] are unbounded in the
    source: they answer [None] when the fuel runs out; [do_reconnect] and the
    push loop are shown to do so for every fuel in a reachable case, and to end
    in the others ([incsync_scan_correct] for a whole pass, [transfer_returns] for
    a transfer: its timers fire at most [4 ((T - t0) / 10000 + 1)] times between
    [t0] and [T], in milliseconds).

    ** Bounds of the transition system

    The source is fixed: a block reads the same whenever it is read.  A connection
    on which a send has failed keeps failing ([steady]), and what arrives at the
    client between two of its reads are whole responses.  The incremental rounds
    are not steps of it: they acknowledge a row on an unchanged hash alone
    ([unchanged_block_is_confirmed]), and TailSend is therefore excluded in
    Prog.v, Run.v and Complete.v.  In an interleaved run the receiver and the
    network move between any two operations of the client: a push, the flush of
    one entry, a pass of [process_ack] over the connections, a statement of the
    tracker, a control frame, a reading of a clock or of [g_running].  They do not
    move inside one of these; what arrives there is in the sockets' scripts when
    it begins.

    ** Choices about the environment

    A failed [fsync] makes nothing durable.  On an open target [lseek64] fails for
    a negative offset only.  A drive that answers tells a sector size above zero
    (by 0 the code would divide).  A statement that fails at a step has no effect;
    a query of several rows keeps those it had read.

    ** What is not modelled

    SQLite, Zstd, the socket layer and the Windows services are code the program
    calls: they are parameters, scripts or oracles.  Left out are the layout of
    what the commands print and the progress tables of the console, the signal
    handlers beyond the flag they clear, the structured exception handler around
    [do_migrate], the locks, socket options, and [decode_error_string], which
    only names an error code. *)

From stdpp Require Export prelude list gmap.
From Stdlib Require Export ZArith Lia ZifyBool.

Declare Scope go2cloud_scope.
Delimit Scope go2cloud_scope with g2c.

#[global] Open Scope Z_scope.

(** ** Machine integers

    A w-bit integer is the mathematical integer it denotes; a C conversion is
    the explicit reduction into the destination's range. *)

Definition wrapU (w : Z) (z : Z) : Z := z mod 2 ^ w.
Definition wrapS (w : Z) (z : Z) : Z := (z + 2 ^ (w - 1)) mod 2 ^ w - 2 ^ (w - 1).

Definition u8 : Z → Z := wrapU 8.
Definition u16 : Z → Z := wrapU 16.
Definition u32 : Z → Z := wrapU 32.
Definition u64 : Z → Z := wrapU 64.
Definition s8 : Z → Z := wrapS 8.
Definition s16 : Z → Z := wrapS 16.
Definition s32 : Z → Z := wrapS 32.
Definition s64 : Z → Z := wrapS 64.

Definition in_u (w : Z) (z : Z) : Prop := 0 ≤ z < 2 ^ w.
Definition in_s (w : Z) (z : Z) : Prop := - 2 ^ (w - 1) ≤ z < 2 ^ (w - 1).

(** A byte buffer is the list of its bytes. *)
Definition byte_ok (b : Z) : Prop := 0 ≤ b < 256.
Abbreviation bytes_ok := (Forall byte_ok).

(** [len l]: the length of a buffer as a [size_t]. *)
Definition len {A} (l : list A) : Z := Z.of_nat (length l).
Definition ztake {A} (n : Z) (l : list A) : list A := take (Z.to_nat n) l.
Definition zdrop {A} (n : Z) (l : list A) : list A := drop (Z.to_nat n) l.

(** [buf[i]] for an index the code has checked; 0 outside the buffer. *)
Definition byte_at (l : list Z) (i : Z) : Z := nth (Z.to_nat i) l 0.

Notation "l .[ i ]" := (byte_at l i)
  (at level 1, left associativity, format "l .[ i ]") : go2cloud_scope.

(** ** Big- and little-endian images of an integer *)

Fixpoint le_bytes (n : nat) (z : Z) : list Z :=
  match n with
  | O => []
  | S n' => u8 z :: le_bytes n' (Z.shiftr z 8)
  end.

Fixpoint le_val (l : list Z) : Z :=
  match l with
  | [] => 0
  | b :: l' => b + 256 * le_val l'
  end.

Definition be_bytes (n : nat) (z : Z) : list Z := reverse (le_bytes n z).
Definition be_val (l : list Z) : Z := le_val (reverse l).

(** ** C computations that can fail

    [Ret a]: the call succeeds with [a]; [Rej]: it takes an error return;
    [Oob]: it reads outside its buffer.  Keeping the last two apart is what
    makes "no out-of-bounds read" a theorem about a function. *)
Inductive cres (A : Type) : Type :=
  | Ret (a : A)
  | Rej
  | Oob.
Arguments Ret {A} a.
Arguments Rej {A}.
Arguments Oob {A}.

#[export] Instance cres_ret : MRet cres := @Ret.
#[export] Instance cres_bind : MBind cres := λ A B k m,
  match m with Ret a => k a | Rej => Rej | Oob => Oob end.

(** [buf[i]] with its bounds. *)
Definition rd (buf : list Z) (i : Z) : cres Z :=
  if i <? 0 then Oob
  else match buf !! Z.to_nat i with Some b => Ret b | None => Oob end.

(** The size a buffer request needs, as a total predicate on the allocator. *)
Definition alloc_always : Z → bool := λ _, true.

(** ** Automation *)

Create HintDb g2c discriminated.
Create Rewrite HintDb len.

(** Boolean tests of the code become propositions. *)
Ltac bool_to_prop :=
  repeat match goal with
  | H : (_ && _) = true |- _ => apply andb_true_iff in H; destruct H
  | H : (_ && _) = false |- _ => apply andb_false_iff in H
  | H : (_ || _) = false |- _ => apply orb_false_iff in H; destruct H
  | H : (_ || _) = true |- _ => apply orb_true_iff in H
  | H : negb _ = true |- _ => apply negb_true_iff in H
  | H : negb _ = false |- _ => apply negb_false_iff in H
  | H : (_ <? _) = true |- _ => apply Z.ltb_lt in H
  | H : (_ <? _) = false |- _ => apply Z.ltb_ge in H
  | H : (_ <=? _) = true |- _ => apply Z.leb_le in H
  | H : (_ <=? _) = false |- _ => apply Z.leb_gt in H
  | H : (_ =? _) = true |- _ => apply Z.eqb_eq in H
  | H : (_ =? _) = false |- _ => apply Z.eqb_neq in H
  | H : bool_decide _ = true |- _ => apply bool_decide_eq_true in H
  | H : bool_decide _ = false |- _ => apply bool_decide_eq_false in H
  end.

(** Case analysis on the outermost test of the goal. *)
Ltac case_test :=
  match goal with
  | |- context [if ?b then _ else _] =>
      lazymatch type of b with
      | bool => let E := fresh "E" in destruct b eqn:E; bool_to_prop
      | _ => case_decide
      end
  end.

(** Case analysis on the tests of a hypothesis. *)
Ltac case_test_in H :=
  match type of H with
  | context [if ?b then _ else _] =>
      lazymatch type of b with
      | bool => let E := fresh "E" in destruct b eqn:E; bool_to_prop
      | _ => destruct b
      end
  end.

(** Right-nested concatenations. *)
Ltac app_norm := repeat (rewrite <- app_assoc || rewrite <- app_comm_cons).

Ltac unfold_len := unfold ztake, zdrop, len in *.

(** Lengths of concrete shapes, then linear arithmetic. *)
Ltac len_solve :=
  unfold ztake, zdrop, len in *;
  repeat (rewrite ?length_app, ?length_cons, ?length_take, ?length_drop,
            ?length_reverse, ?length_insert, ?length_fmap, ?length_replicate in *);
  simpl length in *; lia.

(** Numeral tests settled by bounds: [rewrite_tests] replaces every decided
    comparison in the goal by its value. *)
Ltac decide_test b :=
  first
    [ replace b with true by (symmetry; first [apply Z.eqb_eq | apply Z.ltb_lt | apply Z.leb_le]; lia)
    | replace b with false by (symmetry; first [apply Z.eqb_neq | apply Z.ltb_ge | apply Z.leb_gt]; lia) ].

Ltac decide_tests :=
  repeat match goal with
  | |- context [?a =? ?b] => decide_test (a =? b)
  | |- context [?a <? ?b] => decide_test (a <? b)
  | |- context [?a <=? ?b] => decide_test (a <=? b)
  end; cbn [andb orb negb].

(** ** Integers *)

Section Integers.

Lemma wrapU_range w z : 0 ≤ w → 0 ≤ wrapU w z < 2 ^ w.
Proof. intros. apply Z.mod_pos_bound. lia. Qed.

Lemma wrapU_id w z : in_u w z → wrapU w z = z.
Proof. intros H. by apply Z.mod_small. Qed.

Lemma wrapS_range w z : 0 < w → in_s w (wrapS w z).
Proof.
  intros Hw. unfold in_s, wrapS.
  pose proof (Z.mod_pos_bound (z + 2 ^ (w - 1)) (2 ^ w)) as H.
  assert (E : 2 ^ w = 2 * 2 ^ (w - 1)).
  { rewrite <- (Z.pow_succ_r 2 (w - 1)) by lia. f_equal. lia. }
  specialize (H ltac:(lia)). lia.
Qed.

Lemma wrapS_id w z : 0 < w → in_s w z → wrapS w z = z.
Proof.
  intros Hw H. unfold in_s, wrapS in *.
  assert (E : 2 ^ w = 2 * 2 ^ (w - 1)).
  { rewrite <- (Z.pow_succ_r 2 (w - 1)) by lia. f_equal. lia. }
  rewrite Z.mod_small; lia.
Qed.

(** A conversion to the signed type undoes one to the unsigned type. *)
Lemma wrapS_wrapU w z : 0 < w → wrapS w (wrapU w z) = wrapS w z.
Proof.
  intros Hw. unfold wrapS, wrapU. by rewrite Zplus_mod_idemp_l.
Qed.

Lemma u8_range z : byte_ok (u8 z).
Proof. apply (wrapU_range 8). lia. Qed.

Lemma u8_id z : byte_ok z → u8 z = z.
Proof. apply (wrapU_id 8). Qed.

Lemma u8_land_255 z : u8 (Z.land z 255) = u8 z.
Proof.
  unfold u8, wrapU. change 255 with (Z.ones 8).
  rewrite Z.land_ones by lia. apply Z.mod_mod. lia.
Qed.

Lemma land_255 z : Z.land z 255 = u8 z.
Proof. change 255 with (Z.ones 8). by rewrite Z.land_ones by lia. Qed.

(** [hi << k | lo] is [hi * 2^k + lo] when [lo] fits below the shift. *)
Lemma lor_shiftl_add hi lo k :
  0 ≤ k → 0 ≤ lo < 2 ^ k → Z.lor (Z.shiftl hi k) lo = hi * 2 ^ k + lo.
Proof.
  intros Hk Hlo. rewrite <- Z.shiftl_mul_pow2 by lia.
  rewrite <- Z.lxor_lor.
  - rewrite <- Z.add_nocarry_lxor; [done|].
    apply Z.bits_inj'. intros n Hn.
    rewrite Z.land_spec, Z.bits_0, Z.shiftl_spec by lia.
    destruct (Z.ltb_spec n k).
    + by rewrite Z.testbit_neg_r by lia.
    + rewrite <- (Z.mod_small lo (2 ^ k)), Z.mod_pow2_bits_high by lia.
      apply andb_false_r.
  - apply Z.bits_inj'. intros n Hn.
    rewrite Z.land_spec, Z.bits_0, Z.shiftl_spec by lia.
    destruct (Z.ltb_spec n k).
    + by rewrite Z.testbit_neg_r by lia.
    + rewrite <- (Z.mod_small lo (2 ^ k)), Z.mod_pow2_bits_high by lia.
      apply andb_false_r.
Qed.

Lemma lor_shiftl_add_r hi lo k :
  0 ≤ k → 0 ≤ lo < 2 ^ k → Z.lor lo (Z.shiftl hi k) = hi * 2 ^ k + lo.
Proof. intros. rewrite Z.lor_comm. by apply lor_shiftl_add. Qed.

End Integers.

(** ** Lengths, prefixes and suffixes *)

Section Lengths.
Context {A : Type}.
Implicit Types l : list A.

Lemma len_nonneg l : 0 ≤ len l.
Proof. unfold len. lia. Qed.

Lemma len_nil : len (@nil A) = 0.
Proof. done. Qed.

Lemma len_cons x l : len (x :: l) = 1 + len l.
Proof. unfold len. simpl length. lia. Qed.

Lemma len_app l1 l2 : len (l1 ++ l2) = len l1 + len l2.
Proof. unfold len. rewrite length_app. lia. Qed.

Lemma len_zero_nil l : len l = 0 → l = [].
Proof. unfold len. destruct l; simpl; [done|lia]. Qed.

Lemma len_ztake n l : len (ztake n l) = Z.min (Z.max 0 n) (len l).
Proof. unfold len, ztake. rewrite length_take. lia. Qed.

Lemma len_zdrop n l : len (zdrop n l) = Z.max 0 (len l - Z.max 0 n).
Proof. unfold len, zdrop. rewrite length_drop. lia. Qed.

Lemma ztake_zdrop n l : ztake n l ++ zdrop n l = l.
Proof. apply take_drop. Qed.

Lemma ztake_app_exact n l1 l2 : n = len l1 → ztake n (l1 ++ l2) = l1.
Proof. intros ->. unfold ztake, len. rewrite Nat2Z.id. by apply take_app_length. Qed.

Lemma zdrop_app_exact n l1 l2 : n = len l1 → zdrop n (l1 ++ l2) = l2.
Proof. intros ->. unfold zdrop, len. rewrite Nat2Z.id. by apply drop_app_length. Qed.

Lemma ztake_ge n l : len l ≤ n → ztake n l = l.
Proof. unfold ztake, len. intros. apply take_ge. lia. Qed.

Lemma zdrop_ge n l : len l ≤ n → zdrop n l = [].
Proof. unfold zdrop, len. intros. apply drop_ge. lia. Qed.

Lemma zdrop_0 l : zdrop 0 l = l.
Proof. done. Qed.

Lemma ztake_neg n l : n ≤ 0 → ztake n l = [].
Proof. unfold ztake. intros. by replace (Z.to_nat n) with 0%nat by lia. Qed.

Lemma zdrop_zdrop n m l : 0 ≤ n → 0 ≤ m → zdrop n (zdrop m l) = zdrop (m + n) l.
Proof. unfold zdrop. intros. rewrite drop_drop. f_equal. lia. Qed.

Lemma zdrop_app_le n l1 l2 : n ≤ len l1 → zdrop n (l1 ++ l2) = zdrop n l1 ++ l2.
Proof. unfold zdrop, len. intros. apply drop_app_le. lia. Qed.

Lemma ztake_app_le n l1 l2 : n ≤ len l1 → ztake n (l1 ++ l2) = ztake n l1.
Proof. unfold ztake, len. intros. apply take_app_le. lia. Qed.

End Lengths.

(** A filter that keeps everything. *)
Lemma filter_all {A} (P : A → Prop) `{∀ x, Decision (P x)} l : Forall P l → filter P l = l.
Proof.
  induction 1 as [|x l Hx Hl IH]; [done|]. by rewrite filter_cons_True, IH.
Qed.

Lemma filter_none {A} (P : A → Prop) `{∀ x, Decision (P x)} l : Forall (λ x, ¬ P x) l → filter P l = [].
Proof.
  induction 1 as [|x l Hx Hl IH]; [done|]. by rewrite filter_cons_False.
Qed.

Lemma bind_assoc {A B C} (f : A → list B) (g : B → list C) l : (l ≫= f) ≫= g = l ≫= λ x, f x ≫= g.
Proof. induction l as [|x l IH]; [done|]. by rewrite !bind_cons, bind_app, IH. Qed.

Lemma Forall2_impl_l {A B} (P Q : A → B → Prop) l k :
  (∀ x y, x ∈ l → P x y → Q x y) → Forall2 P l k → Forall2 Q l k.
Proof.
  intros Himp HF. induction HF as [|x y l k Hxy HF IH]; [constructor|]. constructor.
  - apply Himp; [left|done].
  - apply IH. intros a b Ha. apply Himp. by right.
Qed.

Lemma fmap_concat_with {A B C} (f : B → C) (g : A → list B) k :
  f <$> concat (g <$> k) = concat ((λ x, f <$> g x) <$> k).
Proof. induction k as [|x k IH]; [done|]. cbn [fmap list_fmap concat]. by rewrite fmap_app, IH. Qed.

Lemma Forall_ztake {A} (P : A → Prop) n l : Forall P l → Forall P (ztake n l).
Proof. apply Forall_take. Qed.

Lemma Forall_zdrop {A} (P : A → Prop) n l : Forall P l → Forall P (zdrop n l).
Proof. apply Forall_drop. Qed.

Lemma rd_app l1 x l2 : rd (l1 ++ x :: l2) (len l1) = Ret x.
Proof.
  unfold rd, len. replace (Z.of_nat (length l1) <? 0) with false by lia.
  rewrite Nat2Z.id, lookup_app_r by lia. by rewrite Nat.sub_diag.
Qed.

Lemma rd_in_bounds buf i : 0 ≤ i < len buf → ∃ b, rd buf i = Ret b ∧ b ∈ buf.
Proof.
  unfold rd, len. intros H. replace (i <? 0) with false by lia.
  destruct (lookup_lt_is_Some_2 buf (Z.to_nat i)) as [b Hb]; [lia|].
  rewrite Hb. exists b. split; [done|]. by eapply list_elem_of_lookup_2.
Qed.

#[export] Hint Resolve len_nonneg u8_range Forall_ztake Forall_zdrop : g2c.
#[export] Hint Rewrite @len_nil @len_cons @len_app : len.

Ltac len_norm := autorewrite with len in *.

(** ** Endianness *)

Lemma length_le_bytes n z : length (le_bytes n z) = n.
Proof. revert z. induction n as [|n IH]; intros z; simpl; [done|]. by rewrite IH. Qed.

Lemma length_be_bytes n z : length (be_bytes n z) = n.
Proof. unfold be_bytes. by rewrite length_reverse, length_le_bytes. Qed.

Lemma len_be_bytes n z : len (be_bytes n z) = Z.of_nat n.
Proof. unfold len. by rewrite length_be_bytes. Qed.

Lemma len_le_bytes n z : len (le_bytes n z) = Z.of_nat n.
Proof. unfold len. by rewrite length_le_bytes. Qed.

Lemma le_bytes_ok n z : bytes_ok (le_bytes n z).
Proof. revert z. induction n as [|n IH]; intros z; constructor; auto with g2c. Qed.

Lemma be_bytes_ok n z : bytes_ok (be_bytes n z).
Proof. unfold be_bytes. apply Forall_reverse. apply le_bytes_ok. Qed.

Lemma le_val_bytes n z : le_val (le_bytes n z) = z mod 256 ^ Z.of_nat n.
Proof.
  revert z. induction n as [|n IH]; intros z.
  - simpl. by rewrite Z.mod_1_r.
  - cbn [le_bytes le_val]. rewrite IH, Nat2Z.inj_succ, Z.pow_succ_r by lia.
    rewrite Z.shiftr_div_pow2 by lia. unfold u8, wrapU.
    change (2 ^ 8) with 256. rewrite (Z.rem_mul_r z) by lia. done.
Qed.

Lemma be_val_bytes n z : be_val (be_bytes n z) = z mod 256 ^ Z.of_nat n.
Proof. unfold be_val, be_bytes. by rewrite reverse_involutive, le_val_bytes. Qed.

Lemma le_val_range l : bytes_ok l → 0 ≤ le_val l < 256 ^ len l.
Proof.
  induction 1 as [|b l Hb _ IH]; simpl; [unfold len; simpl; lia|].
  rewrite len_cons, Z.pow_add_r by (auto with g2c || lia).
  unfold byte_ok in Hb. lia.
Qed.

Lemma le_bytes_val l : bytes_ok l → le_bytes (length l) (le_val l) = l.
Proof.
  induction 1 as [|b l Hb _ IH]; simpl; [done|].
  unfold byte_ok in Hb. f_equal.
  - unfold u8, wrapU. change (2 ^ 8) with 256.
    rewrite (Z.mul_comm 256), Z.mod_add by lia. by apply Z.mod_small.
  - rewrite Z.shiftr_div_pow2 by lia. change (2 ^ 8) with 256.
    rewrite (Z.mul_comm 256), Z.div_add by lia.
    rewrite Z.div_small by lia. by rewrite Z.add_0_l.
Qed.

Lemma be_val_range l : bytes_ok l → 0 ≤ be_val l < 256 ^ len l.
Proof.
  intros H. unfold be_val.
  replace (len l) with (len (reverse l)) by (unfold len; by rewrite length_reverse).
  apply le_val_range. by apply Forall_reverse.
Qed.

Lemma be_bytes_val l : bytes_ok l → be_bytes (length l) (be_val l) = l.
Proof.
  intros H. unfold be_bytes, be_val.
  rewrite <- (reverse_involutive l) at 3. f_equal.
  rewrite <- (length_reverse l). apply le_bytes_val. by apply Forall_reverse.
Qed.

#[export] Hint Resolve le_bytes_ok be_bytes_ok : g2c.
#[export] Hint Rewrite @len_be_bytes @len_le_bytes @len_ztake @len_zdrop : len.
