(* ===== verification/Protocol.v ===== *)
(** * The wire protocol's constants and the 20-byte server response

    include/protocol.h: the numbers both ends share, the control strings and
    the packed [server_response_t].  The response travels as the raw bytes of
    the struct, so its codec is the little-endian image of its four fields. *)

From stdpp Require Import strings.
From S2P Require Import Prelude.

(** ** Layer 1: framing *)
Definition TCP_FRAME_HEADER_SIZE : Z := 4.

(** ** Layer 2: frame synchronisation *)
Definition FRAME_MAGIC_LEN : Z := 3.
Definition FRAME_MAGIC_B0 : Z := 0x61.
Definition FRAME_MAGIC_B1 : Z := 0x62.
Definition FRAME_MAGIC_B2 : Z := 0x63.
Definition FRAME_MAGIC : list Z := [FRAME_MAGIC_B0; FRAME_MAGIC_B1; FRAME_MAGIC_B2].

(** ** Layer 3: compression *)
Definition ZSTD_COMPRESS_LEVEL_MIN : Z := 1.
Definition ZSTD_COMPRESS_LEVEL_MAX : Z := 7.

(** ** Layer 4: MsgPack tags *)
Definition MSGPACK_FIXMAP_3 : Z := 0x93.
Definition MSGPACK_BIN8 : Z := 0xc4.
Definition MSGPACK_BIN16 : Z := 0xc5.
Definition MSGPACK_BIN32 : Z := 0xc6.
Definition MSGPACK_INT8 : Z := 0xd0.
Definition MSGPACK_INT16 : Z := 0xd1.
Definition MSGPACK_INT32 : Z := 0xd2.
Definition MSGPACK_INT64 : Z := 0xd3.

(** ** Control messages

    A C string literal is its characters followed by the terminating NUL. *)
Fixpoint string_bytes (s : string) : list Z :=
  match s with
  | EmptyString => []
  | String a s' => Z.of_N (Ascii.N_of_ascii a) :: string_bytes s'
  end.

Definition c_literal (s : string) : list Z := string_bytes s ++ [0].

Definition CTL_INCREMENTAL : list Z := c_literal "ctlIncremental".
Definition CTL_INCREMENTAL_LEN : Z := 15.
Definition CTL_END_INCREMENTAL : list Z := c_literal "ctlEndIncremental".
Definition CTL_END_INCREMENTAL_LEN : Z := 17.

(** ** Server responses *)
Record server_response_t := mk_response {
  resp_type : Z;
  resp_devno : Z;
  resp_size : Z;
  resp_offset : Z;
}.

Definition SERVER_RESPONSE_SIZE : Z := 20.

Definition RESPONSE_ACK : Z := 0.
Definition RESPONSE_BINLOG : Z := 1.
Definition RESPONSE_SERVER_DONE : Z := 2.
Definition RESPONSE_ACK_ALT : Z := 4.

(** ** Block and connection constants *)
Definition BLOCK_SIZE : Z := 0x100000.
Definition BLOCK_SIZE_MAX : Z := BLOCK_SIZE.
Definition BINLOG_SIZE_LIMIT : Z := 0x280000000.

Definition SOCKET_POOL_TARGET : Z := 7.
Definition STALE_SOCKET_TIMEOUT_SEC : Z := 720.
Definition RETRANSMIT_MIN_INTERVAL_SEC : Z := 121.

Definition BACKPRESSURE_QUEUE_DEPTH : Z := 40.

Definition RETRANSMIT_TIMER_MS : Z := 18000.
Definition RECONNECT_TIMER_MS : Z := 20000.
Definition ACTION_TIMER_MS : Z := 10000.

Definition MAX_INCREMENTAL_ROUNDS : Z := 60.
Definition CONVERGENCE_ZERO_ROUNDS : Z := 3.

Definition MSGPACK_BUF_INITIAL_CAP : Z := 0x2000.

(** ** The packed struct as bytes

    [#pragma pack(1)]: the fields follow each other without padding, in the
    byte order of the machine (little-endian on every supported target). *)
Definition response_bytes (r : server_response_t) : list Z :=
  le_bytes 4 (resp_type r) ++ le_bytes 4 (resp_devno r) ++
  le_bytes 4 (resp_size r) ++ le_bytes 8 (resp_offset r).

(** [memcpy(resp, buf, SERVER_RESPONSE_SIZE)] *)
Definition response_of_bytes (l : list Z) : server_response_t :=
  mk_response (s32 (le_val (ztake 4 l)))
              (s32 (le_val (ztake 4 (zdrop 4 l))))
              (s32 (le_val (ztake 4 (zdrop 8 l))))
              (s64 (le_val (ztake 8 (zdrop 12 l)))).

(** The fields hold values of their C types. *)
Definition response_ok (r : server_response_t) : Prop :=
  in_s 32 (resp_type r) ∧ in_s 32 (resp_devno r) ∧
  in_s 32 (resp_size r) ∧ in_s 64 (resp_offset r).

#[export] Instance server_response_eq_dec : EqDecision server_response_t.
Proof. solve_decision. Defined.

(** ** Lemmas *)

Lemma string_bytes_ok s : bytes_ok (string_bytes s).
Proof.
  induction s as [|a s IH]; constructor; [|apply IH].
  unfold byte_ok. pose proof (Ascii.N_ascii_bounded a). lia.
Qed.

Lemma len_response_bytes r : len (response_bytes r) = SERVER_RESPONSE_SIZE.
Proof. unfold response_bytes. len_norm. done. Qed.

Lemma response_bytes_ok r : bytes_ok (response_bytes r).
Proof. unfold response_bytes. rewrite !Forall_app. repeat split; auto with g2c. Qed.

(** Reading a field back through its signed type. *)
Lemma le_field w n z :
  0 < w → 256 ^ Z.of_nat n = 2 ^ w → in_s w z → wrapS w (le_val (le_bytes n z)) = z.
Proof.
  intros Hw Hn Hz. rewrite le_val_bytes, Hn.
  change (z mod 2 ^ w) with (wrapU w z).
  rewrite wrapS_wrapU by done. by apply wrapS_id.
Qed.

(** The four fields of the packed struct sit at offsets 0, 4, 8 and 12. *)
Lemma packed_fields (a b c d : list Z) :
  length a = 4%nat → length b = 4%nat → length c = 4%nat → length d = 8%nat →
  ztake 4 (a ++ b ++ c ++ d) = a ∧ ztake 4 (zdrop 4 (a ++ b ++ c ++ d)) = b ∧
  ztake 4 (zdrop 8 (a ++ b ++ c ++ d)) = c ∧ ztake 8 (zdrop 12 (a ++ b ++ c ++ d)) = d.
Proof.
  intros Ha Hb Hc Hd.
  do 5 (destruct a as [|? a]; try discriminate).
  do 5 (destruct b as [|? b]; try discriminate).
  do 5 (destruct c as [|? c]; try discriminate).
  do 9 (destruct d as [|? d]; try discriminate). done.
Qed.

Lemma response_codec r : response_ok r → response_of_bytes (response_bytes r) = r.
Proof.
  intros (Ht & Hd & Hs & Ho). destruct r as [t d s o]; simpl in *.
  unfold response_of_bytes, response_bytes; simpl resp_type; simpl resp_devno;
    simpl resp_size; simpl resp_offset.
  destruct (packed_fields (le_bytes 4 t) (le_bytes 4 d) (le_bytes 4 s) (le_bytes 8 o))
    as (-> & -> & -> & ->); try apply length_le_bytes.
  unfold s32, s64. by rewrite !le_field.
Qed.

#[export] Hint Resolve string_bytes_ok response_bytes_ok : g2c.
#[export] Hint Rewrite @len_response_bytes : len.
