(* ===== verification/Hash.v ===== *)
(** * The block hash (client/hash.c, tools/hash_block.c)

    [hash_block] is transcribed as the pointer walk of the source: [p] and
    [end] count 64-bit words, the loop runs while [p + 3 < end], and the four
    lanes are updated modulo 2^64.  The theorems say exactly which changes of a
    block the hash can and cannot see, which is what the incremental
    synchronisation rests on. *)

From S2P Require Import Prelude Protocol.

Definition HASH_MUL : Z := 0xc2b4d1b3d54d51c2.
Definition HASH_ROT : Z := 0x9e3779b586c04815.
Definition HASH_INIT_SHORT : Z := 0x27d4eb2f165667c5.
Definition HASH_INIT_A : Z := 0x60ea27eeadc0b5d6.
Definition HASH_INIT_B : Z := 0x61c8864e7a143579.
Definition HASH_INIT_C : Z := 0xc2b2ae3d27d4eb4f.
Definition HASH_XOR_CONST : Z := 0x85ebca77c2b2ae63.

(** [h ^= h >> 33] *)
Definition xorshift33 (h : Z) : Z := Z.lxor h (Z.shiftr h 33).

Definition fmix64 (h : Z) : Z :=
  let h := xorshift33 h in
  let h := u64 (h * 0xff51afd7ed558ccd) in
  let h := xorshift33 h in
  let h := u64 (h * 0xc4ceb9fe1a85ec53) in
  xorshift33 h.

(** [p[i]]: the i-th aligned 64-bit word of the buffer. *)
Definition word_at (data : list Z) (i : Z) : Z := le_val (ztake 8 (zdrop (8 * i) data)).

(** [((h << 31) | (h >> 33))] on a 64-bit [h]. *)
Definition rotl31 (h : Z) : Z := Z.lor (u64 (Z.shiftl h 31)) (Z.shiftr h 33).

(** One lane: [k = input * MUL; h += k; h = rotl31(h) * ROT]. *)
Definition lane_step (h input : Z) : Z :=
  u64 (rotl31 (u64 (h + u64 (input * HASH_MUL))) * HASH_ROT).

Record lanes := mk_lanes { lane_a : Z; lane_b : Z; lane_c : Z; lane_d : Z }.

Definition lanes_init (seed : Z) : lanes :=
  mk_lanes (u64 (seed + HASH_INIT_A)) (u64 (seed + HASH_INIT_B))
           (u64 (seed + HASH_INIT_C)) seed.

Definition lanes_step (st : lanes) (k0 k1 k2 k3 : Z) : lanes :=
  mk_lanes (lane_step (lane_a st) k0) (lane_step (lane_b st) k1)
           (lane_step (lane_c st) k2) (lane_step (lane_d st) k3).

(** [while (p + 3 < end) { ...; p += 4; }] *)
Fixpoint hash_loop (fuel : nat) (data : list Z) (p end_ : Z) (st : lanes) : lanes :=
  match fuel with
  | O => st
  | S fuel' =>
      if p + 3 <? end_ then
        hash_loop fuel' data (p + 4) end_
          (lanes_step st (word_at data p) (word_at data (p + 1))
                         (word_at data (p + 2)) (word_at data (p + 3)))
      else st
  end.

(** [result = (result ^ fmix64(lane)) * ROT + XOR_CONST] *)
Definition final_round (result lane : Z) : Z :=
  u64 (u64 (Z.lxor result (fmix64 lane) * HASH_ROT) + HASH_XOR_CONST).

Definition hash_end (n : Z) : Z := n / 8 - (if n mod 8 =? 0 then 4 else 0).

Definition hash_final (st : lanes) (n : Z) : Z :=
  let result := HASH_XOR_CONST in
  let result := final_round result (lane_a st) in
  let result := final_round result (lane_b st) in
  let result := final_round result (lane_c st) in
  let result := final_round result (lane_d st) in
  u64 (result + n).

Definition hash_block (data : list Z) (seed : Z) : Z :=
  let n := len data in
  if n <? 32 then u64 (u64 (n + HASH_INIT_SHORT) + seed)
  else
    let end_ := hash_end n in
    hash_final (hash_loop (Z.to_nat end_) data 0 end_ (lanes_init seed)) n.

(** ** The same computation over the list of hashed words

    [hash_words] is what the loop does to the words it reaches, four at a
    time. *)
Fixpoint hash_words (ws : list Z) (st : lanes) : lanes :=
  match ws with
  | k0 :: k1 :: k2 :: k3 :: ws' => hash_words ws' (lanes_step st k0 k1 k2 k3)
  | _ => st
  end.

(** Words [p, p+1, ..., p+n-1] of the buffer. *)
Fixpoint words_from (data : list Z) (p : Z) (n : nat) : list Z :=
  match n with
  | O => []
  | S n' => word_at data p :: words_from data (p + 1) n'
  end.

(** Bytes the loop reads: whole groups of four words below [hash_end]. *)
Definition hashed_bytes (n : Z) : Z := if n <? 32 then 0 else 32 * (hash_end n / 4).

(** ** Bijectivity of the building blocks *)

Lemma shiftr33_range h : in_u 64 h → in_u 64 (Z.shiftr h 33).
Proof.
  unfold in_u. intros H. rewrite Z.shiftr_div_pow2 by lia.
  split; [apply Z.div_pos; lia | apply Z.div_lt_upper_bound; lia].
Qed.

Lemma lxor_range a b : in_u 64 a → in_u 64 b → in_u 64 (Z.lxor a b).
Proof.
  unfold in_u. intros Ha Hb.
  assert (Hn : 0 ≤ Z.lxor a b) by (apply Z.lxor_nonneg; lia).
  split; [done|].
  assert (L : ∀ x, 0 ≤ x < 2 ^ 64 → Z.log2 x < 64).
  { intros x Hx. destruct (Z.eq_dec x 0) as [->|]; [done|]. apply Z.log2_lt_pow2; lia. }
  pose proof (Z.log2_lxor a b ltac:(lia) ltac:(lia)).
  pose proof (L a Ha). pose proof (L b Hb).
  destruct (Z.eq_dec (Z.lxor a b) 0) as [->|]; [lia|].
  apply Z.log2_lt_pow2; lia.
Qed.

Lemma xorshift33_range h : in_u 64 h → in_u 64 (xorshift33 h).
Proof. intros. apply lxor_range; [done|]. by apply shiftr33_range. Qed.

(** Shifting twice clears a 64-bit value, so the xorshift undoes itself. *)
Lemma xorshift33_involutive h : in_u 64 h → xorshift33 (xorshift33 h) = h.
Proof.
  intros H. unfold xorshift33. rewrite Z.shiftr_lxor, Z.shiftr_shiftr by lia.
  rewrite (Z.shiftr_eq_0 h (33 + 33)).
  - by rewrite Z.lxor_0_r, Z.lxor_assoc, Z.lxor_nilpotent, Z.lxor_0_r.
  - apply H.
  - destruct (Z.eq_dec h 0) as [->|]; [done|].
    assert (Z.log2 h < 64) by (apply Z.log2_lt_pow2; unfold in_u in H; lia). lia.
Qed.

Lemma mul_odd_cancel c cinv h :
  (c * cinv) mod 2 ^ 64 = 1 → in_u 64 h → u64 (u64 (h * c) * cinv) = h.
Proof.
  intros Hc Hh. unfold u64, wrapU.
  rewrite Zmult_mod_idemp_l, <- Z.mul_assoc, <- Zmult_mod_idemp_r, Hc, Z.mul_1_r.
  by apply Z.mod_small.
Qed.

Lemma u64_range h : in_u 64 (u64 h).
Proof. by apply wrapU_range. Qed.

(** The inverse of the finaliser. *)
Definition unfmix64 (h : Z) : Z :=
  let h := xorshift33 h in
  let h := u64 (h * 0x9cb4b2f8129337db) in
  let h := xorshift33 h in
  let h := u64 (h * 0x4f74430c22a54005) in
  xorshift33 h.

#[local] Hint Resolve xorshift33_range u64_range : g2c.

Lemma unfmix64_fmix64 h : in_u 64 h → unfmix64 (fmix64 h) = h.
Proof.
  intros H. unfold unfmix64, fmix64.
  rewrite xorshift33_involutive by auto with g2c.
  rewrite (mul_odd_cancel 0xc4ceb9fe1a85ec53 0x9cb4b2f8129337db); [|done|auto with g2c].
  rewrite xorshift33_involutive by auto with g2c.
  rewrite (mul_odd_cancel 0xff51afd7ed558ccd 0x4f74430c22a54005); [|done|auto with g2c].
  by apply xorshift33_involutive.
Qed.

Lemma fmix64_range h : in_u 64 h → in_u 64 (fmix64 h).
Proof. intros. unfold fmix64. auto 10 with g2c. Qed.

(** The rotation as arithmetic. *)
Lemma rotl31_eq h : in_u 64 h → rotl31 h = (h mod 2 ^ 33) * 2 ^ 31 + h / 2 ^ 33.
Proof.
  intros H. unfold rotl31. rewrite Z.shiftr_div_pow2 by lia.
  assert (E : u64 (Z.shiftl h 31) = Z.shiftl (h mod 2 ^ 33) 31).
  { unfold u64, wrapU. rewrite !Z.shiftl_mul_pow2 by lia.
    replace (2 ^ 64) with (2 ^ 33 * 2 ^ 31) by done.
    by rewrite Z.mul_mod_distr_r by lia. }
  rewrite E, lor_shiftl_add; [done|lia|].
  unfold in_u in H. split; [apply Z.div_pos; lia|].
  apply Z.div_lt_upper_bound; lia.
Qed.

Lemma rotl31_range h : in_u 64 h → in_u 64 (rotl31 h).
Proof.
  intros H. rewrite rotl31_eq by done. unfold in_u in *.
  pose proof (Z.mod_pos_bound h (2 ^ 33) ltac:(lia)).
  assert (0 ≤ h / 2 ^ 33 < 2 ^ 31).
  { split; [apply Z.div_pos; lia | apply Z.div_lt_upper_bound; lia]. }
  lia.
Qed.

Lemma rotl31_inj h1 h2 : in_u 64 h1 → in_u 64 h2 → rotl31 h1 = rotl31 h2 → h1 = h2.
Proof.
  intros H1 H2 E. rewrite !rotl31_eq in E by done. unfold in_u in *.
  assert (B : ∀ h, 0 ≤ h < 2 ^ 64 → 0 ≤ h / 2 ^ 33 < 2 ^ 31).
  { intros h Hh. split; [apply Z.div_pos; lia | apply Z.div_lt_upper_bound; lia]. }
  pose proof (B _ H1). pose proof (B _ H2).
  pose proof (Z.mod_pos_bound h1 (2 ^ 33) ltac:(lia)).
  pose proof (Z.mod_pos_bound h2 (2 ^ 33) ltac:(lia)).
  rewrite (Z.div_mod h1 (2 ^ 33)), (Z.div_mod h2 (2 ^ 33)) by lia. nia.
Qed.

Lemma u64_mul_inj c cinv h1 h2 :
  (c * cinv) mod 2 ^ 64 = 1 → in_u 64 h1 → in_u 64 h2 →
  u64 (h1 * c) = u64 (h2 * c) → h1 = h2.
Proof.
  intros Hc H1 H2 E.
  rewrite <- (mul_odd_cancel c cinv h1), <- (mul_odd_cancel c cinv h2) by done.
  by rewrite E.
Qed.

Lemma u64_add_inj_l a b c : in_u 64 a → in_u 64 b → u64 (a + c) = u64 (b + c) → a = b.
Proof.
  unfold u64, wrapU, in_u. intros Ha Hb E.
  rewrite <- (Z.mod_small a (2 ^ 64)), <- (Z.mod_small b (2 ^ 64)) by done.
  replace a with (a + c - c) by lia. replace b with (b + c - c) by lia.
  by rewrite Zminus_mod, E, <- Zminus_mod.
Qed.

(** [HASH_MUL] is twice an odd number: the product forgets bit 63 of the input
    and nothing else. *)
Lemma mul_HASH_MUL k1 k2 :
  u64 (k1 * HASH_MUL) = u64 (k2 * HASH_MUL) ↔ k1 mod 2 ^ 63 = k2 mod 2 ^ 63.
Proof.
  unfold u64, wrapU.
  assert (F : ∀ k, (k * HASH_MUL) mod 2 ^ 64 = 2 * ((k * 0x615a68d9eaa6a8e1) mod 2 ^ 63)).
  { intros k. rewrite <- Z.mul_mod_distr_l by lia. f_equal.
    unfold HASH_MUL. lia. }
  rewrite !F. split; intros E.
  - assert (E' : (k1 * 0x615a68d9eaa6a8e1) mod 2 ^ 63 = (k2 * 0x615a68d9eaa6a8e1) mod 2 ^ 63) by lia.
    assert (G : ∀ k, k mod 2 ^ 63 = ((k * 0x615a68d9eaa6a8e1) mod 2 ^ 63 * 0xee2223920cc49b21) mod 2 ^ 63).
    { intros k. rewrite Zmult_mod_idemp_l, <- Z.mul_assoc, <- Zmult_mod_idemp_r.
      replace ((0x615a68d9eaa6a8e1 * 0xee2223920cc49b21) mod 2 ^ 63) with 1 by done.
      by rewrite Z.mul_1_r. }
    by rewrite (G k1), (G k2), E'.
  - f_equal. rewrite <- (Zmult_mod_idemp_l k1), <- (Zmult_mod_idemp_l k2). by rewrite E.
Qed.

Definition HASH_ROT_inv : Z := 0xbd9325dff2ad473d.

Lemma lane_step_range h k : in_u 64 (lane_step h k).
Proof. apply u64_range. Qed.

Lemma lane_step_inj_state h1 h2 k :
  in_u 64 h1 → in_u 64 h2 → lane_step h1 k = lane_step h2 k → h1 = h2.
Proof.
  intros H1 H2 E. unfold lane_step in E.
  apply (u64_mul_inj HASH_ROT HASH_ROT_inv) in E;
    [|done|apply rotl31_range, u64_range|apply rotl31_range, u64_range].
  apply rotl31_inj in E; [|apply u64_range|apply u64_range].
  by apply u64_add_inj_l in E.
Qed.

Lemma lane_step_input h k1 k2 :
  in_u 64 h → lane_step h k1 = lane_step h k2 ↔ k1 mod 2 ^ 63 = k2 mod 2 ^ 63.
Proof.
  intros Hh. rewrite <- mul_HASH_MUL. split; intros E.
  - unfold lane_step in E.
    apply (u64_mul_inj HASH_ROT HASH_ROT_inv) in E;
      [|done|apply rotl31_range, u64_range|apply rotl31_range, u64_range].
    apply rotl31_inj in E; [|apply u64_range|apply u64_range].
    rewrite !(Z.add_comm h) in E.
    by apply u64_add_inj_l in E; [|apply u64_range|apply u64_range].
  - unfold lane_step. by rewrite E.
Qed.

Lemma final_round_range r x : in_u 64 (final_round r x).
Proof. apply u64_range. Qed.

Lemma final_round_inj_result r1 r2 x :
  in_u 64 r1 → in_u 64 r2 → in_u 64 x → final_round r1 x = final_round r2 x → r1 = r2.
Proof.
  intros H1 H2 Hx E. unfold final_round in E.
  apply u64_add_inj_l in E; [|apply u64_range|apply u64_range].
  apply (u64_mul_inj HASH_ROT HASH_ROT_inv) in E; [|done|..];
    auto using lxor_range, fmix64_range.
  apply (f_equal (fun z => Z.lxor z (fmix64 x))) in E.
  by rewrite !Z.lxor_assoc, Z.lxor_nilpotent, !Z.lxor_0_r in E.
Qed.

Lemma final_round_inj_lane r x1 x2 :
  in_u 64 r → in_u 64 x1 → in_u 64 x2 → final_round r x1 = final_round r x2 → x1 = x2.
Proof.
  intros Hr H1 H2 E. unfold final_round in E.
  apply u64_add_inj_l in E; [|apply u64_range|apply u64_range].
  apply (u64_mul_inj HASH_ROT HASH_ROT_inv) in E; [|done|..];
    auto using lxor_range, fmix64_range.
  apply (f_equal (fun z => Z.lxor r z)) in E.
  rewrite <- !Z.lxor_assoc, Z.lxor_nilpotent, !Z.lxor_0_l in E.
  by rewrite <- (unfmix64_fmix64 x1), <- (unfmix64_fmix64 x2), E.
Qed.

(** ** The loop over words *)

Lemma length_words_from data p n : length (words_from data p n) = n.
Proof. revert p. induction n as [|n IH]; intros p; simpl; [done|]. by rewrite IH. Qed.

Lemma lookup_words_from data p n i :
  (i < n)%nat → words_from data p n !! i = Some (word_at data (p + Z.of_nat i)).
Proof.
  revert p i. induction n as [|n IH]; intros p i Hi; [lia|].
  destruct i as [|i]; simpl.
  - by rewrite Z.add_0_r.
  - rewrite IH by lia. do 2 f_equal. lia.
Qed.

(** With [end - p] steps of fuel the pointer walk processes exactly the words
    below [end], four at a time. *)
Lemma hash_loop_words fuel data p e st :
  e - p ≤ Z.of_nat fuel →
  hash_loop fuel data p e st = hash_words (words_from data p (Z.to_nat (e - p))) st.
Proof.
  revert p st. induction fuel as [|fuel IH]; intros p st Hf.
  - replace (Z.to_nat (e - p)) with 0%nat by lia. done.
  - simpl. destruct (Z.ltb_spec (p + 3) e) as [Hlt|Hge].
    + rewrite IH by lia.
      replace (Z.to_nat (e - p)) with (S (S (S (S (Z.to_nat (e - (p + 4))))))) by lia.
      simpl. by replace (p + 1 + 1) with (p + 2) by lia;
        replace (p + 2 + 1) with (p + 3) by lia; replace (p + 3 + 1) with (p + 4) by lia.
    + assert (Hn : (Z.to_nat (e - p) ≤ 3)%nat) by lia.
      destruct (Z.to_nat (e - p)) as [|[|[|[|n]]]]; [done..|lia].
Qed.

Definition lanes_ok (st : lanes) : Prop :=
  in_u 64 (lane_a st) ∧ in_u 64 (lane_b st) ∧ in_u 64 (lane_c st) ∧ in_u 64 (lane_d st).

Lemma lanes_step_ok st k0 k1 k2 k3 : lanes_ok (lanes_step st k0 k1 k2 k3).
Proof. repeat split; apply lane_step_range. Qed.

Lemma lanes_init_ok seed : in_u 64 seed → lanes_ok (lanes_init seed).
Proof. intros. repeat split; simpl; try apply u64_range; apply H. Qed.

(** Induction along the loop: four words at a time. *)
Lemma words_ind (P : list Z → Prop) :
  (∀ ws, (length ws < 4)%nat → P ws) →
  (∀ k0 k1 k2 k3 ws, P ws → P (k0 :: k1 :: k2 :: k3 :: ws)) →
  ∀ ws, P ws.
Proof.
  intros Hs Hl ws. remember (length ws) as n eqn:En.
  revert ws En. induction n as [n IH] using lt_wf_ind. intros ws ->.
  destruct ws as [|k0 [|k1 [|k2 [|k3 ws]]]]; try (apply Hs; simpl; lia).
  apply Hl. eapply IH; [|done]. simpl. lia.
Qed.

Definition same_low63 (k1 k2 : Z) : Prop := k1 mod 2 ^ 63 = k2 mod 2 ^ 63.

Lemma hash_words_low63 ws1 ws2 st :
  lanes_ok st → Forall2 same_low63 ws1 ws2 → hash_words ws1 st = hash_words ws2 st.
Proof.
  revert ws2 st. induction ws1 as [ws1 Hs | k0 k1 k2 k3 ws1 IH] using words_ind;
    intros ws2 st Hok HF.
  - pose proof (Forall2_length _ _ _ HF) as HL.
    destruct ws1 as [|? [|? [|? [|]]]], ws2 as [|? [|? [|? [|]]]];
      simpl in *; try lia; done.
  - inversion_clear HF as [|? j0 ? r0 H0 F0]. inversion_clear F0 as [|? j1 ? r1 H1 F1].
    inversion_clear F1 as [|? j2 ? r2 H2 F2]. inversion_clear F2 as [|? j3 ? r3 H3 F3].
    simpl. rewrite (IH r3) by (apply lanes_step_ok || done). f_equal.
    destruct Hok as (? & ? & ? & ?). unfold lanes_step.
    f_equal; by apply lane_step_input.
Qed.

(** Two lane states that differ in exactly one lane. *)
Inductive one_lane : lanes → lanes → Prop :=
  | one_a a a' b c d : a ≠ a' → one_lane (mk_lanes a b c d) (mk_lanes a' b c d)
  | one_b a b b' c d : b ≠ b' → one_lane (mk_lanes a b c d) (mk_lanes a b' c d)
  | one_c a b c c' d : c ≠ c' → one_lane (mk_lanes a b c d) (mk_lanes a b c' d)
  | one_d a b c d d' : d ≠ d' → one_lane (mk_lanes a b c d) (mk_lanes a b c d').

Lemma one_lane_step st1 st2 k0 k1 k2 k3 :
  lanes_ok st1 → lanes_ok st2 → one_lane st1 st2 →
  one_lane (lanes_step st1 k0 k1 k2 k3) (lanes_step st2 k0 k1 k2 k3).
Proof.
  intros (A1 & B1 & C1 & D1) (A2 & B2 & C2 & D2) Hone.
  destruct Hone; unfold lanes_step; simpl in *;
    constructor; intros E; apply lane_step_inj_state in E; auto.
Qed.

Lemma one_lane_words ws st1 st2 :
  lanes_ok st1 → lanes_ok st2 → one_lane st1 st2 →
  one_lane (hash_words ws st1) (hash_words ws st2).
Proof.
  revert st1 st2. induction ws as [ws Hs | k0 k1 k2 k3 ws IH] using words_ind;
    intros st1 st2 H1 H2 H.
  - destruct ws as [|? [|? [|? [|]]]]; simpl in *; try lia; done.
  - simpl. apply IH; auto using lanes_step_ok, one_lane_step.
Qed.

Lemma hash_words_ok ws st : lanes_ok st → lanes_ok (hash_words ws st).
Proof.
  revert st. induction ws as [ws Hs | k0 k1 k2 k3 ws IH] using words_ind; intros st H.
  - destruct ws as [|? [|? [|? [|]]]]; simpl in *; try lia; done.
  - simpl. apply IH, lanes_step_ok.
Qed.

(** One changed word reaches exactly one lane. *)
Lemma one_word_lane ws i k st :
  lanes_ok st → (i < 4 * (length ws / 4))%nat →
  (∀ old, ws !! i = Some old → ¬ same_low63 old k) →
  one_lane (hash_words ws st) (hash_words (<[i := k]> ws) st).
Proof.
  revert i st. induction ws as [ws Hs | k0 k1 k2 k3 ws IH] using words_ind;
    intros i st Hok Hi Hk.
  - rewrite Nat.div_small in Hi by done. lia.
  - assert (HL : (length (k0 :: k1 :: k2 :: k3 :: ws) / 4 = S (length ws / 4))%nat).
    { simpl length. replace (S (S (S (S (length ws))))) with (length ws + 1 * 4)%nat by lia.
      rewrite Nat.div_add by lia. lia. }
    rewrite HL in Hi. destruct Hok as (Ha & Hb & Hc & Hd).
    destruct i as [|[|[|[|i]]]]; simpl; [..|apply IH; [apply lanes_step_ok|lia|apply Hk]];
      (apply one_lane_words; [apply lanes_step_ok..|]);
      unfold lanes_step; constructor; intros E; apply lane_step_input in E; try done;
      by apply (Hk _ eq_refl).
Qed.

(** The four mixing rounds, for any round function injective in each argument. *)
Lemma mix4_one_lane (f : Z → Z → Z) (r : Z) st1 st2 :
  (∀ r x, in_u 64 (f r x)) →
  (∀ r1 r2 x, in_u 64 r1 → in_u 64 r2 → in_u 64 x → f r1 x = f r2 x → r1 = r2) →
  (∀ r x1 x2, in_u 64 r → in_u 64 x1 → in_u 64 x2 → f r x1 = f r x2 → x1 = x2) →
  in_u 64 r → lanes_ok st1 → lanes_ok st2 → one_lane st1 st2 →
  f (f (f (f r (lane_a st1)) (lane_b st1)) (lane_c st1)) (lane_d st1) ≠
  f (f (f (f r (lane_a st2)) (lane_b st2)) (lane_c st2)) (lane_d st2).
Proof.
  intros Hr Hi Hj R (A1 & B1 & C1 & D1) (A2 & B2 & C2 & D2) Hone E.
  destruct Hone as [????? Hn|????? Hn|????? Hn|????? Hn];
    cbn [lane_a lane_b lane_c lane_d] in *; apply Hn;
    repeat (apply Hi in E; [|by auto..]); apply Hj in E; auto.
Qed.

Lemma HASH_XOR_CONST_range : in_u 64 HASH_XOR_CONST.
Proof. done. Qed.

Lemma hash_final_eq st n :
  hash_final st n =
  u64 (final_round (final_round (final_round (final_round HASH_XOR_CONST (lane_a st))
         (lane_b st)) (lane_c st)) (lane_d st) + n).
Proof. done. Qed.

Lemma hash_final_one_lane st1 st2 n :
  lanes_ok st1 → lanes_ok st2 → one_lane st1 st2 → hash_final st1 n ≠ hash_final st2 n.
Proof.
  intros H1 H2 Hone E. rewrite !hash_final_eq in E.
  apply u64_add_inj_l in E; [|apply final_round_range..].
  revert E. apply (mix4_one_lane final_round);
    auto using final_round_range, HASH_XOR_CONST_range.
  - apply final_round_inj_result.
  - apply final_round_inj_lane.
Qed.

(** ** Which bytes the hash reads *)

Lemma hash_end_nonneg n : 32 ≤ n → 0 ≤ hash_end n.
Proof.
  intros H. unfold hash_end. pose proof (Z.div_le_mono 32 n 8 ltac:(lia) H) as Hd.
  change (32 / 8) with 4 in Hd. case_match; lia.
Qed.

Lemma hash_block_words data seed :
  32 ≤ len data →
  hash_block data seed =
  hash_final (hash_words (words_from data 0 (Z.to_nat (hash_end (len data)))) (lanes_init seed))
             (len data).
Proof.
  intros Hn. unfold hash_block. destruct (Z.ltb_spec (len data) 32); [lia|].
  pose proof (hash_end_nonneg _ Hn).
  rewrite hash_loop_words by lia. by rewrite Z.sub_0_r.
Qed.

Lemma word_at_ztake data m i :
  0 ≤ i → 8 * i + 8 ≤ m → word_at (ztake m data) i = word_at data i.
Proof.
  intros Hi Hm. unfold word_at, ztake, zdrop.
  rewrite skipn_firstn_comm, take_take. do 2 f_equal. lia.
Qed.

(** Only the words below the last whole group of four matter. *)
Lemma hash_words_take ws st : hash_words (take (4 * (length ws / 4)) ws) st = hash_words ws st.
Proof.
  revert st. induction ws as [ws Hs | k0 k1 k2 k3 ws IH] using words_ind; intros st.
  - rewrite Nat.div_small by done. simpl.
    destruct ws as [|? [|? [|? [|]]]]; simpl in *; try lia; done.
  - replace (length (k0 :: k1 :: k2 :: k3 :: ws) / 4)%nat with (S (length ws / 4)).
    2:{ simpl length. replace (S (S (S (S (length ws))))) with (length ws + 1 * 4)%nat by lia.
        rewrite Nat.div_add by lia. lia. }
    replace (4 * S (length ws / 4))%nat with (S (S (S (S (4 * (length ws / 4)))))) by lia.
    cbn [take hash_words]. apply IH.
Qed.

Lemma words_from_ext data1 data2 p n :
  (∀ i, p ≤ i < p + Z.of_nat n → word_at data1 i = word_at data2 i) →
  words_from data1 p n = words_from data2 p n.
Proof.
  revert p. induction n as [|n IH]; intros p H; simpl; [done|].
  rewrite H by lia. f_equal. apply IH. intros. apply H. lia.
Qed.

Lemma take_words_from data p n m : (m ≤ n)%nat → take m (words_from data p n) = words_from data p m.
Proof.
  revert p n. induction m as [|m IH]; intros p n H; [done|].
  destruct n as [|n]; [lia|]. simpl. by rewrite IH by lia.
Qed.

(** The hash of a block of at least 32 bytes is determined by its length and
    the words below [hash_end / 4 * 4]. *)
Lemma hash_block_prefix data1 data2 seed :
  32 ≤ len data1 → len data1 = len data2 →
  (∀ i, 0 ≤ i < 4 * (hash_end (len data1) / 4) → word_at data1 i = word_at data2 i) →
  hash_block data1 seed = hash_block data2 seed.
Proof.
  intros Hn He Hw. rewrite !hash_block_words by lia. rewrite <- He.
  pose proof (hash_end_nonneg _ Hn). f_equal.
  rewrite <- (hash_words_take (words_from data1 _ _)), <- (hash_words_take (words_from data2 _ _)).
  rewrite !length_words_from. f_equal.
  assert (D : Z.of_nat (Z.to_nat (hash_end (len data1)) / 4) = hash_end (len data1) / 4).
  { rewrite Nat2Z.inj_div, Z2Nat.id by lia. done. }
  rewrite !take_words_from
    by (pose proof (Nat.Div0.mul_div_le (Z.to_nat (hash_end (len data1))) 4); lia).
  apply words_from_ext. intros i Hi. apply Hw. lia.
Qed.

Lemma hash_block_range data seed : in_u 64 (hash_block data seed).
Proof. unfold hash_block. case_test; apply u64_range. Qed.

(** ** What the hash sees *)

(** C37 (hash_block_detects_word_change): two blocks of the same length that
    differ in a single 64-bit word inside the hashed range, in more than the
    word's top bit, never have the same hash: the incremental scan cannot miss
    such a change. *)
Theorem hash_block_detects_word_change data1 data2 seed i :
  in_u 64 seed → 32 ≤ len data1 → len data1 = len data2 →
  0 ≤ i < 4 * (hash_end (len data1) / 4) →
  (∀ k, 0 ≤ k < hash_end (len data1) → k ≠ i → word_at data1 k = word_at data2 k) →
  ¬ same_low63 (word_at data1 i) (word_at data2 i) →
  hash_block data1 seed ≠ hash_block data2 seed.
Proof.
  intros Hseed Hn He Hi Hsame Hdiff. rewrite !hash_block_words by lia. rewrite <- He.
  pose proof (hash_end_nonneg _ Hn) as H0.
  set (e := hash_end (len data1)) in *.
  assert (Z.of_nat (Z.to_nat e / 4) = e / 4) by (rewrite Nat2Z.inj_div, Z2Nat.id by lia; done).
  assert (i < e) by (pose proof (Z.mul_div_le e 4); lia).
  assert (E : words_from data2 0 (Z.to_nat e) =
              <[Z.to_nat i := word_at data2 i]> (words_from data1 0 (Z.to_nat e))).
  { apply list_eq. intros k. destruct (decide (k < Z.to_nat e)%nat) as [Hk|Hk].
    - rewrite lookup_words_from, Z.add_0_l by done.
      destruct (decide (k = Z.to_nat i)) as [->|Hne].
      + rewrite list_lookup_insert_eq by (rewrite length_words_from; lia).
        do 2 f_equal. lia.
      + rewrite list_lookup_insert_ne, lookup_words_from by lia.
        rewrite Z.add_0_l. f_equal. symmetry. apply Hsame; lia.
    - rewrite !lookup_ge_None_2; [done|..];
        rewrite ?length_insert, length_words_from; lia. }
  rewrite E. apply hash_final_one_lane; [apply hash_words_ok, lanes_init_ok, Hseed..|].
  apply one_word_lane; [by apply lanes_init_ok|rewrite length_words_from; lia|].
  intros old Hold. rewrite lookup_words_from, Z.add_0_l, Z2Nat.id in Hold by lia.
  by injection Hold as <-.
Qed.

(** [hash_block_blind_tail]: the hash of a block depends only on its length
    and its first [hashed_bytes] bytes; a 1 MB block is hashed without its
    last 32 bytes, a 32-byte block without any of its bytes. *)
Theorem hash_block_blind_tail data1 data2 seed :
  len data1 = len data2 →
  ztake (hashed_bytes (len data1)) data1 = ztake (hashed_bytes (len data1)) data2 →
  hash_block data1 seed = hash_block data2 seed ∧
  hashed_bytes BLOCK_SIZE = BLOCK_SIZE - 32 ∧ hashed_bytes 32 = 0.
Proof.
  intros He Ht. split; [|done]. destruct (Z.ltb_spec (len data1) 32) as [Hs|Hl].
  - unfold hash_block. rewrite <- He. by replace (len data1 <? 32) with true by lia.
  - apply hash_block_prefix; [done..|]. intros i Hi.
    unfold hashed_bytes in Ht. replace (len data1 <? 32) with false in Ht by lia.
    rewrite <- (word_at_ztake data1 (32 * (hash_end (len data1) / 4))) by lia.
    rewrite Ht. by apply word_at_ztake; lia.
Qed.

(** [hash_block_blind_top_bits]: [HASH_MUL] is even, so blocks whose words
    agree up to bit 63 collide: the top bit of every eighth byte is never
    hashed. *)
Theorem hash_block_blind_top_bits data1 data2 seed :
  in_u 64 seed → len data1 = len data2 →
  (∀ i, 0 ≤ i < hash_end (len data1) → same_low63 (word_at data1 i) (word_at data2 i)) →
  hash_block data1 seed = hash_block data2 seed.
Proof.
  intros Hseed He Hw. destruct (Z.ltb_spec (len data1) 32) as [Hs|Hl].
  - unfold hash_block. rewrite <- He. by replace (len data1 <? 32) with true by lia.
  - rewrite !hash_block_words by lia. rewrite <- He. f_equal.
    apply hash_words_low63; [by apply lanes_init_ok|].
    apply Forall2_same_length_lookup. rewrite !length_words_from. split; [done|].
    intros k x y Hx Hy.
    assert (k < Z.to_nat (hash_end (len data1)))%nat.
    { apply lookup_lt_Some in Hx. by rewrite length_words_from in Hx. }
    rewrite lookup_words_from in Hx, Hy by done.
    injection Hx as <-. injection Hy as <-. apply Hw. lia.
Qed.

(** ** Witnesses *)

Definition block64 (b : Z) : list Z := b :: replicate 71 0.

Lemma hash_block_detects_word_change_witness :
  hash_block (block64 1) 7 ≠ hash_block (block64 2) 7.
Proof.
  apply (hash_block_detects_word_change (block64 1) (block64 2) 7 0).
  - split; vm_compute; congruence.
  - vm_compute; congruence.
  - reflexivity.
  - split; vm_compute; congruence.
  - intros k Hk Hne. change (hash_end (len (block64 1))) with 5 in Hk.
    assert (k = 1 ∨ k = 2 ∨ k = 3 ∨ k = 4) as [->|[->|[->| ->]]] by lia; reflexivity.
  - vm_compute; congruence.
Defined.

Lemma hash_block_blind_tail_witness :
  hash_block (replicate 32 1) 7 = hash_block (replicate 32 2) 7.
Proof. apply (hash_block_blind_tail (replicate 32 1) (replicate 32 2) 7); reflexivity. Defined.

Lemma hash_block_blind_top_bits_witness :
  hash_block (replicate 7 5 ++ 0 :: replicate 64 9) 7 =
  hash_block (replicate 7 5 ++ 128 :: replicate 64 9) 7.
Proof.
  apply hash_block_blind_top_bits.
  - split; vm_compute; congruence.
  - reflexivity.
  - intros k Hk.
    change (hash_end (len (replicate 7 5 ++ 0 :: replicate 64 9))) with 5 in Hk.
    assert (k = 0 ∨ k = 1 ∨ k = 2 ∨ k = 3 ∨ k = 4) as [->|[->|[->|[->| ->]]]] by lia;
      reflexivity.
Defined.
