(* ===== verification/Msgpack.v ===== *)
(** * The MsgPack encoder (client/msgpack.c)

    [msgpack_writer] is the growing output buffer: [wr_data] are the bytes
    [buf[0..written)], [wr_capacity] the size of the allocation.  The
    allocator is the parameter [realloc_ok]: whether a request of the given
    size succeeds.  [None] is the source's [-1]. *)

From S2P Require Import Prelude Protocol.

Record msgpack_writer := mk_writer {
  wr_data : list Z;
  wr_capacity : Z;
}.

(** [w->written] *)
Definition wr_written (w : msgpack_writer) : Z := len (wr_data w).

(** [while (w->written + need > new_cap) { new_cap *= 2; ... }], with the
    64-bit wrap of the doubling. *)
Fixpoint grow_cap (fuel : nat) (new_cap target : Z) : Z :=
  match fuel with
  | O => new_cap
  | S fuel' =>
      if new_cap <? target then
        let new_cap := u64 (new_cap * 2) in
        if 0x8000000000000000 <? new_cap then target
        else grow_cap fuel' new_cap target
      else new_cap
  end.

#[global] Arguments grow_cap : simpl never.

Section Writer.
Context (realloc_ok : Z → bool).

Definition msgpack_writer_init : msgpack_writer :=
  if realloc_ok MSGPACK_BUF_INITIAL_CAP then mk_writer [] MSGPACK_BUF_INITIAL_CAP
  else mk_writer [] 0.

Definition msgpack_writer_free (w : msgpack_writer) : msgpack_writer := mk_writer [] 0.

Definition msgpack_writer_reset (w : msgpack_writer) : msgpack_writer :=
  mk_writer [] (wr_capacity w).

Definition writer_ensure (w : msgpack_writer) (need : Z) : option msgpack_writer :=
  if need <=? wr_capacity w - wr_written w then Some w
  else
    let new_cap := if wr_capacity w =? 0 then MSGPACK_BUF_INITIAL_CAP
                   else u64 (wr_capacity w * 2) in
    let new_cap := grow_cap 64 new_cap (wr_written w + need) in
    if realloc_ok new_cap then Some (mk_writer (wr_data w) new_cap) else None.

Definition writer_append (w : msgpack_writer) (data : list Z) : option msgpack_writer :=
  w ← writer_ensure w (len data);
  Some (mk_writer (wr_data w ++ data) (wr_capacity w)).

Definition msgpack_write_int32 (w : msgpack_writer) (val : Z) : option msgpack_writer :=
  if (0 <=? val) && (val <=? 127) then writer_append w [u8 val]
  else if (-32 <=? val) && (val <? 0) then writer_append w [u8 (Z.land val 0xff)]
  else if (-128 <=? val) && (val <=? 127) then writer_append w [MSGPACK_INT8; u8 val]
  else if (-32768 <=? val) && (val <=? 32767) then
    writer_append w [MSGPACK_INT16; u8 (Z.shiftr val 8); u8 (Z.land val 0xff)]
  else
    writer_append w [MSGPACK_INT32; u8 (Z.shiftr val 24); u8 (Z.shiftr val 16);
                     u8 (Z.shiftr val 8); u8 (Z.land val 0xff)].

Definition msgpack_write_int64 (w : msgpack_writer) (val : Z) : option msgpack_writer :=
  let v := u64 val in
  writer_append w [MSGPACK_INT64;
                   u8 (Z.shiftr v 56); u8 (Z.shiftr v 48); u8 (Z.shiftr v 40);
                   u8 (Z.shiftr v 32); u8 (Z.shiftr v 24); u8 (Z.shiftr v 16);
                   u8 (Z.shiftr v 8); u8 (Z.land v 0xff)].

Definition msgpack_write_bin (w : msgpack_writer) (data : list Z) : option msgpack_writer :=
  let n := len data in
  w ← (if n <? 256 then writer_append w [MSGPACK_BIN8; u8 n]
       else if n <? 65536 then
         writer_append w [MSGPACK_BIN16; u8 (Z.shiftr n 8); u8 (Z.land n 0xff)]
       else
         writer_append w [MSGPACK_BIN32; u8 (Z.shiftr n 24); u8 (Z.shiftr n 16);
                          u8 (Z.shiftr n 8); u8 (Z.land n 0xff)]);
  writer_append w data.

Definition msgpack_encode_block (w : msgpack_writer) (devno offset : Z) (data : list Z)
    : option msgpack_writer :=
  let w := mk_writer [] (wr_capacity w) in
  w ← writer_append w [MSGPACK_FIXMAP_3];
  w ← writer_append w [0x00];
  w ← msgpack_write_int32 w devno;
  w ← writer_append w [0x01];
  w ← msgpack_write_int64 w offset;
  w ← writer_append w [0x02];
  msgpack_write_bin w data.

End Writer.

(** ** What the encoder produces *)

Definition int32_encoding (val : Z) : list Z :=
  if (-32 <=? val) && (val <=? 127) then [u8 val]
  else if (-128 <=? val) && (val <=? 127) then MSGPACK_INT8 :: be_bytes 1 val
  else if (-32768 <=? val) && (val <=? 32767) then MSGPACK_INT16 :: be_bytes 2 val
  else MSGPACK_INT32 :: be_bytes 4 val.

Definition int64_encoding (val : Z) : list Z := MSGPACK_INT64 :: be_bytes 8 val.

Definition bin_header (n : Z) : list Z :=
  if n <? 256 then MSGPACK_BIN8 :: be_bytes 1 n
  else if n <? 65536 then MSGPACK_BIN16 :: be_bytes 2 n
  else MSGPACK_BIN32 :: be_bytes 4 n.

Definition block_encoding (devno offset : Z) (data : list Z) : list Z :=
  [MSGPACK_FIXMAP_3; 0] ++ int32_encoding devno ++ [1] ++ int64_encoding offset ++
  [2] ++ bin_header (len data) ++ data.

(** The writer's invariant: the contents fit the allocation. *)
Definition writer_ok (w : msgpack_writer) : Prop :=
  wr_written w ≤ wr_capacity w ≤ 2 ^ 62.

(** ** The buffer grows to what is asked *)

Lemma grow_cap_ge fuel c target :
  1 ≤ c ≤ 2 ^ 63 → target ≤ 2 ^ 63 → target ≤ c * 2 ^ Z.of_nat fuel →
  target ≤ grow_cap fuel c target ≤ Z.max c (2 * target).
Proof.
  revert c. induction fuel as [|fuel IH]; intros c Hc Ht Hf; unfold grow_cap; fold grow_cap; [change (2 ^ Z.of_nat 0) with 1 in Hf; lia|].
  destruct (Z.ltb_spec c target) as [Hlt|Hge]; [|lia].
  unfold u64, wrapU.
  destruct (Z.eq_dec c (2 ^ 63)) as [->|Hne]; [lia|].
  rewrite Z.mod_small by lia.
  destruct (Z.ltb_spec 0x8000000000000000 (c * 2)); [lia|].
  rewrite Nat2Z.inj_succ, Z.pow_succ_r in Hf by lia.
  specialize (IH (c * 2) ltac:(lia) Ht ltac:(lia)). lia.
Qed.

(** The first candidate: twice the old capacity, or 8 KB. *)
Lemma first_cap w :
  wr_capacity w ≤ 2 ^ 62 → 0 ≤ wr_capacity w →
  let c0 := if wr_capacity w =? 0 then MSGPACK_BUF_INITIAL_CAP else u64 (wr_capacity w * 2) in
  1 ≤ c0 ≤ 2 ^ 63 ∧ c0 ≤ Z.max 8192 (2 * wr_capacity w).
Proof.
  intros Hc H0. unfold MSGPACK_BUF_INITIAL_CAP, u64, wrapU.
  destruct (Z.eqb_spec (wr_capacity w) 0) as [E|E]; simpl; [lia|].
  rewrite Z.mod_small; lia.
Qed.

Lemma writer_ensure_spec ra w need w' :
  writer_ok w → 0 ≤ need → wr_written w + need ≤ 2 ^ 61 →
  writer_ensure ra w need = Some w' →
  wr_data w' = wr_data w ∧ writer_ok w' ∧ wr_written w + need ≤ wr_capacity w'.
Proof.
  intros [Hw Hc] Hn Hb E. unfold writer_ensure in E.
  assert (H0 : 0 ≤ wr_written w) by (unfold wr_written; auto with g2c).
  destruct (Z.leb_spec need (wr_capacity w - wr_written w)) as [Hle|Hgt].
  { injection E as <-. split; [done|]. unfold writer_ok. lia. }
  destruct (first_cap w Hc ltac:(lia)) as [H1 H2].
  pose proof (grow_cap_ge 64 _ (wr_written w + need) H1 ltac:(lia)) as Hg.
  cbv zeta in *. set (c := grow_cap _ _ _) in *. clearbody c.
  set (c0 := if wr_capacity w =? 0 then _ else _) in *. clearbody c0.
  assert (Hg' : wr_written w + need ≤ c ≤ Z.max c0 (2 * (wr_written w + need))).
  { apply Hg. change (2 ^ Z.of_nat 64) with (2 ^ 61 * 8). lia. }
  clear Hg. destruct (ra c); [|done]. injection E as <-.
  change (2 ^ 61) with 2305843009213693952 in *. change (2 ^ 62) with 4611686018427387904 in *.
  unfold writer_ok, wr_written in *. cbn [wr_data wr_capacity].
  split; [done|]. lia.
Qed.

Lemma writer_append_total ra w data :
  (∀ n, ra n = true) → ∃ w', writer_append ra w data = Some w'.
Proof.
  intros Hra. unfold writer_append, writer_ensure.
  case_test; simpl; [eauto|]. rewrite Hra. simpl. eauto.
Qed.

(** Appending within the bounds adds exactly the bytes and keeps the invariant. *)
Lemma writer_append_spec ra w data w' :
  writer_ok w → wr_written w + len data ≤ 2 ^ 61 →
  writer_append ra w data = Some w' →
  wr_data w' = wr_data w ++ data ∧ writer_ok w'.
Proof.
  intros Hw Hb E. unfold writer_append in E.
  destruct (writer_ensure ra w (len data)) as [w1|] eqn:E1; [|done].
  injection E as <-.
  destruct (writer_ensure_spec _ _ _ _ Hw (len_nonneg data) Hb E1) as (H1 & H2 & H3).
  split; [by rewrite <- H1|]. unfold writer_ok, wr_written in *. simpl.
  rewrite len_app. rewrite H1 in *. lia.
Qed.

Lemma wrapU_shiftr_u8 v k : 0 ≤ k → k ≤ 56 → u8 (Z.shiftr (u64 v) k) = u8 (Z.shiftr v k).
Proof.
  intros H0 H1. unfold u8, u64, wrapU. rewrite !Z.shiftr_div_pow2 by lia.
  replace (2 ^ 64) with (2 ^ k * (2 ^ 8 * 2 ^ (56 - k))).
  2:{ rewrite <- !Z.pow_add_r by lia. f_equal. lia. }
  rewrite Z.rem_mul_r by lia. rewrite Z.add_comm, Z.mul_comm, Z.div_add_l by lia.
  rewrite (Z.div_small (v mod 2 ^ k)) by (apply Z.mod_pos_bound; lia).
  rewrite Z.add_0_r, Z.rem_mul_r by lia.
  by rewrite (Z.mul_comm (2 ^ 8)), Z.mod_add, Z.mod_mod by lia.
Qed.

Lemma u8_u64 v : u8 (u64 v) = u8 v.
Proof. apply (wrapU_shiftr_u8 v 0); lia. Qed.

(** The shift-and-mask sequences of the source are big-endian images. *)
Lemma be_bytes_1 v : be_bytes 1 v = [u8 v].
Proof. done. Qed.

Lemma be_bytes_2 v : be_bytes 2 v = [u8 (Z.shiftr v 8); u8 v].
Proof. done. Qed.

Lemma be_bytes_4 v :
  be_bytes 4 v = [u8 (Z.shiftr v 24); u8 (Z.shiftr v 16); u8 (Z.shiftr v 8); u8 v].
Proof. unfold be_bytes. simpl. by rewrite !Z.shiftr_shiftr by lia. Qed.

Lemma be_bytes_8 v :
  be_bytes 8 v = [u8 (Z.shiftr v 56); u8 (Z.shiftr v 48); u8 (Z.shiftr v 40);
                  u8 (Z.shiftr v 32); u8 (Z.shiftr v 24); u8 (Z.shiftr v 16);
                  u8 (Z.shiftr v 8); u8 v].
Proof. unfold be_bytes. simpl. by rewrite !Z.shiftr_shiftr by lia. Qed.

Lemma msgpack_write_int32_eq ra w val :
  msgpack_write_int32 ra w val = writer_append ra w (int32_encoding val).
Proof.
  unfold msgpack_write_int32, int32_encoding.
  rewrite !u8_land_255, be_bytes_1, be_bytes_2, be_bytes_4.
  repeat case_test; done || lia.
Qed.

Lemma msgpack_write_int64_eq ra w val :
  msgpack_write_int64 ra w val = writer_append ra w (int64_encoding val).
Proof.
  unfold msgpack_write_int64, int64_encoding. cbv zeta.
  by rewrite be_bytes_8, u8_land_255, u8_u64, !wrapU_shiftr_u8 by lia.
Qed.

Lemma msgpack_write_bin_eq ra w data :
  msgpack_write_bin ra w data =
  (w ← writer_append ra w (bin_header (len data)); writer_append ra w data).
Proof.
  unfold msgpack_write_bin, bin_header. cbv zeta.
  rewrite u8_land_255, be_bytes_1, be_bytes_2, be_bytes_4. by repeat case_test.
Qed.

Lemma len_int32_encoding v : 1 ≤ len (int32_encoding v) ≤ 5.
Proof. unfold int32_encoding. repeat case_test; len_norm; lia. Qed.

Lemma len_int64_encoding v : len (int64_encoding v) = 9.
Proof. unfold int64_encoding. by len_norm. Qed.

Lemma len_bin_header n : 2 ≤ len (bin_header n) ≤ 5.
Proof. unfold bin_header. repeat case_test; len_norm; lia. Qed.

Lemma len_block_encoding d o data :
  16 ≤ len (block_encoding d o data) - len data ≤ 23.
Proof.
  unfold block_encoding. pose proof (len_int32_encoding d).
  pose proof (len_bin_header (len data)). len_norm.
  rewrite len_int64_encoding. lia.
Qed.

Lemma tagged_ok t l : byte_ok t → bytes_ok l → bytes_ok (t :: l).
Proof. by constructor. Qed.

Lemma int32_encoding_ok v : bytes_ok (int32_encoding v).
Proof.
  unfold int32_encoding. repeat case_test; (apply tagged_ok; [|auto with g2c]);
    auto with g2c; unfold byte_ok, MSGPACK_INT8, MSGPACK_INT16, MSGPACK_INT32; lia.
Qed.

Lemma int64_encoding_ok v : bytes_ok (int64_encoding v).
Proof. apply tagged_ok; [unfold byte_ok, MSGPACK_INT64; lia | auto with g2c]. Qed.

Lemma bin_header_ok n : bytes_ok (bin_header n).
Proof.
  unfold bin_header. repeat case_test; (apply tagged_ok; [|auto with g2c]);
    unfold byte_ok, MSGPACK_BIN8, MSGPACK_BIN16, MSGPACK_BIN32; lia.
Qed.

Lemma block_encoding_ok d o data : bytes_ok data → bytes_ok (block_encoding d o data).
Proof.
  intros Hd. unfold block_encoding. rewrite !Forall_app.
  repeat split; auto using int32_encoding_ok, int64_encoding_ok, bin_header_ok;
    repeat (apply tagged_ok; [unfold byte_ok, MSGPACK_FIXMAP_3; lia|]); apply Forall_nil_2.
Qed.

(** A chain of appends accumulates; [appends] runs it. *)
Definition appends (ra : Z → bool) (w : msgpack_writer) (ls : list (list Z))
    : option msgpack_writer :=
  foldl (λ ow l, w ← ow; writer_append ra w l) (Some w) ls.

Lemma foldl_None ra ls :
  foldl (λ ow l, w ← ow; writer_append ra w l) None ls = None.
Proof. by induction ls. Qed.

Lemma appends_spec ra ls w w' :
  writer_ok w → wr_written w + len (concat ls) ≤ 2 ^ 61 →
  appends ra w ls = Some w' → wr_data w' = wr_data w ++ concat ls ∧ writer_ok w'.
Proof.
  unfold appends. revert w. induction ls as [|l ls IH]; intros w Hw Hb E; simpl in *.
  - injection E as <-. by rewrite app_nil_r.
  - rewrite len_app in Hb.
    destruct (writer_append ra w l) as [w1|] eqn:E1; [|by rewrite foldl_None in E].
    pose proof (len_nonneg (concat ls)).
    apply writer_append_spec in E1 as [H1 H2]; [|done|lia].
    apply IH in E as [H3 H4]; [|done|].
    + split; [|done]. by rewrite H3, H1, <- app_assoc.
    + unfold wr_written in *. rewrite H1, len_app. lia.
Qed.

Lemma appends_total ra ls w : (∀ n, ra n = true) → ∃ w', appends ra w ls = Some w'.
Proof.
  intros Hra. unfold appends. revert w. induction ls as [|l ls IH]; intros w; simpl; [eauto|].
  destruct (writer_append_total ra w l Hra) as [w1 ->]. apply IH.
Qed.

(** The encoder is the chain of appends of the message's pieces. *)
Lemma msgpack_encode_block_eq ra w d o data :
  msgpack_encode_block ra w d o data =
  appends ra (msgpack_writer_reset w)
    [[MSGPACK_FIXMAP_3]; [0]; int32_encoding d; [1]; int64_encoding o; [2];
     bin_header (len data); data].
Proof.
  unfold msgpack_encode_block, appends, msgpack_writer_reset. cbn [foldl].
  cbn [mbind option_bind].
  destruct (writer_append ra _ [MSGPACK_FIXMAP_3]) as [w1|]; [|done]. cbn [mbind option_bind].
  destruct (writer_append ra w1 [0]) as [w2|]; [|done]. cbn [mbind option_bind].
  rewrite msgpack_write_int32_eq.
  destruct (writer_append ra w2 _) as [w3|]; [|done]. cbn [mbind option_bind].
  destruct (writer_append ra w3 _) as [w4|]; [|done]. cbn [mbind option_bind].
  rewrite msgpack_write_int64_eq.
  destruct (writer_append ra w4 _) as [w5|]; [|done]. cbn [mbind option_bind].
  destruct (writer_append ra w5 _) as [w6|]; [|done]. cbn [mbind option_bind].
  by rewrite msgpack_write_bin_eq.
Qed.

Lemma concat_pieces d o data :
  concat [[MSGPACK_FIXMAP_3]; [0]; int32_encoding d; [1]; int64_encoding o; [2];
          bin_header (len data); data] = block_encoding d o data.
Proof. unfold block_encoding. simpl. by rewrite app_nil_r. Qed.

(** A successful encoding leaves exactly the message in the buffer. *)
Lemma encode_block_data ra w d o data w' :
  wr_capacity w ≤ 2 ^ 62 → 0 ≤ wr_capacity w → len data < 2 ^ 32 →
  msgpack_encode_block ra w d o data = Some w' →
  wr_data w' = block_encoding d o data ∧ writer_ok w'.
Proof.
  intros Hc H0 Hl E. rewrite msgpack_encode_block_eq in E.
  pose proof (len_block_encoding d o data).
  apply appends_spec in E as [H1 H2].
  - split; [|done]. by rewrite H1, concat_pieces.
  - unfold writer_ok, wr_written, msgpack_writer_reset. cbn [wr_data wr_capacity].
    rewrite len_nil. lia.
  - rewrite concat_pieces. unfold wr_written. cbn [wr_data msgpack_writer_reset].
    rewrite len_nil. change (2 ^ 32) with 4294967296 in Hl.
    change (2 ^ 61) with 2305843009213693952. lia.
Qed.

Lemma encode_block_total ra w d o data :
  (∀ n, ra n = true) → ∃ w', msgpack_encode_block ra w d o data = Some w'.
Proof. intros Hra. rewrite msgpack_encode_block_eq. by apply appends_total. Qed.

(** ** Properties *)

(** C25 (msgpack_encode_block_correct): with memory available the encoder always
    returns 0, whatever the previous state of its buffer; what it leaves in
    the buffer is exactly the message of docs/protocol.md, at most 23 bytes
    longer than the block, and the buffer invariant is kept. *)
Theorem msgpack_encode_block_correct ra w devno offset data :
  (∀ n, ra n = true) → 0 ≤ wr_capacity w ≤ 2 ^ 62 → len data < 2 ^ 32 →
  ∃ w', msgpack_encode_block ra w devno offset data = Some w' ∧
        wr_data w' = block_encoding devno offset data ∧ writer_ok w' ∧
        wr_written w' ≤ len data + 23.
Proof.
  intros Hra Hc Hl.
  destruct (encode_block_total ra w devno offset data Hra) as [w' E].
  exists w'. split; [done|].
  apply encode_block_data in E as [H1 H2]; [|lia..].
  split; [done|]. split; [done|]. unfold wr_written. rewrite H1.
  pose proof (len_block_encoding devno offset data). lia.
Qed.

Lemma msgpack_encode_block_correct_witness :
  ∃ w', msgpack_encode_block alloc_always (msgpack_writer_init alloc_always) 300 4096 [7; 8; 9]
          = Some w' ∧
        wr_data w' = block_encoding 300 4096 [7; 8; 9] ∧ writer_ok w' ∧
        wr_written w' ≤ len [7; 8; 9] + 23.
Proof.
  apply msgpack_encode_block_correct.
  - reflexivity.
  - vm_compute; split; congruence.
  - vm_compute; reflexivity.
Defined.
