(* ===== verification/Net.v ===== *)
(** * Sockets

    A socket is what it has transmitted so far, and two scripts: what the
    kernel answers to the successive [send] calls and to the successive
    [recv] calls.  Quantifying over the scripts covers short writes, split and
    coalesced reads, would-block, interrupts, resets and orderly shutdown.
    When the send script is exhausted the connection is dead (every further
    [send] fails); when the receive script is exhausted nothing has arrived
    (every further [recv] would block). *)

From S2P Require Import Prelude.

Inductive send_ev :=
  | SendRoom (n : Z)     (** the kernel accepts up to [n] bytes *)
  | SendAgain            (** -1 with EAGAIN / EWOULDBLOCK *)
  | SendIntr             (** -1 with EINTR *)
  | SendFail.            (** -1 with any other errno *)

Inductive recv_ev :=
  | RecvData (bs : list Z)  (** these bytes are available *)
  | RecvAgain               (** -1 with EAGAIN / EWOULDBLOCK *)
  | RecvFail.               (** -1 with any other errno *)

Record sock := mk_sock {
  sk_out : list Z;
  sk_send : list send_ev;
  sk_in : list recv_ev;
}.

Definition fresh_sock : sock := mk_sock [] [] [].

(** The result of one [recv]: [RcvBytes []] is the return value 0. *)
Inductive recv_res := RcvBytes (bs : list Z) | RcvAgain | RcvErr.

(** [recv(fd, buf, cap, 0)] on a non-blocking socket. *)
Definition sys_recv (cap : Z) (evs : list recv_ev) : recv_res * list recv_ev :=
  match evs with
  | [] => (RcvAgain, [])
  | RecvData bs :: r =>
      if cap <? len bs then (RcvBytes (ztake cap bs), RecvData (zdrop cap bs) :: r)
      else (RcvBytes bs, r)
  | RecvAgain :: r => (RcvAgain, r)
  | RecvFail :: r => (RcvErr, r)
  end.

(** The result of one [send] of a non-empty buffer. *)
Inductive send_res := SndBytes (n : Z) | SndAgain | SndIntr | SndErr.

Definition sys_send (size : Z) (evs : list send_ev) : send_res * list send_ev :=
  match evs with
  | [] => (SndErr, [])
  | SendRoom n :: r => (SndBytes (Z.min (Z.max 0 n) size), r)
  | SendAgain :: r => (SndAgain, r)
  | SendIntr :: r => (SndIntr, r)
  | SendFail :: r => (SndErr, r)
  end.

(** The bytes a receive script delivers. *)
Fixpoint script_bytes (evs : list recv_ev) : list Z :=
  match evs with
  | RecvData bs :: r => bs ++ script_bytes r
  | _ :: r => script_bytes r
  | [] => []
  end.
