(* ===== verification/Zstd.v ===== *)
(** * The Zstandard library, as the code uses it

    libzstd is a dependency, not part of the repository: its three entry
    points are the operations of the class [Zstd] and what the code relies on
    are the laws of [ZstdOk], each a statement of zstd.h.  [None] is a result
    for which [ZSTD_isError] holds (for the content size: ERROR or UNKNOWN).
    [stored_zstd] is a codec satisfying the laws, used by the witnesses. *)

From S2P Require Import Prelude.

Class Zstd := {
  ZSTD_compress : Z → list Z → Z → option (list Z);        (** dst capacity, src, level *)
  ZSTD_getFrameContentSize : list Z → option Z;
  ZSTD_decompress : Z → list Z → option (list Z);          (** dst capacity, src *)
}.

(** [ZSTD_compressBound] of zstd.h. *)
Definition zstd_compressBound (n : Z) : Z :=
  n + n / 256 + (if n <? 131072 then (131072 - n) / 2048 else 0).

Class ZstdOk (Z0 : Zstd) := {
  (** compression succeeds when the destination has the documented bound *)
  zstd_compress_total cap src level :
    bytes_ok src → zstd_compressBound (len src) ≤ cap →
    ∃ c, ZSTD_compress cap src level = Some c;
  (** the compressed frame is non-empty and fits the destination *)
  zstd_compress_fits cap src level c :
    bytes_ok src → ZSTD_compress cap src level = Some c →
    0 < len c ≤ cap ∧ bytes_ok c;
  (** a one-pass frame records its content size *)
  zstd_content_size cap src level c :
    bytes_ok src → ZSTD_compress cap src level = Some c →
    ZSTD_getFrameContentSize c = Some (len src);
  (** decompression inverts compression, in a destination of that size *)
  zstd_decompress_compress cap src level c :
    bytes_ok src → ZSTD_compress cap src level = Some c →
    ZSTD_decompress (len src) c = Some src;
  (** decompression never writes past its destination *)
  zstd_decompress_fits cap c d :
    bytes_ok c → ZSTD_decompress cap c = Some d → len d ≤ cap ∧ bytes_ok d;
}.

(** A codec that stores: one marker byte, then the source. *)
#[export] Instance stored_zstd : Zstd := {
  ZSTD_compress := λ cap src _, if len src + 1 <=? cap then Some (0x28 :: src) else None;
  ZSTD_getFrameContentSize := λ c, match c with 0x28 :: s => Some (len s) | _ => None end;
  ZSTD_decompress := λ cap c,
    match c with 0x28 :: s => if len s <=? cap then Some s else None | _ => None end;
}.

Lemma compressBound_gt n : 0 ≤ n → n + 1 ≤ zstd_compressBound n.
Proof.
  intros Hn. unfold zstd_compressBound.
  destruct (Z.ltb_spec n 131072) as [H|H].
  - destruct (Z.leb_spec 256 n).
    + pose proof (Z.div_le_mono 256 n 256 ltac:(lia) ltac:(lia)).
      pose proof (Z.div_pos (131072 - n) 2048 ltac:(lia) ltac:(lia)).
      rewrite Z.div_same in * by lia. lia.
    + pose proof (Z.div_le_mono 2048 (131072 - n) 2048 ltac:(lia) ltac:(lia)).
      pose proof (Z.div_pos n 256 ltac:(lia) ltac:(lia)).
      rewrite Z.div_same in * by lia. lia.
  - pose proof (Z.div_le_mono 256 n 256 ltac:(lia) ltac:(lia)).
    rewrite Z.div_same in * by lia. lia.
Qed.

Lemma stored_compress_inv cap src level c :
  ZSTD_compress (Zstd := stored_zstd) cap src level = Some c →
  c = 0x28 :: src ∧ len src + 1 ≤ cap.
Proof. simpl. case_test; [|done]. intros [= <-]. done. Qed.

#[export] Instance stored_zstd_ok : ZstdOk stored_zstd.
Proof.
  constructor.
  - intros cap src level _ Hc. simpl.
    pose proof (compressBound_gt (len src) (len_nonneg _)).
    replace (len src + 1 <=? cap) with true by lia. eauto.
  - intros cap src level c Hb [-> Hc]%stored_compress_inv.
    rewrite len_cons. pose proof (len_nonneg src).
    split; [lia|]. constructor; [unfold byte_ok; lia|done].
  - by intros cap src level c Hb [-> Hc]%stored_compress_inv.
  - intros cap src level c Hb [-> Hc]%stored_compress_inv. simpl.
    by rewrite Z.leb_refl.
  - intros cap c d Hb. simpl. repeat case_match; try done.
    intros [= <-]. bool_to_prop. split; [lia|]. by apply Forall_cons in Hb as [].
Qed.
