(* ===== verification/Wire.v ===== *)
(** * Sending frames (client/wire.c)

    MsgPack message -> Zstd -> "abc" magic -> 4-byte big-endian length ->
    [send].  Every function returns the source's return code and the socket
    after the call. *)

From S2P Require Import Prelude Protocol Net Zstd.

(** [ZSTD_COMPRESS_BOUND] of wire.h *)
Definition ZSTD_COMPRESS_BOUND (src_size : Z) : Z := src_size + src_size / 8 + 64.

(** The 4 bytes of [host_to_be32((uint32_t)v)]. *)
Definition host_to_be32 (v : Z) : list Z := be_bytes 4 (u32 v).

(** The loop of [send_all]: [data] is what is left to send. *)
Fixpoint send_all_loop (evs : list send_ev) (data out : list Z)
    : Z * list Z * list send_ev :=
  match data with
  | [] => (0, out, evs)
  | _ =>
      match evs with
      | [] => (-1, out, [])
      | ev :: r =>
          match fst (sys_send (len data) [ev]) with
          | SndAgain => send_all_loop r data out
          | SndIntr | SndErr => (-1, out, r)
          | SndBytes n =>
              if n =? 0 then (-1, out, r)
              else send_all_loop r (zdrop n data) (out ++ ztake n data)
          end
      end
  end.

Definition send_all (fd : sock) (data : list Z) : Z * sock :=
  let '(rc, out, evs) := send_all_loop (sk_send fd) data (sk_out fd) in
  (rc, mk_sock out evs (sk_in fd)).

Section WireSend.
Context `{Zstd}.

Definition wire_send (fd : sock) (msg_data : list Z) (zstd_level scratch_cap : Z) : Z * sock :=
  let zstd_bound := ZSTD_COMPRESS_BOUND (len msg_data) in
  if scratch_cap <? zstd_bound + FRAME_MAGIC_LEN + TCP_FRAME_HEADER_SIZE then (-1, fd)
  else
    match ZSTD_compress zstd_bound msg_data zstd_level with
    | None => (-1, fd)
    | Some compressed =>
        let payload_len := FRAME_MAGIC_LEN + len compressed in
        send_all fd (host_to_be32 payload_len ++
                     [FRAME_MAGIC_B0; FRAME_MAGIC_B1; FRAME_MAGIC_B2] ++ compressed)
    end.

Definition wire_send_control (fd : sock) (str : list Z) (n : Z) : Z * sock :=
  let '(rc, fd) := send_all fd (host_to_be32 n) in
  if negb (rc =? 0) then (-1, fd)
  else
    let '(rc, fd) := send_all fd (ztake n str) in
    if negb (rc =? 0) then (-1, fd) else (0, fd).

End WireSend.

(** ** The frames that reach the stream *)

Definition data_frame (compressed : list Z) : list Z :=
  be_bytes 4 (FRAME_MAGIC_LEN + len compressed) ++ FRAME_MAGIC ++ compressed.

Definition control_frame (payload : list Z) : list Z :=
  be_bytes 4 (len payload) ++ payload.

(** ** [send_all] transmits all of its data or a strict prefix *)

Lemma send_all_loop_spec evs data out rc out' evs' :
  send_all_loop evs data out = (rc, out', evs') →
  (rc = 0 ∧ out' = out ++ data) ∨
  (rc = -1 ∧ ∃ sent rest, out' = out ++ sent ∧ data = sent ++ rest ∧ rest ≠ []).
Proof.
  revert data out. induction evs as [|ev evs IH]; intros data out.
  - destruct data as [|b data]; simpl; intros [= <- <- <-].
    + left. by rewrite app_nil_r.
    + right. split; [done|]. exists [], (b :: data). by rewrite app_nil_r.
  - destruct data as [|b data].
    { simpl. intros [= <- <- <-]. left. by rewrite app_nil_r. }
    cbn [send_all_loop sys_send fst].
    destruct ev as [n| | |]; cbn [fst].
    + set (k := Z.min (Z.max 0 n) (len (b :: data))).
      destruct (Z.eqb_spec k 0) as [E|E].
      * intros [= <- <- <-]. right. split; [done|].
        exists [], (b :: data). by rewrite app_nil_r.
      * intros Hl. apply IH in Hl as [[-> ->]|[-> (sent & rest & -> & Hd & Hr)]].
        -- left. split; [done|]. by rewrite <- app_assoc, ztake_zdrop.
        -- right. split; [done|]. exists (ztake k (b :: data) ++ sent), rest.
           rewrite <- !app_assoc, <- Hd, ztake_zdrop. done.
    + apply IH.
    + intros [= <- <- <-]. right. split; [done|].
      exists [], (b :: data). by rewrite app_nil_r.
    + intros [= <- <- <-]. right. split; [done|].
      exists [], (b :: data). by rewrite app_nil_r.
Qed.

Lemma send_all_spec fd data rc fd' :
  send_all fd data = (rc, fd') →
  sk_in fd' = sk_in fd ∧
  ((rc = 0 ∧ sk_out fd' = sk_out fd ++ data) ∨
   (rc = -1 ∧ ∃ sent rest, sk_out fd' = sk_out fd ++ sent ∧ data = sent ++ rest ∧ rest ≠ [])).
Proof.
  unfold send_all.
  destruct (send_all_loop (sk_send fd) data (sk_out fd)) as [[rc0 out] evs] eqn:E.
  intros [= <- <-]. split; [done|]. by apply send_all_loop_spec in E.
Qed.

(** Room the kernel grants before the first error. *)
Fixpoint granted (evs : list send_ev) : Z :=
  match evs with
  | SendRoom n :: r => if n <=? 0 then 0 else n + granted r
  | SendAgain :: r => granted r
  | _ => 0
  end.

Lemma granted_nonneg evs : 0 ≤ granted evs.
Proof. induction evs as [|[n| | |] evs IH]; simpl; try lia. case_test; lia. Qed.

(** Enough room, however fragmented and however often the socket would block,
    and the loop delivers everything. *)
Lemma send_all_loop_delivers evs data out :
  len data ≤ granted evs → ∃ evs', send_all_loop evs data out = (0, out ++ data, evs').
Proof.
  revert data out. induction evs as [|ev evs IH]; intros data out Hg.
  - destruct data as [|b data].
    + exists []. simpl. by rewrite app_nil_r.
    + simpl in Hg. rewrite len_cons in Hg. pose proof (len_nonneg data). lia.
  - destruct data as [|b data]; [eexists; simpl; by rewrite app_nil_r|].
    cbn [send_all_loop sys_send fst]. destruct ev as [n| | |]; cbn [fst].
    + cbn [granted] in Hg. pose proof (len_nonneg data). rewrite len_cons in Hg.
      destruct (Z.leb_spec n 0); [lia|].
      set (k := Z.min (Z.max 0 n) (len (b :: data))).
      assert (Hk : 0 < k) by (unfold k; rewrite len_cons; lia).
      destruct (Z.eqb_spec k 0); [lia|].
      destruct (IH (zdrop k (b :: data)) (out ++ ztake k (b :: data))) as [evs' He].
      { rewrite len_zdrop, len_cons. unfold k. rewrite len_cons.
        pose proof (granted_nonneg evs). lia. }
      exists evs'. by rewrite He, <- app_assoc, ztake_zdrop.
    + cbn [granted] in Hg. by apply IH.
    + simpl in Hg. rewrite len_cons in Hg. pose proof (len_nonneg data). lia.
    + simpl in Hg. rewrite len_cons in Hg. pose proof (len_nonneg data). lia.
Qed.

Lemma compress_bound_enough n : 0 ≤ n → zstd_compressBound n ≤ ZSTD_COMPRESS_BOUND n.
Proof.
  intros Hn. unfold zstd_compressBound, ZSTD_COMPRESS_BOUND.
  assert (n / 256 ≤ n / 8) by (apply Z.div_le_compat_l; lia).
  destruct (Z.ltb_spec n 131072).
  - assert ((131072 - n) / 2048 ≤ 64) by (apply Z.div_le_upper_bound; lia). lia.
  - lia.
Qed.

Lemma host_to_be32_id v : 0 ≤ v < 2 ^ 32 → host_to_be32 v = be_bytes 4 v.
Proof. intros Hv. unfold host_to_be32, u32. by rewrite wrapU_id. Qed.

Section WireLemmas.
Context `{ZstdOk}.

(** The frame [wire_send] builds for a message. *)
Lemma wire_send_frame fd msg level cap :
  bytes_ok msg → len msg ≤ 2 ^ 31 - 128 →
  ZSTD_COMPRESS_BOUND (len msg) + 7 ≤ cap →
  ∃ c, ZSTD_compress (ZSTD_COMPRESS_BOUND (len msg)) msg level = Some c ∧
       0 < len c ≤ ZSTD_COMPRESS_BOUND (len msg) ∧ bytes_ok c ∧
       wire_send fd msg level cap = send_all fd (data_frame c).
Proof.
  intros Hb Hl Hc. pose proof (len_nonneg msg).
  destruct (zstd_compress_total (ZSTD_COMPRESS_BOUND (len msg)) msg level) as [c Ec].
  { done. } { by apply compress_bound_enough. }
  destruct (zstd_compress_fits _ _ _ _ Hb Ec) as [Hcl Hcb].
  exists c. split; [done|]. split; [done|]. split; [done|].
  unfold wire_send. unfold FRAME_MAGIC_LEN, TCP_FRAME_HEADER_SIZE.
  replace (cap <? _) with false by lia. rewrite Ec.
  unfold data_frame, FRAME_MAGIC_LEN. rewrite host_to_be32_id; [done|].
  unfold ZSTD_COMPRESS_BOUND in Hcl.
  assert (len msg / 8 ≤ len msg) by (apply Z.div_le_upper_bound; lia).
  change (2 ^ 31) with 2147483648 in Hl. change (2 ^ 32) with 4294967296. lia.
Qed.

End WireLemmas.

(** ** Properties *)



(** [wire_send_failure]: when [wire_send] fails nothing or a strict prefix of
    one frame has been added to the stream; it never sends a damaged or a
    surplus byte, and it never touches the receive side. *)
Theorem wire_send_failure `{Zstd} fd msg level cap rc fd' :
  wire_send fd msg level cap = (rc, fd') → rc ≠ 0 →
  rc = -1 ∧ sk_in fd' = sk_in fd ∧
  ∃ sent, sk_out fd' = sk_out fd ++ sent ∧
    (sent = [] ∨
     ∃ c rest, ZSTD_compress (ZSTD_COMPRESS_BOUND (len msg)) msg level = Some c ∧ rest ≠ [] ∧
               sent ++ rest = host_to_be32 (FRAME_MAGIC_LEN + len c) ++ FRAME_MAGIC ++ c).
Proof.
  unfold wire_send. intros E Hrc.
  assert (Hnone : ∀ r, (r, fd) = (rc, fd') → r = -1 →
     rc = -1 ∧ sk_in fd' = sk_in fd ∧ ∃ sent, sk_out fd' = sk_out fd ++ sent ∧ sent = []).
  { intros r [= <- <-] ->. split; [done|]. split; [done|]. exists []. by rewrite app_nil_r. }
  case_test_in E; [destruct (Hnone _ E eq_refl) as (? & ? & s & ? & ?); eauto 10|].
  destruct (ZSTD_compress _ _ _) as [c|] eqn:Ec;
    [|destruct (Hnone _ E eq_refl) as (? & ? & s & ? & ?); eauto 10].
  apply send_all_spec in E as [Hin [[? ?]|[-> (sent & rest & Hout & Hd & Hr)]]]; [done|].
  split; [done|]. split; [done|]. exists sent. split; [done|]. right.
  exists c, rest. done.
Qed.

Lemma wire_send_failure_witness :
  ∃ fd', wire_send (mk_sock [] [SendRoom 2; SendFail] []) [1; 2; 3] 7 4096 = (-1, fd') ∧
         sk_out fd' = [0; 0].
Proof.
  destruct (wire_send (mk_sock [] [SendRoom 2; SendFail] []) [1; 2; 3] 7 4096) as [rc fd'] eqn:E.
  exists fd'. destruct (wire_send_failure _ _ _ _ rc fd' E) as [Hrc _].
  - apply (f_equal fst) in E. vm_compute in E. rewrite <- E. discriminate.
  - rewrite Hrc. split; [reflexivity|].
    apply (f_equal (sk_out ∘ snd)) in E. vm_compute in E. symmetry. exact E.
Defined.
