(* ===== verification/Session.v ===== *)
(** * The receiver's session table (server/session.c)

    [g_sessions] with [g_session_count] is the list of live sessions in array
    order; [sm_closed] is the trace of the sockets [session_remove] closed.
    A session's [recv_buf] is the list of its [recv_len] valid bytes.  A
    pointer to a session is its index in the array.  The time of day and the
    outcome of [calloc] are arguments. *)

From S2P Require Import Prelude.

Definition MAX_SESSIONS : Z := 16.
Definition REMOTE_ADDR_SIZE : Z := 64.
Definition RECV_BUF_SIZE : Z := 4 * 1024 * 1024.

Record session_t := mk_session {
  s_fd : Z;
  s_remote_addr : list Z;
  s_incremental : Z;
  s_connected_at : Z;
  s_last_active : Z;
  s_blocks_received : Z;
  s_bytes_received : Z;
  s_recv_buf : list Z;
}.

Record session_mgr := mk_mgr {
  g_sessions : list session_t;
  sm_closed : list Z;
}.

(** [s->recv_len] *)
Definition recv_len (s : session_t) : Z := len (s_recv_buf s).

Definition with_recv_buf (s : session_t) (b : list Z) : session_t :=
  mk_session (s_fd s) (s_remote_addr s) (s_incremental s) (s_connected_at s)
    (s_last_active s) (s_blocks_received s) (s_bytes_received s) b.

Definition with_incremental (s : session_t) (v : Z) : session_t :=
  mk_session (s_fd s) (s_remote_addr s) v (s_connected_at s)
    (s_last_active s) (s_blocks_received s) (s_bytes_received s) (s_recv_buf s).

(** [s->blocks_received++; s->bytes_received += n;] *)
Definition with_block_counted (s : session_t) (n : Z) : session_t :=
  mk_session (s_fd s) (s_remote_addr s) (s_incremental s) (s_connected_at s)
    (s_last_active s) (u64 (s_blocks_received s + 1)) (u64 (s_bytes_received s + n))
    (s_recv_buf s).

(** ** Operations *)

Definition session_mgr_init : session_mgr := mk_mgr [] [].

Definition session_count (m : session_mgr) : Z := len (g_sessions m).

(** The result is the index of the new session, [None] for [NULL]. *)
Definition session_create (calloc_ok : bool) (now : Z) (m : session_mgr) (fd : Z)
    (remote_addr : list Z) : option nat * session_mgr :=
  if MAX_SESSIONS <=? session_count m then (None, m)
  else if negb calloc_ok then (None, m)
  else
    let s := mk_session fd (ztake (REMOTE_ADDR_SIZE - 1) remote_addr) 0 now now 0 0 [] in
    (Some (length (g_sessions m)), mk_mgr (g_sessions m ++ [s]) (sm_closed m)).

(** The scan both lookups share: the first index holding [fd]. *)
Fixpoint fd_index (l : list session_t) (fd : Z) : option nat :=
  match l with
  | [] => None
  | s :: r => if s_fd s =? fd then Some O else S <$> fd_index r fd
  end.

Definition session_find (m : session_mgr) (fd : Z) : option session_t :=
  i ← fd_index (g_sessions m) fd; g_sessions m !! i.

(** [CLOSE_SOCKET], [free], then [memmove] closes the gap. *)
Definition session_remove (m : session_mgr) (fd : Z) : session_mgr :=
  match fd_index (g_sessions m) fd with
  | None => m
  | Some i => mk_mgr (delete i (g_sessions m)) (sm_closed m ++ [fd])
  end.

Definition session_touch (now : Z) (s : session_t) : session_t :=
  mk_session (s_fd s) (s_remote_addr s) (s_incremental s) (s_connected_at s)
    now (s_blocks_received s) (s_bytes_received s) (s_recv_buf s).

(** [session_foreach]: the callback gets the index of a session and may change
    or remove it; [i < g_session_count] is evaluated again at every turn. *)
Section Foreach.
Context {S : Type} (cb : session_mgr → S → nat → session_mgr * S * bool).

Fixpoint foreach_loop (fuel i : nat) (m : session_mgr) (arg : S) : session_mgr * S :=
  match fuel with
  | O => (m, arg)
  | Datatypes.S fuel' =>
      if (i <? length (g_sessions m))%nat then
        let '(m, arg, stop) := cb m arg i in
        if stop then (m, arg) else foreach_loop fuel' (Datatypes.S i) m arg
      else (m, arg)
  end.

(** The index reaches [MAX_SESSIONS] after that many turns. *)
Definition session_foreach (m : session_mgr) (arg : S) : session_mgr * S :=
  foreach_loop (Z.to_nat MAX_SESSIONS) 0 m arg.

End Foreach.

#[global] Arguments foreach_loop {S} cb fuel i m arg : simpl never.

(** ** Invariant and abstraction *)

Definition session_fds (m : session_mgr) : list Z := s_fd <$> g_sessions m.

(** At most [MAX_SESSIONS] sessions, one per socket, every buffer within its
    4 MB. *)
Record mgr_ok (m : session_mgr) : Prop := {
  mgr_count : session_count m ≤ MAX_SESSIONS;
  mgr_nodup : NoDup (session_fds m);
  mgr_bufs : Forall (λ s, recv_len s ≤ RECV_BUF_SIZE) (g_sessions m);
}.

(** What the table means: a finite map from sockets to sessions. *)
Definition sessions_map (m : session_mgr) : gmap Z session_t :=
  list_to_map ((λ s, (s_fd s, s)) <$> g_sessions m).

(** ** Lemmas *)

Lemma fd_index_Some l fd i :
  fd_index l fd = Some i → ∃ s, l !! i = Some s ∧ s_fd s = fd.
Proof.
  revert i. induction l as [|s l IH]; intros i; simpl; [done|].
  case_test; [intros [= <-]; eauto|].
  destruct (fd_index l fd) as [j|]; simpl; [|done]. intros [= <-]. simpl. eauto.
Qed.

Lemma fd_index_None l fd : fd_index l fd = None ↔ fd ∉ (s_fd <$> l).
Proof.
  induction l as [|s l IH]; [split; [intros _; apply not_elem_of_nil|done]|].
  rewrite fmap_cons, not_elem_of_cons. cbn [fd_index].
  case_test; [split; [done|intros []; congruence]|].
  rewrite fmap_None, IH. naive_solver.
Qed.

Lemma fd_index_lookup l i s :
  NoDup (s_fd <$> l) → l !! i = Some s → fd_index l (s_fd s) = Some i.
Proof.
  revert i. induction l as [|s0 l IH]; intros i; [done|].
  rewrite fmap_cons, NoDup_cons. intros [Hn Hd] Hl.
  destruct i as [|i]; cbn in Hl |- *.
  - injection Hl as ->. by rewrite Z.eqb_refl.
  - case_test.
    + destruct Hn. rewrite E. apply list_elem_of_fmap. exists s. split; [done|].
      by eapply list_elem_of_lookup_2.
    + by rewrite (IH i Hd Hl).
Qed.

Lemma keys_fmap (l : list session_t) : ((λ s, (s_fd s, s)) <$> l).*1 = s_fd <$> l.
Proof. by rewrite <- list_fmap_compose. Qed.

Lemma sessions_map_lookup m fd s :
  mgr_ok m → sessions_map m !! fd = Some s ↔ s ∈ g_sessions m ∧ s_fd s = fd.
Proof.
  intros [_ Hd _]. unfold sessions_map. rewrite <- elem_of_list_to_map.
  - rewrite list_elem_of_fmap. naive_solver.
  - by rewrite keys_fmap.
Qed.

Lemma sessions_map_None m fd :
  sessions_map m !! fd = None ↔ fd ∉ session_fds m.
Proof. unfold sessions_map, session_fds. by rewrite <- not_elem_of_list_to_map, keys_fmap. Qed.

Lemma session_find_index m i s :
  mgr_ok m → g_sessions m !! i = Some s → session_find m (s_fd s) = Some s.
Proof.
  intros [_ Hd _] Hl. unfold session_find.
  by rewrite (fd_index_lookup _ i s Hd Hl).
Qed.

Lemma session_find_map m fd : mgr_ok m → session_find m fd = sessions_map m !! fd.
Proof.
  intros Hm. destruct (sessions_map m !! fd) as [s|] eqn:E.
  - apply sessions_map_lookup in E as [Hin <-]; [|done].
    apply list_elem_of_lookup in Hin as [i Hi]. by eapply session_find_index.
  - apply sessions_map_None in E. unfold session_find.
    by apply fd_index_None in E as ->.
Qed.

Lemma delete_middle {A} (l : list A) i x :
  l !! i = Some x → delete i l = take i l ++ drop (S i) l ∧ l = take i l ++ x :: drop (S i) l.
Proof.
  intros Hl. split; [by apply delete_take_drop|]. symmetry. by apply take_drop_middle.
Qed.

Lemma session_fds_insert m m' i s s' :
  g_sessions m !! i = Some s → g_sessions m' = <[i := s']> (g_sessions m) → s_fd s' = s_fd s →
  session_fds m' = session_fds m.
Proof.
  intros Hi Hm Hfd. unfold session_fds. rewrite Hm, list_fmap_insert, Hfd, list_insert_id; [done|].
  by rewrite list_lookup_fmap, Hi.
Qed.

Lemma fd_not_later m i s :
  NoDup (session_fds m) → g_sessions m !! i = Some s → s_fd s ∉ s_fd <$> drop (S i) (g_sessions m).
Proof.
  unfold session_fds. intros Hnd Hi. rewrite <- (take_drop_middle _ _ _ Hi), fmap_app in Hnd. cbn in Hnd.
  apply NoDup_app in Hnd as (_ & _ & Hnd). by apply NoDup_cons in Hnd as [Hnd _].
Qed.

Lemma session_remove_ok m fd : mgr_ok m → mgr_ok (session_remove m fd).
Proof.
  intros Hm. unfold session_remove.
  destruct (fd_index (g_sessions m) fd) as [i|] eqn:E; [|done].
  apply fd_index_Some in E as (s & Hl & Hfd). destruct Hm as [Hc Hd Hb].
  constructor; unfold session_count, session_fds in *; cbn.
  - unfold len in *. rewrite length_delete by eauto. lia.
  - rewrite list_fmap_delete. eapply sublist_NoDup; [done|apply sublist_delete].
  - by apply Forall_delete.
Qed.

Lemma session_create_ok calloc_ok now m fd addr :
  mgr_ok m → fd ∉ session_fds m → mgr_ok (session_create calloc_ok now m fd addr).2.
Proof.
  intros [Hc Hd Hb] Hfd. unfold session_create.
  repeat case_test; try (by constructor).
  constructor; unfold session_count, session_fds in *; cbn.
  - len_norm. lia.
  - rewrite fmap_app, NoDup_app. split; [done|]. split.
    + intros x Hx Hx'. apply list_elem_of_singleton in Hx' as ->. done.
    + apply NoDup_singleton.
  - apply Forall_app. split; [done|]. repeat constructor; done.
Qed.

(** Changing a session in place keeps the table well formed when the socket
    and the buffer bound are kept. *)
Lemma session_update_ok m i s s' :
  mgr_ok m → g_sessions m !! i = Some s → s_fd s' = s_fd s →
  recv_len s' ≤ RECV_BUF_SIZE →
  mgr_ok (mk_mgr (<[i := s']> (g_sessions m)) (sm_closed m)).
Proof.
  intros [Hc Hd Hb] Hl Hfd Hr.
  constructor; unfold session_count, session_fds in *; cbn.
  - unfold len in *. by rewrite length_insert.
  - rewrite list_fmap_insert, Hfd, list_insert_id; [done|].
    by rewrite list_lookup_fmap, Hl.
  - by apply Forall_insert.
Qed.

Lemma session_remove_fds m fd :
  mgr_ok m → session_fds (session_remove m fd) = filter (λ x, x ≠ fd) (session_fds m).
Proof.
  intros Hm. unfold session_remove.
  destruct (fd_index (g_sessions m) fd) as [i|] eqn:E.
  - apply fd_index_Some in E as (s & Hl & Hfd). destruct Hm as [_ Hd _].
    unfold session_fds in *; cbn. rewrite list_fmap_delete.
    assert (Hl' : (s_fd <$> g_sessions m) !! i = Some fd) by (by rewrite list_lookup_fmap, Hl, <- Hfd).
    revert Hd Hl'. generalize (s_fd <$> g_sessions m). clear. intros l.
    revert i. induction l as [|x l IH]; intros i; [done|].
    rewrite NoDup_cons. intros [Hn Hd]. destruct i as [|i]; cbn [lookup list_lookup delete list_delete].
    + intros [= ->]. rewrite filter_cons_False by naive_solver.
      symmetry. apply filter_all. apply Forall_forall. intros y Hy ->. done.
    + intros Hl. rewrite filter_cons_True.
      * f_equal. by apply IH.
      * intros ->. destruct Hn. by eapply list_elem_of_lookup_2.
  - apply fd_index_None in E. symmetry. apply filter_all.
    apply Forall_forall. intros x Hx ->. done.
Qed.

Lemma sessions_map_ext m m' :
  mgr_ok m → mgr_ok m' →
  (∀ s, s ∈ g_sessions m ↔ s ∈ g_sessions m') → sessions_map m = sessions_map m'.
Proof.
  intros Hm Hm' H. apply map_eq. intros fd. apply option_eq. intros s.
  by rewrite !sessions_map_lookup, H.
Qed.

Lemma session_remove_map m fd :
  mgr_ok m →
  sessions_map (session_remove m fd) = delete fd (sessions_map m) ∧
  sm_closed (session_remove m fd) =
  sm_closed m ++ (if decide (fd ∈ session_fds m) then [fd] else []).
Proof.
  intros Hm. pose proof (session_remove_ok m fd Hm) as Hm'.
  assert (Hfds := session_remove_fds m fd Hm). split.
  - apply map_eq. intros k. apply option_eq. intros s.
    rewrite lookup_delete_Some, !sessions_map_lookup by done.
    assert (Hk : s ∈ g_sessions (session_remove m fd) → s_fd s ≠ fd).
    { intros Hin Heq. assert (Hin' : fd ∈ session_fds (session_remove m fd)).
      { apply list_elem_of_fmap. exists s. by rewrite Heq. }
      rewrite Hfds in Hin'. by apply list_elem_of_filter in Hin' as []. }
    split.
    + intros [Hin <-]. split; [intros Heq; by apply Hk|]. split; [|done].
      revert Hin. unfold session_remove. destruct (fd_index _ _); [|done]. cbn.
      intros Hin. eapply elem_of_sublist; [|apply sublist_delete]; done.
    + intros (Hne & Hin & <-). split; [|done]. unfold session_remove.
      destruct (fd_index _ _) as [i|] eqn:Ei; [|done]. cbn.
      apply fd_index_Some in Ei as (s' & Hl & Hfd).
      destruct (delete_middle _ _ _ Hl) as [-> Heq].
      rewrite Heq in Hin. rewrite elem_of_app in *. rewrite elem_of_cons in Hin.
      naive_solver.
  - unfold session_remove. destruct (fd_index _ _) as [i|] eqn:Ei; cbn.
    + rewrite decide_True; [done|]. apply fd_index_Some in Ei as (s' & Hl & <-).
      apply list_elem_of_fmap. exists s'. split; [done|]. by eapply list_elem_of_lookup_2.
    + rewrite decide_False; [by rewrite app_nil_r|]. by apply fd_index_None.
Qed.

Lemma session_create_map m fd s cl :
  fd ∉ session_fds m → s_fd s = fd →
  sessions_map (mk_mgr (g_sessions m ++ [s]) cl) = <[fd := s]> (sessions_map m).
Proof.
  intros Hfd <-. unfold sessions_map. cbn. rewrite fmap_app. cbn.
  rewrite list_to_map_snoc; [done|]. by rewrite keys_fmap.
Qed.

(** One turn of the loop, and its end. *)
Lemma foreach_step {S} (cb : session_mgr → S → nat → session_mgr * S * bool) fuel i m arg :
  (i < length (g_sessions m))%nat →
  foreach_loop cb (Datatypes.S fuel) i m arg =
  (let '(m, arg, stop) := cb m arg i in
   if stop then (m, arg) else foreach_loop cb fuel (Datatypes.S i) m arg).
Proof.
  intros Hi. unfold foreach_loop at 1. fold (@foreach_loop S cb).
  by destruct (Nat.ltb_spec i (length (g_sessions m))); [|lia].
Qed.

Lemma foreach_end {S} (cb : session_mgr → S → nat → session_mgr * S * bool) fuel i m arg :
  (length (g_sessions m) ≤ i)%nat → foreach_loop cb fuel i m arg = (m, arg).
Proof.
  intros Hi. destruct fuel; [done|]. unfold foreach_loop.
  by destruct (Nat.ltb_spec i (length (g_sessions m))); [lia|].
Qed.

(** An invariant of the callback is an invariant of the traversal. *)
Lemma foreach_loop_inv {S} (cb : session_mgr → S → nat → session_mgr * S * bool)
    (P : session_mgr → S → Prop) fuel i m arg :
  (∀ m arg i, P m arg → (i < length (g_sessions m))%nat → P (cb m arg i).1.1 (cb m arg i).1.2) →
  P m arg → P (foreach_loop cb fuel i m arg).1 (foreach_loop cb fuel i m arg).2.
Proof.
  intros Hcb. revert i m arg. induction fuel as [|fuel IH]; intros i m arg HP; [done|].
  destruct (Nat.lt_ge_cases i (length (g_sessions m))) as [Hi|Hi].
  - rewrite foreach_step by done. specialize (Hcb m arg i HP Hi).
    destruct (cb m arg i) as [[m' arg'] stop]. destruct stop; [done|]. by apply IH.
  - by rewrite foreach_end.
Qed.

#[export] Hint Resolve session_remove_ok session_create_ok : g2c.

(** ** Properties *)

(** C17 (session_table_refines_map): the session table implements a finite map
    from sockets to sessions.  While it is well formed, [session_find] is the
    map's lookup; [session_create] of a socket not in the table inserts one
    fresh session (nothing buffered, counters at zero) exactly when there are
    fewer than 16 sessions and memory is available, and changes nothing
    otherwise; [session_remove] deletes the socket's entry and closes that
    socket, and is the identity on an unknown one; the entries after it move down
    one place, so the others keep their order; both keep the table well formed. *)
Theorem session_table_refines_map m fd now calloc_ok addr :
  mgr_ok m →
  session_find m fd = sessions_map m !! fd ∧
  (let m' := session_remove m fd in
   mgr_ok m' ∧ sessions_map m' = delete fd (sessions_map m) ∧
   session_fds m' = filter (λ k, k ≠ fd) (session_fds m) ∧
   sm_closed m' = sm_closed m ++ (if decide (fd ∈ session_fds m) then [fd] else [])) ∧
  (fd ∉ session_fds m →
   let '(r, m') := session_create calloc_ok now m fd addr in
   mgr_ok m' ∧
   if calloc_ok && (session_count m <? MAX_SESSIONS)
   then r = Some (length (g_sessions m)) ∧
        sessions_map m' = <[fd := mk_session fd (ztake 63 addr) 0 now now 0 0 []]> (sessions_map m)
   else r = None ∧ m' = m).
Proof.
  intros Hm. split; [by apply session_find_map|]. split.
  - destruct (session_remove_map m fd Hm) as [H1 H2]. split; [by apply session_remove_ok|]. split; [exact H1|].
    split; [by apply session_remove_fds|exact H2].
  - intros Hfd. pose proof (session_create_ok calloc_ok now m fd addr Hm Hfd) as Hok.
    destruct (session_create calloc_ok now m fd addr) as [r m'] eqn:E. split; [done|].
    unfold session_create in E. destruct calloc_ok; cbn [negb andb] in *.
    + destruct (Z.leb_spec MAX_SESSIONS (session_count m)).
      * replace (session_count m <? MAX_SESSIONS) with false by lia. by injection E.
      * replace (session_count m <? MAX_SESSIONS) with true by lia.
        injection E as <- <-. split; [done|]. by apply session_create_map.
    + by case_test_in E; injection E.
Qed.

Lemma session_table_refines_map_witness :
  let m := (session_create true 5 session_mgr_init 4 [49]).2 in
  mgr_ok m ∧ session_find m 4 = sessions_map m !! 4.
Proof.
  assert (Hm : mgr_ok (session_create true 5 session_mgr_init 4 [49]).2).
  { apply session_create_ok; [constructor; [done|constructor|constructor]|apply not_elem_of_nil]. }
  split; [exact Hm|]. exact (proj1 (session_table_refines_map _ 4 0 true [] Hm)).
Defined.
