(* ===== verification/Decoder.v ===== *)
(** * The receiver's protocol decoder (server/protocol_decoder.c)

    [msgpack_read_int] and [msgpack_decode_block] read their input through
    [rd], so that a read past the buffer is the value [Oob] and its absence a
    theorem.  [protocol_decode] is the framing state machine over the session's
    receive buffer. *)

From stdpp Require Import strings.
From S2P Require Import Prelude Protocol Zstd Msgpack Session Wire.

(** [decoded_msg_t]: the variant is its [type] with the fields it sets. *)
Inductive decoded_msg :=
  | DECODE_DATA_BLOCK (devno offset : Z) (data : list Z)
  | DECODE_CTL_INCREMENTAL
  | DECODE_CTL_END_INCREMENTAL.

#[export] Instance decoded_msg_eq_dec : EqDecision decoded_msg.
Proof. solve_decision. Defined.

(** [sizeof(out->data)] *)
Definition DECODED_DATA_SIZE : Z := 1024 * 1024 + 4096.

(** [return -1], [return 0], [return 1] with the message. *)
Inductive decode_res :=
  | DecodeError
  | DecodeMore
  | Decoded (m : decoded_msg).

(** ** MsgPack *)

(** The value and the number of bytes read; [Rej] is the return value 0. *)
Definition msgpack_read_int (buf : list Z) (buf_len : Z) : cres (Z * Z) :=
  if buf_len <? 1 then Rej else
  tag ← rd buf 0;
  if tag <=? 0x7f then Ret (tag, 1)
  else if 0xe0 <=? tag then Ret (s8 tag, 1)
  else if tag =? MSGPACK_INT8 then
    if buf_len <? 2 then Rej else
    b1 ← rd buf 1; Ret (s8 b1, 2)
  else if tag =? MSGPACK_INT16 then
    if buf_len <? 3 then Rej else
    b1 ← rd buf 1; b2 ← rd buf 2;
    Ret (s16 (Z.lor (Z.shiftl b1 8) b2), 3)
  else if tag =? MSGPACK_INT32 then
    if buf_len <? 5 then Rej else
    b1 ← rd buf 1; b2 ← rd buf 2; b3 ← rd buf 3; b4 ← rd buf 4;
    Ret (s32 (Z.lor (Z.lor (Z.lor (Z.shiftl b1 24) (Z.shiftl b2 16)) (Z.shiftl b3 8)) b4), 5)
  else if tag =? MSGPACK_INT64 then
    if buf_len <? 9 then Rej else
    b1 ← rd buf 1; b2 ← rd buf 2; b3 ← rd buf 3; b4 ← rd buf 4;
    b5 ← rd buf 5; b6 ← rd buf 6; b7 ← rd buf 7; b8 ← rd buf 8;
    Ret (s64 (Z.lor (Z.lor (Z.lor (Z.lor (Z.lor (Z.lor (Z.lor
           (Z.shiftl b1 56) (Z.shiftl b2 48)) (Z.shiftl b3 40)) (Z.shiftl b4 32))
           (Z.shiftl b5 24)) (Z.shiftl b6 16)) (Z.shiftl b7 8)) b8), 9)
  else Rej.

(** [if (pos >= buf_len || buf[pos] != key) return -1;] *)
Definition expect_byte (buf : list Z) (buf_len pos key : Z) : cres unit :=
  if buf_len <=? pos then Rej else
  b ← rd buf pos; if b =? key then Ret tt else Rej.

(** The bin header at [pos]: the length and the position after it. *)
Definition read_bin_len (buf : list Z) (buf_len pos bin_tag : Z) : cres (Z * Z) :=
  if bin_tag =? MSGPACK_BIN8 then
    if buf_len <=? pos then Rej else
    b0 ← rd buf pos; Ret (b0, pos + 1)
  else if bin_tag =? MSGPACK_BIN16 then
    if buf_len <=? pos + 1 then Rej else
    b0 ← rd buf pos; b1 ← rd buf (pos + 1);
    Ret (Z.lor (Z.shiftl b0 8) b1, pos + 2)
  else if bin_tag =? MSGPACK_BIN32 then
    if buf_len <=? pos + 3 then Rej else
    b0 ← rd buf pos; b1 ← rd buf (pos + 1); b2 ← rd buf (pos + 2); b3 ← rd buf (pos + 3);
    Ret (u32 (Z.lor (Z.lor (Z.lor (Z.shiftl b0 24) (Z.shiftl b1 16)) (Z.shiftl b2 8)) b3), pos + 4)
  else Rej.

(** [devno], [offset], [out_data - buf] and [out_len]. *)
Definition msgpack_decode_block (buf : list Z) (buf_len : Z) : cres (Z * Z * Z * Z) :=
  expect_byte buf buf_len 0 MSGPACK_FIXMAP_3;;
  expect_byte buf buf_len 1 0x00;;
  '(val64, n) ← msgpack_read_int (zdrop 2 buf) (buf_len - 2);
  let devno := s32 val64 in
  let pos := 2 + n in
  expect_byte buf buf_len pos 0x01;;
  let pos := pos + 1 in
  '(offset, n) ← msgpack_read_int (zdrop pos buf) (buf_len - pos);
  let pos := pos + n in
  expect_byte buf buf_len pos 0x02;;
  let pos := pos + 1 in
  if buf_len <=? pos then Rej else
  bin_tag ← rd buf pos;
  '(bin_len, pos) ← read_bin_len buf buf_len (pos + 1) bin_tag;
  if buf_len <? pos + bin_len then Rej
  else Ret (devno, offset, pos, bin_len).

(** ** Frames *)

Section Decode.
Context `{Zstd}.

(** A frame that starts with "abc". *)
Definition decode_data_frame (frame_data : list Z) (frame_len : Z) : option decoded_msg :=
  let zstd_data := zdrop FRAME_MAGIC_LEN frame_data in
  let zstd_len := frame_len - FRAME_MAGIC_LEN in
  if zstd_len =? 0 then None else
  decomp_size ← ZSTD_getFrameContentSize zstd_data;
  if BLOCK_SIZE_MAX + 4096 <? decomp_size then None else
  out_data ← ZSTD_decompress decomp_size zstd_data;
  match msgpack_decode_block out_data (len out_data) with
  | Ret (devno, offset, block_ptr, block_len) =>
      Some (DECODE_DATA_BLOCK devno offset (ztake block_len (zdrop block_ptr out_data)))
  | _ => None
  end.

Definition decode_control_frame (frame_data : list Z) (frame_len : Z) : option decoded_msg :=
  if (frame_len =? CTL_INCREMENTAL_LEN) &&
     bool_decide (ztake CTL_INCREMENTAL_LEN frame_data = ztake CTL_INCREMENTAL_LEN CTL_INCREMENTAL)
  then Some DECODE_CTL_INCREMENTAL
  else if (frame_len =? CTL_END_INCREMENTAL_LEN) &&
     bool_decide (ztake CTL_END_INCREMENTAL_LEN frame_data =
                  ztake CTL_END_INCREMENTAL_LEN CTL_END_INCREMENTAL)
  then Some DECODE_CTL_END_INCREMENTAL
  else None.

Definition decode_frame (frame_data : list Z) (frame_len : Z) : option decoded_msg :=
  if (FRAME_MAGIC_LEN <=? frame_len) && bool_decide (ztake FRAME_MAGIC_LEN frame_data = FRAME_MAGIC)
  then decode_data_frame frame_data frame_len
  else decode_control_frame frame_data frame_len.

Definition protocol_decode (session : session_t) (buf : list Z) : decode_res * session_t :=
  if (0 <? len buf) && (RECV_BUF_SIZE <? recv_len session + len buf) then (DecodeError, session)
  else
    let session := with_recv_buf session (s_recv_buf session ++ buf) in
    if recv_len session <? TCP_FRAME_HEADER_SIZE then (DecodeMore, session)
    else
      let frame_len := be_val (ztake 4 (s_recv_buf session)) in
      if 100 * 1024 * 1024 <? frame_len then (DecodeError, session)
      else
        let total_needed := TCP_FRAME_HEADER_SIZE + frame_len in
        if recv_len session <? total_needed then (DecodeMore, session)
        else
          let frame_data := ztake frame_len (zdrop TCP_FRAME_HEADER_SIZE (s_recv_buf session)) in
          let session' := with_recv_buf session (zdrop total_needed (s_recv_buf session)) in
          match decode_frame frame_data frame_len with
          | Some m => (Decoded m, session')
          | None => (DecodeError, session')
          end.

End Decode.

(** ** Memory safety of the MsgPack decoder *)

(** A computation that never reads outside its buffer, and what it returns. *)
Definition csafe {A} (Q : A → Prop) (c : cres A) : Prop :=
  match c with Ret a => Q a | Rej => True | Oob => False end.

Lemma csafe_bind {A B} (Q : A → Prop) (R : B → Prop) (m : cres A) (k : A → cres B) :
  csafe Q m → (∀ a, Q a → csafe R (k a)) → csafe R (mbind k m).
Proof. destruct m; simpl; auto. Qed.

Lemma csafe_rd buf i : bytes_ok buf → 0 ≤ i < len buf → csafe byte_ok (rd buf i).
Proof.
  intros Hb Hi. destruct (rd_in_bounds buf i Hi) as (b & -> & Hin). simpl.
  rewrite Forall_forall in Hb. by apply Hb.
Qed.

Ltac csafe_step :=
  match goal with
  | |- csafe _ (mbind _ (rd _ _)) => eapply csafe_bind; [apply csafe_rd; [done|lia]|intros ? ?]
  | |- csafe _ (if ?b then _ else _) => destruct b eqn:?; bool_to_prop
  | |- csafe _ Rej => exact I
  end.

Lemma msgpack_read_int_safe buf :
  bytes_ok buf → csafe (λ r, 1 ≤ r.2 ≤ 9 ∧ r.2 ≤ len buf) (msgpack_read_int buf (len buf)).
Proof. intros Hb. unfold msgpack_read_int. repeat csafe_step; simpl; lia. Qed.

Lemma expect_byte_safe buf pos key :
  bytes_ok buf → 0 ≤ pos → csafe (λ _, pos < len buf) (expect_byte buf (len buf) pos key).
Proof. intros Hb Hp. unfold expect_byte. repeat csafe_step; simpl; lia. Qed.

Lemma lor_bytes_nonneg a b : 0 ≤ a → 0 ≤ b → 0 ≤ Z.lor a b.
Proof. intros. by apply Z.lor_nonneg. Qed.

Lemma read_bin_len_safe buf pos tag :
  bytes_ok buf → 0 ≤ pos →
  csafe (λ r, 0 ≤ r.1 ∧ pos < r.2) (read_bin_len buf (len buf) pos tag).
Proof.
  intros Hb Hp. unfold read_bin_len. unfold byte_ok in *.
  repeat csafe_step; unfold byte_ok in *; simpl; (split; [|lia]).
  - lia.
  - apply lor_bytes_nonneg; [apply Z.shiftl_nonneg|]; lia.
  - apply (wrapU_range 32). lia.
Qed.

(** Where the block lies, for every input. *)
Lemma msgpack_decode_block_safe buf :
  bytes_ok buf →
  csafe (λ '(_, _, pos, n), 0 ≤ n ∧ 0 < pos ∧ pos + n ≤ len buf)
        (msgpack_decode_block buf (len buf)).
Proof.
  intros Hb. unfold msgpack_decode_block.
  assert (Hd : ∀ p, 0 ≤ p ≤ len buf → len buf - p = len (zdrop p buf)).
  { intros p Hp. rewrite len_zdrop. lia. }
  eapply csafe_bind; [apply expect_byte_safe; [done|lia]|intros ? H0]. cbn beta in H0.
  eapply csafe_bind; [apply expect_byte_safe; [done|lia]|intros ? H1]. cbn beta in H1.
  rewrite (Hd 2) by lia.
  eapply csafe_bind; [apply msgpack_read_int_safe; auto with g2c|intros [v n] Hn].
  rewrite len_zdrop in Hn. cbn in Hn.
  eapply csafe_bind; [apply expect_byte_safe; [done|lia]|intros ? H2]. cbn beta in H2.
  rewrite (Hd (2 + n + 1)) by lia.
  eapply csafe_bind; [apply msgpack_read_int_safe; auto with g2c|intros [v' n'] Hn'].
  rewrite len_zdrop in Hn'. cbn in Hn'.
  eapply csafe_bind; [apply expect_byte_safe; [done|lia]|intros ? H3]. cbn beta in H3.
  csafe_step; [done|]. csafe_step.
  eapply csafe_bind; [apply read_bin_len_safe; [done|lia]|intros [m p] [Hm Hp]].
  cbn in Hm, Hp. csafe_step; simpl; lia.
Qed.

(** ** The decoder inverts the encoder *)

Lemma lor_push a b k :
  0 ≤ k → byte_ok b → Z.lor (Z.shiftl a (k + 8)) (Z.shiftl b k) = Z.shiftl (256 * a + b) k.
Proof.
  intros Hk Hb. rewrite Z.add_comm, <- Z.shiftl_shiftl, <- Z.shiftl_lor by lia.
  f_equal. rewrite lor_shiftl_add; [lia|lia|done].
Qed.

Lemma lor_push0 a b : byte_ok b → Z.lor (Z.shiftl a 8) b = 256 * a + b.
Proof. intros Hb. rewrite lor_shiftl_add; [lia|lia|done]. Qed.

(** The C expressions that assemble 2, 4 and 8 bytes are the big-endian value. *)
Lemma assemble2 v :
  Z.lor (Z.shiftl (u8 (Z.shiftr v 8)) 8) (u8 v) = v mod 2 ^ 16.
Proof.
  rewrite lor_push0 by auto with g2c.
  change (2 ^ 16) with (256 ^ Z.of_nat 2). rewrite <- be_val_bytes, be_bytes_2.
  unfold be_val. cbn [reverse rev_append le_val]. lia.
Qed.

Lemma assemble4 v :
  Z.lor (Z.lor (Z.lor (Z.shiftl (u8 (Z.shiftr v 24)) 24) (Z.shiftl (u8 (Z.shiftr v 16)) 16))
           (Z.shiftl (u8 (Z.shiftr v 8)) 8)) (u8 v) = v mod 2 ^ 32.
Proof.
  change (Z.shiftl (u8 (Z.shiftr v 24)) 24) with (Z.shiftl (u8 (Z.shiftr v 24)) (16 + 8)).
  rewrite lor_push by auto with g2c lia.
  rewrite (lor_push _ _ 8), lor_push0 by auto with g2c lia.
  change (2 ^ 32) with (256 ^ Z.of_nat 4). rewrite <- be_val_bytes, be_bytes_4.
  unfold be_val. cbn [reverse rev_append le_val]. lia.
Qed.

Lemma assemble8 v :
  Z.lor (Z.lor (Z.lor (Z.lor (Z.lor (Z.lor (Z.lor
    (Z.shiftl (u8 (Z.shiftr v 56)) 56) (Z.shiftl (u8 (Z.shiftr v 48)) 48))
    (Z.shiftl (u8 (Z.shiftr v 40)) 40)) (Z.shiftl (u8 (Z.shiftr v 32)) 32))
    (Z.shiftl (u8 (Z.shiftr v 24)) 24)) (Z.shiftl (u8 (Z.shiftr v 16)) 16))
    (Z.shiftl (u8 (Z.shiftr v 8)) 8)) (u8 v) = v mod 2 ^ 64.
Proof.
  change (Z.shiftl (u8 (Z.shiftr v 56)) 56) with (Z.shiftl (u8 (Z.shiftr v 56)) (48 + 8)).
  rewrite lor_push, (lor_push _ _ 40), (lor_push _ _ 32), (lor_push _ _ 24),
    (lor_push _ _ 16), (lor_push _ _ 8), lor_push0 by auto with g2c lia.
  change (2 ^ 64) with (256 ^ Z.of_nat 8). rewrite <- be_val_bytes, be_bytes_8.
  unfold be_val. cbn [reverse rev_append le_val]. lia.
Qed.

Lemma signed_field w v : 0 < w → in_s w v → wrapS w (v mod 2 ^ w) = v.
Proof.
  intros Hw Hv. change (v mod 2 ^ w) with (wrapU w v).
  rewrite wrapS_wrapU by done. by apply wrapS_id.
Qed.

Lemma s8_u8 v : in_s 8 v → s8 (u8 v) = v.
Proof. apply signed_field. lia. Qed.

(** Reads at literal positions of a buffer whose first bytes are known. *)
Ltac rd_simpl :=
  repeat match goal with
  | |- context [rd (?x :: ?b) ?i] =>
      let j := eval vm_compute in i in
      let r := eval cbv [rd Z.ltb Z.compare Z.to_nat Pos.to_nat Pos.iter_op Nat.add
                         lookup list_lookup] in (rd (x :: b) j) in
      progress change (rd (x :: b) i) with r
  end;
  unfold mbind, cres_bind.

Lemma read_fixint v rest :
  -32 ≤ v ≤ 127 → msgpack_read_int (u8 v :: rest) (1 + len rest) = Ret (v, 1).
Proof.
  intros Hv. unfold msgpack_read_int. pose proof (len_nonneg rest).
  replace (1 + len rest <? 1) with false by lia. rd_simpl; cbn -[u8 s8 Z.leb].
  destruct (Z.leb_spec 0 v).
  - rewrite u8_id by (unfold byte_ok; lia). by replace (v <=? 127) with true by lia.
  - assert (Hu : u8 v = v + 256).
    { unfold u8, wrapU. symmetry. apply (Z.mod_unique_pos _ _ (-1)); lia. }
    rewrite Hu. replace (v + 256 <=? 127) with false by lia.
    replace (224 <=? v + 256) with true by lia. rewrite <- Hu, s8_u8; [done|].
    unfold in_s. lia.
Qed.

(** A multi-byte integer: the tag selects the branch, the bytes are there. *)
Ltac read_tagged :=
  unfold msgpack_read_int;
  match goal with rest : list Z |- _ => pose proof (len_nonneg rest) end;
  match goal with |- context [?a <? 1] => replace (a <? 1) with false by lia end;
  rd_simpl; cbn -[len u8 s8 s16 s32 s64 Z.lor Z.shiftl Z.shiftr Z.add];
  match goal with |- context [?a <? ?b] => replace (a <? b) with false by lia end.

Lemma read_int8 v rest :
  in_s 8 v → msgpack_read_int (MSGPACK_INT8 :: be_bytes 1 v ++ rest) (2 + len rest) = Ret (v, 2).
Proof. intros Hv. rewrite be_bytes_1. read_tagged. by rewrite s8_u8. Qed.

Lemma read_int16 v rest :
  in_s 16 v → msgpack_read_int (MSGPACK_INT16 :: be_bytes 2 v ++ rest) (3 + len rest) = Ret (v, 3).
Proof.
  intros Hv. rewrite be_bytes_2. read_tagged. unfold s16. by rewrite assemble2, signed_field by (done || lia).
Qed.

Lemma read_int32_long v rest :
  in_s 32 v → msgpack_read_int (MSGPACK_INT32 :: be_bytes 4 v ++ rest) (5 + len rest) = Ret (v, 5).
Proof.
  intros Hv. rewrite be_bytes_4. read_tagged. unfold s32. by rewrite assemble4, signed_field by (done || lia).
Qed.

Lemma read_int32 v rest :
  in_s 32 v →
  msgpack_read_int (int32_encoding v ++ rest) (len (int32_encoding v ++ rest)) =
  Ret (v, len (int32_encoding v)).
Proof.
  intros Hv. rewrite len_app. unfold int32_encoding.
  repeat case_test; len_norm; rewrite <- ?app_comm_cons.
  - apply read_fixint. lia.
  - apply read_int8. unfold in_s. lia.
  - apply read_int16. unfold in_s. lia.
  - by apply read_int32_long.
Qed.

Lemma read_int64 v rest :
  in_s 64 v →
  msgpack_read_int (int64_encoding v ++ rest) (len (int64_encoding v ++ rest)) = Ret (v, 9).
Proof.
  intros Hv. rewrite len_app, len_int64_encoding. unfold int64_encoding.
  rewrite <- app_comm_cons, be_bytes_8. read_tagged. unfold s64. by rewrite assemble8, signed_field by (done || lia).
Qed.

Lemma expect_byte_app pre k post n p :
  n = len (pre ++ k :: post) → p = len pre → expect_byte (pre ++ k :: post) n p k = Ret tt.
Proof.
  intros -> ->. unfold expect_byte. rewrite len_app, len_cons.
  pose proof (len_nonneg post). replace (_ <=? _) with false by lia.
  rewrite rd_app. cbn. by rewrite Z.eqb_refl.
Qed.

Lemma rd_app_add pre l i : 0 ≤ i → rd (pre ++ l) (len pre + i) = rd l i.
Proof.
  intros Hi. unfold rd, len. replace (_ + i <? 0) with false by lia.
  replace (i <? 0) with false by lia. rewrite lookup_app_r by lia.
  by replace (Z.to_nat (Z.of_nat (length pre) + i) - length pre)%nat with (Z.to_nat i) by lia.
Qed.

(** The bin header read at its position [len pre]. *)
Lemma read_bin_header pre data post n p :
  len data < 2 ^ 32 → n = len (pre ++ bin_header (len data) ++ data ++ post) → p = len pre →
  (tag ← rd (pre ++ bin_header (len data) ++ data ++ post) p;
   read_bin_len (pre ++ bin_header (len data) ++ data ++ post) n (p + 1) tag)
  = Ret (len data, p + len (bin_header (len data))).
Proof.
  intros Hl -> ->. pose proof (len_nonneg data). pose proof (len_nonneg post).
  rewrite <- (Z.add_0_r (len pre)) at 1. rewrite rd_app_add by lia.
  unfold bin_header.
  repeat case_test; rewrite ?be_bytes_1, ?be_bytes_2, ?be_bytes_4; rd_simpl;
    cbn -[len u8 Z.add rd read_bin_len]; unfold read_bin_len; rd_simpl; cbn -[len rd u8 u32 Z.add]; len_norm;
    rewrite <- ?Z.add_assoc; replace (_ <=? _) with false by lia;
    rewrite !rd_app_add by lia; rd_simpl; cbn -[len u8 u32 Z.lor Z.shiftl Z.shiftr Z.add].
  - rewrite u8_id by (unfold byte_ok; lia). repeat f_equal; lia.
  - rewrite assemble2, Z.mod_small by lia. repeat f_equal; lia.
  - rewrite assemble4, Z.mod_small by lia. unfold u32. rewrite wrapU_id by (unfold in_u; lia).
    repeat f_equal; lia.
Qed.

(** The pieces of an encoded block, with their positions. *)
Lemma msgpack_decode_encoding devno offset data post :
  in_s 32 devno → in_s 64 offset → len data < 2 ^ 32 →
  let buf := block_encoding devno offset data ++ post in
  ∃ pos, msgpack_decode_block buf (len buf) = Ret (devno, offset, pos, len data) ∧
         0 ≤ pos ∧ zdrop pos buf = data ++ post.
Proof.
  intros Hd Ho Hl. cbv zeta.
  set (e := int32_encoding devno). set (h := bin_header (len data)).
  set (o := int64_encoding offset).
  assert (Hbuf : block_encoding devno offset data ++ post =
    [MSGPACK_FIXMAP_3; 0] ++ e ++ 1 :: o ++ 2 :: h ++ data ++ post).
  { unfold block_encoding. fold e h o. by rewrite <- !app_assoc. }
  rewrite Hbuf. set (buf := [MSGPACK_FIXMAP_3; 0] ++ e ++ 1 :: o ++ 2 :: h ++ data ++ post).
  assert (Hlen : len buf = 2 + len e + 1 + 9 + 1 + len h + len data + len post).
  { unfold buf, o. len_norm. rewrite len_int64_encoding. lia. }
  pose proof (len_int32_encoding devno) as He. pose proof (len_bin_header (len data)) as Hh.
  pose proof (len_nonneg data). pose proof (len_nonneg post). fold e in He. fold h in Hh.
  exists (2 + len e + 1 + 9 + 1 + len h). split; [|split; [lia|]].
  - unfold msgpack_decode_block.
    assert (E0 : expect_byte buf (len buf) 0 MSGPACK_FIXMAP_3 = Ret tt)
      by exact (expect_byte_app [] _ _ _ _ eq_refl eq_refl).
    assert (E1 : expect_byte buf (len buf) 1 0 = Ret tt)
      by exact (expect_byte_app [MSGPACK_FIXMAP_3] _ _ _ _ eq_refl eq_refl).
    assert (E2 : msgpack_read_int (zdrop 2 buf) (len buf - 2) = Ret (devno, len e)).
    { etransitivity; [|by apply (read_int32 devno (1 :: o ++ 2 :: h ++ data ++ post))].
      unfold buf. rewrite zdrop_app_exact by done. f_equal. fold e. len_norm. lia. }
    assert (E3 : expect_byte buf (len buf) (2 + len e) 1 = Ret tt).
    { unfold buf. rewrite app_assoc. by apply expect_byte_app; [|len_norm; lia]. }
    assert (E4 : msgpack_read_int (zdrop (2 + len e + 1) buf) (len buf - (2 + len e + 1)) = Ret (offset, 9)).
    { etransitivity; [|by apply (read_int64 offset (2 :: h ++ data ++ post))].
      replace buf with (([MSGPACK_FIXMAP_3; 0] ++ e ++ [1]) ++ o ++ 2 :: h ++ data ++ post)
        by (unfold buf; by rewrite <- !app_assoc).
      rewrite zdrop_app_exact by (len_norm; lia). f_equal. fold o. len_norm. lia. }
    assert (E5 : expect_byte buf (len buf) (2 + len e + 1 + 9) 2 = Ret tt).
    { replace buf with (([MSGPACK_FIXMAP_3; 0] ++ e ++ 1 :: o) ++ 2 :: h ++ data ++ post)
        by (unfold buf; by rewrite <- !app_assoc).
      apply expect_byte_app; [done|]. len_norm. unfold o. rewrite len_int64_encoding. lia. }
    assert (E6 := read_bin_header ([MSGPACK_FIXMAP_3; 0] ++ e ++ 1 :: o ++ [2]) data post
                    (len buf) (2 + len e + 1 + 9 + 1) Hl).
    replace (([MSGPACK_FIXMAP_3; 0] ++ e ++ 1 :: o ++ [2]) ++ bin_header (len data) ++ data ++ post)
      with buf in E6 by (unfold buf, h; by app_norm).
    specialize (E6 eq_refl). unfold mbind, cres_bind in *.
    rewrite E0, E1, E2. unfold s32. rewrite wrapS_id by (lia || done). rewrite E3, E4, E5.
    replace (len buf <=? _) with false by lia.
    specialize (E6 ltac:(len_norm; unfold o; rewrite len_int64_encoding; lia)).
    destruct (rd buf (2 + len e + 1 + 9 + 1)) as [tag| |]; try done. rewrite E6. fold h.
    replace (len buf <? _) with false by lia. done.
  - replace buf with (([MSGPACK_FIXMAP_3; 0] ++ e ++ 1 :: o ++ 2 :: h) ++ data ++ post).
    + apply zdrop_app_exact. len_norm. unfold o. rewrite len_int64_encoding. lia.
    + unfold buf. by app_norm.
Qed.

(** ** The loop around the decoder

    [rc = protocol_decode(s, tmp_buf, n, msg); while (rc == 1) { ...;
    rc = protocol_decode(s, NULL, 0, msg); }] with the loop's body as the
    parameter [act].  A decoded frame removes at least its four-byte header,
    so the number of buffered bytes bounds the turns. *)
Section Loop.
Context `{Zstd} {W : Type} (act : W → session_t → decoded_msg → W * session_t).

Fixpoint decode_loop (fuel : nat) (w : W) (rs : decode_res * session_t) : W * session_t * bool :=
  match rs with
  | (DecodeError, s) => (w, s, false)
  | (DecodeMore, s) => (w, s, true)
  | (Decoded m, s) =>
      match fuel with
      | O => (w, s, true)
      | S fuel' => let '(w, s) := act w s m in decode_loop fuel' w (protocol_decode s [])
      end
  end.

Definition decode_chunk (w : W) (s : session_t) (chunk : list Z) : W * session_t * bool :=
  decode_loop (length (s_recv_buf s) + length chunk) w (protocol_decode s chunk).

(** The chunks of a stream one after the other, as the receive loop gets them. *)
Fixpoint decode_chunks (w : W) (s : session_t) (chunks : list (list Z)) : W * session_t * bool :=
  match chunks with
  | [] => (w, s, true)
  | c :: cs =>
      let '(w, s, ok) := decode_chunk w s c in
      if ok then decode_chunks w s cs else (w, s, false)
  end.

(** The body's effect for a list of messages. *)
Definition run_msgs (w : W) (s : session_t) (ms : list decoded_msg) : W * session_t :=
  foldl (λ ws m, act ws.1 ws.2 m) (w, s) ms.

End Loop.

#[global] Arguments decode_loop : simpl never.

Lemma with_recv_buf_twice s a b : with_recv_buf (with_recv_buf s a) b = with_recv_buf s b.
Proof. done. Qed.

Lemma with_recv_buf_id s : with_recv_buf s (s_recv_buf s) = s.
Proof. by destruct s. Qed.

(** ** Frames on the buffer *)

(** [f] is a frame for the message [m], small enough to be buffered beside a
    read of 64 KB. *)
Definition frame_of `{Zstd} (m : decoded_msg) (f : list Z) : Prop :=
  ∃ p, f = control_frame p ∧ decode_frame p (len p) = Some m ∧
       4 + len p ≤ RECV_BUF_SIZE - 65536.

Section Frames.
Context `{Zstd}.

Lemma protocol_decode_append s chunk :
  recv_len s + len chunk ≤ RECV_BUF_SIZE →
  protocol_decode s chunk = protocol_decode (with_recv_buf s (s_recv_buf s ++ chunk)) [].
Proof.
  intros Hl. unfold protocol_decode.
  replace (RECV_BUF_SIZE <? recv_len s + len chunk) with false by lia.
  rewrite andb_false_r. change (len (@nil Z)) with 0. cbn [andb Z.ltb Z.compare].
  change (s_recv_buf (with_recv_buf s (s_recv_buf s ++ chunk))) with (s_recv_buf s ++ chunk).
  by rewrite app_nil_r.
Qed.

(** The header of a buffer that holds at least four bytes of a frame. *)
Lemma frame_header (n : Z) (p t : list Z) k :
  0 ≤ n < 2 ^ 32 → 4 ≤ k → be_val (ztake 4 (ztake k (be_bytes 4 n ++ p) ++ t)) = n.
Proof.
  intros Hn Hk. pose proof (len_be_bytes 4 n).
  assert (E : ztake 4 (ztake k (be_bytes 4 n ++ p) ++ t) = be_bytes 4 n).
  { rewrite ztake_app_le by (rewrite len_ztake; len_norm; pose proof (len_nonneg p); lia).
    unfold ztake. rewrite take_take. replace (_ `min` _)%nat with 4%nat by lia.
    by apply take_app_length'; rewrite length_be_bytes. }
  rewrite E, be_val_bytes. apply Z.mod_small. done.
Qed.

Lemma protocol_decode_whole s p rest :
  4 + len p ≤ RECV_BUF_SIZE → s_recv_buf s = control_frame p ++ rest →
  protocol_decode s [] =
  (match decode_frame p (len p) with Some m => Decoded m | None => DecodeError end,
   with_recv_buf s rest).
Proof.
  intros Hl Hb. unfold protocol_decode. change (len (@nil Z)) with 0. cbn [Z.ltb Z.compare andb].
  rewrite app_nil_r, with_recv_buf_id. unfold recv_len, TCP_FRAME_HEADER_SIZE. rewrite Hb.
  pose proof (len_nonneg p). pose proof (len_nonneg rest). unfold RECV_BUF_SIZE in Hl.
  assert (Hh : be_val (ztake 4 (control_frame p ++ rest)) = len p).
  { pose proof (frame_header (len p) p rest (4 + len p) ltac:(lia) ltac:(lia)) as E.
    rewrite (ztake_ge (4 + len p)) in E by (len_norm; lia). exact E. }
  rewrite Hh. unfold control_frame. len_norm.
  replace (_ <? 4) with false by lia. replace (_ <? len p) with false by lia.
  replace (_ <? 4 + len p) with false by lia.
  rewrite <- app_assoc, (zdrop_app_exact 4) by done. rewrite ztake_app_exact by done.
  rewrite app_assoc, zdrop_app_exact by (len_norm; lia).
  by destruct (decode_frame p (len p)).
Qed.

Lemma protocol_decode_partial s p t :
  4 + len p ≤ RECV_BUF_SIZE → s_recv_buf s ++ t = control_frame p → t ≠ [] →
  protocol_decode s [] = (DecodeMore, s).
Proof.
  intros Hl Hb Ht. unfold protocol_decode. change (len (@nil Z)) with 0. cbn [Z.ltb Z.compare andb].
  rewrite app_nil_r, with_recv_buf_id. unfold recv_len, TCP_FRAME_HEADER_SIZE.
  destruct (Z.ltb_spec (len (s_recv_buf s)) 4) as [|H4]; [done|].
  assert (Hlen : len (s_recv_buf s) + len t = 4 + len p).
  { rewrite <- len_app, Hb. unfold control_frame. by len_norm. }
  assert (Hs : s_recv_buf s = ztake (len (s_recv_buf s)) (control_frame p) ++ []).
  { by rewrite <- Hb, ztake_app_exact, app_nil_r. }
  pose proof (len_nonneg p). unfold RECV_BUF_SIZE in Hl.
  replace (be_val (ztake 4 (s_recv_buf s))) with (len p).
  2: { rewrite Hs at 1. unfold control_frame. rewrite frame_header; lia. }
  replace (_ <? len p) with false by lia.
  replace (len (s_recv_buf s) <? 4 + len p) with true; [done|].
  assert (len t ≠ 0) by (intros ?%len_zero_nil; done). pose proof (len_nonneg t). lia.
Qed.

End Frames.

(** ** Streams of frames *)

(** What is buffered is less than the next frame. *)
Definition short_of (b : list Z) (fs : list (list Z)) : Prop :=
  match fs with [] => b = [] | f :: _ => len b < len f end.

Lemma frame_of_len `{Zstd} m f : frame_of m f → 4 ≤ len f ≤ RECV_BUF_SIZE - 65536.
Proof.
  intros (p & -> & _ & Hp). unfold control_frame. len_norm. pose proof (len_nonneg p). lia.
Qed.

Lemma short_of_bound `{Zstd} ms fs b :
  Forall2 frame_of ms fs → short_of b fs → len b ≤ RECV_BUF_SIZE - 65536.
Proof.
  intros HF Hs. destruct HF as [|m f ms fs Hf HF]; simpl in Hs.
  - rewrite Hs. unfold RECV_BUF_SIZE. len_norm. lia.
  - apply frame_of_len in Hf. lia.
Qed.

Section Streams.
Context `{Zstd} {W : Type} (act : W → session_t → decoded_msg → W * session_t).
Context (act_buf : ∀ w s b m,
  act w (with_recv_buf s b) m = ((act w s m).1, with_recv_buf (act w s m).2 b)).

(** The session after some messages, with [b] left in its buffer. *)
Definition after_msgs (w : W) (s : session_t) (ms : list decoded_msg) (b : list Z)
    : W * session_t * bool :=
  ((run_msgs act w s ms).1, with_recv_buf (run_msgs act w s ms).2 b, true).

Lemma run_msgs_buf ms : ∀ w s b,
  run_msgs act w (with_recv_buf s b) ms =
  ((run_msgs act w s ms).1, with_recv_buf (run_msgs act w s ms).2 b).
Proof.
  unfold run_msgs. induction ms as [|m ms IH]; intros w s b; [done|]. cbn.
  rewrite act_buf, IH. by destruct (act w s m).
Qed.

Lemma decode_loop_frames ms fs :
  Forall2 frame_of ms fs → ∀ fuel w s t,
  s_recv_buf s ++ t = concat fs → (length (s_recv_buf s) ≤ fuel)%nat →
  ∃ ms1 ms2 fs2 b, ms = ms1 ++ ms2 ∧ Forall2 frame_of ms2 fs2 ∧ b ++ t = concat fs2 ∧
    short_of b fs2 ∧ decode_loop act fuel w (protocol_decode s []) = after_msgs w s ms1 b.
Proof.
  induction 1 as [|m f ms fs Hf HF IH]; intros fuel w s t Hb Hfuel.
  - cbn in Hb. apply app_eq_nil in Hb as [Hb ->].
    exists [], [], [], []. do 3 (split; [done|]). split; [done|].
    unfold protocol_decode. rewrite Hb. cbn. unfold recv_len; cbn.
    unfold decode_loop, after_msgs. by destruct fuel.
  - pose proof (frame_of_len m f Hf) as Hlf. destruct Hf as (p & -> & Hdec & Hp).
    cbn [concat] in Hb. apply app_eq_inv in Hb as [(k & Hs & Hk)|(k & Hs & Hk)].
    + rewrite (protocol_decode_whole s p k) by (lia || done). rewrite Hdec.
      destruct fuel as [|fuel]; [rewrite Hs, length_app in Hfuel; unfold len in Hlf; lia|].
      unfold decode_loop; fold (decode_loop act). rewrite act_buf.
      destruct (IH fuel (act w s m).1 (with_recv_buf (act w s m).2 k) t (eq_sym Hk))
        as (ms1 & ms2 & fs2 & b & -> & HF2 & Hb & Hsh & He).
      { cbn. rewrite Hs, length_app in Hfuel. unfold len in Hlf. lia. }
      exists (m :: ms1), ms2, fs2, b. do 4 (split; [done|]). rewrite He.
      unfold after_msgs. rewrite run_msgs_buf. cbn. unfold run_msgs; cbn.
      by destruct (act w s m).
    + destruct k as [|x k].
      * (* the buffer holds exactly the frame *)
        rewrite app_nil_r in Hs. cbn in Hk.
        rewrite (protocol_decode_whole s p []) by (lia || by rewrite app_nil_r). rewrite Hdec.
        destruct fuel as [|fuel]; [rewrite <- Hs in Hfuel; unfold len in Hlf; lia|].
        unfold decode_loop; fold (decode_loop act). rewrite act_buf.
        destruct (IH fuel (act w s m).1 (with_recv_buf (act w s m).2 []) t)
          as (ms1 & ms2 & fs2 & b & -> & HF2 & Hb & Hsh & He); [done|cbn; lia|].
        exists (m :: ms1), ms2, fs2, b. do 4 (split; [done|]). rewrite He.
        unfold after_msgs. rewrite run_msgs_buf. cbn. unfold run_msgs; cbn.
        by destruct (act w s m).
      * rewrite (protocol_decode_partial s p (x :: k)) by (lia || done).
        exists [], (m :: ms), (control_frame p :: fs), (s_recv_buf s).
        split; [done|]. split; [by constructor; [exists p|]|].
        split; [by rewrite Hk, app_assoc, <- Hs|]. split.
        { simpl. rewrite Hs. len_norm. pose proof (len_nonneg k). lia. }
        unfold after_msgs, run_msgs; cbn. rewrite with_recv_buf_id.
        unfold decode_loop. by destruct fuel.
Qed.

Lemma decode_chunks_frames chunks : ∀ ms fs w s t,
  Forall2 frame_of ms fs → Forall (λ c, len c ≤ 65536) chunks →
  s_recv_buf s ++ concat chunks ++ t = concat fs → short_of (s_recv_buf s) fs →
  ∃ ms1 ms2 fs2 b, ms = ms1 ++ ms2 ∧ Forall2 frame_of ms2 fs2 ∧ b ++ t = concat fs2 ∧
    short_of b fs2 ∧ decode_chunks act w s chunks = after_msgs w s ms1 b.
Proof.
  induction chunks as [|c cs IH]; intros ms fs w s t HF HC Hb Hsh.
  - exists [], ms, fs, (s_recv_buf s). do 4 (split; [done|]).
    unfold after_msgs, run_msgs; cbn. by rewrite with_recv_buf_id.
  - apply Forall_cons in HC as [Hc HC]. cbn [decode_chunks]. unfold decode_chunk.
    pose proof (short_of_bound _ _ _ HF Hsh).
    rewrite protocol_decode_append by (unfold recv_len; lia).
    set (s1 := with_recv_buf s (s_recv_buf s ++ c)).
    destruct (decode_loop_frames ms fs HF (length (s_recv_buf s) + length c) w s1 (concat cs ++ t))
      as (ms1 & ms2 & fs2 & b & -> & HF2 & Hb2 & Hsh2 & ->).
    { cbn in Hb |- *. by rewrite <- Hb, <- !app_assoc. }
    { cbn. by rewrite length_app. }
    unfold after_msgs at 1. unfold s1. rewrite run_msgs_buf. cbn [fst snd].
    rewrite with_recv_buf_twice.
    destruct (IH ms2 fs2 (run_msgs act w s ms1).1 (with_recv_buf (run_msgs act w s ms1).2 b) t
                HF2 HC Hb2 Hsh2) as (ms3 & ms4 & fs4 & b' & -> & HF4 & Hb4 & Hsh4 & ->).
    exists (ms1 ++ ms3), ms4, fs4, b'. split; [by rewrite <- app_assoc|].
    do 3 (split; [done|]). unfold after_msgs. rewrite run_msgs_buf. cbn [fst snd].
    rewrite with_recv_buf_twice. unfold run_msgs. rewrite foldl_app.
    by destruct (foldl _ (w, s) ms1).
Qed.

(** A whole stream: every message, once, in order, and nothing left over. *)
Lemma decode_chunks_stream chunks ms fs w s :
  Forall2 frame_of ms fs → Forall (λ c, len c ≤ 65536) chunks →
  concat chunks = concat fs → s_recv_buf s = [] →
  decode_chunks act w s chunks = after_msgs w s ms [].
Proof.
  intros HF HC Hc Hs.
  destruct (decode_chunks_frames chunks ms fs w s [] HF HC)
    as (ms1 & ms2 & fs2 & b & -> & HF2 & Hb & Hsh & ->).
  { by rewrite Hs, app_nil_r. }
  { rewrite Hs. destruct HF as [|m f]; [done|]. simpl.
    pose proof (frame_of_len m f ltac:(done)). len_norm. lia. }
  destruct HF2 as [|m f ms2 fs2 Hf HF2].
  - simpl in Hsh. by rewrite Hsh, app_nil_r.
  - simpl in Hsh. rewrite app_nil_r in Hb. rewrite Hb in Hsh. cbn in Hsh.
    rewrite len_app in Hsh. pose proof (len_nonneg (concat fs2)). lia.
Qed.

End Streams.

(** ** The frames the client sends *)

Inductive wire_frame `{Zstd} : decoded_msg → list Z → Prop :=
  | wf_block devno offset data level c :
      in_s 32 devno → in_s 64 offset → bytes_ok data → len data ≤ BLOCK_SIZE_MAX →
      ZSTD_compress (ZSTD_COMPRESS_BOUND (len (block_encoding devno offset data)))
        (block_encoding devno offset data) level = Some c →
      wire_frame (DECODE_DATA_BLOCK devno offset data) (data_frame c)
  | wf_incremental :
      wire_frame DECODE_CTL_INCREMENTAL (control_frame (ztake CTL_INCREMENTAL_LEN CTL_INCREMENTAL))
  | wf_end_incremental :
      wire_frame DECODE_CTL_END_INCREMENTAL
        (control_frame (ztake CTL_END_INCREMENTAL_LEN CTL_END_INCREMENTAL)).

Section WireFrames.
Context `{ZstdOk}.

Lemma data_frame_control c : data_frame c = control_frame (FRAME_MAGIC ++ c).
Proof.
  unfold data_frame, control_frame. f_equal. f_equal. rewrite len_app. done.
Qed.

Lemma decode_frame_block devno offset data cap level c :
  in_s 32 devno → in_s 64 offset → bytes_ok data → len data ≤ BLOCK_SIZE_MAX →
  ZSTD_compress cap (block_encoding devno offset data) level = Some c →
  decode_frame (FRAME_MAGIC ++ c) (len (FRAME_MAGIC ++ c)) =
  Some (DECODE_DATA_BLOCK devno offset data).
Proof.
  intros Hd Ho Hb Hl Hc. pose proof (block_encoding_ok devno offset data Hb) as Hbe.
  pose proof (len_block_encoding devno offset data) as Hle.
  destruct (zstd_compress_fits _ _ _ _ Hbe Hc) as [Hcl _].
  unfold decode_frame. rewrite len_app. change (len FRAME_MAGIC) with 3.
  unfold FRAME_MAGIC_LEN at 1. replace (3 <=? 3 + len c) with true by lia.
  rewrite bool_decide_true by (by apply ztake_app_exact). cbn [andb].
  unfold decode_data_frame. rewrite (zdrop_app_exact FRAME_MAGIC_LEN) by done.
  unfold FRAME_MAGIC_LEN. replace (3 + len c - 3 =? 0) with false by lia.
  rewrite (zstd_content_size _ _ _ _ Hbe Hc). cbn [mbind option_bind].
  unfold BLOCK_SIZE_MAX, BLOCK_SIZE in *. replace (_ <? _) with false by lia.
  rewrite (zstd_decompress_compress _ _ _ _ Hbe Hc). cbn [mbind option_bind].
  destruct (msgpack_decode_encoding devno offset data [] Hd Ho ltac:(lia)) as (pos & E & Hp & Hz).
  rewrite app_nil_r in E, Hz. rewrite E, Hz. f_equal. f_equal.
  by apply ztake_app_exact.
Qed.

Lemma wire_frame_of m f : wire_frame m f → frame_of m f.
Proof.
  intros [devno offset data level c Hd Ho Hb Hl Hc| |].
  - exists (FRAME_MAGIC ++ c). split; [apply data_frame_control|].
    split; [by eapply decode_frame_block|].
    pose proof (block_encoding_ok devno offset data Hb) as Hbe.
    destruct (zstd_compress_fits _ _ _ _ Hbe Hc) as [Hcl _].
    pose proof (len_block_encoding devno offset data) as Hle.
    unfold ZSTD_COMPRESS_BOUND, BLOCK_SIZE_MAX, BLOCK_SIZE, RECV_BUF_SIZE in *.
    assert (len (block_encoding devno offset data) / 8 ≤ 131075)
      by (apply Z.div_le_upper_bound; lia).
    rewrite len_app. change (len FRAME_MAGIC) with 3. lia.
  - eexists. split; [done|]. by split; [vm_compute|].
  - eexists. split; [done|]. by split; [vm_compute|].
Qed.

Lemma wire_frames_of ms fs : Forall2 wire_frame ms fs → Forall2 frame_of ms fs.
Proof. intros HF. eapply Forall2_impl; [done|]. apply wire_frame_of. Qed.

End WireFrames.

(** A decoded block fits [out->data]. *)
Lemma decode_frame_data_fits `{ZstdOk} p d o data :
  bytes_ok p → decode_frame p (len p) = Some (DECODE_DATA_BLOCK d o data) →
  len data ≤ DECODED_DATA_SIZE.
Proof.
  intros Hb. unfold decode_frame, decode_control_frame. repeat case_test; try done.
  unfold decode_data_frame. case_test; [done|].
  destruct (ZSTD_getFrameContentSize _) as [sz|]; cbn [mbind option_bind]; [|done].
  case_test; [done|].
  destruct (ZSTD_decompress sz _) as [out|] eqn:Ez; cbn [mbind option_bind]; [|done].
  apply zstd_decompress_fits in Ez as [Hsz Hout]; [|by apply Forall_zdrop].
  pose proof (msgpack_decode_block_safe out Hout) as Hs.
  destruct (msgpack_decode_block out (len out)) as [[[[d' o'] pos] n]| |]; try done.
  intros [= <- <- <-]. simpl in Hs. rewrite len_ztake, len_zdrop.
  unfold DECODED_DATA_SIZE, BLOCK_SIZE_MAX, BLOCK_SIZE in *. lia.
Qed.

(** ** Properties *)

(** C9 (msgpack_decode_memory_safe): on every byte string the MsgPack decoder
    stays inside its buffer: no read is out of bounds, and when it succeeds the
    block it reports, [out_data .. out_data + out_len), lies inside the buffer
    too. *)
Theorem msgpack_decode_memory_safe buf :
  bytes_ok buf →
  match msgpack_decode_block buf (len buf) with
  | Ret (_, _, pos, n) => 0 < pos ∧ 0 ≤ n ∧ pos + n ≤ len buf
  | Rej => True
  | Oob => False
  end.
Proof.
  intros Hb. pose proof (msgpack_decode_block_safe buf Hb) as H.
  destruct (msgpack_decode_block buf (len buf)) as [[[[d o] p] n]| |]; simpl in H; try done. lia.
Qed.

Lemma msgpack_decode_memory_safe_witness :
  bytes_ok [0x93; 0; 5; 1; 0xd2; 0; 0; 1; 0; 2; 0xc4; 2; 7; 8] ∧
  msgpack_decode_block [0x93; 0; 5; 1; 0xd2; 0; 0; 1; 0; 2; 0xc4; 2; 7; 8] 14 = Ret (5, 256, 12, 2) ∧
  12 + 2 ≤ 14.
Proof.
  assert (Hb : bytes_ok [0x93; 0; 5; 1; 0xd2; 0; 0; 1; 0; 2; 0xc4; 2; 7; 8])
    by (repeat constructor; discriminate).
  split; [exact Hb|]. split; [vm_compute; reflexivity|].
  pose proof (msgpack_decode_memory_safe _ Hb) as H. vm_compute in H. destruct H as (_ & _ & H).
  exact H.
Defined.

(** C10 (msgpack_roundtrip): the receiver's decoder inverts the sender's encoder:
    whatever writer [msgpack_encode_block] starts from, when it succeeds its
    output decodes to the same device number, offset and data. *)
Theorem msgpack_roundtrip realloc_ok w devno offset data w' :
  in_s 32 devno → in_s 64 offset → len data ≤ BLOCK_SIZE_MAX →
  writer_ok w → msgpack_encode_block realloc_ok w devno offset data = Some w' →
  ∃ pos, msgpack_decode_block (wr_data w') (wr_written w') = Ret (devno, offset, pos, len data) ∧
         ztake (len data) (zdrop pos (wr_data w')) = data.
Proof.
  intros Hd Ho Hl Hw He. unfold BLOCK_SIZE_MAX, BLOCK_SIZE in Hl.
  pose proof (len_nonneg (wr_data w)). destruct Hw as [Hw1 Hw2]. unfold wr_written in Hw1.
  apply encode_block_data in He as [Hdata _]; [|lia..].
  destruct (msgpack_decode_encoding devno offset data [] Hd Ho ltac:(lia)) as (pos & E & Hp & Hz).
  exists pos. rewrite app_nil_r in E, Hz. unfold wr_written. rewrite Hdata. split; [done|].
  rewrite Hz. by apply ztake_app_exact.
Qed.

Lemma msgpack_roundtrip_witness :
  ∃ w' pos, msgpack_encode_block alloc_always (msgpack_writer_init alloc_always) (-5) 4096 [7; 8] = Some w' ∧
    msgpack_decode_block (wr_data w') (wr_written w') = Ret (-5, 4096, pos, 2) ∧
    ztake 2 (zdrop pos (wr_data w')) = [7; 8].
Proof.
  destruct (msgpack_encode_block alloc_always (msgpack_writer_init alloc_always) (-5) 4096 [7; 8])
    as [w'|] eqn:E; [|vm_compute in E; discriminate].
  exists w'.
  destruct (msgpack_roundtrip alloc_always (msgpack_writer_init alloc_always) (-5) 4096 [7; 8] w')
    as (pos & H1 & H2); [vm_compute; repeat split; congruence..|exact E|].
  exists pos. split; [reflexivity|]. split; [exact H1|exact H2].
Defined.

(** C8 (decode_any_chunking): a stream of frames as the client sends them (data
    blocks, ctlIncremental, ctlEndIncremental, in any order) reaches the
    receive loop in chunks of at most 64 KB cut anywhere: inside a header,
    inside a payload, or spanning frames.  The receive loop then decodes
    exactly the messages that were sent, once each and in order, reports no
    protocol error, and ends with an empty buffer. *)
Theorem decode_any_chunking `{ZstdOk} ms frames chunks s :
  Forall2 wire_frame ms frames → concat chunks = concat frames →
  Forall (λ c, len c ≤ 65536) chunks → s_recv_buf s = [] →
  decode_chunks (λ out s m, (out ++ [m], s)) [] s chunks = (ms, s, true).
Proof.
  intros HF Hc HC Hs.
  rewrite (decode_chunks_stream (λ out s m, (out ++ [m], s)) (λ w s b m, eq_refl) chunks ms frames);
    [|by apply wire_frames_of|done|done|done].
  assert (Hr : ∀ ms w, run_msgs (λ out s m, (out ++ [m], s)) w s ms = (w ++ ms, s)).
  { clear. intros ms. unfold run_msgs. induction ms as [|m ms IH]; intros w; cbn.
    - by rewrite app_nil_r.
    - by rewrite IH, <- app_assoc. }
  unfold after_msgs. rewrite Hr. cbn. by rewrite <- Hs, with_recv_buf_id.
Qed.

Lemma decode_any_chunking_witness :
  let s := mk_session 4 [] 0 0 0 0 0 [] in
  let f1 := control_frame (ztake 15 CTL_INCREMENTAL) in
  let f2 := control_frame (ztake 17 CTL_END_INCREMENTAL) in
  decode_chunks (λ out s m, (out ++ [m], s)) [] s
    [ztake 3 f1; zdrop 3 f1 ++ ztake 5 f2; zdrop 5 f2] =
  ([DECODE_CTL_INCREMENTAL; DECODE_CTL_END_INCREMENTAL], s, true).
Proof.
  intros s f1 f2. apply (decode_any_chunking _ [f1; f2]).
  - repeat constructor.
  - vm_compute. reflexivity.
  - repeat constructor; vm_compute; discriminate.
  - reflexivity.
Defined.

(** [protocol_decode_bounds]: whatever bytes arrive, [protocol_decode] keeps
    the session's buffer within its 4 MB and only shortens or extends it (the
    rest of the session is untouched); a message is reported only after a whole
    frame was buffered, its frame is removed from the buffer, and a decoded
    block fits the message structure. *)
Theorem protocol_decode_bounds `{ZstdOk} s chunk r s' :
  bytes_ok (s_recv_buf s) → bytes_ok chunk → recv_len s ≤ RECV_BUF_SIZE →
  protocol_decode s chunk = (r, s') →
  recv_len s' ≤ RECV_BUF_SIZE ∧ bytes_ok (s_recv_buf s') ∧
  s' = with_recv_buf s (s_recv_buf s') ∧
  match r with
  | DecodeError => True
  | DecodeMore => s_recv_buf s' = s_recv_buf s ++ chunk
  | Decoded m =>
      (∃ payload, s_recv_buf s ++ chunk = control_frame payload ++ s_recv_buf s' ∧
                  decode_frame payload (len payload) = Some m) ∧
      match m with
      | DECODE_DATA_BLOCK _ _ data => len data ≤ DECODED_DATA_SIZE
      | _ => True
      end
  end.
Proof.
  intros Hb Hbc Hl E. unfold protocol_decode in E.
  destruct ((0 <? len chunk) && (RECV_BUF_SIZE <? recv_len s + len chunk)) eqn:Hov.
  { injection E as <- <-. by rewrite with_recv_buf_id. }
  set (buf := s_recv_buf s ++ chunk) in *.
  assert (Hbb : bytes_ok buf) by (by apply Forall_app).
  assert (Hbl : len buf ≤ RECV_BUF_SIZE).
  { unfold buf, recv_len in *. rewrite len_app. pose proof (len_nonneg chunk). lia. }
  unfold recv_len in E. cbn [s_recv_buf with_recv_buf] in E.
  case_test_in E; [by injection E as <- <-|].
  case_test_in E; [by injection E as <- <-|].
  case_test_in E; [by injection E as <- <-|].
  unfold TCP_FRAME_HEADER_SIZE in *.
  set (n := be_val (ztake 4 buf)) in *.
  assert (Hn : 0 ≤ n).
  { pose proof (be_val_range (ztake 4 buf) (Forall_ztake _ _ _ Hbb)). lia. }
  set (p := ztake n (zdrop 4 buf)) in *.
  assert (Hp : len p = n) by (unfold p; rewrite len_ztake, len_zdrop; lia).
  assert (Hcut : buf = control_frame p ++ zdrop (4 + n) buf).
  { unfold control_frame. rewrite Hp, <- (ztake_zdrop 4 buf) at 1. rewrite <- app_assoc. f_equal.
    - unfold n. rewrite <- (be_bytes_val (ztake 4 buf)) at 1 by auto with g2c.
      f_equal. assert (Hz : len (ztake 4 buf) = 4) by (rewrite len_ztake; lia).
      unfold len in Hz. lia.
    - rewrite <- (zdrop_zdrop n 4) by lia. symmetry. apply ztake_zdrop. }
  assert (Hrest : len (zdrop (4 + n) buf) ≤ RECV_BUF_SIZE).
  { rewrite len_zdrop. lia. }
  rewrite <- Hp in E.
  destruct (decode_frame p (len p)) as [m|] eqn:Ed; injection E as <- <-; cbn;
    rewrite Hp; (split; [done|]); (split; [by apply Forall_zdrop|]); (split; [done|]); [|done].
  split; [by exists p|].
  destruct m as [d o data| |]; try done.
  apply (decode_frame_data_fits p d o data); [|done]. by apply Forall_ztake, Forall_zdrop.
Qed.

Lemma protocol_decode_bounds_witness :
  ∃ s', protocol_decode (mk_session 4 [] 0 0 0 0 0 [0; 0; 0; 17]) (string_bytes "ctlEndIncremental!") =
        (Decoded DECODE_CTL_END_INCREMENTAL, s') ∧ recv_len s' ≤ RECV_BUF_SIZE.
Proof.
  destruct (protocol_decode (mk_session 4 [] 0 0 0 0 0 [0; 0; 0; 17]) (string_bytes "ctlEndIncremental!"))
    as [r s'] eqn:E.
  exists s'.
  assert (Hb : bytes_ok [0; 0; 0; 17]) by (repeat constructor; discriminate).
  assert (Hl : recv_len (mk_session 4 [] 0 0 0 0 0 [0; 0; 0; 17]) ≤ RECV_BUF_SIZE)
    by (vm_compute; discriminate).
  destruct (protocol_decode_bounds (mk_session 4 [] 0 0 0 0 0 [0; 0; 0; 17]) _ r s' Hb (string_bytes_ok _) Hl E) as [H _].
  split; [|exact H]. apply (f_equal fst) in E. vm_compute in E. rewrite <- E. reflexivity.
Defined.
