(* ===== verification/BlockWriter.v ===== *)
(** * Writing blocks to the target disks (server/block_writer.c)

    The module's globals are the record [writer_state].  The files behind the
    disks are kept apart from what has reached stable storage: [k_files] is
    what a reader sees, [k_synced] what survives a crash.  The answers of the
    kernel are scripts (an interrupted or short [write], a failing [fsync] or
    [open]); an exhausted script means the calls succeed in full (for [open]:
    fail). *)

From S2P Require Import Prelude.

Definition MAX_TARGET_DISKS : Z := 16.
Definition FSYNC_BLOCK_INTERVAL : Z := 2000.
Definition DISK_PATH_SIZE : Z := 512.

Record target_disk := mk_disk {
  d_fd : Z;
  d_path : list Z;
  d_registered : Z;
}.

(** The bytes of a file by position; a position never written is absent. *)
Abbreviation content := (gmap Z Z).

Inductive write_ev :=
  | WriteSome (n : Z)   (** [write] stores up to [n] bytes *)
  | WriteIntr           (** -1 with EINTR *)
  | WriteFail.          (** -1 with any other errno *)

Record kernel := mk_kernel {
  k_open : gmap Z (list Z);             (** descriptor -> path *)
  k_files : gmap (list Z) content;
  k_synced : gmap (list Z) content;
  k_opens : list (option Z);            (** results of the next [open] calls *)
  k_writes : list write_ev;
  k_fsyncs : list bool;
}.

Record writer_state := mk_bw {
  g_disks : list target_disk;
  g_total_blocks : Z;
  g_total_bytes : Z;
  g_blocks_since_fsync : Z;
  g_pending_bytes : Z;
  bw_kernel : kernel;
}.

Definition with_kernel (b : writer_state) (k : kernel) : writer_state :=
  mk_bw (g_disks b) (g_total_blocks b) (g_total_bytes b) (g_blocks_since_fsync b)
        (g_pending_bytes b) k.

Definition with_disks (b : writer_state) (ds : list target_disk) : writer_state :=
  mk_bw ds (g_total_blocks b) (g_total_bytes b) (g_blocks_since_fsync b)
        (g_pending_bytes b) (bw_kernel b).

(** ** System calls *)

Definition file_of (k : kernel) (fd : Z) : content :=
  default ∅ (p ← k_open k !! fd; k_files k !! p).

(** The effect of storing [data] at [off]. *)
Fixpoint store (off : Z) (data : list Z) (c : content) : content :=
  match data with
  | [] => c
  | b :: r => store (off + 1) r (<[off := b]> c)
  end.

Definition sys_store (k : kernel) (fd off : Z) (data : list Z) : kernel :=
  match k_open k !! fd with
  | None => k
  | Some p => mk_kernel (k_open k) (<[p := store off data (file_of k fd)]> (k_files k))
                (k_synced k) (k_opens k) (k_writes k) (k_fsyncs k)
  end.

Definition with_writes (k : kernel) (w : list write_ev) : kernel :=
  mk_kernel (k_open k) (k_files k) (k_synced k) (k_opens k) w (k_fsyncs k).

(** [fsync(fd)]: 0 or -1. *)
Definition sys_fsync (k : kernel) (fd : Z) : Z * kernel :=
  let ok := match k_fsyncs k with [] => true | b :: _ => b end in
  let synced := match k_open k !! fd with
                | Some p => <[p := file_of k fd]> (k_synced k)
                | None => k_synced k
                end in
  if ok then (0, mk_kernel (k_open k) (k_files k) synced (k_opens k) (k_writes k) (tail (k_fsyncs k)))
  else (-1, mk_kernel (k_open k) (k_files k) (k_synced k) (k_opens k) (k_writes k) (tail (k_fsyncs k))).

(** [open(path, O_RDWR | O_CREAT, 0644)] *)
Definition sys_open (k : kernel) (path : list Z) : Z * kernel :=
  match k_opens k with
  | Some fd :: r =>
      (fd, mk_kernel (<[fd := path]> (k_open k))
             (<[path := default ∅ (k_files k !! path)]> (k_files k))
             (k_synced k) r (k_writes k) (k_fsyncs k))
  | None :: r => (-1, mk_kernel (k_open k) (k_files k) (k_synced k) r (k_writes k) (k_fsyncs k))
  | [] => (-1, k)
  end.

Definition sys_close (k : kernel) (fd : Z) : kernel :=
  mk_kernel (delete fd (k_open k)) (k_files k) (k_synced k) (k_opens k) (k_writes k) (k_fsyncs k).

(** ** Operations *)

(** [g_pending_bytes] is not among what [block_writer_init] resets. *)
Definition block_writer_init (b : writer_state) : writer_state :=
  mk_bw (replicate (Z.to_nat MAX_TARGET_DISKS) (mk_disk (-1) [] 0)) 0 0 0
        (g_pending_bytes b) (bw_kernel b).

Definition disk_at (b : writer_state) (i : Z) : target_disk :=
  nth (Z.to_nat i) (g_disks b) (mk_disk (-1) [] 0).

Definition block_writer_register (b : writer_state) (devno : Z) (filepath : list Z)
    : Z * writer_state :=
  if (devno <? 0) || (MAX_TARGET_DISKS <=? devno) then (-1, b)
  else (0, with_disks b (<[Z.to_nat devno :=
         mk_disk (d_fd (disk_at b devno)) (ztake (DISK_PATH_SIZE - 1) filepath) 1]> (g_disks b))).

(** The loop from disk [i]; the first failing [open] ends it. *)
Fixpoint open_loop (n : nat) (i : Z) (b : writer_state) : Z * writer_state :=
  match n with
  | O => (0, b)
  | S n' =>
      let d := disk_at b i in
      if d_registered d =? 0 then open_loop n' (i + 1) b
      else
        let '(fd, k) := sys_open (bw_kernel b) (d_path d) in
        let b := with_kernel (with_disks b (<[Z.to_nat i := mk_disk fd (d_path d) (d_registered d)]>
                                              (g_disks b))) k in
        if fd <? 0 then (-1, b) else open_loop n' (i + 1) b
  end.

Definition block_writer_open_all (b : writer_state) : Z * writer_state :=
  open_loop (Z.to_nat MAX_TARGET_DISKS) 0 b.

Fixpoint close_loop (n : nat) (i : Z) (b : writer_state) : writer_state :=
  match n with
  | O => b
  | S n' =>
      let d := disk_at b i in
      if 0 <=? d_fd d then
        let '(_, k) := sys_fsync (bw_kernel b) (d_fd d) in
        let k := sys_close k (d_fd d) in
        close_loop n' (i + 1)
          (with_kernel (with_disks b (<[Z.to_nat i := mk_disk (-1) (d_path d) (d_registered d)]>
                                        (g_disks b))) k)
      else close_loop n' (i + 1) b
  end.

Definition block_writer_close_all (b : writer_state) : writer_state :=
  close_loop (Z.to_nat MAX_TARGET_DISKS) 0 b.

(** Every open disk is synced, also after one of them failed. *)
Fixpoint fsync_loop (ds : list target_disk) (rc : Z) (k : kernel) : Z * kernel :=
  match ds with
  | [] => (rc, k)
  | d :: r =>
      if 0 <=? d_fd d then
        let '(frc, k) := sys_fsync k (d_fd d) in
        fsync_loop r (if frc <? 0 then -1 else rc) k
      else fsync_loop r rc k
  end.

Definition block_writer_fsync_all (b : writer_state) : Z * writer_state :=
  let '(rc, k) := fsync_loop (g_disks b) 0 (bw_kernel b) in (rc, with_kernel b k).

(** The loop over [write], from position [off] with [data] left. *)
Fixpoint write_loop (evs : list write_ev) (k : kernel) (fd off : Z) (data : list Z)
    : Z * kernel :=
  match data with
  | [] => (0, with_writes k evs)
  | _ =>
      match evs with
      | [] => (0, with_writes (sys_store k fd off data) [])
      | WriteIntr :: r => write_loop r k fd off data
      | WriteFail :: r => (-1, with_writes k r)
      | WriteSome n :: r =>
          let n := Z.min (Z.max 0 n) (len data) in
          write_loop r (sys_store k fd off (ztake n data)) fd (off + n) (zdrop n data)
      end
  end.

Definition block_writer_write (b : writer_state) (devno offset : Z) (data : list Z)
    : Z * writer_state :=
  if (devno <? 0) || (MAX_TARGET_DISKS <=? devno) || (d_registered (disk_at b devno) =? 0)
  then (-1, b)
  else
    let fd := d_fd (disk_at b devno) in
    if fd <? 0 then (-1, b)
    else if offset <? 0 then (-1, b)                     (* lseek64: EINVAL *)
    else
      let '(rc, k) := write_loop (k_writes (bw_kernel b)) (bw_kernel b) fd offset data in
      if rc <? 0 then (-1, with_kernel b k)
      else
        let b := mk_bw (g_disks b) (u64 (g_total_blocks b + 1)) (u64 (g_total_bytes b + len data))
                   (u64 (g_blocks_since_fsync b + 1)) (u64 (g_pending_bytes b + len data)) k in
        if FSYNC_BLOCK_INTERVAL <=? g_blocks_since_fsync b then
          let '(_, b) := block_writer_fsync_all b in
          (0, mk_bw (g_disks b) (g_total_blocks b) (g_total_bytes b) 0 (g_pending_bytes b) (bw_kernel b))
        else (0, b).

Definition block_writer_has_registered (b : writer_state) : Z :=
  if existsb (λ d, negb (d_registered d =? 0)) (g_disks b) then 1 else 0.

Definition block_writer_total_blocks (b : writer_state) : Z := g_total_blocks b.
Definition block_writer_total_bytes (b : writer_state) : Z := g_total_bytes b.

Definition block_writer_pending_bytes (b : writer_state) : Z * writer_state :=
  (g_pending_bytes b,
   mk_bw (g_disks b) (g_total_blocks b) (g_total_bytes b) (g_blocks_since_fsync b) 0 (bw_kernel b)).

(** ** What a disk holds *)

Definition disk_content (b : writer_state) (devno : Z) : content :=
  file_of (bw_kernel b) (d_fd (disk_at b devno)).

(** A disk that can be written: registered, open, its descriptor known. *)
Definition disk_ready (b : writer_state) (devno : Z) : Prop :=
  0 ≤ devno < MAX_TARGET_DISKS ∧ d_registered (disk_at b devno) ≠ 0 ∧
  0 ≤ d_fd (disk_at b devno) ∧ is_Some (k_open (bw_kernel b) !! d_fd (disk_at b devno)).

(** Two disks share no file. *)
Definition disks_apart (b : writer_state) : Prop :=
  ∀ i j, disk_ready b i → disk_ready b j → i ≠ j →
    k_open (bw_kernel b) !! d_fd (disk_at b i) ≠ k_open (bw_kernel b) !! d_fd (disk_at b j).

Record bw_ok (b : writer_state) : Prop := {
  bw_sixteen : len (g_disks b) = MAX_TARGET_DISKS;
  bw_interval : 0 ≤ g_blocks_since_fsync b < FSYNC_BLOCK_INTERVAL;
  bw_pending : 0 ≤ g_pending_bytes b < 2 ^ 63;
}.

(** ** Lemmas *)

Lemma store_lookup data : ∀ off c i,
  store off data c !! i =
  if (off <=? i) && (i <? off + len data) then data !! Z.to_nat (i - off) else c !! i.
Proof.
  induction data as [|b data IH]; intros off c i; cbn [store].
  - change (len (@nil Z)) with 0.
    by replace ((off <=? i) && (i <? off + 0)) with false by lia.
  - rewrite IH, len_cons. pose proof (len_nonneg data).
    destruct (decide (i = off)) as [->|Hne].
    + replace (off + 1 <=? off) with false by lia. cbn [andb].
      rewrite lookup_insert_eq. replace ((off <=? off) && _) with true by lia.
      by rewrite Z.sub_diag.
    + rewrite lookup_insert_ne by done.
      destruct ((off + 1 <=? i) && (i <? off + 1 + len data)) eqn:E.
      * replace ((off <=? i) && (i <? off + (1 + len data))) with true by lia.
        replace (Z.to_nat (i - off)) with (S (Z.to_nat (i - (off + 1)))) by lia. done.
      * by replace ((off <=? i) && (i <? off + (1 + len data))) with false by lia.
Qed.

Lemma store_app d1 d2 : ∀ off c, store off (d1 ++ d2) c = store (off + len d1) d2 (store off d1 c).
Proof.
  induction d1 as [|b d1 IH]; intros off c; cbn [store app].
  - by rewrite Z.add_0_r.
  - rewrite IH, len_cons. f_equal. lia.
Qed.

Lemma sys_store_file k fd off data p :
  k_open k !! fd = Some p → file_of (sys_store k fd off data) fd = store off data (file_of k fd).
Proof.
  intros Hp. unfold file_of at 1, sys_store. rewrite Hp. cbn. rewrite Hp. cbn.
  by rewrite lookup_insert_eq.
Qed.

Lemma sys_store_other k fd fd' off data :
  k_open k !! fd ≠ k_open k !! fd' → file_of (sys_store k fd off data) fd' = file_of k fd'.
Proof.
  intros Hne. unfold file_of, sys_store. destruct (k_open k !! fd) as [p|] eqn:Hp; [|done].
  cbn. destruct (k_open k !! fd') as [p'|] eqn:Hp'; [|done]. cbn.
  rewrite lookup_insert_ne by congruence. done.
Qed.

Lemma sys_store_open k fd off data : k_open (sys_store k fd off data) = k_open k.
Proof. unfold sys_store. by destruct (k_open k !! fd). Qed.

Lemma sys_store_synced k fd off data : k_synced (sys_store k fd off data) = k_synced k.
Proof. unfold sys_store. by destruct (k_open k !! fd). Qed.

(** The write loop stores all of its data, or reports failure after a prefix;
    files other than the one written are untouched. *)
Lemma write_loop_spec evs : ∀ k fd off data p rc k',
  k_open k !! fd = Some p → write_loop evs k fd off data = (rc, k') →
  k_open k' = k_open k ∧ k_synced k' = k_synced k ∧ k_fsyncs k' = k_fsyncs k ∧
  (∀ fd', k_open k !! fd' ≠ Some p → file_of k' fd' = file_of k fd') ∧
  ∃ sent rest, data = sent ++ rest ∧ file_of k' fd = store off sent (file_of k fd) ∧
    ((rc = 0 ∧ rest = []) ∨ (rc = -1 ∧ rest ≠ [])).
Proof.
  induction evs as [|ev evs IH]; intros k fd off data p rc k' Hp E;
    destruct data as [|b data]; cbn [write_loop] in E.
  - injection E as <- <-. repeat split; try done. exists [], []. eauto.
  - injection E as <- <-. cbn. rewrite sys_store_open, sys_store_synced.
    repeat split; try done.
    + unfold sys_store. by rewrite Hp.
    + intros fd' Hfd'. change (file_of (with_writes ?k _)) with (file_of k).
      apply sys_store_other. congruence.
    + exists (b :: data), []. rewrite app_nil_r. split; [done|]. split; [|eauto].
      by apply (sys_store_file _ _ _ _ p).
  - injection E as <- <-. repeat split; try done. exists [], []. eauto.
  - destruct ev as [n| |].
    + set (m := Z.min (Z.max 0 n) (len (b :: data))) in *.
      apply (IH _ _ _ _ p) in E as (Ho & Hs & Hf & Hother & sent & rest & Hd & Hfile & Hrc);
        [|by rewrite sys_store_open].
      rewrite sys_store_open in Ho, Hother. rewrite sys_store_synced in Hs.
      repeat split; try done.
      * rewrite Hf. unfold sys_store. by rewrite Hp.
      * intros fd' Hfd'. rewrite Hother by done. apply sys_store_other. congruence.
      * exists (ztake m (b :: data) ++ sent), rest.
        split; [by rewrite <- app_assoc, <- Hd, ztake_zdrop|]. split; [|done].
        rewrite store_app, Hfile, (sys_store_file _ _ _ _ p) by done.
        f_equal. rewrite len_ztake. lia.
    + by apply (IH _ _ _ _ p) in E.
    + injection E as <- <-. repeat split; try done. exists [], (b :: data). eauto 6.
Qed.

Lemma fsync_loop_files ds : ∀ rc k,
  k_files (fsync_loop ds rc k).2 = k_files k ∧ k_open (fsync_loop ds rc k).2 = k_open k.
Proof.
  induction ds as [|d ds IH]; intros rc k; cbn [fsync_loop]; [done|].
  case_test; [|apply IH]. destruct (sys_fsync k (d_fd d)) as [frc k'] eqn:Ef.
  destruct (IH (if frc <? 0 then -1 else rc) k') as [-> ->].
  unfold sys_fsync in Ef. by destruct (match k_fsyncs k with [] => true | b :: _ => b end);
    injection Ef as <- <-.
Qed.

Lemma fsync_loop_writes ds : ∀ rc k, k_writes (fsync_loop ds rc k).2 = k_writes k.
Proof.
  induction ds as [|d ds IH]; intros rc k; cbn [fsync_loop]; [done|].
  destruct (0 <=? d_fd d); [|apply IH]. destruct (sys_fsync k (d_fd d)) as [frc k'] eqn:Ef.
  rewrite IH. unfold sys_fsync in Ef.
  by destruct (match k_fsyncs k with [] => true | b :: _ => b end); injection Ef as <- <-.
Qed.

(** A later [fsync] keeps what an earlier one made durable: the files do not
    change in between. *)
Lemma fsync_loop_synced_mono ds : ∀ rc k p c,
  k_synced k !! p = Some c → (∀ fd, k_open k !! fd = Some p → file_of k fd = c) →
  k_synced (fsync_loop ds rc k).2 !! p = Some c.
Proof.
  induction ds as [|d ds IH]; intros rc k p c Hs Hf; cbn [fsync_loop]; [done|].
  destruct (0 <=? d_fd d); [|by apply IH].
  destruct (sys_fsync k (d_fd d)) as [frc k'] eqn:Ef. unfold sys_fsync in Ef.
  destruct (match k_fsyncs k with [] => true | b :: _ => b end); injection Ef as <- <-;
    apply IH; try done; cbn.
  destruct (k_open k !! d_fd d) as [q|] eqn:Hq; [|done].
  destruct (decide (q = p)) as [->|Hne].
  - rewrite lookup_insert_eq. f_equal. by apply Hf.
  - by rewrite lookup_insert_ne.
Qed.

Lemma file_of_ext k k' : k_files k = k_files k' → k_open k = k_open k' → file_of k = file_of k'.
Proof. unfold file_of. by intros -> ->. Qed.

(** A loop that reports success has made every open disk's file durable. *)
Lemma fsync_loop_durable ds : ∀ rc k k',
  fsync_loop ds rc k = (0, k') →
  rc = 0 ∧ ∀ d p, d ∈ ds → 0 ≤ d_fd d → k_open k !! d_fd d = Some p →
    k_synced k' !! p = Some (file_of k (d_fd d)).
Proof.
  induction ds as [|d ds IH]; intros rc k k' E; cbn [fsync_loop] in E.
  - injection E as -> <-. split; [done|]. intros d p Hd. by apply elem_of_nil in Hd.
  - destruct (Z.leb_spec 0 (d_fd d)) as [Hfd|Hfd].
    2: { apply IH in E as [-> H]. split; [done|]. intros d' p Hd' H0.
         apply elem_of_cons in Hd' as [->|Hd']; [lia|]. by apply H. }
    destruct (sys_fsync k (d_fd d)) as [frc k1] eqn:Ef.
    pose proof E as E'. apply IH in E as [Hrc H].
    unfold sys_fsync in Ef.
    destruct (match k_fsyncs k with [] => true | b :: _ => b end);
      injection Ef as <- <-; cbn in Hrc; [|done].
    split; [done|]. intros d' p Hd' H0 Hp.
    apply elem_of_cons in Hd' as [->|Hin]; [|by apply (H d' p Hin H0 Hp)].
    apply (f_equal snd) in E'. cbn in E'. rewrite <- E'.
    apply fsync_loop_synced_mono; cbn; rewrite Hp.
    + by rewrite lookup_insert_eq.
    + intros fd Hfd'. unfold file_of. cbn. by rewrite Hp, Hfd'.
Qed.

Lemma fsync_loop_rc ds : ∀ rc k, k_fsyncs k = [] → (fsync_loop ds rc k).1 = rc.
Proof.
  induction ds as [|d ds IH]; intros rc k Hk; cbn [fsync_loop]; [done|].
  destruct (0 <=? d_fd d); [|by apply IH]. unfold sys_fsync. rewrite Hk. cbn. by apply IH.
Qed.

Lemma disk_at_elem b i : 0 ≤ i < len (g_disks b) → disk_at b i ∈ g_disks b.
Proof.
  intros Hi. unfold disk_at, len in *.
  destruct (lookup_lt_is_Some_2 (g_disks b) (Z.to_nat i)) as [d Hl]; [lia|].
  rewrite (nth_lookup_Some _ _ _ _ Hl). by eapply list_elem_of_lookup_2.
Qed.

(** No [write] of the script fails. *)
Definition writes_ok (k : kernel) : Prop := Forall (λ e, e ≠ WriteFail) (k_writes k).

Lemma write_loop_ok evs : ∀ k fd off data,
  Forall (λ e, e ≠ WriteFail) evs →
  (write_loop evs k fd off data).1 = 0 ∧ writes_ok (write_loop evs k fd off data).2.
Proof.
  unfold writes_ok.
  induction evs as [|ev evs IH]; intros k fd off data HF.
  { destruct data; cbn [write_loop]; (split; [done|constructor]). }
  destruct data as [|b data]; cbn [write_loop]; [done|].
  apply Forall_cons in HF as [Hev HF]. destruct ev as [n| |]; [by apply IH..|done].
Qed.

(** What a write does to everything but the file. *)
Lemma write_keeps b devno offset data rc b' :
  block_writer_write b devno offset data = (rc, b') →
  g_disks b' = g_disks b ∧ (rc = 0 ∨ rc = -1).
Proof.
  unfold block_writer_write, block_writer_fsync_all. intros E.
  repeat case_test_in E; try (injection E as <- <-; by auto).
  - destruct (write_loop _ _ _ _ _) as [r k]. repeat case_test_in E; 
      repeat (destruct (fsync_loop _ _ _) as [? ?]); injection E as <- <-; by auto.
Qed.

(** The outcome of a write on a disk that is ready. *)
Definition write_outcome (b b' : writer_state) (devno offset : Z) (data : list Z) (rc : Z) : Prop :=
  ∃ sent rest, data = sent ++ rest ∧
    disk_content b' devno = store offset sent (disk_content b devno) ∧
    ((rc = 0 ∧ rest = [] ∧ g_total_blocks b' = u64 (g_total_blocks b + 1) ∧
      g_total_bytes b' = u64 (g_total_bytes b + len data) ∧
      g_pending_bytes b' = g_pending_bytes b + len data) ∨
     (rc = -1 ∧ rest ≠ [] ∧ g_total_blocks b' = g_total_blocks b ∧
      g_total_bytes b' = g_total_bytes b ∧ g_pending_bytes b' = g_pending_bytes b)).

Lemma disk_content_ext b b' devno :
  g_disks b' = g_disks b → k_files (bw_kernel b') = k_files (bw_kernel b) →
  k_open (bw_kernel b') = k_open (bw_kernel b) → disk_content b' devno = disk_content b devno.
Proof. intros Hd Hf Ho. unfold disk_content, disk_at. by rewrite Hd, (file_of_ext _ _ Hf Ho). Qed.

Lemma disk_ready_ext b b' devno :
  g_disks b' = g_disks b → k_open (bw_kernel b') = k_open (bw_kernel b) →
  disk_ready b devno → disk_ready b' devno.
Proof. unfold disk_ready, disk_at. by intros -> ->. Qed.

Lemma ready_guard b devno offset :
  disk_ready b devno → 0 ≤ offset →
  (devno <? 0) || (MAX_TARGET_DISKS <=? devno) || (d_registered (disk_at b devno) =? 0) = false ∧
  (d_fd (disk_at b devno) <? 0) = false ∧ (offset <? 0) = false.
Proof. intros (Hr & Hreg & Hfd & _) Ho. unfold MAX_TARGET_DISKS in *. lia. Qed.

(** The state after the loop stored everything, before the periodic sync. *)
Definition counted (b : writer_state) (k : kernel) (n : Z) : writer_state :=
  mk_bw (g_disks b) (u64 (g_total_blocks b + 1)) (u64 (g_total_bytes b + n))
    (u64 (g_blocks_since_fsync b + 1)) (u64 (g_pending_bytes b + n)) k.

Lemma write_spec b devno offset data rc b' :
  bw_ok b → g_pending_bytes b + len data < 2 ^ 63 → disk_ready b devno → 0 ≤ offset →
  block_writer_write b devno offset data = (rc, b') →
  bw_ok b' ∧ g_disks b' = g_disks b ∧ k_open (bw_kernel b') = k_open (bw_kernel b) ∧
  (∀ j, k_open (bw_kernel b) !! d_fd (disk_at b j) ≠ k_open (bw_kernel b) !! d_fd (disk_at b devno) →
        disk_content b' j = disk_content b j) ∧
  write_outcome b b' devno offset data rc.
Proof.
  intros [Hs Hi Hp] Hn Hr Ho E. unfold block_writer_write in E.
  destruct (ready_guard b devno offset Hr Ho) as (G1 & G2 & G3). rewrite G1, G2, G3 in E.
  destruct Hr as (_ & _ & _ & [p Hopen]). pose proof (len_nonneg data) as Hdl.
  destruct (write_loop _ _ _ _ _) as [wrc k] eqn:Ew.
  apply (write_loop_spec _ _ _ _ _ p) in Ew as (Hko & Hks & Hkf & Hother & sent & rest & Hd & Hfile & Hrc);
    [|done].
  assert (Hj : ∀ b', g_disks b' = g_disks b → k_files (bw_kernel b') = k_files k →
     k_open (bw_kernel b') = k_open k →
     disk_content b' devno = store offset sent (disk_content b devno) ∧
     ∀ j, k_open (bw_kernel b) !! d_fd (disk_at b j) ≠ k_open (bw_kernel b) !! d_fd (disk_at b devno) →
        disk_content b' j = disk_content b j).
  { intros b1 Hd1 Hf1 Ho1. unfold disk_content, disk_at. rewrite Hd1, (file_of_ext _ _ Hf1 Ho1).
    split; [exact Hfile|]. intros j Hne. apply Hother. rewrite <- Hopen. exact Hne. }
  destruct Hrc as [[-> ->]|[-> Hrest]]; cbn [Z.ltb Z.compare] in E.
  - fold (counted b k (len data)) in E.
    assert (Hpend : g_pending_bytes (counted b k (len data)) = g_pending_bytes b + len data)
      by (cbn; unfold u64; rewrite wrapU_id; [done|unfold in_u; lia]).
    assert (Hsince : g_blocks_since_fsync (counted b k (len data)) = g_blocks_since_fsync b + 1)
      by (cbn; unfold u64, FSYNC_BLOCK_INTERVAL in *; rewrite wrapU_id; [done|unfold in_u; lia]).
    destruct (Z.leb_spec FSYNC_BLOCK_INTERVAL (g_blocks_since_fsync (counted b k (len data)))).
    + unfold block_writer_fsync_all in E.
      pose proof (fsync_loop_files (g_disks (counted b k (len data))) 0 k) as [Hff Hfo].
      change (bw_kernel (counted b k (len data))) with k in E.
      destruct (fsync_loop _ _ _) as [frc k2]. cbn in Hff, Hfo. injection E as <- <-.
      match goal with |- bw_ok ?b2 ∧ _ => destruct (Hj b2 eq_refl Hff Hfo) as [Hc Hj'] end.
      split; [constructor; [done|done|change (0 ≤ g_pending_bytes (counted b k (len data)) < 2 ^ 63); lia]|].
      split; [done|]. split; [cbn; congruence|]. split; [done|].
      exists sent, []. split; [done|]. split; [exact Hc|]. left. done.
    + injection E as <- <-. destruct (Hj (counted b k (len data)) eq_refl eq_refl eq_refl) as [Hc Hj'].
      split; [constructor; [done|lia|lia]|].
      split; [done|]. split; [done|]. split; [done|].
      exists sent, []. split; [done|]. split; [exact Hc|]. left. done.
  - injection E as <- <-. destruct (Hj (with_kernel b k) eq_refl eq_refl eq_refl) as [Hc Hj'].
    split; [by constructor|]. split; [done|]. split; [done|]. split; [done|].
    exists sent, rest. split; [done|]. split; [exact Hc|]. right. done.
Qed.

Lemma write_succeeds b devno offset data :
  disk_ready b devno → 0 ≤ offset → writes_ok (bw_kernel b) →
  (block_writer_write b devno offset data).1 = 0 ∧
  writes_ok (bw_kernel (block_writer_write b devno offset data).2).
Proof.
  intros Hr Ho Hw. unfold block_writer_write.
  destruct (ready_guard b devno offset Hr Ho) as (-> & -> & ->).
  destruct (write_loop_ok (k_writes (bw_kernel b)) (bw_kernel b) (d_fd (disk_at b devno)) offset data Hw)
    as [H1 H2].
  destruct (write_loop _ _ _ _ _) as [rc k]. cbn in H1, H2. subst rc. cbn [Z.ltb Z.compare].
  fold (counted b k (len data)). case_test; [|done].
  unfold block_writer_fsync_all. change (bw_kernel (counted b k (len data))) with k.
  pose proof (fsync_loop_writes (g_disks (counted b k (len data))) 0 k) as Hfw.
  destruct (fsync_loop _ _ _) as [frc k2]. cbn in *. split; [done|].
  unfold writes_ok in *. cbn. by rewrite Hfw.
Qed.

(** ** Opening the disks *)

Lemma disk_at_insert b i j d :
  0 ≤ i < len (g_disks b) → 0 ≤ j →
  disk_at (with_disks b (<[Z.to_nat i := d]> (g_disks b))) j = if i =? j then d else disk_at b j.
Proof.
  intros Hi Hj. unfold disk_at, len in *. cbn. rewrite !nth_lookup.
  destruct (Z.eqb_spec i j) as [->|Hne].
  - by rewrite list_lookup_insert_eq by lia.
  - by rewrite list_lookup_insert_ne by lia.
Qed.

Definition registered (b : writer_state) (j : Z) : Prop := d_registered (disk_at b j) ≠ 0.

(** A successful loop leaves every registered disk ready. *)
Lemma open_loop_ready n : ∀ i b b',
  len (g_disks b) = MAX_TARGET_DISKS → 0 ≤ i → i + Z.of_nat n = MAX_TARGET_DISKS →
  (∀ j, 0 ≤ j < i → registered b j → disk_ready b j) →
  open_loop n i b = (0, b') →
  len (g_disks b') = MAX_TARGET_DISKS ∧
  (∀ j, 0 ≤ j < MAX_TARGET_DISKS → registered b' j ↔ registered b j) ∧
  (∀ j, 0 ≤ j < MAX_TARGET_DISKS → registered b' j → disk_ready b' j) ∧
  g_blocks_since_fsync b' = g_blocks_since_fsync b ∧ g_pending_bytes b' = g_pending_bytes b.
Proof.
  induction n as [|n IH]; intros i b b' Hl Hi Hn Hr E; cbn [open_loop] in E.
  - injection E as <-. split; [done|]. split; [done|]. split; [|done].
    intros j Hj. apply Hr. lia.
  - destruct (Z.eqb_spec (d_registered (disk_at b i)) 0) as [H0|H0].
    + eapply IH in E; [exact E|done|lia|lia|].
      intros j Hj Hreg. destruct (decide (j = i)) as [->|]; [done|]. apply Hr; [lia|done].
    + destruct (sys_open (bw_kernel b) (d_path (disk_at b i))) as [fd k] eqn:Eo.
      destruct (Z.ltb_spec fd 0) as [|Hfd]; [done|].
      set (d := mk_disk fd (d_path (disk_at b i)) (d_registered (disk_at b i))) in *.
      assert (Hk : k_open k = <[fd := d_path (disk_at b i)]> (k_open (bw_kernel b))).
      { unfold sys_open in Eo. destruct (k_opens (bw_kernel b)) as [|[fd'|] r];
          injection Eo as <- <-; [lia|done|lia]. }
      assert (Hat : ∀ j, 0 ≤ j → disk_at (with_kernel (with_disks b (<[Z.to_nat i := d]> (g_disks b))) k) j =
                         if i =? j then d else disk_at b j).
      { intros j Hj. apply (disk_at_insert b i j d); [|done]. unfold MAX_TARGET_DISKS in *. lia. }
      assert (Hreg : ∀ j, 0 ≤ j →
        registered (with_kernel (with_disks b (<[Z.to_nat i := d]> (g_disks b))) k) j ↔ registered b j).
      { intros j Hj. unfold registered. rewrite Hat by done. destruct (Z.eqb_spec i j) as [->|]; done. }
      eapply IH in E as (H1 & H2 & H3 & H4 & H5); [| |lia|lia|].
      * split; [done|]. split; [|done]. intros j Hj. rewrite H2 by done. apply Hreg. lia.
      * unfold len in *. cbn. by rewrite length_insert.
      * intros j Hj. rewrite Hreg by lia. intros Hrj.
        unfold disk_ready. rewrite Hat by lia. cbn [bw_kernel with_kernel]. rewrite Hk.
        destruct (Z.eqb_spec i j) as [->|Hne].
        -- split; [unfold MAX_TARGET_DISKS in *; lia|]. split; [done|]. split; [done|].
           cbn. rewrite lookup_insert_eq. by eexists.
        -- destruct (Hr j ltac:(lia) Hrj) as (Ha & Hb & Hc & [p Hp]).
           split; [done|]. split; [done|]. split; [done|].
           rewrite lookup_insert_is_Some. destruct (decide (fd = d_fd (disk_at b j))); [by left|].
           right. split; [done|]. by eexists.
Qed.

Lemma open_loop_rc n : ∀ i b, (open_loop n i b).1 = 0 ∨ (open_loop n i b).1 = -1.
Proof.
  induction n as [|n IH]; intros i b; cbn [open_loop]; [by left|]. case_test; [apply IH|].
  destruct (sys_open _ _) as [fd k]. case_test; [by right|apply IH].
Qed.

Lemma open_all_rc b : (block_writer_open_all b).1 = 0 ∨ (block_writer_open_all b).1 = -1.
Proof. apply open_loop_rc. Qed.

Lemma open_all_ready b b' :
  len (g_disks b) = MAX_TARGET_DISKS → block_writer_open_all b = (0, b') →
  len (g_disks b') = MAX_TARGET_DISKS ∧
  (∀ j, 0 ≤ j < MAX_TARGET_DISKS → registered b' j ↔ registered b j) ∧
  (∀ j, 0 ≤ j < MAX_TARGET_DISKS → registered b' j → disk_ready b' j) ∧
  g_blocks_since_fsync b' = g_blocks_since_fsync b ∧ g_pending_bytes b' = g_pending_bytes b.
Proof. intros Hl. apply open_loop_ready; [done|lia|done|lia]. Qed.

(** A disk table with two open disks, for the witnesses. *)
Definition demo_kernel : kernel :=
  mk_kernel {[5 := [97]; 6 := [98]]} ∅ ∅ [] [WriteSome 1; WriteIntr; WriteSome 9] [].

Definition demo_writer : writer_state :=
  mk_bw (mk_disk 5 [97] 1 :: mk_disk 6 [98] 1 :: replicate 14 (mk_disk (-1) [] 0)) 0 0 0 0 demo_kernel.

Lemma demo_ready : bw_ok demo_writer ∧ disk_ready demo_writer 0 ∧ disk_ready demo_writer 1.
Proof.
  split; [constructor; done|].
  split; (split; [done|]; split; [done|]; split; [done|]); by eexists.
Qed.

(** ** Properties *)

(** C11 (block_writer_write_correct): writing to a registered, open disk at a
    non-negative offset.  On return 0 the file holds the data at
    [offset .. offset + len) and is unchanged elsewhere, whatever short or
    interrupted [write]s happened on the way, and the counters have counted the
    block once; on -1 only a proper prefix of the data was stored and no
    counter moved.  No other disk's file changes, the module's invariant is
    kept, and if no [write] fails the result is 0. *)
Theorem block_writer_write_correct b devno offset data rc b' :
  bw_ok b → g_pending_bytes b + len data < 2 ^ 63 → disks_apart b → disk_ready b devno → 0 ≤ offset →
  block_writer_write b devno offset data = (rc, b') →
  bw_ok b' ∧ write_outcome b b' devno offset data rc ∧
  (∀ j, disk_ready b j → j ≠ devno → disk_content b' j = disk_content b j) ∧
  (writes_ok (bw_kernel b) →
     rc = 0 ∧ ∀ i, disk_content b' devno !! i =
       if (offset <=? i) && (i <? offset + len data) then data !! Z.to_nat (i - offset)
       else disk_content b devno !! i).
Proof.
  intros Hb Hn Ha Hr Ho E.
  destruct (write_spec _ _ _ _ _ _ Hb Hn Hr Ho E) as (Hb' & _ & _ & Hother & Hout).
  split; [done|]. split; [done|]. split.
  - intros j Hj Hne. apply Hother. by apply Ha.
  - intros Hw. destruct (write_succeeds b devno offset data Hr Ho Hw) as [Hrc _].
    rewrite E in Hrc. cbn in Hrc. split; [done|]. intros i.
    destruct Hout as (sent & rest & -> & -> & [(_ & -> & _)|(? & _)]); [|lia].
    rewrite app_nil_r. apply store_lookup.
Qed.

Lemma block_writer_write_correct_witness :
  ∃ b', block_writer_write demo_writer 1 10 [7; 8; 9] = (0, b') ∧
        write_outcome demo_writer b' 1 10 [7; 8; 9] 0 ∧ disk_content b' 1 !! 12 = Some 9.
Proof.
  destruct (block_writer_write demo_writer 1 10 [7; 8; 9]) as [rc b'] eqn:E. exists b'.
  destruct demo_ready as (H1 & H2 & H3).
  assert (Ha : disks_apart demo_writer).
  { intros i j (Hi & Ri & Fi & [pi Oi]) (Hj & Rj & Fj & [pj Oj]) Hne Heq.
    assert (Hcase : ∀ n, 0 ≤ n < 16 → 0 ≤ d_fd (disk_at demo_writer n) → n = 0 ∨ n = 1).
    { intros n Hn. assert (n = 0 ∨ n = 1 ∨ n = 2 ∨ n = 3 ∨ n = 4 ∨ n = 5 ∨ n = 6 ∨ n = 7 ∨ n = 8
        ∨ n = 9 ∨ n = 10 ∨ n = 11 ∨ n = 12 ∨ n = 13 ∨ n = 14 ∨ n = 15) as Hall by lia.
      intros H0. repeat (destruct Hall as [->|Hall]; [first [by left|by right|by vm_compute in H0]|]).
      subst n. by vm_compute in H0. }
    destruct (Hcase i Hi Fi) as [->| ->], (Hcase j Hj Fj) as [->| ->]; try done. }
  assert (Hn : g_pending_bytes demo_writer + len [7; 8; 9] < 2 ^ 63) by done.
  destruct (block_writer_write_correct demo_writer 1 10 [7; 8; 9] rc b' H1 Hn Ha H3 ltac:(lia) E)
    as (_ & Hout & _ & Hok).
  destruct Hok as [Hrc Hc]; [repeat constructor; discriminate|]. subst rc.
  split; [reflexivity|]. split; [exact Hout|]. rewrite Hc. reflexivity.
Defined.

(** [block_writer_rejects]: a block for a device number outside [0, 16), for
    a disk that is not registered or not open, or at a negative offset is
    refused with -1 and changes nothing. *)
Theorem block_writer_rejects b devno offset data :
  (¬ 0 ≤ devno < MAX_TARGET_DISKS) ∨ d_registered (disk_at b devno) = 0 ∨
  d_fd (disk_at b devno) < 0 ∨ offset < 0 →
  block_writer_write b devno offset data = (-1, b).
Proof.
  intros Hrej. unfold block_writer_write, MAX_TARGET_DISKS in *.
  repeat (case_test; [done|]). lia.
Qed.

Lemma block_writer_rejects_witness :
  block_writer_write demo_writer 2 0 [7] = (-1, demo_writer).
Proof. apply block_writer_rejects. right. left. reflexivity. Defined.

(** [fsync_all_durable]: when [block_writer_fsync_all] returns 0, the file of
    every open disk is on stable storage exactly as it reads, and no file has
    changed. *)
Theorem fsync_all_durable b b' devno p :
  block_writer_fsync_all b = (0, b') → 0 ≤ devno < len (g_disks b) →
  0 ≤ d_fd (disk_at b devno) → k_open (bw_kernel b) !! d_fd (disk_at b devno) = Some p →
  k_synced (bw_kernel b') !! p = Some (disk_content b devno) ∧
  disk_content b' devno = disk_content b devno.
Proof.
  unfold block_writer_fsync_all. intros E Hd Hfd Hp.
  destruct (fsync_loop (g_disks b) 0 (bw_kernel b)) as [rc k] eqn:El. injection E as -> <-.
  pose proof (fsync_loop_files (g_disks b) 0 (bw_kernel b)) as [Hff Hfo]. rewrite El in Hff, Hfo.
  split; [|by apply disk_content_ext].
  apply fsync_loop_durable in El as [_ H]. cbn. apply H; [by apply disk_at_elem|done|done].
Qed.

Lemma fsync_all_durable_witness :
  ∃ b', block_writer_fsync_all demo_writer = (0, b') ∧
        k_synced (bw_kernel b') !! [98] = Some (disk_content demo_writer 1).
Proof.
  destruct (block_writer_fsync_all demo_writer) as [rc b'] eqn:E. exists b'.
  assert (Hrc : rc = 0) by (apply (f_equal fst) in E; vm_compute in E; congruence). subst rc.
  split; [reflexivity|].
  refine (proj1 (fsync_all_durable demo_writer b' 1 [98] E _ _ _)).
  - vm_compute. split; congruence.
  - vm_compute. congruence.
  - reflexivity.
Defined.

(** [periodic_fsync]: every 2000th block written makes all disks durable:
    when the write that brings the count to 2000 succeeds and the [fsync]s do,
    everything readable on an open disk afterwards is on stable storage and
    the count restarts at zero. *)
Theorem periodic_fsync b devno offset data b' j p :
  bw_ok b → g_pending_bytes b + len data < 2 ^ 63 → disk_ready b devno → 0 ≤ offset →
  block_writer_write b devno offset data = (0, b') →
  g_blocks_since_fsync b = FSYNC_BLOCK_INTERVAL - 1 → k_fsyncs (bw_kernel b) = [] →
  disk_ready b j → k_open (bw_kernel b) !! d_fd (disk_at b j) = Some p →
  k_synced (bw_kernel b') !! p = Some (disk_content b' j) ∧ g_blocks_since_fsync b' = 0.
Proof.
  intros [Hs Hi Hp] Hn Hr Ho E Hlast Hfs Hj Hop. unfold block_writer_write in E.
  destruct (ready_guard b devno offset Hr Ho) as (G1 & G2 & G3). rewrite G1, G2, G3 in E.
  destruct Hr as (_ & _ & _ & [q Hopen]).
  destruct (write_loop _ _ _ _ _) as [wrc k] eqn:Ew.
  apply (write_loop_spec _ _ _ _ _ q) in Ew as (Hko & Hks & Hkf & _); [|done].
  destruct (wrc <? 0); [done|]. fold (counted b k (len data)) in E.
  assert (Hc : g_blocks_since_fsync (counted b k (len data)) = FSYNC_BLOCK_INTERVAL).
  { cbn. rewrite Hlast. done. }
  rewrite Hc in E. cbn [Z.leb Z.compare FSYNC_BLOCK_INTERVAL] in E.
  unfold block_writer_fsync_all in E. change (bw_kernel (counted b k (len data))) with k in E.
  change (g_disks (counted b k (len data))) with (g_disks b) in E.
  rewrite Z.leb_refl in E.
  pose proof (fsync_loop_files (g_disks b) 0 k) as [Hff Hfo].
  pose proof (fsync_loop_rc (g_disks b) 0 k ltac:(congruence)) as Hrc.
  destruct (fsync_loop (g_disks b) 0 k) as [frc k2] eqn:El. cbn in Hff, Hfo, Hrc. subst frc.
  injection E as <-. split; [|done]. cbn [bw_kernel with_kernel].
  apply fsync_loop_durable in El as [_ Hdur].
  destruct Hj as (Hj1 & _ & Hj2 & _).
  rewrite (Hdur (disk_at b j) p); [|..|congruence]; [|apply disk_at_elem; lia|done].
  unfold disk_content. cbn [bw_kernel with_kernel]. change (disk_at _ j) with (disk_at b j).
  by rewrite (file_of_ext _ _ Hff Hfo).
Qed.

Lemma periodic_fsync_witness :
  let b := mk_bw (g_disks demo_writer) 1999 0 1999 0 demo_kernel in
  ∃ b', block_writer_write b 0 4 [1] = (0, b') ∧
        k_synced (bw_kernel b') !! [98] = Some (disk_content b' 1).
Proof.
  intros b. destruct (block_writer_write b 0 4 [1]) as [rc b'] eqn:E. exists b'.
  assert (Hrc : rc = 0) by (apply (f_equal fst) in E; vm_compute in E; congruence). subst rc.
  split; [reflexivity|]. destruct demo_ready as (H1 & H2 & H3).
  refine (proj1 (periodic_fsync b 0 4 [1] b' 1 [98] _ _ _ _ E _ _ _ _));
    first [exact H2|exact H3|reflexivity|(constructor; done)|lia].
Defined.
