(* ===== verification/Ack.v ===== *)
(** * Responses to the client (server/ack.c)

    The struct goes out as its 20 raw bytes; [send_response] retries short
    writes and interrupts and gives up on any other error, would-block
    included. *)

From S2P Require Import Prelude Protocol Net.

Fixpoint send_response_loop (evs : list send_ev) (data out : list Z)
    : Z * list Z * list send_ev :=
  match data with
  | [] => (0, out, evs)
  | _ =>
      match evs with
      | [] => (-1, out, [])
      | ev :: r =>
          match fst (sys_send (len data) [ev]) with
          | SndIntr => send_response_loop r data out
          | SndAgain | SndErr => (-1, out, r)
          | SndBytes n => send_response_loop r (zdrop n data) (out ++ ztake n data)
          end
      end
  end.

Definition send_response (fd : sock) (resp : server_response_t) : Z * sock :=
  let '(rc, out, evs) := send_response_loop (sk_send fd) (response_bytes resp) (sk_out fd) in
  (rc, mk_sock out evs (sk_in fd)).

(** [size] is an [int32_t]: the [uint32_t] length is converted. *)
Definition ack_send_block (fd : sock) (devno size offset : Z) : Z * sock :=
  send_response fd (mk_response RESPONSE_ACK devno (s32 size) offset).

Definition ack_send_done (fd : sock) : Z * sock :=
  send_response fd (mk_response RESPONSE_SERVER_DONE 0 0 0).

Definition ack_send_binlog (fd : sock) (devno size offset : Z) : Z * sock :=
  send_response fd (mk_response RESPONSE_BINLOG devno (s32 size) offset).

(** ** Lemmas *)

Lemma send_response_loop_spec evs : ∀ data out rc out' evs',
  send_response_loop evs data out = (rc, out', evs') →
  (rc = 0 ∧ out' = out ++ data) ∨
  (rc = -1 ∧ ∃ sent rest, out' = out ++ sent ∧ data = sent ++ rest ∧ rest ≠ []).
Proof.
  induction evs as [|ev evs IH]; intros data out rc out' evs' E;
    (destruct data as [|b data]; [injection E as <- <- <-; left; by rewrite app_nil_r|]).
  - injection E as <- <- <-. right. split; [done|]. exists [], (b :: data). by rewrite app_nil_r.
  - cbn [send_response_loop sys_send fst] in E. destruct ev as [n| | |]; cbn [fst] in E.
    + apply IH in E as [[-> ->]|[-> (sent & rest & -> & Hd & Hr)]].
      * left. split; [done|]. by rewrite <- app_assoc, ztake_zdrop.
      * right. split; [done|]. eexists (_ ++ sent), rest.
        split; [by rewrite <- app_assoc|]. split; [|done]. by rewrite <- app_assoc, <- Hd, ztake_zdrop.
    + injection E as <- <- <-. right. split; [done|]. exists [], (b :: data). by rewrite app_nil_r.
    + by apply IH in E.
    + injection E as <- <- <-. right. split; [done|]. exists [], (b :: data). by rewrite app_nil_r.
Qed.

Lemma send_response_spec fd resp rc fd' :
  send_response fd resp = (rc, fd') →
  sk_in fd' = sk_in fd ∧
  ((rc = 0 ∧ sk_out fd' = sk_out fd ++ response_bytes resp) ∨
   (rc = -1 ∧ ∃ sent rest, sk_out fd' = sk_out fd ++ sent ∧
      response_bytes resp = sent ++ rest ∧ rest ≠ [])).
Proof.
  unfold send_response.
  destruct (send_response_loop _ _ _) as [[r out] evs] eqn:E.
  intros [= <- <-]. split; [done|]. by apply send_response_loop_spec in E.
Qed.

(** A socket that never refuses: every call takes at least a byte or is
    interrupted.  [rooms] counts the calls that take something. *)
Definition progress_ev (ev : send_ev) : Prop :=
  match ev with SendRoom n => 0 < n | SendIntr => True | _ => False end.

Fixpoint rooms (evs : list send_ev) : Z :=
  match evs with
  | SendRoom _ :: r => 1 + rooms r
  | _ :: r => rooms r
  | [] => 0
  end.

Definition willing (n : Z) (evs : list send_ev) : Prop := Forall progress_ev evs ∧ n ≤ rooms evs.

Lemma willing_le n m evs : m ≤ n → willing n evs → willing m evs.
Proof. intros ? [? ?]. split; [done|lia]. Qed.

Lemma send_response_loop_delivers evs : ∀ n data out,
  0 ≤ n → willing (len data + n) evs →
  ∃ evs', send_response_loop evs data out = (0, out ++ data, evs') ∧ willing n evs'.
Proof.
  induction evs as [|ev evs IH]; intros n data out Hn [Hp Hr];
    (destruct data as [|b data]; [eexists; simpl; rewrite app_nil_r; done|]).
  - rewrite len_cons in Hr. pose proof (len_nonneg data). simpl in Hr.
    lia.
  - apply Forall_cons in Hp as [Hev Hp].
    cbn [send_response_loop sys_send fst]. destruct ev as [k| | |]; cbn [fst]; try done.
    + cbn [rooms] in Hr. set (t := Z.min (Z.max 0 k) (len (b :: data))).
      assert (Ht : 0 < t) by (unfold t; simpl in Hev; rewrite len_cons; pose proof (len_nonneg data); lia).
      destruct (IH n (zdrop t (b :: data)) (out ++ ztake t (b :: data))) as (evs' & He & Hw); [done| |].
      { split; [done|]. rewrite len_zdrop. rewrite len_cons in *. pose proof (len_nonneg data). lia. }
      exists evs'. split; [|done]. by rewrite He, <- app_assoc, ztake_zdrop.
    + apply IH; [done|]. split; [done|]. by cbn [rooms] in Hr.
Qed.

Lemma send_response_delivers n fd resp :
  0 ≤ n → willing (20 + n) (sk_send fd) →
  ∃ fd', send_response fd resp = (0, fd') ∧ sk_out fd' = sk_out fd ++ response_bytes resp ∧
         sk_in fd' = sk_in fd ∧ willing n (sk_send fd').
Proof.
  intros Hn Hw. unfold send_response.
  destruct (send_response_loop_delivers (sk_send fd) n (response_bytes resp) (sk_out fd))
    as (evs' & -> & Hw'); [done|by rewrite len_response_bytes|].
  eexists. split; [done|]. done.
Qed.

(** ** Properties *)

(** [send_response_correct]: a response reaches the stream as its exact 20
    bytes when 0 is returned, whatever short writes and interrupts occurred;
    on -1 a proper prefix of it has been sent.  Decoding the bytes of a
    delivered response the way the client does gives the response back, and a
    socket that keeps accepting bytes always gets the whole of it. *)
Theorem send_response_correct fd resp rc fd' :
  response_ok resp → send_response fd resp = (rc, fd') →
  sk_in fd' = sk_in fd ∧
  ((rc = 0 ∧ ∃ bs, sk_out fd' = sk_out fd ++ bs ∧ len bs = SERVER_RESPONSE_SIZE ∧
                   response_of_bytes bs = resp) ∨
   (rc = -1 ∧ ∃ sent, sk_out fd' = sk_out fd ++ sent ∧ len sent < SERVER_RESPONSE_SIZE ∧
                      sent = ztake (len sent) (response_bytes resp))) ∧
  (willing 20 (sk_send fd) → rc = 0).
Proof.
  intros Hok E. pose proof (send_response_spec _ _ _ _ E) as [Hin Hcase]. split; [done|]. split.
  - destruct Hcase as [[-> Hout]|(-> & sent & rest & Hout & Hd & Hr)]; [left|right]; (split; [done|]).
    + exists (response_bytes resp). split; [done|]. split; [apply len_response_bytes|].
      by apply response_codec.
    + exists sent. split; [done|]. rewrite <- (len_response_bytes resp), Hd, len_app. split.
      * assert (len rest ≠ 0) by (intros ?%len_zero_nil; done). pose proof (len_nonneg rest). lia.
      * symmetry. by apply ztake_app_exact.
  - intros Hw. destruct (send_response_delivers 0 fd resp ltac:(lia) Hw) as (fd2 & E2 & _).
    rewrite E in E2. by injection E2.
Qed.

Lemma send_response_correct_witness :
  ∃ fd', send_response (mk_sock [] [SendRoom 7; SendIntr; SendRoom 50] []) (mk_response 0 1 4096 8192)
         = (0, fd') ∧ sk_in fd' = [].
Proof.
  destruct (send_response (mk_sock [] [SendRoom 7; SendIntr; SendRoom 50] []) (mk_response 0 1 4096 8192))
    as [rc fd'] eqn:E. exists fd'.
  assert (Hok : response_ok (mk_response 0 1 4096 8192)) by (vm_compute; repeat split; congruence).
  destruct (send_response_correct _ _ rc fd' Hok E) as (Hin & _ & _).
  split; [|exact Hin]. apply (f_equal fst) in E. vm_compute in E. rewrite <- E. reflexivity.
Defined.

(** [response_cut]: the receiver's sockets do not block, and a send that would
    block in the middle of a response ends it.  The part already sent stays on
    the stream and the next response follows it directly, so that the client,
    which reads twenty bytes at a time, reads none of the following responses. *)
Theorem response_cut resp next n room ins :
  0 < n < SERVER_RESPONSE_SIZE → SERVER_RESPONSE_SIZE ≤ room →
  let '(rc, k) := send_response (mk_sock [] [SendRoom n; SendAgain; SendRoom room] ins) resp in
  let '(rc', k') := send_response k next in
  rc = -1 ∧ rc' = 0 ∧ sk_out k' = ztake n (response_bytes resp) ++ response_bytes next.
Proof.
  intros Hn Hroom. pose proof (len_response_bytes resp) as H1. pose proof (len_response_bytes next) as H2.
  assert (Hcons : ∀ bs : list Z, 0 < len bs → ∃ x l, bs = x :: l).
  { intros bs Hl. destruct bs as [|x l]; [done|by exists x, l]. }
  unfold send_response. cbn [sk_send sk_out sk_in].
  destruct (Hcons (response_bytes resp)) as (x & l & Ex); [lia|].
  destruct (Hcons (zdrop n (response_bytes resp))) as (y & t & Ey); [rewrite len_zdrop; lia|].
  destruct (Hcons (response_bytes next)) as (z & u & Ez); [lia|].
  rewrite Ex in *. cbn [send_response_loop sys_send fst]. replace (Z.min _ _) with n by lia. rewrite Ey.
  cbn [send_response_loop sys_send fst sk_send sk_out]. rewrite Ez in *. cbn [send_response_loop sys_send fst].
  replace (Z.min _ _) with (len (z :: u)) by lia.
  by rewrite (zdrop_ge _ (z :: u)), (ztake_ge _ (z :: u)) by lia.
Qed.
