(* ===== verification/Json.v ===== *)
(** * Configuration text (the JSON helpers of server/main.c and client/main.c,
      [partition_is_skipped] of client/main.c)

    A C string is the list of its characters up to the terminating NUL.  A
    pointer into it is the suffix it points at, [NULL] is [None].  The two
    programs have the same [json_read_int] and [json_read_str]; their
    [json_nav] differ. *)

From stdpp Require Import strings.
From S2P Require Import Prelude Protocol.

Definition CH_QUOTE : Z := 34.
Definition CH_COLON : Z := 58.
Definition CH_COMMA : Z := 44.
Definition CH_SPACE : Z := 32.
Definition CH_TAB : Z := 9.
Definition CH_NL : Z := 10.
Definition CH_BRACE : Z := 123.
Definition CH_MINUS : Z := 45.
Definition CH_PLUS : Z := 43.
Definition CH_BACKSLASH : Z := 92.

(** ** The C library functions used *)

Fixpoint starts_with (pat s : list Z) : bool :=
  match pat, s with
  | [], _ => true
  | p :: pat', c :: s' => (p =? c) && starts_with pat' s'
  | _ :: _, [] => false
  end.

Fixpoint strstr (s pat : list Z) : option (list Z) :=
  if starts_with pat s then Some s
  else match s with [] => None | _ :: s' => strstr s' pat end.

Fixpoint strchr (s : list Z) (c : Z) : option (list Z) :=
  match s with
  | [] => None
  | x :: s' => if x =? c then Some s else strchr s' c
  end.

Definition is_digit (c : Z) : bool := (48 <=? c) && (c <=? 57).
Definition is_space (c : Z) : bool := (c =? 32) || ((9 <=? c) && (c <=? 13)).

Fixpoint skip_while (f : Z → bool) (s : list Z) : list Z :=
  match s with
  | [] => []
  | c :: s' => if f c then skip_while f s' else s
  end.

Fixpoint take_until (f : Z → bool) (s : list Z) : list Z :=
  match s with
  | [] => []
  | c :: s' => if f c then [] else c :: take_until f s'
  end.

Fixpoint digits_val (acc : Z) (s : list Z) : Z :=
  match s with
  | c :: s' => if is_digit c then digits_val (acc * 10 + (c - 48)) s' else acc
  | [] => acc
  end.

(** [strtoll(s, NULL, 10)]: white space, a sign, digits; the result saturates. *)
Definition strtoll (s : list Z) : Z :=
  let s := skip_while is_space s in
  let v := match s with
           | c :: s' => if c =? CH_MINUS then - digits_val 0 s'
                        else if c =? CH_PLUS then digits_val 0 s' else digits_val 0 s
           | [] => 0
           end in
  Z.max (- 2 ^ 63) (Z.min (2 ^ 63 - 1) v).

(** [(int)strtol(s, NULL, 10)] *)
Definition atoi (s : list Z) : Z := s32 (strtoll s).

(** ["%d"] *)
Fixpoint dec_digits (fuel : nat) (n : Z) : list Z :=
  match fuel with
  | O => []
  | S fuel' => if n <? 10 then [48 + n] else dec_digits fuel' (n / 10) ++ [48 + n mod 10]
  end.

Definition print_int (z : Z) : list Z :=
  if z <? 0 then CH_MINUS :: dec_digits 20 (- z) else dec_digits 20 z.

#[global] Arguments dec_digits : simpl never.

(** ["%0<n>d"] of a non-negative number *)
Definition print_padded (n : nat) (z : Z) : list Z :=
  replicate (n - length (print_int z)) 48 ++ print_int z.

Definition hex_digit (d : Z) : Z := if d <? 10 then 48 + d else 87 + d.

(** ["%0<n>x"] of a value that fits *)
Fixpoint print_hex (n : nat) (z : Z) : list Z :=
  match n with
  | O => []
  | S n' => print_hex n' (z / 16) ++ [hex_digit (z mod 16)]
  end.

(** ** The helpers *)

Definition JSON_MAX_KEY : Z := 64.

(** [snprintf(search, sizeof(search), "\"%s\"", key)] *)
Definition json_search (key : list Z) : list Z :=
  ztake (JSON_MAX_KEY + 8 - 1) (CH_QUOTE :: key ++ [CH_QUOTE]).

(** [*p == ':' || *p == ' ' || *p == '\t' || *p == '\n'] *)
Definition json_sep (c : Z) : bool :=
  (c =? CH_COLON) || (c =? CH_SPACE) || (c =? CH_TAB) || (c =? CH_NL).

(** The value after the first occurrence of [search]. *)
Definition json_value (json search : list Z) : option (list Z) :=
  p ← strstr json search;
  p ← strchr (zdrop (len search) p) CH_COLON;
  Some (skip_while json_sep p).

Definition json_read_int (json key : list Z) (default_val : Z) : Z :=
  match json_value json (json_search key) with
  | None => default_val
  | Some p => atoi p
  end.

(** The string literal at [p], cut to [max] characters. *)
Definition json_literal (p : list Z) (max : Z) : option (list Z) :=
  match p with
  | c :: p' =>
      if c =? CH_QUOTE then
        match strchr p' CH_QUOTE with
        | None => None
        | Some e => Some (ztake (Z.min (len p' - len e) max) p')
        end
      else None
  | [] => None
  end.

Definition json_read_str (json key : list Z) (out_len : Z) : option (list Z) :=
  p ← json_value json (json_search key); json_literal p (out_len - 1).

Module Receiver.

Definition json_nav (json parent : list Z) : option (list Z) :=
  p ← strstr json (json_search parent);
  strchr (zdrop (len (json_search parent)) p) CH_BRACE.

End Receiver.

Module Sender.

(** [*(p - 1)] is none of [a-z], [A-Z], [_]. *)
Definition key_boundary (prev : option Z) : bool :=
  match prev with
  | None => true
  | Some c => (((c <? 97) || (122 <? c)) && ((c <? 65) || (90 <? c)) && negb (c =? 95))
  end.

(** The [while ((p = strstr(p, search)) != NULL)] scan; [prev] is the character
    before [p], [None] at the start of the text. *)
Fixpoint json_nav_from (prev : option Z) (p search : list Z) : option (list Z) :=
  if starts_with search p && key_boundary prev then strchr (zdrop (len search) p) CH_BRACE
  else match p with
       | [] => None
       | c :: p' => json_nav_from (Some c) p' search
       end.

Definition json_nav (json parent : list Z) : option (list Z) :=
  json_nav_from None json (json_search parent).

(** [partition_is_skipped]: [sep] of the list, then the token scan.  [target] is
    ["%d:%d"] in 32 bytes. *)
Definition skip_sep (c : Z) : bool := (c =? CH_SPACE) || (c =? CH_COMMA) || (c =? CH_TAB).

Definition skip_target (devno part_index : Z) : list Z :=
  ztake 31 (print_int devno ++ CH_COLON :: print_int part_index).

(** [strncmp(target, start, len) == 0 && target[len] == '\0'] *)
Definition token_matches (target tok : list Z) : bool :=
  (0 <? len tok) && (len tok <? 32) && bool_decide (ztake (len tok) target = tok) &&
  (len target =? len tok).

Fixpoint skip_scan (fuel : nat) (p target : list Z) : Z :=
  match fuel with
  | O => 0
  | S fuel' =>
      match skip_while skip_sep p with
      | [] => 0
      | start =>
          let tok := take_until skip_sep start in
          if token_matches target tok then 1
          else skip_scan fuel' (zdrop (len tok) start) target
      end
  end.

Definition partition_is_skipped (skip_str : list Z) (devno part_index : Z) : Z :=
  skip_scan (S (length skip_str)) skip_str (skip_target devno part_index).

End Sender.

#[global] Arguments Sender.skip_scan : simpl never.

(** ** Lemmas *)

Lemma starts_with_app pat s : starts_with pat (pat ++ s) = true.
Proof. induction pat as [|p pat IH]; [done|]. cbn. by rewrite Z.eqb_refl. Qed.

(** A text without the pattern's first character before it. *)
Lemma strstr_skip pre q pat s :
  q ∉ pre → strstr (pre ++ (q :: pat) ++ s) (q :: pat) = Some ((q :: pat) ++ s).
Proof.
  induction pre as [|c pre IH]; intros Hq.
  - change ([] ++ (q :: pat) ++ s) with (q :: pat ++ s). cbn. by rewrite Z.eqb_refl, starts_with_app.
  - apply not_elem_of_cons in Hq as [Hc Hq]. cbn.
    replace (q =? c) with false by lia. cbn. by apply IH.
Qed.

Lemma strchr_app pre c s : c ∉ pre → strchr (pre ++ c :: s) c = Some (c :: s).
Proof.
  induction pre as [|x pre IH]; intros Hc; cbn; [by rewrite Z.eqb_refl|].
  apply not_elem_of_cons in Hc as [Hx Hc]. replace (x =? c) with false by lia. by apply IH.
Qed.

Lemma skip_while_app f ws s :
  Forall (λ c, f c = true) ws → (∀ c s', s = c :: s' → f c = false) →
  skip_while f (ws ++ s) = s.
Proof.
  induction 1 as [|c ws Hc _ IH]; intros Hs; cbn.
  - destruct s as [|c s']; [done|]. cbn. by rewrite (Hs c s').
  - rewrite Hc. by apply IH.
Qed.

Lemma digits_val_app ds : ∀ acc s,
  Forall (λ c, is_digit c = true) ds →
  digits_val acc (ds ++ s) = digits_val (digits_val acc ds) s.
Proof.
  induction ds as [|c ds IH]; intros acc s HF; [done|].
  apply Forall_cons in HF as [Hc HF]. cbn. rewrite Hc. by apply IH.
Qed.

Lemma dec_digits_spec fuel : ∀ n,
  0 ≤ n < 10 ^ Z.of_nat fuel → (0 < fuel)%nat →
  Forall (λ c, is_digit c = true) (dec_digits fuel n) ∧ digits_val 0 (dec_digits fuel n) = n ∧
  dec_digits fuel n ≠ [] ∧ len (dec_digits fuel n) ≤ Z.of_nat fuel.
Proof.
  induction fuel as [|fuel IH]; intros n Hn Hf; [lia|].
  unfold dec_digits; fold dec_digits. destruct (Z.ltb_spec n 10).
  - split; [|split; [|split; [done|len_norm; lia]]].
    + repeat constructor. unfold is_digit. lia.
    + cbn. unfold is_digit. replace (_ && _) with true by lia. lia.
  - rewrite Nat2Z.inj_succ, Z.pow_succ_r in Hn by lia.
    assert (Hfuel : (0 < fuel)%nat).
    { destruct fuel; [change (10 ^ Z.of_nat 0) with 1 in Hn; lia|lia]. }
    destruct (IH (n / 10)) as (HF & Hv & Hne & Hl).
    { split; [apply Z.div_pos; lia|apply Z.div_lt_upper_bound; lia]. }
    { done. }
    pose proof (Z.mod_pos_bound n 10 ltac:(lia)).
    split; [|split; [|split]].
    + apply Forall_app. split; [done|]. repeat constructor. unfold is_digit. lia.
    + rewrite digits_val_app, Hv by done. cbn. unfold is_digit.
      replace (_ && _) with true by lia. pose proof (Z.div_mod n 10). lia.
    + by destruct (dec_digits fuel (n / 10)).
    + len_norm. lia.
Qed.

Lemma in_s64_pow20 z : in_s 64 z → - 10 ^ 20 < z < 10 ^ 20.
Proof. unfold in_s. lia. Qed.

Lemma in_s32_s64 z : in_s 32 z → in_s 64 z.
Proof. unfold in_s. lia. Qed.

(** A character at which a number ends. *)
Definition ends_number (s : list Z) : Prop := ∀ c s', s = c :: s' → is_digit c = false.

Lemma digits_val_end acc s : ends_number s → digits_val acc s = acc.
Proof. intros He. destruct s as [|c s']; [done|]. cbn. by rewrite (He c s'). Qed.

Lemma print_int_head z : in_s 64 z →
  ∃ c r, print_int z = c :: r ∧ (c = CH_MINUS ∨ is_digit c = true).
Proof.
  intros Hz%in_s64_pow20. unfold print_int. case_test; [eauto|].
  destruct (dec_digits_spec 20 z ltac:(lia) ltac:(lia)) as (HF & _ & Hne & _).
  destruct (dec_digits 20 z) as [|c r]; [done|]. exists c, r. apply Forall_cons in HF as []. auto.
Qed.

(** [strtoll] and [atoi] read back what is printed. *)
Lemma strtoll_print z s : in_s 64 z → ends_number s → strtoll (print_int z ++ s) = z.
Proof.
  intros Hz He. pose proof (in_s64_pow20 z Hz) as Hb.
  assert (Hclamp : Z.max (- 2 ^ 63) (Z.min (2 ^ 63 - 1) z) = z) by (unfold in_s in Hz; lia).
  destruct (print_int_head z Hz) as (c & r & Hp & Hc). unfold strtoll.
  assert (Hskip : skip_while is_space (print_int z ++ s) = print_int z ++ s).
  { rewrite Hp. cbn. unfold is_space, is_digit, CH_MINUS in *.
    by replace ((c =? 32) || _) with false by lia. }
  rewrite Hskip. unfold print_int in *. destruct (Z.ltb_spec z 0).
  - cbn. destruct (dec_digits_spec 20 (- z) ltac:(lia) ltac:(lia)) as (HF & Hv & _).
    rewrite digits_val_app, Hv, digits_val_end by done. by rewrite Z.opp_involutive.
  - destruct (dec_digits_spec 20 z ltac:(lia) ltac:(lia)) as (HF & Hv & _).
    rewrite Hp in *. cbn [app]. apply Forall_cons in HF as [Hd HF].
    replace (c =? CH_MINUS) with false by (unfold is_digit, CH_MINUS in *; lia).
    replace (c =? CH_PLUS) with false by (unfold is_digit, CH_PLUS in *; lia).
    change (c :: r ++ s) with ((c :: r) ++ s).
    rewrite digits_val_app, Hv, digits_val_end; [done|done|by constructor].
Qed.

Lemma atoi_print z s : in_s 32 z → ends_number s → atoi (print_int z ++ s) = z.
Proof.
  intros Hz He. unfold atoi. rewrite strtoll_print by (auto using in_s32_s64). apply (wrapS_id 32); [lia|done].
Qed.

Lemma json_search_short key : len key ≤ 69 → json_search key = CH_QUOTE :: key ++ [CH_QUOTE].
Proof. intros Hk. unfold json_search. apply ztake_ge. unfold JSON_MAX_KEY. len_norm. lia. Qed.

(** A member of an object as text: the key, a colon, blanks and the value. *)
Definition json_member (key ws value : list Z) : list Z :=
  (CH_QUOTE :: key ++ [CH_QUOTE]) ++ CH_COLON :: ws ++ value.

Lemma json_value_member pre key ws value :
  len key ≤ 69 → CH_QUOTE ∉ pre → Forall (λ c, json_sep c = true) ws →
  (∀ c s', value = c :: s' → json_sep c = false) →
  json_value (pre ++ json_member key ws value) (json_search key) = Some value.
Proof.
  intros Hk Hq Hws Hv. unfold json_value, json_member. rewrite json_search_short by done.
  rewrite strstr_skip by done. cbn [mbind option_bind].
  rewrite zdrop_app_exact by done. cbn [strchr].
  rewrite Z.eqb_refl. cbn [mbind option_bind]. f_equal.
  change (CH_COLON :: ws ++ value) with ((CH_COLON :: ws) ++ value).
  apply skip_while_app; [by constructor|done].
Qed.

(** ** The skip list *)

Module SkipList.
Import Sender.

(** An entry as ["%d:%d"]. *)
Definition entry (x : Z * Z) : list Z := print_int x.1 ++ CH_COLON :: print_int x.2.

(** A configured list: the entries with [seps] between them. *)
Fixpoint skip_text (seps : list Z) (l : list (Z * Z)) : list Z :=
  match l with
  | [] => []
  | [x] => entry x
  | x :: r => entry x ++ seps ++ skip_text seps r
  end.

Lemma dec_digits_len k : ∀ fuel n,
  0 ≤ n < 10 ^ Z.of_nat k → (0 < k)%nat → (k ≤ fuel)%nat → len (dec_digits fuel n) ≤ Z.of_nat k.
Proof.
  induction k as [|k IH]; intros fuel n Hn Hk Hf; [lia|].
  destruct fuel as [|fuel]; [lia|]. unfold dec_digits; fold dec_digits.
  destruct (Z.ltb_spec n 10); [len_norm; lia|].
  rewrite Nat2Z.inj_succ, Z.pow_succ_r in Hn by lia.
  assert (0 < k)%nat by (destruct k; [change (10 ^ Z.of_nat 0) with 1 in Hn; lia|lia]).
  len_norm. rewrite Nat2Z.inj_succ.
  specialize (IH fuel (n / 10) ltac:(split; [apply Z.div_pos; lia|apply Z.div_lt_upper_bound; lia])
    ltac:(lia) ltac:(lia)). lia.
Qed.

Lemma print_int_len z : in_s 32 z → 0 < len (print_int z) ≤ 11.
Proof.
  intros Hz. destruct (print_int_head z (in_s32_s64 z Hz)) as (c & r & Hp & _).
  assert (Hpos : 0 < len (print_int z)) by (rewrite Hp; len_norm; pose proof (len_nonneg r); lia).
  split; [done|]. clear Hp Hpos. unfold in_s in Hz. unfold print_int. case_test.
  - pose proof (dec_digits_len 10 20 (- z) ltac:(lia) ltac:(lia) ltac:(lia)). len_norm. lia.
  - pose proof (dec_digits_len 10 20 z ltac:(lia) ltac:(lia) ltac:(lia)). lia.
Qed.

Lemma print_int_chars z : in_s 32 z → Forall (λ c, c = CH_MINUS ∨ is_digit c = true) (print_int z).
Proof.
  intros Hz%in_s32_s64%in_s64_pow20. unfold print_int. case_test.
  - destruct (dec_digits_spec 20 (- z) ltac:(lia) ltac:(lia)) as (HF & _).
    constructor; [by left|]. eapply Forall_impl; [done|]. auto.
  - destruct (dec_digits_spec 20 z ltac:(lia) ltac:(lia)) as (HF & _).
    eapply Forall_impl; [done|]. auto.
Qed.

Definition pair_ok (x : Z * Z) : Prop := in_s 32 x.1 ∧ in_s 32 x.2.

Lemma entry_chars x : pair_ok x → Forall (λ c, skip_sep c = false) (entry x).
Proof.
  assert (Hc : ∀ c, c = CH_MINUS ∨ is_digit c = true → skip_sep c = false).
  { intros c. unfold skip_sep, is_digit, CH_MINUS, CH_SPACE, CH_COMMA, CH_TAB. lia. }
  intros [H1 H2]. unfold entry. apply Forall_app. split.
  - eapply Forall_impl; [by apply print_int_chars|done].
  - constructor; [done|]. eapply Forall_impl; [by apply print_int_chars|done].
Qed.

Lemma entry_len x : pair_ok x → 0 < len (entry x) < 31.
Proof.
  intros [H1 H2]. unfold entry. len_norm.
  pose proof (print_int_len _ H1). pose proof (print_int_len _ H2). lia.
Qed.

Lemma entry_inj x y : pair_ok x → pair_ok y → entry x = entry y → x = y.
Proof.
  intros [Hx1 Hx2] [Hy1 Hy2] E.
  assert (Hcol : ∀ s, ends_number (CH_COLON :: s)).
  { intros s c s' [= <- <-]. done. }
  assert (Hno : ∀ z, in_s 32 z → CH_COLON ∉ print_int z).
  { intros z Hz Hin. pose proof (print_int_chars z Hz) as HF. rewrite Forall_forall in HF.
    destruct (HF _ Hin); discriminate. }
  assert (H1 : x.1 = y.1).
  { rewrite <- (atoi_print x.1 (CH_COLON :: print_int x.2)) by done. fold (entry x).
    rewrite E. by apply atoi_print. }
  assert (H2 : Some (CH_COLON :: print_int x.2) = Some (CH_COLON :: print_int y.2)).
  { rewrite <- (strchr_app (print_int x.1)), <- (strchr_app (print_int y.1)) by auto.
    fold (entry x) (entry y). by rewrite E. }
  injection H2 as H2. apply (f_equal atoi) in H2.
  rewrite <- (app_nil_r (print_int x.2)), <- (app_nil_r (print_int y.2)) in H2.
  rewrite !atoi_print in H2 by done. by destruct x, y; cbn in *; congruence.
Qed.

Lemma take_until_app f tok s :
  Forall (λ c, f c = false) tok → (∀ c s', s = c :: s' → f c = true) → take_until f (tok ++ s) = tok.
Proof.
  induction 1 as [|c tok Hc _ IH]; intros Hs; cbn.
  - destruct s as [|c s']; [done|]. cbn. by rewrite (Hs c s').
  - rewrite Hc. by rewrite IH.
Qed.

Lemma token_matches_eq target tok :
  0 < len tok < 32 → token_matches target tok = bool_decide (target = tok).
Proof.
  intros Hl. unfold token_matches. replace (0 <? len tok) with true by lia.
  replace (len tok <? 32) with true by lia. cbn [andb].
  destruct (Z.eqb_spec (len target) (len tok)) as [Heq|Hne].
  - rewrite andb_true_r. rewrite <- Heq, ztake_ge by lia. done.
  - rewrite andb_false_r. symmetry. apply bool_decide_false. congruence.
Qed.

(** One turn of the scan. *)
Lemma skip_scan_token fuel ws tok rest target :
  Forall (λ c, skip_sep c = true) ws → Forall (λ c, skip_sep c = false) tok → 0 < len tok < 32 →
  (∀ c s', rest = c :: s' → skip_sep c = true) →
  skip_scan (S fuel) (ws ++ tok ++ rest) target =
  if bool_decide (target = tok) then 1 else skip_scan fuel rest target.
Proof.
  intros Hws Htok Hl Hr. unfold skip_scan; fold skip_scan.
  destruct tok as [|c tok]; [change (len (@nil Z)) with 0 in Hl; lia|].
  rewrite skip_while_app; [|done|].
  2: { intros c' s' [= <- _]. by apply Forall_cons in Htok as []. }
  cbn [app]. change (c :: tok ++ rest) with ((c :: tok) ++ rest).
  rewrite take_until_app, token_matches_eq, zdrop_app_exact by done. done.
Qed.

Lemma skip_scan_seps fuel ws target :
  Forall (λ c, skip_sep c = true) ws → skip_scan fuel ws target = 0.
Proof.
  intros Hws. destruct fuel; [done|]. unfold skip_scan; fold skip_scan.
  rewrite <- (app_nil_r ws), skip_while_app; done.
Qed.

Lemma skip_scan_text seps target l : ∀ fuel ws,
  Forall (λ c, skip_sep c = true) seps → seps ≠ [] → Forall (λ c, skip_sep c = true) ws →
  Forall pair_ok l → (length l < fuel)%nat →
  skip_scan fuel (ws ++ skip_text seps l) target =
  if bool_decide (target ∈ entry <$> l) then 1 else 0.
Proof.
  induction l as [|x l IH]; intros fuel ws Hs Hne Hws Hl Hf.
  - cbn. rewrite app_nil_r. by apply skip_scan_seps.
  - apply Forall_cons in Hl as [Hx Hl]. destruct fuel as [|fuel]; [lia|].
    pose proof (entry_len x Hx). pose proof (entry_chars x Hx).
    rewrite fmap_cons. rewrite (bool_decide_ext _ (target = entry x ∨ target ∈ entry <$> l))
      by apply elem_of_cons.
    destruct l as [|y l].
    + cbn [skip_text]. rewrite <- (app_nil_r (entry x)).
      rewrite skip_scan_token by (done || lia). rewrite app_nil_r.
      rewrite skip_scan_seps by constructor.
      repeat case_bool_decide; try done; set_solver.
    + change (skip_text seps (x :: y :: l)) with (entry x ++ seps ++ skip_text seps (y :: l)).
      rewrite skip_scan_token; [|done|done|lia|].
      2: { intros c s' Hc. destruct seps as [|c' seps]; [done|]. injection Hc as <- _.
           by apply Forall_cons in Hs as []. }
      rewrite IH by (done || (cbn in *; lia)).
      destruct (decide (target = entry x)) as [Hx'|Hx'].
      * rewrite !bool_decide_true by auto. done.
      * rewrite (bool_decide_false (target = entry x)) by done.
        apply (f_equal (λ b : bool, if b then 1 else 0)). apply bool_decide_ext. tauto.
Qed.

(** The scan's fuel, one turn per character, covers the entries. *)
Lemma skip_text_length seps l : Forall pair_ok l → (length l ≤ length (skip_text seps l))%nat.
Proof.
  induction l as [|x l IH]; intros Hl; [done|]. apply Forall_cons in Hl as [Hx Hl].
  pose proof (entry_len x Hx) as He. unfold len in He.
  destruct l as [|y l]; [cbn [skip_text]; cbn; lia|].
  change (skip_text seps (x :: y :: l)) with (entry x ++ seps ++ skip_text seps (y :: l)).
  rewrite !length_app. specialize (IH Hl). cbn [length] in *. lia.
Qed.

End SkipList.

(** ** Properties *)

(** [json_int_roundtrip]: an integer member of the configuration text is read
    as the number written there, with any blanks after the colon and whatever
    follows the digits; a key that does not occur yields the default. *)
Theorem json_int_roundtrip pre key ws z rest default_val :
  len key ≤ 69 → CH_QUOTE ∉ pre → Forall (λ c, json_sep c = true) ws → in_s 32 z → ends_number rest →
  json_read_int (pre ++ json_member key ws (print_int z ++ rest)) key default_val = z ∧
  json_read_int pre key default_val = default_val.
Proof.
  intros Hk Hq Hws Hz Hr. split; unfold json_read_int.
  - rewrite json_value_member; [by apply atoi_print|done|done|done|].
    destruct (print_int_head z (in_s32_s64 z Hz)) as (c & r & -> & Hc). intros c' s' [= <- _].
    unfold json_sep, is_digit, CH_MINUS, CH_COLON, CH_SPACE, CH_TAB, CH_NL in *. lia.
  - rewrite json_search_short by done. unfold json_value.
    assert (Hn : strstr pre (CH_QUOTE :: key ++ [CH_QUOTE]) = None).
    { clear -Hq. induction pre as [|c pre IH]; [done|].
      apply not_elem_of_cons in Hq as [Hc Hq]. cbn [strstr starts_with].
      replace (CH_QUOTE =? c) with false by lia. by apply IH. }
    by rewrite Hn.
Qed.

Lemma json_int_roundtrip_witness :
  json_read_int (string_bytes "{ " ++ json_member (string_bytes "Port") [CH_SPACE] (print_int 3389 ++ [125]))
    (string_bytes "Port") 1 = 3389 ∧
  json_read_int (string_bytes "{ ") (string_bytes "Port") 1 = 1.
Proof.
  apply json_int_roundtrip.
  - vm_compute; discriminate.
  - apply (bool_decide_eq_true_1 _). vm_compute. reflexivity.
  - repeat constructor.
  - vm_compute; split; congruence.
  - intros c s' [= <- _]. reflexivity.
Defined.

(** [json_str_roundtrip]: a string member is read as the characters between
    its quotes, cut to what the destination can hold with its terminator. *)
Theorem json_str_roundtrip pre key ws value rest out_len :
  len key ≤ 69 → CH_QUOTE ∉ pre → Forall (λ c, json_sep c = true) ws → CH_QUOTE ∉ value →
  1 ≤ out_len →
  json_read_str (pre ++ json_member key ws (CH_QUOTE :: value ++ CH_QUOTE :: rest)) key out_len =
  Some (ztake (out_len - 1) value).
Proof.
  intros Hk Hq Hws Hv Ho. unfold json_read_str.
  rewrite json_value_member; [|done|done|done|by intros c s' [= <- _]].
  cbn [mbind option_bind json_literal]. rewrite Z.eqb_refl, strchr_app by done. f_equal.
  replace (len (value ++ CH_QUOTE :: rest) - len (CH_QUOTE :: rest)) with (len value)
    by (rewrite len_app; lia).
  destruct (Z.min_spec (len value) (out_len - 1)) as [[H ->]|[H ->]].
  - rewrite ztake_app_le by lia. rewrite !ztake_ge by lia. done.
  - by rewrite ztake_app_le.
Qed.

Lemma json_str_roundtrip_witness :
  json_read_str (string_bytes "{" ++ json_member (string_bytes "Path") [CH_SPACE]
                  (CH_QUOTE :: string_bytes "/var/log/x" ++ [CH_QUOTE; 125])) (string_bytes "Path") 5 =
  Some (ztake (5 - 1) (string_bytes "/var/log/x")).
Proof.
  apply (json_str_roundtrip _ _ _ _ [125]).
  - vm_compute; discriminate.
  - apply (bool_decide_eq_true_1 _). vm_compute. reflexivity.
  - repeat constructor.
  - apply (bool_decide_eq_true_1 _). vm_compute. reflexivity.
  - lia.
Defined.

(** [partition_is_skipped_correct]: for a skip list written as "disk:part"
    entries with commas, blanks or tabs between them, [partition_is_skipped]
    answers 1 exactly for the listed pairs; in particular "1:12" never makes
    1:1 or 1:2 skipped. *)
Theorem partition_is_skipped_correct seps l devno part_index :
  Forall (λ c, Sender.skip_sep c = true) seps → seps ≠ [] →
  Forall SkipList.pair_ok l → SkipList.pair_ok (devno, part_index) →
  Sender.partition_is_skipped (SkipList.skip_text seps l) devno part_index =
  if bool_decide ((devno, part_index) ∈ l) then 1 else 0.
Proof.
  intros Hs Hne Hl Hx. unfold Sender.partition_is_skipped.
  assert (Ht : Sender.skip_target devno part_index = SkipList.entry (devno, part_index)).
  { unfold Sender.skip_target. apply ztake_ge.
    pose proof (SkipList.entry_len (devno, part_index) Hx).
    change (len (SkipList.entry (devno, part_index)) ≤ 31). lia. }
  rewrite Ht. change (SkipList.skip_text seps l) with ([] ++ SkipList.skip_text seps l) at 2.
  rewrite SkipList.skip_scan_text; [|done|done|constructor|done|].
  - apply (f_equal (λ b : bool, if b then 1 else 0)). apply bool_decide_ext.
    rewrite list_elem_of_fmap. split; [|eauto].
    intros (y & Hy & Hin). rewrite Forall_forall in Hl.
    by rewrite (SkipList.entry_inj (devno, part_index) y Hx (Hl y Hin) Hy).
  - pose proof (SkipList.skip_text_length seps l Hl). lia.
Qed.

Lemma partition_is_skipped_correct_witness :
  Sender.partition_is_skipped (SkipList.skip_text [CH_COMMA; CH_SPACE] [(0, 2); (1, 12)]) 1 2 =
  if bool_decide ((1, 2) ∈ [(0, 2); (1, 12)]) then 1 else 0.
Proof.
  apply partition_is_skipped_correct.
  - repeat constructor.
  - discriminate.
  - repeat constructor; vm_compute; congruence.
  - vm_compute; repeat split; congruence.
Defined.
