(* ===== verification/Log.v ===== *)
(** * The log modules (client/log.c and server/log.c)

    The two modules have the same functions; only the size of the buffer for the
    time differs, which the time never fills.  A message is its formatted text.
    The state is the level and the stream; what has been written is the list of
    the lines with the stream each went to.  The lock, which serialises writers,
    is not modelled: a call is one step. *)

From stdpp Require Import strings.
From S2P Require Import Prelude Protocol Json.

Definition LOG_LEVEL_TRACE : Z := 1.
Definition LOG_LEVEL_DEBUG : Z := 2.
Definition LOG_LEVEL_INFO : Z := 3.
Definition LOG_LEVEL_WARN : Z := 4.
Definition LOG_LEVEL_ERROR : Z := 5.

Inductive stream := Stderr | LogFile (path : list Z).

#[export] Instance stream_eq_dec : EqDecision stream.
Proof. solve_decision. Defined.

(** [g_log_level], [g_log_file] and what has been written. *)
Record log_state := mk_log {
  lg_level : Z;
  lg_file : option stream;
  lg_out : list (stream * list Z);
}.

Definition log_initial : log_state := mk_log LOG_LEVEL_INFO None [].

(** [fopen_ok]: whether the file can be opened for appending. *)
Definition log_init (level : Z) (filepath : option (list Z)) (fopen_ok : bool) (s : log_state) : Z * log_state :=
  match filepath with
  | Some path =>
      if fopen_ok then (0, mk_log level (Some (LogFile path)) (lg_out s))
      else (-1, mk_log level None (lg_out s))
  | None => (0, mk_log level (Some Stderr) (lg_out s))
  end.

Definition log_close (s : log_state) : log_state := mk_log (lg_level s) None (lg_out s).

Definition k_tags : list string := [""; "[TRACE]"; "[DEBUG]"; "[INFO ]"; "[WARN ]"; "[ERROR]"]%string.

Definition log_tag (level : Z) : list Z :=
  string_bytes (if (1 <=? level) && (level <=? 5) then nth (Z.to_nat level) k_tags "[     ]"%string else "[     ]"%string).

(** [struct tm], as localtime fills it. *)
Record tm := mk_tm { tm_year : Z; tm_mon : Z; tm_mday : Z; tm_hour : Z; tm_min : Z; tm_sec : Z }.

(** ["%04d/%02d/%02d %02d:%02d:%02d"] *)
Definition time_text (t : tm) : list Z :=
  print_padded 4 (tm_year t + 1900) ++ string_bytes "/" ++ print_padded 2 (tm_mon t + 1) ++ string_bytes "/" ++
  print_padded 2 (tm_mday t) ++ [CH_SPACE] ++ print_padded 2 (tm_hour t) ++ [CH_COLON] ++
  print_padded 2 (tm_min t) ++ [CH_COLON] ++ print_padded 2 (tm_sec t).

(** The characters after the last [c]; [None]: there is none. *)
Fixpoint strrchr_next (s : list Z) (c : Z) : option (list Z) :=
  match s with
  | [] => None
  | x :: s' =>
      match strrchr_next s' c with
      | Some r => Some r
      | None => if x =? c then Some s' else None
      end
  end.

(** The file name without its path *)
Definition base_name (file : list Z) : list Z :=
  match strrchr_next file 47 with
  | Some r => r
  | None => default file (strrchr_next file CH_BACKSLASH)
  end.

(** ["%s %s %s:%d -| %s\n"] *)
Definition log_line (level : Z) (t : tm) (file : list Z) (line : Z) (m : list Z) : list Z :=
  log_tag level ++ [CH_SPACE] ++ time_text t ++ [CH_SPACE] ++ base_name file ++ [CH_COLON] ++ print_int line ++
  string_bytes " -| " ++ ztake 4095 m ++ [CH_NL].

Definition log_write (level : Z) (t : tm) (file : list Z) (line : Z) (m : list Z) (s : log_state) : log_state :=
  if level <? lg_level s then s
  else
    match lg_file s with
    | None => s
    | Some f => mk_log (lg_level s) (lg_file s) (lg_out s ++ [(f, log_line level t file line m)])
    end.

(** ** Runs *)

Inductive log_op :=
  | Init (level : Z) (filepath : option (list Z)) (fopen_ok : bool)
  | Close
  | Message (level : Z) (t : tm) (file : list Z) (line : Z) (m : list Z).

Definition log_step (s : log_state) (o : log_op) : log_state :=
  match o with
  | Init level path ok => (log_init level path ok s).2
  | Close => log_close s
  | Message level t file line m => log_write level t file line m s
  end.

Definition log_run : list log_op → log_state := foldl log_step log_initial.

(** The level and the stream in force, from the operations alone: those of the
    last [Init] or [Close]. *)
Fixpoint in_force (level : Z) (f : option stream) (ops : list log_op) : Z * option stream :=
  match ops with
  | [] => (level, f)
  | Init l path ok :: r =>
      in_force l (match path with Some p => if ok then Some (LogFile p) else None | None => Some Stderr end) r
  | Close :: r => in_force level None r
  | Message _ _ _ _ _ :: r => in_force level f r
  end.

Lemma log_run_force ops : ∀ s,
  let s' := foldl log_step s ops in (lg_level s', lg_file s') = in_force (lg_level s) (lg_file s) ops.
Proof.
  induction ops as [|o ops IH]; intros s; [done|]. cbn [foldl]. cbv zeta. rewrite IH. destruct o as [l p ok| |l t f n m]; cbn.
  - by destruct p as [p|]; [destruct ok|].
  - done.
  - unfold log_write. destruct (l <? lg_level s); [done|]. destruct s as [lv [h|] out]; done.
Qed.

Lemma log_out_grows s o :
  lg_out (log_step s o) = lg_out s ++
    match o with
    | Message l t f n m => if l <? lg_level s then [] else match lg_file s with Some h => [(h, log_line l t f n m)] | None => [] end
    | _ => []
    end.
Proof.
  destruct o as [l p ok| |l t f n m]; cbn.
  - destruct p as [p|]; [destruct ok|]; cbn; by rewrite app_nil_r.
  - by rewrite app_nil_r.
  - unfold log_write. destruct (l <? lg_level s); [by rewrite app_nil_r|]. by destruct (lg_file s); [|rewrite app_nil_r].
Qed.

(** What one operation after [before] writes. *)
Definition written (before : list log_op) (o : log_op) : list (stream * list Z) :=
  match o, in_force LOG_LEVEL_INFO None before with
  | Message l t f n m, (level, Some h) => if l <? level then [] else [(h, log_line l t f n m)]
  | _, _ => []
  end.

(** ** Properties *)

(** [log_exact]: after any sequence of calls the log holds, in order, one
    formatted line for every message whose level reaches the level in force, on the
    stream in force, and nothing else; before the first successful [log_init], after
    [log_close] and after a [log_init] that could not open its file, messages are
    dropped without a trace. *)
Theorem log_exact ops :
  lg_out (log_run ops) = concat (imap (λ i o, written (take i ops) o) ops) ∧
  (∀ level t f n m, lg_file (log_run ops) = None → log_write level t f n m (log_run ops) = log_run ops) ∧
  (∀ level t f n m h, lg_file (log_run (ops ++ [Close; Message level t f n m])) ≠ Some h ∧
     lg_out (log_run (ops ++ [Close; Message level t f n m])) = lg_out (log_run ops)).
Proof.
  split; [|split].
  - induction ops as [|o ops IH] using rev_ind; [done|]. unfold log_run in *. rewrite foldl_app. cbn [foldl].
    rewrite log_out_grows, IH, imap_app, concat_app. f_equal.
    + f_equal. apply imap_ext. intros i x Hx%lookup_lt_Some. by rewrite take_app_le by lia.
    + cbn. rewrite app_nil_r, Nat.add_0_r, take_app_length. unfold written.
      pose proof (log_run_force ops log_initial) as Hf. cbv zeta in Hf. change (lg_level log_initial) with LOG_LEVEL_INFO in Hf.
      change (lg_file log_initial) with (@None stream) in Hf. rewrite <- Hf.
      destruct o; try done. by destruct (lg_file _), (_ <? _).
  - intros level t f n m Hn. unfold log_write. by rewrite Hn; destruct (level <? _).
  - intros level t f n m h. unfold log_run. rewrite foldl_app. cbn [foldl log_step]. unfold log_write.
    by destruct (level <? _).
Qed.

(** The time always fits its buffer in the years up to 9999. *)
Lemma time_text_fits t :
  0 ≤ tm_year t + 1900 < 10000 → 0 ≤ tm_mon t + 1 < 100 → 0 ≤ tm_mday t < 100 → 0 ≤ tm_hour t < 100 →
  0 ≤ tm_min t < 100 → 0 ≤ tm_sec t < 100 → len (time_text t) = 19.
Proof.
  assert (Hp : ∀ n z, (0 < n)%nat → (n ≤ 4)%nat → 0 ≤ z < 10 ^ Z.of_nat n → len (print_padded n z) = Z.of_nat n).
  { intros n z H0 H4 Hz. unfold print_padded. len_norm. unfold len at 1. rewrite length_replicate.
    unfold print_int. replace (z <? 0) with false by lia.
    pose proof (SkipList.dec_digits_len n 20 z Hz H0 ltac:(lia)). unfold len in *. lia. }
  intros H1 H2 H3 H4 H5 H6. unfold time_text. len_norm.
  rewrite !(Hp 2%nat), (Hp 4%nat) by (lia || done). done.
Qed.
