(* ===== verification/HashTool.v ===== *)
(** * The command-line hash tool (tools/hash_block.c)

    The tool has its own copy of the hash, transcribed here from that file.  An
    invocation is the argument list after the program name, the file's content
    ([None]: it cannot be opened), the standard input, and the allocator:
    [fresh n] is the content of a block of [n] bytes, [None] when there is none. *)

From stdpp Require Import strings.
From S2P Require Import Prelude Protocol Hash Json.

(** ** The tool's copy of the hash *)

Module Tool.

Definition TOOL_HASH_MUL : Z := 0xc2b4d1b3d54d51c2.
Definition TOOL_HASH_ROT : Z := 0x9e3779b586c04815.
Definition TOOL_HASH_INIT_SHORT : Z := 0x27d4eb2f165667c5.
Definition TOOL_HASH_INIT_A : Z := 0x60ea27eeadc0b5d6.
Definition TOOL_HASH_INIT_B : Z := 0x61c8864e7a143579.
Definition TOOL_HASH_INIT_C : Z := 0xc2b2ae3d27d4eb4f.
Definition TOOL_HASH_XOR_CONST : Z := 0x85ebca77c2b2ae63.

Definition tool_fmix64 (h : Z) : Z :=
  let h := Z.lxor h (Z.shiftr h 33) in
  let h := u64 (h * 0xff51afd7ed558ccd) in
  let h := Z.lxor h (Z.shiftr h 33) in
  let h := u64 (h * 0xc4ceb9fe1a85ec53) in
  Z.lxor h (Z.shiftr h 33).

(** [x = ((x << 31) | (x >> 33)) * TOOL_HASH_ROT] *)
Definition tool_rot (x : Z) : Z := u64 (Z.lor (u64 (Z.shiftl x 31)) (Z.shiftr x 33) * TOOL_HASH_ROT).

Fixpoint tool_loop (fuel : nat) (data : list Z) (p end_ hash state_b state_c state_d : Z) : Z * Z * Z * Z :=
  match fuel with
  | O => (hash, state_b, state_c, state_d)
  | S fuel' =>
      if p + 3 <? end_ then
        let k0 := u64 (word_at data p * TOOL_HASH_MUL) in
        let hash := tool_rot (u64 (hash + k0)) in
        let k1 := u64 (word_at data (p + 1) * TOOL_HASH_MUL) in
        let state_b := tool_rot (u64 (state_b + k1)) in
        let k2 := u64 (word_at data (p + 2) * TOOL_HASH_MUL) in
        let state_c := tool_rot (u64 (state_c + k2)) in
        let k3 := u64 (word_at data (p + 3) * TOOL_HASH_MUL) in
        let state_d := tool_rot (u64 (state_d + k3)) in
        tool_loop fuel' data (p + 4) end_ hash state_b state_c state_d
      else (hash, state_b, state_c, state_d)
  end.

Definition tool_hash_block (data : list Z) (seed : Z) : Z :=
  let n := len data in
  if n <? 32 then u64 (u64 (n + TOOL_HASH_INIT_SHORT) + seed)
  else
    let end_ := n / 8 - (if n mod 8 =? 0 then 4 else 0) in
    let '(hash, state_b, state_c, state_d) :=
      tool_loop (Z.to_nat end_) data 0 end_ (u64 (seed + TOOL_HASH_INIT_A)) (u64 (seed + TOOL_HASH_INIT_B))
        (u64 (seed + TOOL_HASH_INIT_C)) seed in
    let mix result lane := u64 (u64 (Z.lxor result (tool_fmix64 lane) * TOOL_HASH_ROT) + TOOL_HASH_XOR_CONST) in
    u64 (mix (mix (mix (mix TOOL_HASH_XOR_CONST hash) state_b) state_c) state_d + n).

End Tool.

(** ** The program *)

(** The whole standard input: the buffer of [cap] bytes doubles when it is full. *)
Fixpoint read_stdin (fuel : nat) (cap : Z) (buf input : list Z) : list Z :=
  match fuel with
  | O => buf
  | S fuel' =>
      let cap := if cap <=? len buf then cap * 2 else cap in
      let n := Z.min (cap - len buf) (len input) in
      if n =? 0 then buf else read_stdin fuel' cap (buf ++ ztake n input) (zdrop n input)
  end.

(** The line printed: the hash, the offset (none for the standard input), the size
    and the seed; or exit code 1. *)
Inductive tool_result :=
  | Printed (h : Z) (offset : option Z) (size seed : Z)
  | Exit1.

Definition tool_main (argv : list (list Z)) (file : option (list Z)) (stdin : list Z) (fresh : Z → option (list Z)) : tool_result :=
  match argv with
  | [] => Exit1
  | filepath :: args =>
      if bool_decide (filepath = string_bytes "-") then
        let buf := read_stdin (S (length stdin)) (2 ^ 20) [] stdin in
        let seed := match last args with Some a => u64 (strtoll a) | None => 0 end in
        Printed (Tool.tool_hash_block buf seed) None (len buf) seed
      else
        match file with
        | None => Exit1
        | Some content =>
            let file_size := len content in
            let '(offset, size) := match args with
                                   | o :: s :: _ => (strtoll o, strtoll s)
                                   | _ => (0, file_size)
                                   end in
            if (if (2 <=? len args) then file_size <? s64 (offset + size) else false) then Exit1
            else
              let seed := match args with _ :: _ :: a :: _ => u64 (strtoll a) | _ => 0 end in
              match fresh (u64 size) with
              | None => Exit1
              | Some mem =>
                  (* a failed [fseek] leaves the position at the end *)
                  let got := if offset <? 0 then [] else ztake (u64 size) (zdrop offset content) in
                  let buf := got ++ zdrop (len got) mem in
                  Printed (Tool.tool_hash_block buf seed) (Some offset) size seed
              end
        end
  end.

(** ** Lemmas *)

Lemma tool_fmix64_same h : Tool.tool_fmix64 h = fmix64 h.
Proof. done. Qed.

Lemma tool_loop_same fuel data : ∀ p e st,
  let st' := hash_loop fuel data p e st in
  Tool.tool_loop fuel data p e (lane_a st) (lane_b st) (lane_c st) (lane_d st) =
    (lane_a st', lane_b st', lane_c st', lane_d st').
Proof.
  induction fuel as [|fuel IH]; intros p e st; [done|]. cbn [Tool.tool_loop hash_loop].
  destruct (p + 3 <? e); [|done]. cbv zeta in IH |- *. by rewrite <- IH.
Qed.

Lemma read_stdin_all fuel : ∀ cap buf input,
  0 < cap → len buf ≤ cap → (length input < fuel)%nat → read_stdin fuel cap buf input = buf ++ input.
Proof.
  induction fuel as [|fuel IH]; intros cap buf input Hc Hb Hf; [lia|]. cbn [read_stdin].
  set (cap' := if cap <=? len buf then cap * 2 else cap).
  assert (Hcap : len buf < cap') by (unfold cap'; case_test; lia).
  pose proof (len_nonneg buf). pose proof (len_nonneg input).
  destruct (Z.eqb_spec (Z.min (cap' - len buf) (len input)) 0) as [Hn|Hn].
  - assert (len input = 0) as ->%len_zero_nil by lia. by rewrite app_nil_r.
  - rewrite IH.
    + by rewrite <- app_assoc, ztake_zdrop.
    + lia.
    + len_norm. lia.
    + unfold zdrop, len in *. rewrite length_drop. lia.
Qed.

(** The tool's copy of the hash is the client's. *)
Lemma tool_hash_same data seed : Tool.tool_hash_block data seed = hash_block data seed.
Proof.
  unfold Tool.tool_hash_block, hash_block. destruct (len data <? 32); [reflexivity|].
  pose proof (tool_loop_same (Z.to_nat (hash_end (len data))) data 0 (hash_end (len data)) (lanes_init seed)) as H.
  cbn [lanes_init lane_a lane_b lane_c lane_d] in H. cbv zeta in H. unfold hash_end in H. unfold hash_end.
  change Tool.TOOL_HASH_INIT_A with HASH_INIT_A. change Tool.TOOL_HASH_INIT_B with HASH_INIT_B.
  change Tool.TOOL_HASH_INIT_C with HASH_INIT_C. rewrite H. unfold hash_final, final_round.
  change Tool.TOOL_HASH_ROT with HASH_ROT. change Tool.TOOL_HASH_XOR_CONST with HASH_XOR_CONST.
  change Tool.tool_fmix64 with fmix64. reflexivity.
Qed.

(** ** Properties *)

(** C39 (tool_confirms_block): run on a file with a range inside it and the offset's
    low 32 bits as the seed, the tool prints the hash the client records for the
    block read there; from the standard input it prints the hash of everything it
    has been given. *)
Theorem tool_confirms_block path content stdin fresh offset size mem :
  path ≠ string_bytes "-" → 0 ≤ offset → 0 ≤ size → offset + size ≤ len content → len content < 2 ^ 63 →
  fresh size = Some mem → len mem = size →
  tool_main [path; print_int offset; print_int size; print_int (Z.land offset 0xFFFFFFFF)] (Some content) stdin fresh =
    Printed (hash_block (ztake size (zdrop offset content)) (Z.land offset 0xFFFFFFFF)) (Some offset) size (Z.land offset 0xFFFFFFFF) ∧
  tool_main [string_bytes "-"; print_int (Z.land offset 0xFFFFFFFF)] (Some content) stdin fresh =
    Printed (hash_block stdin (Z.land offset 0xFFFFFFFF)) None (len stdin) (Z.land offset 0xFFFFFFFF).
Proof.
  intros Hp Ho Hs Hle Hl Hm Hml.
  assert (Hend : ends_number []) by done.
  assert (Hread : ∀ z, in_s 64 z → strtoll (print_int z) = z)
    by (intros z Hz; rewrite <- (app_nil_r (print_int z)); by apply strtoll_print).
  assert (Hseed : 0 ≤ Z.land offset 0xFFFFFFFF < 2 ^ 32).
  { change 0xFFFFFFFF with (Z.ones 32). rewrite Z.land_ones by lia. apply Z.mod_pos_bound. lia. }
  assert (Hus : u64 (Z.land offset 0xFFFFFFFF) = Z.land offset 0xFFFFFFFF) by (apply (wrapU_id 64); unfold in_u; lia).
  assert (Hsz : u64 size = size) by (apply (wrapU_id 64); unfold in_u; lia).
  split.
  - unfold tool_main. rewrite bool_decide_false by done. rewrite !Hread by (unfold in_s; lia).
    change (2 <=? len [print_int offset; print_int size; print_int (Z.land offset 0xFFFFFFFF)]) with true. cbn match.
    replace (s64 (offset + size)) with (offset + size) by (symmetry; apply (wrapS_id 64); [lia|unfold in_s; lia]).
    replace (len content <? offset + size) with false by lia. rewrite Hsz, Hm.
    replace (offset <? 0) with false by lia. rewrite Hus, tool_hash_same.
    assert (len (ztake size (zdrop offset content)) = size) as Hlen by (len_norm; lia).
    rewrite Hlen, (zdrop_ge size mem), app_nil_r by lia. done.
  - unfold tool_main. rewrite bool_decide_true by done. cbn [last]. rewrite Hread by (unfold in_s; lia).
    rewrite Hus, read_stdin_all by (cbn; len_norm; lia). by rewrite tool_hash_same.
Qed.

Lemma tool_confirms_block_witness :
  tool_main [string_bytes "f"; print_int 2; print_int 3; print_int (Z.land 2 0xFFFFFFFF)] (Some [1; 2; 3; 4; 5; 6]) [] (λ n, Some (replicate (Z.to_nat n) 0)) =
    Printed (hash_block [3; 4; 5] 2) (Some 2) 3 2.
Proof.
  exact (proj1 (tool_confirms_block (string_bytes "f") [1; 2; 3; 4; 5; 6] [] (λ n, Some (replicate (Z.to_nat n) 0)) 2 3 [0; 0; 0]
    ltac:(done) ltac:(lia) ltac:(lia) ltac:(vm_compute; discriminate) ltac:(reflexivity) eq_refl eq_refl)).
Defined.

(** An offset without a size is ignored: the hash is that of the whole file. *)
Lemma tool_offset_alone path offset content fresh :
  path ≠ string_bytes "-" →
  tool_main [path; offset] (Some content) [] fresh = tool_main [path] (Some content) [] fresh.
Proof. intros Hp. unfold tool_main. by rewrite bool_decide_false. Qed.
