(* ===== verification/Server.v ===== *)
(** * The receiver (server/main.c)

    [handle_session] reads a client's socket until it would block, decodes,
    writes the blocks, answers; [server_iter] is one turn of [server_run]'s
    loop around [select]; [receiver_setup] is [main] up to the listening
    socket.  What the kernel reports to a turn ([select], [accept], the time)
    is the argument [select_ev]. *)

From stdpp Require Import strings.
From S2P Require Import Prelude Protocol Net Zstd Msgpack Wire Session Decoder BlockWriter Ack Json.

(** [sizeof(tmp_buf)] *)
Definition RECV_CHUNK : Z := 65536.

Record server_config_t := mk_config {
  cfg_address : list Z;
  cfg_port : Z;
  cfg_max_connections : Z;
}.

Record server := mk_server {
  sv_mgr : session_mgr;
  sv_bw : writer_state;
  sv_socks : gmap Z sock;
}.

(** ** handle_session *)

Section Handle.
Context `{Zstd} (now : Z).

(** The body of [while (rc == 1)]. *)
Definition handle_msg (w : writer_state * sock) (s : session_t) (m : decoded_msg)
    : (writer_state * sock) * session_t :=
  let '(b, fd) := w in
  let s := session_touch now s in
  match m with
  | DECODE_DATA_BLOCK devno offset data =>
      let '(rc, b) := block_writer_write b devno offset data in
      if rc =? 0 then
        let s := with_block_counted s (len data) in
        let '(_, fd) := ack_send_block fd devno (len data) offset in
        let '(pending, b) := block_writer_pending_bytes b in
        if BINLOG_SIZE_LIMIT <=? pending then
          let '(_, fd) := ack_send_binlog fd devno (len data) offset in ((b, fd), s)
        else ((b, fd), s)
      else ((b, fd), s)
  | DECODE_CTL_INCREMENTAL => ((b, fd), with_incremental s 1)
  | DECODE_CTL_END_INCREMENTAL =>
      let '(_, b) := block_writer_fsync_all b in
      let '(_, fd) := ack_send_done fd in
      ((b, fd), s)
  end.

(** The [while (1)] loop: [evs] is what the socket will deliver; the flag is
    false when the session has to be removed. *)
Fixpoint recv_loop (fuel : nat) (evs : list recv_ev) (w : writer_state * sock) (s : session_t)
    : list recv_ev * (writer_state * sock) * session_t * bool :=
  match fuel with
  | O => (evs, w, s, true)
  | S fuel' =>
      match sys_recv RECV_CHUNK evs with
      | (RcvAgain, evs) => (evs, w, s, true)
      | (RcvErr, evs) => (evs, w, s, false)
      | (RcvBytes [], evs) => (evs, w, s, false)
      | (RcvBytes bs, evs) =>
          let '(w, s, ok) := decode_chunk handle_msg w s bs in
          if ok then recv_loop fuel' evs w s else (evs, w, s, false)
      end
  end.

(** A read consumes an event or 64 KB of it. *)
Definition recv_fuel (evs : list recv_ev) : nat := S (length evs + length (script_bytes evs)).

Definition sock_of (sv : server) (fd : Z) : sock := default fresh_sock (sv_socks sv !! fd).

(** [handle_session(g_sessions[i])] *)
Definition handle_session (calloc_ok : bool) (sv : server) (i : nat) : server :=
  match g_sessions (sv_mgr sv) !! i with
  | None => sv
  | Some s =>
      if negb calloc_ok then
        mk_server (session_remove (sv_mgr sv) (s_fd s)) (sv_bw sv) (sv_socks sv)
      else
        let k := sock_of sv (s_fd s) in
        let '(evs, (b, k'), s', alive) := recv_loop (recv_fuel (sk_in k)) (sk_in k) (sv_bw sv, k) s in
        let m := mk_mgr (<[i := s']> (g_sessions (sv_mgr sv))) (sm_closed (sv_mgr sv)) in
        mk_server (if alive then m else session_remove m (s_fd s)) b
          (<[s_fd s := mk_sock (sk_out k') (sk_send k') evs]> (sv_socks sv))
  end.

(** ** The callbacks of the main loop *)

Definition find_max_fd_cb (m : session_mgr) (max_fd : Z) (i : nat) : session_mgr * Z * bool :=
  match g_sessions m !! i with
  | Some s => (m, if max_fd <? s_fd s then s_fd s else max_fd, false)
  | None => (m, max_fd, false)
  end.

Definition collect_fds_cb (m : session_mgr) (fds : gset Z) (i : nat) : session_mgr * gset Z * bool :=
  match g_sessions m !! i with
  | Some s => (m, {[s_fd s]} ∪ fds, false)
  | None => (m, fds, false)
  end.

(** The traversal's argument carries the rest of the server beside the set. *)
Definition handle_active_cb (calloc_ok : bool) (fds : gset Z) (m : session_mgr)
    (r : writer_state * gmap Z sock) (i : nat) : session_mgr * (writer_state * gmap Z sock) * bool :=
  match g_sessions m !! i with
  | Some s =>
      if bool_decide (s_fd s ∈ fds) then
        let sv := handle_session calloc_ok (mk_server m r.1 r.2) i in
        (sv_mgr sv, (sv_bw sv, sv_socks sv), false)
      else (m, r, false)
  | None => (m, r, false)
  end.

(** ** One turn of server_run *)

Inductive select_ev :=
  | SelectError                      (** -1 with an errno other than EINTR *)
  | SelectIntr
  | SelectReady (ready : gset Z) (accepted : option (Z * list Z * sock)).

(** The result's flag: the loop goes on. *)
Definition server_iter (listen_fd : Z) (cfg : server_config_t) (calloc_ok : bool)
    (sv : server) (ev : select_ev) : server * bool :=
  let readfds := (session_foreach collect_fds_cb (sv_mgr sv) {[listen_fd]}).2 in
  let max_fd := (session_foreach find_max_fd_cb (sv_mgr sv) listen_fd).2 in
  match ev with
  | SelectError => (sv, false)
  | SelectIntr => (sv, true)
  | SelectReady ready accepted =>
      let readfds := filter (λ fd, fd ≤ max_fd) (readfds ∩ ready) in
      let sv :=
        if bool_decide (listen_fd ∈ readfds) then
          match accepted with
          | None => sv
          | Some (client_fd, addr, k) =>
              let m := sv_mgr sv in
              if cfg_max_connections cfg <=? session_count m then
                mk_server (mk_mgr (g_sessions m) (sm_closed m ++ [client_fd])) (sv_bw sv) (sv_socks sv)
              else
                match session_create calloc_ok now m client_fd addr with
                | (None, m) =>
                    mk_server (mk_mgr (g_sessions m) (sm_closed m ++ [client_fd])) (sv_bw sv) (sv_socks sv)
                | (Some _, m) => mk_server m (sv_bw sv) (<[client_fd := k]> (sv_socks sv))
                end
          end
        else sv in
      let '(m, (b, socks)) :=
        session_foreach (handle_active_cb calloc_ok readfds) (sv_mgr sv) (sv_bw sv, sv_socks sv) in
      (mk_server m b socks, true)
  end.

(** [server_run]: turns until [g_running] is cleared (the end of the list) or
    [select] fails. *)
Fixpoint server_run (listen_fd : Z) (cfg : server_config_t) (sv : server)
    (evs : list (bool * select_ev)) : server :=
  match evs with
  | [] => sv
  | (calloc_ok, ev) :: r =>
      match server_iter listen_fd cfg calloc_ok sv ev with
      | (sv, true) => server_run listen_fd cfg sv r
      | (sv, false) => sv
      end
  end.

End Handle.

#[global] Arguments recv_loop : simpl never.

(** ** main: the configuration *)

Definition default_config : server_config_t := mk_config (string_bytes "0.0.0.0") 3389 7.

Definition parse_listen (config_json : option (list Z)) : server_config_t :=
  match config_json with
  | None => default_config
  | Some json =>
      match Receiver.json_nav json (string_bytes "Listen") with
      | None => default_config
      | Some listen_section =>
          mk_config
            (match json_read_str listen_section (string_bytes "Address") 64 with
             | Some a => ztake 63 a
             | None => cfg_address default_config
             end)
            (u16 (json_read_int listen_section (string_bytes "Port") 3389))
            (json_read_int listen_section (string_bytes "MaxConnections") 7)
      end
  end.

(** The loop over ["0"], ["1"], ...: the first missing key ends it, a malformed
    value is passed over. *)
Fixpoint register_disks (n : nat) (i : Z) (disks_section : list Z) (b : writer_state) : writer_state :=
  match n with
  | O => b
  | S n' =>
      let key := CH_QUOTE :: print_int i ++ [CH_QUOTE] in
      match strstr disks_section key with
      | None => b
      | Some p =>
          let b :=
            match strchr (zdrop (len key) p) CH_COLON with
            | None => b
            | Some p =>
                match json_literal (skip_while json_sep p) 511 with
                | None => b
                | Some path => (block_writer_register b i path).2
                end
            end in
          register_disks n' (i + 1) disks_section b
      end
  end.

Definition DEFAULT_DISK : list Z := string_bytes "/tmp/receiver_disk0.img".

(** The disks [main] registers: those of the configuration, or the default. *)
Definition configured_disks (config_json : option (list Z)) (b : writer_state) : writer_state :=
  match config_json with
  | None => b
  | Some json =>
      match Receiver.json_nav json (string_bytes "Target") with
      | None => b
      | Some target_section =>
          match Receiver.json_nav target_section (string_bytes "Disks") with
          | None => b
          | Some disks_section => register_disks (Z.to_nat MAX_TARGET_DISKS) 0 disks_section b
          end
      end
  end.

Definition or_default_disk (b : writer_state) : writer_state :=
  if block_writer_has_registered b =? 0 then (block_writer_register b 0 DEFAULT_DISK).2 else b.

(** [main] from the configuration text to the open disks; the code is the exit
    status, 0 when the server goes on to listen. *)
Definition receiver_setup (config_json : option (list Z)) (b : writer_state)
    : Z * server_config_t * session_mgr * writer_state :=
  let cfg := parse_listen config_json in
  let b := or_default_disk (configured_disks config_json (block_writer_init b)) in
  let '(rc, b) := block_writer_open_all b in
  (if rc <? 0 then 1 else 0, cfg, session_mgr_init, b).

(** [main] after the loop: everything is synced and closed. *)
Definition receiver_shutdown (sv : server) : writer_state :=
  block_writer_close_all (block_writer_fsync_all (sv_bw sv)).2.

(** ** What a client's messages ask for *)

(** The responses of a receiver that stores everything. *)
Definition response_to (m : decoded_msg) : list server_response_t :=
  match m with
  | DECODE_DATA_BLOCK devno offset data => [mk_response RESPONSE_ACK devno (len data) offset]
  | DECODE_CTL_INCREMENTAL => []
  | DECODE_CTL_END_INCREMENTAL => [mk_response RESPONSE_SERVER_DONE 0 0 0]
  end.

Definition responses_to (ms : list decoded_msg) : list server_response_t := ms ≫= response_to.

(** A disk after the blocks addressed to it were stored in order. *)
Definition disk_after (devno : Z) (ms : list decoded_msg) (c : content) : content :=
  foldl (λ c m, match m with
                | DECODE_DATA_BLOCK d o data => if d =? devno then store o data c else c
                | _ => c
                end) c ms.

Definition responses_bytes (rs : list server_response_t) : list Z := concat (response_bytes <$> rs).

(** A message the receiver can serve: its block belongs to a ready disk. *)
Definition servable (b : writer_state) (m : decoded_msg) : Prop :=
  match m with
  | DECODE_DATA_BLOCK devno offset data => disk_ready b devno ∧ 0 ≤ offset ∧ len data ≤ BLOCK_SIZE_MAX
  | _ => True
  end.

(** Between messages nothing is pending, no [write] will fail. *)
Record srv_ok (b : writer_state) : Prop := {
  srv_bw : bw_ok b;
  srv_pending : g_pending_bytes b = 0;
  srv_writes : writes_ok (bw_kernel b);
  srv_apart : disks_apart b;
}.

Lemma disks_apart_ext b b' :
  g_disks b' = g_disks b → k_open (bw_kernel b') = k_open (bw_kernel b) →
  disks_apart b → disks_apart b'.
Proof. unfold disks_apart, disk_ready, disk_at. by intros -> ->. Qed.

Lemma servable_ext b b' m :
  g_disks b' = g_disks b → k_open (bw_kernel b') = k_open (bw_kernel b) →
  servable b m → servable b' m.
Proof.
  destruct m; [|done|done]. intros Hd Ho (Hr & ?). split; [|done]. by eapply disk_ready_ext.
Qed.

Lemma with_recv_buf_touch now s b :
  session_touch now (with_recv_buf s b) = with_recv_buf (session_touch now s) b.
Proof. done. Qed.

(** The handler neither reads nor changes the receive buffer. *)
Lemma handle_msg_buf now w s b m :
  handle_msg now w (with_recv_buf s b) m =
  ((handle_msg now w s m).1, with_recv_buf (handle_msg now w s m).2 b).
Proof.
  destruct w as [bw fd]. unfold handle_msg. destruct m as [d o data| |]; [|done|].
  - destruct (block_writer_write bw d o data) as [rc b1]. case_test; [|done].
    destruct (ack_send_block fd d (len data) o). destruct (block_writer_pending_bytes b1).
    case_test; [|done]. by destruct (ack_send_binlog _ d (len data) o).
  - destruct (block_writer_fsync_all bw). by destruct (ack_send_done fd).
Qed.

Lemma s32_small n : 0 ≤ n < 2 ^ 31 → s32 n = n.
Proof. intros Hn. apply (wrapS_id 32); [lia|]. unfold in_s. lia. Qed.

(** Serving one message on a healthy server. *)
Lemma handle_msg_ok now b fd s m n b' fd' s' :
  srv_ok b → servable b m → 0 ≤ n → willing (20 * len (response_to m) + n) (sk_send fd) →
  handle_msg now (b, fd) s m = ((b', fd'), s') →
  srv_ok b' ∧ g_disks b' = g_disks b ∧ k_open (bw_kernel b') = k_open (bw_kernel b) ∧
  sk_out fd' = sk_out fd ++ responses_bytes (response_to m) ∧ willing n (sk_send fd') ∧
  ∀ j, disk_ready b j → disk_content b' j = disk_after j [m] (disk_content b j).
Proof.
  intros [Hb Hp Hw Ha] Hm Hn Hs E. unfold handle_msg in E. destruct m as [d o data| |].
  - destruct Hm as (Hr & Ho & Hl). unfold BLOCK_SIZE_MAX, BLOCK_SIZE in Hl.
    pose proof (len_nonneg data) as Hdl.
    destruct (write_succeeds b d o data Hr Ho Hw) as [Hrc Hw'].
    destruct (block_writer_write b d o data) as [rc b1] eqn:Ew. cbn in Hrc, Hw'. subst rc.
    destruct (write_spec b d o data 0 b1 Hb ltac:(lia) Hr Ho Ew) as (Hb1 & Hd1 & Ho1 & Hother & Hout).
    destruct Hout as (sent & rest & Hsent & Hc & [(_ & -> & _ & _ & Hpend)|(? & _)]); [|lia].
    rewrite app_nil_r in Hsent. subst sent.
    cbn [Z.eqb] in E. unfold ack_send_block in E. rewrite s32_small in E by lia.
    destruct (send_response_delivers n fd (mk_response RESPONSE_ACK d (len data) o) Hn)
      as (fd1 & Es & Hso & _ & Hsw).
    { eapply willing_le; [|exact Hs]. cbn [response_to]. len_norm. lia. }
    rewrite Es in E. unfold block_writer_pending_bytes in E. unfold BINLOG_SIZE_LIMIT in E.
    replace (_ <=? g_pending_bytes b1) with false in E by lia. injection E as <- <- <-.
    split.
    { constructor; [|done|done|by eapply disks_apart_ext].
      destruct Hb1. constructor; [done|done|cbn; lia]. }
    split; [done|]. split; [done|]. split.
    { exact Hso. }
    split; [done|]. intros j Hj. cbn.
    match goal with |- disk_content ?x j = _ => change (disk_content x j) with (disk_content b1 j) end.
    destruct (Z.eqb_spec d j) as [->|Hne]; [done|]. apply Hother. by apply Ha.
  - injection E as <- <- <-. rewrite app_nil_r. cbn in Hs. done.
  - unfold block_writer_fsync_all in E.
    pose proof (fsync_loop_files (g_disks b) 0 (bw_kernel b)) as [Hff Hfo].
    pose proof (fsync_loop_writes (g_disks b) 0 (bw_kernel b)) as Hfw.
    destruct (fsync_loop (g_disks b) 0 (bw_kernel b)) as [frc k]. cbn in Hff, Hfo, Hfw.
    destruct (send_response_delivers n fd (mk_response RESPONSE_SERVER_DONE 0 0 0) Hn)
      as (fd1 & Es & Hso & _ & Hsw); [done|].
    unfold ack_send_done in E. rewrite Es in E. injection E as <- <- <-.
    split; [constructor; [by destruct Hb|done|unfold writes_ok in *; cbn; by rewrite Hfw|
            by apply (disks_apart_ext b)]|].
    split; [done|]. split; [done|]. split.
    { exact Hso. }
    split; [done|]. intros j Hj. cbn. by apply disk_content_ext.
Qed.

Lemma responses_to_cons m ms : responses_to (m :: ms) = response_to m ++ responses_to ms.
Proof. done. Qed.

Lemma responses_bytes_app r1 r2 : responses_bytes (r1 ++ r2) = responses_bytes r1 ++ responses_bytes r2.
Proof. unfold responses_bytes. by rewrite fmap_app, concat_app. Qed.

(** Serving a list of messages. *)
Lemma run_msgs_ok now ms : ∀ b fd s,
  srv_ok b → Forall (servable b) ms → willing (20 * len (responses_to ms)) (sk_send fd) →
  ∃ b' fd', (run_msgs (handle_msg now) (b, fd) s ms).1 = (b', fd') ∧
    srv_ok b' ∧ g_disks b' = g_disks b ∧ k_open (bw_kernel b') = k_open (bw_kernel b) ∧
    sk_out fd' = sk_out fd ++ responses_bytes (responses_to ms) ∧
    ∀ j, disk_ready b j → disk_content b' j = disk_after j ms (disk_content b j).
Proof.
  induction ms as [|m ms IH]; intros b fd s Hb HF Hw.
  - exists b, fd. cbn. by rewrite app_nil_r.
  - apply Forall_cons in HF as [Hm HF]. rewrite responses_to_cons, len_app, Z.mul_add_distr_l in Hw.
    unfold run_msgs. cbn [foldl fst snd].
    destruct (handle_msg now (b, fd) s m) as [[b1 fd1] s1] eqn:E.
    destruct (handle_msg_ok now b fd s m (20 * len (responses_to ms)) b1 fd1 s1 Hb Hm
                ltac:(pose proof (len_nonneg (responses_to ms)); lia) Hw E)
      as (Hb1 & Hd1 & Ho1 & Hout1 & Hw1 & Hc1).
    destruct (IH b1 fd1 s1 Hb1) as (b2 & fd2 & Er & Hb2 & Hd2 & Ho2 & Hout2 & Hc2).
    { eapply Forall_impl; [exact HF|]. intros x. by apply servable_ext. }
    { done. }
    exists b2, fd2. split; [exact Er|]. split; [done|]. split; [congruence|]. split; [congruence|].
    split; [by rewrite responses_to_cons, responses_bytes_app, app_assoc, <- Hout1, Hout2|].
    intros j Hj. rewrite Hc2 by (by eapply disk_ready_ext). rewrite Hc1 by done. done.
Qed.

(** ** Reading the socket *)

Definition only_data (evs : list recv_ev) : Prop :=
  Forall (λ e, match e with RecvData bs => bs ≠ [] | _ => False end) evs.

(** One read of available data. *)
Lemma sys_recv_data cap bs evs :
  0 < cap → bs ≠ [] → only_data evs →
  ∃ c evs', sys_recv cap (RecvData bs :: evs) = (RcvBytes c, evs') ∧ c ≠ [] ∧ len c ≤ cap ∧
    c ++ script_bytes evs' = bs ++ script_bytes evs ∧ only_data evs' ∧
    (length evs' + length (script_bytes evs') < S (length evs) + (length bs + length (script_bytes evs)))%nat.
Proof.
  intros Hcap Hbs Hd. cbn [sys_recv]. destruct (Z.ltb_spec cap (len bs)).
  - exists (ztake cap bs), (RecvData (zdrop cap bs) :: evs). split; [done|].
    assert (Ht : len (ztake cap bs) = cap) by (rewrite len_ztake; lia).
    assert (Hz : len (zdrop cap bs) = len bs - cap) by (rewrite len_zdrop; lia).
    split; [intros Hn; rewrite Hn, len_nil in Ht; lia|]. split; [lia|].
    cbn [script_bytes length]. split; [by rewrite app_assoc, ztake_zdrop|]. split.
    + constructor; [|done]. intros Hn. rewrite Hn, len_nil in Hz. lia.
    + rewrite length_app. unfold len in *. lia.
  - exists bs, evs. split; [done|]. split; [done|]. split; [lia|]. split; [done|]. split; [done|].
    destruct bs; [done|]. cbn [length]. lia.
Qed.

Lemma recv_loop_S `{Zstd} now fuel evs w s :
  recv_loop now (S fuel) evs w s =
  match sys_recv RECV_CHUNK evs with
  | (RcvAgain, evs) => (evs, w, s, true)
  | (RcvErr, evs) => (evs, w, s, false)
  | (RcvBytes [], evs) => (evs, w, s, false)
  | (RcvBytes bs, evs) =>
      let '(w, s, ok) := decode_chunk (handle_msg now) w s bs in
      if ok then recv_loop now fuel evs w s else (evs, w, s, false)
  end.
Proof. done. Qed.

Lemma RECV_CHUNK_val : 0 < RECV_CHUNK ∧ RECV_CHUNK ≤ 65536.
Proof. done. Qed.

#[global] Opaque RECV_CHUNK.

(** Data that arrives in any pieces is handed to the decoder in chunks of at
    most 64 KB that concatenate to the stream. *)
Lemma recv_loop_chunks `{Zstd} now fuel : ∀ evs,
  only_data evs → (length evs + length (script_bytes evs) < fuel)%nat →
  ∃ chunks, concat chunks = script_bytes evs ∧ Forall (λ c, len c ≤ 65536) chunks ∧
    ∀ w s w' s', decode_chunks (handle_msg now) w s chunks = (w', s', true) →
      recv_loop now fuel evs w s = ([], w', s', true).
Proof.
  induction fuel as [|fuel IH]; intros evs Hd Hf; [lia|].
  destruct evs as [|ev evs].
  { exists []. split; [done|]. split; [constructor|]. intros w s w' s' [= <- <-]. done. }
  apply Forall_cons in Hd as [Hev Hd]. destruct ev as [bs| |]; try done.
  cbn [script_bytes] in *. cbn [length] in Hf. rewrite length_app in Hf.
  destruct (sys_recv_data RECV_CHUNK bs evs) as (c & evs' & Er & Hc & Hcl & Hcat & Hd' & Hf');
    [apply RECV_CHUNK_val|done|done|].
  destruct (IH evs' Hd' ltac:(lia)) as (chunks & Hcc & HF & Hrun).
  exists (c :: chunks). split; [cbn; by rewrite Hcc|].
  split; [constructor; [pose proof RECV_CHUNK_val; lia|done]|].
  intros w s w' s' E. rewrite recv_loop_S, Er.
  destruct c as [|x c]; [done|]. cbn [decode_chunks] in E.
  destruct (decode_chunk (handle_msg now) w s (x :: c)) as [[w1 s1] ok].
  destruct ok; [|done]. by apply Hrun.
Qed.

(** ** The table under the main loop *)

Lemma handle_msg_fd `{Zstd} now w s m : s_fd (handle_msg now w s m).2 = s_fd s.
Proof.
  destruct w as [bw fd]. unfold handle_msg. destruct m as [d o data| |]; [|done|].
  - destruct (block_writer_write bw d o data) as [rc b1]. case_test; [|done].
    destruct (ack_send_block fd d (len data) o). destruct (block_writer_pending_bytes b1).
    case_test; [|done]. by destruct (ack_send_binlog _ d (len data) o).
  - destruct (block_writer_fsync_all bw). by destruct (ack_send_done fd).
Qed.

(** An invariant of the handler's state and the session that decoding and
    handling keep is kept by the whole receive loop.  [C] is what is known of
    the bytes that arrive, [Q] of the messages they decode to. *)
Section ReceiveInvariant.
Context `{Zstd} {W : Type} (act : W → session_t → decoded_msg → W * session_t).
Context (P : W → session_t → Prop) (C : list Z → Prop) (Q : decoded_msg → Prop).
Context (C_nil : C []) (C_take : ∀ n l, C l → C (ztake n l)) (C_drop : ∀ n l, C l → C (zdrop n l)).
Context (act_inv : ∀ w s m, P w s → Q m → P (act w s m).1 (act w s m).2).
Context (decode_inv : ∀ w s chunk, C chunk → P w s →
  P w (protocol_decode s chunk).2 ∧
  match (protocol_decode s chunk).1 with Decoded m => Q m | _ => True end).

Lemma decode_loop_inv fuel : ∀ w rs,
  P w rs.2 → match rs.1 with Decoded m => Q m | _ => True end →
  P (decode_loop act fuel w rs).1.1 (decode_loop act fuel w rs).1.2.
Proof using All.
  induction fuel as [|fuel IH]; intros w [r s] Hs Hq; (destruct r as [| |m]; [done|done|]); [done|].
  unfold decode_loop; fold (decode_loop act).
  specialize (act_inv w s m Hs Hq). destruct (act w s m) as [w' s'].
  destruct (decode_inv w' s' [] C_nil act_inv) as [H1 H2]. by apply IH.
Qed.

Definition script_inv (evs : list recv_ev) : Prop :=
  Forall (λ e, match e with RecvData bs => C bs | _ => True end) evs.

Lemma sys_recv_inv cap evs :
  script_inv evs → script_inv (sys_recv cap evs).2 ∧
  match (sys_recv cap evs).1 with RcvBytes bs => C bs | _ => True end.
Proof using C_take C_drop.
  intros HF. destruct HF as [|e evs He HF]; [split; [constructor|done]|]. destruct e as [bs| |]; cbn; try done.
  case_test; cbn; [|done]. split; [constructor; auto|auto].
Qed.

End ReceiveInvariant.

Lemma recv_loop_inv `{Zstd} now P C Q :
  C [] → (∀ n l, C l → C (ztake n l)) → (∀ n l, C l → C (zdrop n l)) →
  (∀ w s m, P w s → Q m → P (handle_msg now w s m).1 (handle_msg now w s m).2) →
  (∀ (w : writer_state * sock) s chunk, C chunk → P w s →
     P w (protocol_decode s chunk).2 ∧
     match (protocol_decode s chunk).1 with Decoded m => Q m | _ => True end) →
  ∀ fuel evs w s, script_inv C evs → P w s →
  P (recv_loop now fuel evs w s).1.1.2 (recv_loop now fuel evs w s).1.2.
Proof.
  intros Hn Ht Hd Ha Hp. induction fuel as [|fuel IH]; intros evs w s HC Hs; [done|]. rewrite recv_loop_S.
  destruct (sys_recv_inv C Ht Hd RECV_CHUNK evs HC) as [HC' Hbs].
  destruct (sys_recv RECV_CHUNK evs) as [r evs']. destruct r as [bs| |]; [|done|done].
  destruct bs as [|x bs]; [done|]. cbn in HC', Hbs.
  destruct (Hp w s (x :: bs) Hbs Hs) as [H1 H2].
  pose proof (decode_loop_inv (handle_msg now) P C Q Hn Ht Hd Ha Hp
    (length (s_recv_buf s) + length (x :: bs)) w (protocol_decode s (x :: bs)) H1 H2) as Hl.
  unfold decode_chunk. destruct (decode_loop _ _ _ _) as [[w' s'] ok]. cbn in Hl.
  destruct ok; [by apply IH|done].
Qed.

(** The socket of a session never changes and its buffer stays within 4 MB. *)
Lemma protocol_decode_keeps `{Zstd} s chunk :
  recv_len s ≤ RECV_BUF_SIZE →
  recv_len (protocol_decode s chunk).2 ≤ RECV_BUF_SIZE ∧ s_fd (protocol_decode s chunk).2 = s_fd s.
Proof.
  intros Hl. unfold protocol_decode.
  destruct ((0 <? len chunk) && (RECV_BUF_SIZE <? recv_len s + len chunk)) eqn:Hov; [done|].
  assert (Hb : recv_len (with_recv_buf s (s_recv_buf s ++ chunk)) ≤ RECV_BUF_SIZE).
  { unfold recv_len in *. cbn. rewrite len_app. pose proof (len_nonneg chunk). lia. }
  repeat case_test; try done.
  destruct (decode_frame _ _); (split; [|done]); unfold recv_len in *; cbn [snd s_recv_buf with_recv_buf] in *;
    rewrite len_zdrop; unfold RECV_BUF_SIZE in *; lia.
Qed.

Lemma recv_loop_keeps `{Zstd} now fuel evs w s :
  recv_len s ≤ RECV_BUF_SIZE →
  recv_len (recv_loop now fuel evs w s).1.2 ≤ RECV_BUF_SIZE ∧
  s_fd (recv_loop now fuel evs w s).1.2 = s_fd s.
Proof.
  intros Hl.
  apply (recv_loop_inv now (λ _ s', recv_len s' ≤ RECV_BUF_SIZE ∧ s_fd s' = s_fd s)
           (λ _, True) (λ _, True)); try done.
  - intros w0 s0 m [H1 H2] _. split; [|by rewrite handle_msg_fd].
    rewrite <- (with_recv_buf_id s0), handle_msg_buf. exact H1.
  - intros w0 s0 chunk _ [H1 H2]. destruct (protocol_decode_keeps s0 chunk H1) as [H3 ->].
    split; [done|]. by destruct (protocol_decode s0 chunk).1.
  - apply Forall_true. by intros [].
Qed.

Lemma handle_session_mgr `{Zstd} now calloc_ok sv i :
  mgr_ok (sv_mgr sv) →
  mgr_ok (sv_mgr (handle_session now calloc_ok sv i)) ∧
  session_fds (sv_mgr (handle_session now calloc_ok sv i)) `sublist_of` session_fds (sv_mgr sv).
Proof.
  intros Hm. unfold handle_session.
  destruct (g_sessions (sv_mgr sv) !! i) as [s|] eqn:Hi; [|done].
  assert (Hrem : ∀ m fd, mgr_ok m → session_fds (session_remove m fd) `sublist_of` session_fds m).
  { intros m fd Hm'. rewrite session_remove_fds by done. apply sublist_filter. }
  destruct calloc_ok; cbn [negb]; [|cbn; auto with g2c].
  assert (Hl : recv_len s ≤ RECV_BUF_SIZE).
  { destruct Hm as [_ _ Hb]. rewrite Forall_lookup in Hb. by eapply Hb. }
  pose proof (recv_loop_keeps now (recv_fuel (sk_in (sock_of sv (s_fd s)))) (sk_in (sock_of sv (s_fd s)))
    (sv_bw sv, sock_of sv (s_fd s)) s Hl) as [Hl' Hfd].
  destruct (recv_loop _ _ _ _ _) as [[[evs [b k']] s'] alive]. cbn in Hl', Hfd.
  pose proof (session_update_ok (sv_mgr sv) i s s' Hm Hi Hfd Hl') as Hu.
  assert (Hf : session_fds (mk_mgr (<[i := s']> (g_sessions (sv_mgr sv))) (sm_closed (sv_mgr sv))) =
               session_fds (sv_mgr sv)).
  { unfold session_fds. cbn. rewrite list_fmap_insert, Hfd, list_insert_id; [done|].
    by rewrite list_lookup_fmap, Hi. }
  destruct alive; cbn [sv_mgr].
  - split; [exact Hu|]. by rewrite Hf.
  - split; [by apply session_remove_ok|]. rewrite <- Hf. by apply Hrem.
Qed.

(** The two read-only traversals visit every session. *)
Lemma foreach_collect m : ∀ (fuel i : nat) (fds : gset Z),
  (length (g_sessions m) ≤ fuel + i)%nat →
  foreach_loop collect_fds_cb fuel i m fds =
  (m, list_to_set (drop i (session_fds m)) ∪ fds).
Proof.
  induction fuel as [|fuel IH]; intros i fds Hf.
  - rewrite foreach_end by (cbn in Hf; lia). unfold session_fds.
    rewrite drop_ge by (rewrite length_fmap; cbn in Hf; lia). f_equal. set_solver.
  - destruct (Nat.lt_ge_cases i (length (g_sessions m))) as [Hi|Hi].
    + rewrite foreach_step by done. destruct (lookup_lt_is_Some_2 _ _ Hi) as [s Hs].
      unfold collect_fds_cb at 1. rewrite Hs. rewrite IH by lia. f_equal.
      assert (Hk : session_fds m !! i = Some (s_fd s)) by (unfold session_fds; by rewrite list_lookup_fmap, Hs).
      rewrite (drop_S _ _ _ Hk). cbn. set_solver.
    + rewrite foreach_end by done. unfold session_fds.
      rewrite drop_ge by (rewrite length_fmap; lia). f_equal. set_solver.
Qed.

Lemma collect_all m listen :
  mgr_ok m →
  (session_foreach collect_fds_cb m {[listen]}).2 = list_to_set (session_fds m) ∪ {[listen]}.
Proof.
  intros [Hc _ _]. unfold session_foreach. rewrite foreach_collect; [done|].
  unfold session_count, MAX_SESSIONS, len in *. lia.
Qed.

Lemma foreach_max m : ∀ (fuel i : nat) (mx : Z),
  (length (g_sessions m) ≤ fuel + i)%nat →
  let r := (foreach_loop find_max_fd_cb fuel i m mx).2 in
  mx ≤ r ∧ Forall (λ fd, fd ≤ r) (drop i (session_fds m)).
Proof.
  induction fuel as [|fuel IH]; intros i mx Hf; cbv zeta.
  - rewrite foreach_end by (cbn in Hf; lia). unfold session_fds.
    rewrite drop_ge by (rewrite length_fmap; cbn in Hf; lia). split; [cbn; lia|constructor].
  - destruct (Nat.lt_ge_cases i (length (g_sessions m))) as [Hi|Hi].
    + rewrite foreach_step by done. destruct (lookup_lt_is_Some_2 _ _ Hi) as [s Hs].
      unfold find_max_fd_cb at 1 3. rewrite Hs.
      assert (Hk : session_fds m !! i = Some (s_fd s)) by (unfold session_fds; by rewrite list_lookup_fmap, Hs).
      rewrite (drop_S _ _ _ Hk).
      destruct (IH (S i) (if mx <? s_fd s then s_fd s else mx) ltac:(lia)) as [H1 H2].
      revert H1. case_test; intros H1; (split; [lia|]); (constructor; [lia|done]).
    + rewrite foreach_end by done. unfold session_fds.
      rewrite drop_ge by (rewrite length_fmap; lia). split; [cbn; lia|constructor].
Qed.

Lemma max_fd_covers m listen :
  mgr_ok m →
  let r := (session_foreach find_max_fd_cb m listen).2 in
  listen ≤ r ∧ Forall (λ fd, fd ≤ r) (session_fds m).
Proof.
  intros [Hc _ _]. apply (foreach_max m (Z.to_nat MAX_SESSIONS) 0).
  unfold session_count, MAX_SESSIONS, len in *. lia.
Qed.

Lemma handle_active_ok `{Zstd} now calloc_ok fds m r :
  mgr_ok m →
  let m' := (session_foreach (handle_active_cb now calloc_ok fds) m r).1 in
  mgr_ok m' ∧ session_fds m' `sublist_of` session_fds m.
Proof.
  intros Hm. cbv zeta. unfold session_foreach.
  refine (foreach_loop_inv (handle_active_cb now calloc_ok fds)
    (λ m' _, mgr_ok m' ∧ session_fds m' `sublist_of` session_fds m) (Z.to_nat MAX_SESSIONS) 0 m r _ (conj Hm _));
    [|done].
  intros m1 r1 i [H1 H2] Hi. unfold handle_active_cb.
  destruct (g_sessions m1 !! i); [|done]. case_test; [|done].
  destruct (handle_session_mgr now calloc_ok (mk_server m1 r1.1 r1.2) i H1) as [H3 H4].
  split; [done|]. cbn in *. by etrans.
Qed.

(** ** No alert is ever sent *)

(** What the receiver adds to a socket: whole or cut-off responses of the two
    kinds ACK and DONE. *)
Definition ack_or_done (g : list Z) : Prop :=
  ∃ r n, (resp_type r = RESPONSE_ACK ∨ resp_type r = RESPONSE_SERVER_DONE) ∧
         g = ztake n (response_bytes r).

Definition acks_and_dones (before after : list Z) : Prop :=
  ∃ gs, after = before ++ concat gs ∧ Forall ack_or_done gs.

Lemma send_response_kind fd r :
  resp_type r = RESPONSE_ACK ∨ resp_type r = RESPONSE_SERVER_DONE →
  ∃ g, sk_out (send_response fd r).2 = sk_out fd ++ g ∧ ack_or_done g.
Proof.
  intros Hr. destruct (send_response fd r) as [rc fd'] eqn:E. cbn [snd].
  apply send_response_spec in E as [_ [[_ ->]|(_ & sent & rest & -> & Hd & _)]].
  - exists (response_bytes r). split; [done|]. exists r, 20. split; [done|].
    by rewrite ztake_ge by (rewrite len_response_bytes; unfold SERVER_RESPONSE_SIZE; lia).
  - exists sent. split; [done|]. exists r, (len sent). split; [done|].
    rewrite Hd. symmetry. by apply ztake_app_exact.
Qed.

Lemma acks_snoc before after g :
  acks_and_dones before after → ack_or_done g → acks_and_dones before (after ++ g).
Proof.
  intros (gs & -> & HF) Hg. exists (gs ++ [g]). split.
  - by rewrite concat_app, app_assoc; cbn; rewrite app_nil_r.
  - apply Forall_app. split; [done|]. by constructor.
Qed.

Lemma write_pending b devno offset data rc b' :
  g_pending_bytes b = 0 → len data < 2 ^ 63 →
  block_writer_write b devno offset data = (rc, b') →
  g_pending_bytes b' = if rc =? 0 then len data else 0.
Proof.
  intros Hp Hl E. pose proof (len_nonneg data). unfold block_writer_write in E.
  do 3 (case_test_in E; [by injection E as <- <-|]).
  destruct (write_loop _ _ _ _ _) as [wrc k]. case_test_in E; [by injection E as <- <-|].
  fold (counted b k (len data)) in E.
  assert (Hpend : g_pending_bytes (counted b k (len data)) = len data)
    by (cbn; rewrite Hp; unfold u64; rewrite wrapU_id; [lia|unfold in_u; lia]).
  case_test_in E; [|by injection E as <- <-].
  unfold block_writer_fsync_all in E. destruct (fsync_loop _ _ _) as [frc k2].
  by injection E as <- <-.
Qed.

Lemma handle_msg_no_alert now b fd s m before :
  g_pending_bytes b = 0 → acks_and_dones before (sk_out fd) →
  (∀ d o data, m = DECODE_DATA_BLOCK d o data → len data < BINLOG_SIZE_LIMIT) →
  g_pending_bytes (handle_msg now (b, fd) s m).1.1 = 0 ∧
  acks_and_dones before (sk_out (handle_msg now (b, fd) s m).1.2).
Proof.
  intros Hp Ha Hm. unfold handle_msg. destruct m as [d o data| |]; [|done|].
  - specialize (Hm d o data eq_refl). unfold BINLOG_SIZE_LIMIT in Hm.
    destruct (block_writer_write b d o data) as [rc b1] eqn:Ew.
    apply write_pending in Ew; [|done|lia].
    destruct (rc =? 0); [|by cbn; rewrite Ew].
    destruct (send_response_kind fd (mk_response RESPONSE_ACK d (s32 (len data)) o)) as (g & Hg & Hk);
      [by left|].
    fold (ack_send_block fd d (len data) o) in Hg.
    destruct (ack_send_block fd d (len data) o) as [rc2 fd2]. cbn in Hg |- *.
    unfold BINLOG_SIZE_LIMIT. rewrite Ew. replace (_ <=? len data) with false by lia. cbn.
    split; [done|]. rewrite Hg. by apply acks_snoc.
  - unfold block_writer_fsync_all. destruct (fsync_loop _ _ _) as [frc k2].
    destruct (send_response_kind fd (mk_response RESPONSE_SERVER_DONE 0 0 0)) as (g & Hg & Hk); [by right|].
    fold (ack_send_done fd) in Hg. destruct (ack_send_done fd) as [rc2 fd2]. cbn in Hg |- *.
    split; [done|]. rewrite Hg. by apply acks_snoc.
Qed.

(** What decoding keeps and yields, for the invariant of the receive loop. *)
Lemma protocol_decode_data `{ZstdOk} s chunk :
  bytes_ok (s_recv_buf s) → bytes_ok chunk →
  bytes_ok (s_recv_buf (protocol_decode s chunk).2) ∧
  match (protocol_decode s chunk).1 with
  | Decoded (DECODE_DATA_BLOCK _ _ data) => len data ≤ DECODED_DATA_SIZE
  | _ => True
  end.
Proof.
  intros Hb Hc. unfold protocol_decode.
  assert (Hbb : bytes_ok (s_recv_buf s ++ chunk)) by (by apply Forall_app).
  do 4 (case_test; [done|]). cbn [s_recv_buf with_recv_buf].
  set (p := ztake _ (zdrop TCP_FRAME_HEADER_SIZE _)).
  assert (Hp : len p = be_val (ztake 4 (s_recv_buf s ++ chunk))).
  { unfold p, recv_len, TCP_FRAME_HEADER_SIZE in *. cbn [s_recv_buf with_recv_buf] in *.
    pose proof (be_val_range (ztake 4 (s_recv_buf s ++ chunk)) (Forall_ztake _ _ _ Hbb)).
    rewrite len_ztake, len_zdrop. lia. }
  rewrite <- Hp. destruct (decode_frame p (len p)) as [m|] eqn:Ed; cbn; (split; [by apply Forall_zdrop|]); [|done].
  destruct m as [d o data| |]; try done.
  eapply decode_frame_data_fits; [|exact Ed]. by apply Forall_ztake, Forall_zdrop.
Qed.

(** ** Start-up *)

(** What registering keeps: sixteen slots, the counters. *)
Definition same_shape (b b' : writer_state) : Prop :=
  len (g_disks b') = len (g_disks b) ∧ g_blocks_since_fsync b' = g_blocks_since_fsync b ∧
  g_pending_bytes b' = g_pending_bytes b.

Lemma register_shape b devno path : same_shape b (block_writer_register b devno path).2.
Proof.
  unfold block_writer_register. case_test; [done|]. split; [|done]. unfold len. cbn.
  by rewrite length_insert.
Qed.

Lemma register_disks_shape section n : ∀ i b, same_shape b (register_disks n i section b).
Proof.
  induction n as [|n IH]; intros i b; cbn [register_disks]; [done|].
  destruct (strstr _ _) as [p|]; [|done].
  destruct (strchr _ _) as [q|]; [|apply IH]. destruct (json_literal _ _) as [path|]; [|apply IH].
  destruct (register_shape b i path) as (H1 & H2 & H3).
  destruct (IH (i + 1) (block_writer_register b i path).2) as (H4 & H5 & H6).
  split; [congruence|]. split; congruence.
Qed.

Lemma register_registers b devno path :
  len (g_disks b) = MAX_TARGET_DISKS → 0 ≤ devno < MAX_TARGET_DISKS →
  registered (block_writer_register b devno path).2 devno.
Proof.
  intros Hl Hd. unfold block_writer_register. unfold MAX_TARGET_DISKS in *.
  replace (_ || _) with false by lia. cbn [snd]. unfold registered.
  rewrite disk_at_insert by lia. by rewrite Z.eqb_refl.
Qed.

Lemma has_registered_some b :
  block_writer_has_registered b ≠ 0 → len (g_disks b) = MAX_TARGET_DISKS →
  ∃ j, 0 ≤ j < MAX_TARGET_DISKS ∧ registered b j.
Proof.
  unfold block_writer_has_registered. destruct (existsb _ _) eqn:E; [|done]. intros _ Hl.
  apply existsb_exists in E as (d & Hin & Hd). apply list_elem_of_In in Hin.
  apply list_elem_of_lookup in Hin as [i Hi]. exists (Z.of_nat i).
  pose proof (lookup_lt_Some _ _ _ Hi). unfold MAX_TARGET_DISKS, len in *. split; [lia|].
  unfold registered, disk_at. rewrite Nat2Z.id, (nth_lookup_Some _ _ _ _ Hi). lia.
Qed.

Lemma len_replicate16 b : len (g_disks (block_writer_init b)) = MAX_TARGET_DISKS.
Proof. done. Qed.

Lemma init_has_none b : block_writer_has_registered (block_writer_init b) = 0.
Proof. done. Qed.

Lemma init_unregistered b j : ¬ registered (block_writer_init b) j.
Proof.
  unfold registered, disk_at, block_writer_init. cbn [g_disks]. rewrite nth_lookup.
  destruct (replicate _ _ !! _) as [x|] eqn:Ex; [|by intros Hr; apply Hr].
  apply lookup_replicate_1 in Ex as [-> _]. by intros Hr; apply Hr.
Qed.

(** Without a configuration the default disk is the only one. *)
Lemma default_disk_only b j :
  0 ≤ j < MAX_TARGET_DISKS →
  registered (or_default_disk (block_writer_init b)) j → j = 0.
Proof.
  intros Hj. unfold or_default_disk. rewrite init_has_none, Z.eqb_refl. unfold block_writer_register, MAX_TARGET_DISKS in *.
  replace ((0 <? 0) || (16 <=? 0)) with false by lia. cbn [snd]. unfold registered.
  rewrite disk_at_insert by (done || lia). destruct (Z.eqb_spec 0 j); [done|].
  intros Hr. by destruct (init_unregistered b j).
Qed.

Lemma configured_shape json b : same_shape b (configured_disks json b).
Proof.
  unfold configured_disks. destruct json as [json|]; [|done]. destruct (Receiver.json_nav json _); [|done].
  destruct (Receiver.json_nav _ _); [|done]. apply register_disks_shape.
Qed.

Lemma or_default_ok b :
  len (g_disks b) = MAX_TARGET_DISKS →
  same_shape b (or_default_disk b) ∧
  ∃ j, 0 ≤ j < MAX_TARGET_DISKS ∧ registered (or_default_disk b) j.
Proof.
  intros Hl. unfold or_default_disk. case_test.
  - split; [apply register_shape|]. exists 0. split; [done|]. by apply register_registers.
  - split; [done|]. by apply has_registered_some.
Qed.

#[global] Opaque block_writer_open_all.

(** A server with one client and two disks, for the witnesses. *)
Definition demo_session : session_t := mk_session 9 [] 0 0 0 0 0 [].

Definition demo_server (script : list recv_ev) : server :=
  mk_server (mk_mgr [demo_session] []) demo_writer
    {[9 := mk_sock [] (replicate 60 (SendRoom 20)) script]}.

Definition demo_block : list Z := block_encoding 1 4096 [7; 8; 9].
Definition demo_frame : list Z := data_frame (0x28 :: demo_block).

Lemma demo_disks_apart : disks_apart demo_writer.
Proof.
  intros i j (Hi & Ri & Fi & [pi Oi]) (Hj & Rj & Fj & [pj Oj]) Hne Heq.
  assert (Hcase : ∀ n, 0 ≤ n < 16 → 0 ≤ d_fd (disk_at demo_writer n) → n = 0 ∨ n = 1).
  { intros n Hn. assert (n = 0 ∨ n = 1 ∨ n = 2 ∨ n = 3 ∨ n = 4 ∨ n = 5 ∨ n = 6 ∨ n = 7 ∨ n = 8
      ∨ n = 9 ∨ n = 10 ∨ n = 11 ∨ n = 12 ∨ n = 13 ∨ n = 14 ∨ n = 15) as Hall by lia.
    intros H0. repeat (destruct Hall as [->|Hall]; [first [by left|by right|by vm_compute in H0]|]).
    subst n. by vm_compute in H0. }
  destruct (Hcase i Hi Fi) as [->| ->], (Hcase j Hj Fj) as [->| ->]; done.
Qed.

Lemma demo_srv_ok : srv_ok demo_writer.
Proof.
  destruct demo_ready as (H1 & _). constructor; [done|done| |apply demo_disks_apart].
  repeat constructor; discriminate.
Qed.

(** ** Properties *)

(** The session of a client that sends [ms] and then nothing. *)
Lemma run_msgs_fd `{Zstd} now ms : ∀ w s, s_fd (run_msgs (handle_msg now) w s ms).2 = s_fd s.
Proof.
  unfold run_msgs. induction ms as [|m ms IH]; intros w s; [done|]. cbn [foldl fst snd].
  pose proof (handle_msg_fd now w s m) as Hf. destruct (handle_msg now w s m) as [w1 s1]. by rewrite IH.
Qed.

(** Everything a turn of a session leaves behind. *)
Lemma handle_session_turn `{ZstdOk} now sv i s ms frames :
  g_sessions (sv_mgr sv) !! i = Some s → s_recv_buf s = [] →
  srv_ok (sv_bw sv) → Forall (servable (sv_bw sv)) ms → Forall2 wire_frame ms frames →
  only_data (sk_in (sock_of sv (s_fd s))) →
  script_bytes (sk_in (sock_of sv (s_fd s))) = concat frames →
  willing (20 * len (responses_to ms)) (sk_send (sock_of sv (s_fd s))) →
  let sv' := handle_session now true sv i in
  (srv_ok (sv_bw sv') ∧ g_disks (sv_bw sv') = g_disks (sv_bw sv) ∧
   k_open (bw_kernel (sv_bw sv')) = k_open (bw_kernel (sv_bw sv))) ∧
  (∀ j, disk_ready (sv_bw sv) j →
     disk_content (sv_bw sv') j = disk_after j ms (disk_content (sv_bw sv) j)) ∧
  sk_out (sock_of sv' (s_fd s)) =
    sk_out (sock_of sv (s_fd s)) ++ responses_bytes (responses_to ms) ∧
  (∀ fd, fd ≠ s_fd s → sock_of sv' fd = sock_of sv fd) ∧
  (∃ s', g_sessions (sv_mgr sv') = <[i := s']> (g_sessions (sv_mgr sv)) ∧ s_recv_buf s' = [] ∧
         s_fd s' = s_fd s) ∧
  sm_closed (sv_mgr sv') = sm_closed (sv_mgr sv).
Proof.
  intros Hi Hbuf Hsrv Hms HF Hd Hstream Hw. cbv zeta. unfold handle_session. rewrite Hi. cbn [negb].
  set (k := sock_of sv (s_fd s)) in *.
  destruct (recv_loop_chunks now (recv_fuel (sk_in k)) (sk_in k) Hd) as (chunks & Hcat & HC & Hrun).
  { unfold recv_fuel. lia. }
  pose proof (decode_chunks_stream (handle_msg now) (handle_msg_buf now) chunks ms frames (sv_bw sv, k) s
    (wire_frames_of _ _ HF) HC ltac:(congruence) Hbuf) as Hdec.
  destruct (run_msgs_ok now ms (sv_bw sv) k s Hsrv Hms Hw) as (b' & k' & Er & Hok & Hdisks & Hopen & Hout & Hdisk).
  pose proof (run_msgs_fd now ms (sv_bw sv, k) s) as Hfd.
  unfold after_msgs in Hdec. rewrite Er in Hdec.
  rewrite (Hrun _ _ _ _ Hdec). cbn [sv_bw sv_mgr].
  split; [done|]. split; [done|]. split.
  - unfold sock_of at 1. cbn [sv_socks]. rewrite lookup_insert_eq. cbn. exact Hout.
  - split; [intros fd Hne; unfold sock_of; cbn [sv_socks]; by rewrite lookup_insert_ne|].
    split; [|done]. eexists. split; [done|]. by split.
Qed.

Lemma handle_session_stores `{ZstdOk} now sv i s ms frames :
  g_sessions (sv_mgr sv) !! i = Some s → s_recv_buf s = [] →
  srv_ok (sv_bw sv) → Forall (servable (sv_bw sv)) ms → Forall2 wire_frame ms frames →
  only_data (sk_in (sock_of sv (s_fd s))) →
  script_bytes (sk_in (sock_of sv (s_fd s))) = concat frames →
  willing (20 * len (responses_to ms)) (sk_send (sock_of sv (s_fd s))) →
  let sv' := handle_session now true sv i in
  (∀ j, disk_ready (sv_bw sv) j →
     disk_content (sv_bw sv') j = disk_after j ms (disk_content (sv_bw sv) j)) ∧
  sk_out (sock_of sv' (s_fd s)) =
    sk_out (sock_of sv (s_fd s)) ++ responses_bytes (responses_to ms) ∧
  (∃ s', g_sessions (sv_mgr sv') = <[i := s']> (g_sessions (sv_mgr sv)) ∧ s_recv_buf s' = []) ∧
  sm_closed (sv_mgr sv') = sm_closed (sv_mgr sv).
Proof.
  intros Hi Hbuf Hsrv Hms HF Hd Hstream Hw. cbv zeta.
  destruct (handle_session_turn now sv i s ms frames Hi Hbuf Hsrv Hms HF Hd Hstream Hw)
    as (_ & H1 & H2 & _ & (s' & H3 & H4 & _) & H5). eauto 10.
Qed.



(** [receiver_never_alerts]: the BINLOG alert is dead code.  Whatever a
    client sends, in whatever pieces, with whatever behaviour of the disks and
    of the socket, all the receiver ever adds to the client's socket are ACK
    and DONE responses (the last one possibly cut off): the pending-bytes
    counter is read and cleared after every block, so it never gets past one
    block and never near the 10 GB limit. *)
Theorem receiver_never_alerts `{ZstdOk} now sv i s :
  g_sessions (sv_mgr sv) !! i = Some s → bytes_ok (s_recv_buf s) →
  script_inv bytes_ok (sk_in (sock_of sv (s_fd s))) → g_pending_bytes (sv_bw sv) = 0 →
  let sv' := handle_session now true sv i in
  acks_and_dones (sk_out (sock_of sv (s_fd s))) (sk_out (sock_of sv' (s_fd s))) ∧
  g_pending_bytes (sv_bw sv') = 0.
Proof.
  intros Hi Hb HC Hp. cbv zeta. unfold handle_session. rewrite Hi. cbn [negb].
  set (k := sock_of sv (s_fd s)) in *.
  pose proof (recv_loop_inv now
    (λ w s, (g_pending_bytes w.1 = 0 ∧ acks_and_dones (sk_out k) (sk_out w.2)) ∧ bytes_ok (s_recv_buf s))
    bytes_ok
    (λ m, match m with DECODE_DATA_BLOCK _ _ data => len data ≤ DECODED_DATA_SIZE | _ => True end)
    (Forall_nil_2 _) (Forall_ztake _) (Forall_zdrop _)) as Hinv.
  destruct (Hinv ltac:(
      intros [b fd] s0 m [[H1 H2] H3] Hq; split;
        [apply handle_msg_no_alert; [done|done|];
         intros d o data ->; unfold DECODED_DATA_SIZE, BINLOG_SIZE_LIMIT in *; lia
        |rewrite <- (with_recv_buf_id s0), handle_msg_buf; exact H3])
    ltac:(intros w0 s0 chunk Hc [H1 H2]; destruct (protocol_decode_data s0 chunk H2 Hc); done)
    (recv_fuel (sk_in k)) (sk_in k) (sv_bw sv, k) s HC) as [[H1 H2] _].
  { split; [|done]. split; [done|]. exists []. split; [|constructor]. cbn. by rewrite app_nil_r. }
  destruct (recv_loop _ _ _ _ _) as [[[evs [b k']] s'] alive]. cbn in H1, H2.
  unfold sock_of. cbn. rewrite lookup_insert_eq. cbn. done.
Qed.

Lemma receiver_never_alerts_witness :
  let sv := demo_server [RecvData demo_frame] in
  acks_and_dones [] (sk_out (sock_of (handle_session 77 true sv 0) 9)).
Proof.
  intros sv. refine (proj1 (receiver_never_alerts 77 sv 0 demo_session _ _ _ _)).
  - reflexivity.
  - constructor.
  - repeat constructor; discriminate.
  - reflexivity.
Defined.

(** C40 (done_without_durability): SERVER_DONE does not promise durability.  When
    the [fsync] of a disk fails at the end of an incremental round, the result
    of [block_writer_fsync_all] is -1, no disk content is added to stable
    storage by that [fsync], and the client is nevertheless sent the whole
    SERVER_DONE response. *)
Theorem done_without_durability now b fd s d ds rest :
  g_disks b = d :: ds → 0 ≤ d_fd d → Forall (λ d, d_fd d < 0) ds →
  k_fsyncs (bw_kernel b) = false :: rest → willing 20 (sk_send fd) →
  (block_writer_fsync_all b).1 = -1 ∧
  let '((b', fd'), _) := handle_msg now (b, fd) s DECODE_CTL_END_INCREMENTAL in
  k_synced (bw_kernel b') = k_synced (bw_kernel b) ∧
  sk_out fd' = sk_out fd ++ response_bytes (mk_response RESPONSE_SERVER_DONE 0 0 0).
Proof.
  intros Hd Hfd Hds Hf Hw. unfold block_writer_fsync_all, handle_msg.
  assert (Hloop : ∀ ds rc k, Forall (λ d, d_fd d < 0) ds → fsync_loop ds rc k = (rc, k)).
  { clear. induction ds as [|x ds IH]; intros rc k HF; [done|]. apply Forall_cons in HF as [Hx HF].
    cbn. replace (0 <=? d_fd x) with false by lia. by apply IH. }
  unfold block_writer_fsync_all. rewrite Hd. cbn [fsync_loop].
  replace (0 <=? d_fd d) with true by lia. unfold sys_fsync. rewrite Hf. cbn [fst snd].
  rewrite Hloop by done.
  destruct (send_response_delivers 0 fd (mk_response RESPONSE_SERVER_DONE 0 0 0) ltac:(lia) Hw)
    as (fd' & Es & Hout & _).
  unfold ack_send_done. rewrite Es. done.
Qed.

Lemma done_without_durability_witness :
  let k := mk_kernel {[5 := [97]]} {[ [97] := {[0 := 1]} ]} ∅ [] [] [false] in
  let b := mk_bw [mk_disk 5 [97] 1; mk_disk (-1) [] 0] 0 0 0 0 k in
  let fd := mk_sock [] (replicate 20 (SendRoom 1)) [] in
  (block_writer_fsync_all b).1 = -1 ∧
  let '((b', fd'), _) := handle_msg 5 (b, fd) demo_session DECODE_CTL_END_INCREMENTAL in
  k_synced (bw_kernel b') = ∅ ∧ sk_out fd' = response_bytes (mk_response 2 0 0 0).
Proof.
  intros k b fd.
  apply (done_without_durability 5 b fd demo_session (mk_disk 5 [97] 1) [mk_disk (-1) [] 0] []).
  - reflexivity.
  - vm_compute; discriminate.
  - repeat constructor.
  - reflexivity.
  - split; [|vm_compute; discriminate].
    apply Forall_forall. intros e He. apply elem_of_replicate in He as [-> _]. reflexivity.
Defined.

(** C18 (server_iter_invariant): a turn of the main loop keeps the session table
    well formed, whatever [select] and [accept] report, as long as the
    accepted descriptor is not one already in use.  A connection beyond the
    configured maximum (or beyond the 16 slots) is closed and leaves the table
    as the handlers leave it; sessions only disappear or, at most one per
    turn, appear; the table watched by [select] is exactly the listening
    socket and all session sockets, and none lies above the descriptor bound
    given to [select]. *)
Theorem server_iter_invariant `{Zstd} now listen_fd cfg calloc_ok sv ev :
  mgr_ok (sv_mgr sv) →
  (∀ ready fd addr k, ev = SelectReady ready (Some (fd, addr, k)) → fd ∉ session_fds (sv_mgr sv)) →
  let sv' := (server_iter now listen_fd cfg calloc_ok sv ev).1 in
  mgr_ok (sv_mgr sv') ∧
  (∀ fd, fd ∈ session_fds (sv_mgr sv') → fd ∈ session_fds (sv_mgr sv) ∨
     ∃ ready addr k, ev = SelectReady ready (Some (fd, addr, k)) ∧
       session_count (sv_mgr sv) < Z.min (cfg_max_connections cfg) MAX_SESSIONS) ∧
  (session_foreach collect_fds_cb (sv_mgr sv) {[listen_fd]}).2 =
    list_to_set (session_fds (sv_mgr sv)) ∪ {[listen_fd]} ∧
  Forall (λ fd, fd ≤ (session_foreach find_max_fd_cb (sv_mgr sv) listen_fd).2)
    (listen_fd :: session_fds (sv_mgr sv)).
Proof.
  intros Hm Hfresh. cbv zeta.
  destruct (max_fd_covers (sv_mgr sv) listen_fd Hm) as [Hmx1 Hmx2].
  assert (Hwatch := collect_all (sv_mgr sv) listen_fd Hm).
  cut (mgr_ok (sv_mgr (server_iter now listen_fd cfg calloc_ok sv ev).1) ∧
    ∀ fd, fd ∈ session_fds (sv_mgr (server_iter now listen_fd cfg calloc_ok sv ev).1) →
      fd ∈ session_fds (sv_mgr sv) ∨ ∃ ready addr k, ev = SelectReady ready (Some (fd, addr, k)) ∧
       session_count (sv_mgr sv) < Z.min (cfg_max_connections cfg) MAX_SESSIONS).
  { intros [H1 H2]. split; [done|]. split; [done|]. split; [done|]. by constructor. }
  unfold server_iter. destruct ev as [| |ready accepted]; [by cbn; auto..|].
  set (fds := filter _ _).
  set (sv1 := if bool_decide (listen_fd ∈ fds) then _ else sv).
  assert (H1 : mgr_ok (sv_mgr sv1) ∧ ∀ fd, fd ∈ session_fds (sv_mgr sv1) →
      fd ∈ session_fds (sv_mgr sv) ∨ ∃ ready' addr k, SelectReady ready accepted = SelectReady ready' (Some (fd, addr, k)) ∧
       session_count (sv_mgr sv) < Z.min (cfg_max_connections cfg) MAX_SESSIONS).
  { unfold sv1. case_bool_decide; [|by auto].
    destruct accepted as [[[client_fd addr] k]|]; [|by auto].
    assert (Hclosed : ∀ cl, mgr_ok (mk_mgr (g_sessions (sv_mgr sv)) cl)) by (intros cl; by destruct Hm).
    case_test; [split; [apply Hclosed|by auto]|].
    pose proof (session_create_ok calloc_ok now (sv_mgr sv) client_fd addr Hm
                  (Hfresh _ _ _ _ eq_refl)) as Hc.
    unfold session_create in *. destruct (Z.leb_spec MAX_SESSIONS (session_count (sv_mgr sv)));
      [split; [apply Hclosed|by auto]|].
    destruct calloc_ok; cbn [negb] in *; [|split; [apply Hclosed|by auto]].
    split; [exact Hc|]. cbn [sv_mgr]. unfold session_fds. cbn [g_sessions]. intros fd.
    rewrite fmap_app, elem_of_app. intros [Hin|Hin]; [by left|].
    apply list_elem_of_singleton in Hin as ->. right. eexists _, _, _. split; [done|]. lia. }
  destruct H1 as [H1 H2].
  pose proof (handle_active_ok now calloc_ok fds (sv_mgr sv1) (sv_bw sv1, sv_socks sv1) H1) as [H3 H4].
  destruct (session_foreach (handle_active_cb now calloc_ok fds) (sv_mgr sv1) (sv_bw sv1, sv_socks sv1))
    as [m' [b' socks']]. cbn in *.
  split; [done|]. intros fd Hfd. apply H2. by eapply elem_of_sublist.
Qed.

Lemma server_iter_invariant_witness :
  mgr_ok (sv_mgr (server_iter 5 3 default_config true (demo_server [])
    (SelectReady {[3]} (Some (11, [49], fresh_sock)))).1).
Proof.
  refine (proj1 (server_iter_invariant 5 3 default_config true (demo_server [])
    (SelectReady {[3]} (Some (11, [49], fresh_sock))) _ _)).
  - constructor; [vm_compute; discriminate|apply NoDup_singleton|repeat constructor; vm_compute; discriminate].
  - intros ready fd addr k [= <- <- <- <-]. apply (bool_decide_eq_true_1 _). vm_compute. reflexivity.
Defined.

(** [foreach_skips_after_removal]: when the handler of a session ends in its
    removal (the peer closed), the table is compacted under the traversal and
    the next session is passed over in this turn, even though it is readable:
    with three readable sessions whose peers closed, one turn of the main loop
    removes the first and the third only. *)
Theorem foreach_skips_after_removal :
  let ses fd := mk_session fd [] 0 0 0 0 0 [] in
  let closed := mk_sock [] [] [RecvData []] in
  let sv := mk_server (mk_mgr [ses 5; ses 6; ses 7] []) demo_writer
              (<[5 := closed]> (<[6 := closed]> (<[7 := closed]> ∅))) in
  let sv' := (server_iter 0 3 default_config true sv (SelectReady {[5; 6; 7]} None)).1 in
  session_fds (sv_mgr sv') = [6] ∧ sm_closed (sv_mgr sv') = [5; 7].
Proof. vm_compute. done. Qed.

(** [receiver_setup_ready]: when [main] gets past opening the target disks
    (exit status 0 so far), whatever the configuration text was: some disk is
    registered, every registered disk is open and ready to be written, the
    write module's counters are in their invariant, and the session table is
    empty; without a configuration the receiver listens on 0.0.0.0:3389 for at
    most 7 connections and its one disk is number 0. *)
Theorem receiver_setup_ready json b cfg m b' :
  receiver_setup json b = (0, cfg, m, b') → 0 ≤ g_pending_bytes b < 2 ^ 63 →
  bw_ok b' ∧ m = session_mgr_init ∧
  (∀ j, 0 ≤ j < MAX_TARGET_DISKS → registered b' j → disk_ready b' j) ∧
  (∃ j, disk_ready b' j) ∧
  (json = None → cfg = mk_config (string_bytes "0.0.0.0") 3389 7 ∧
                 ∀ j, 0 ≤ j < MAX_TARGET_DISKS → disk_ready b' j → j = 0).
Proof.
  intros E Hp. unfold receiver_setup in E.
  destruct (configured_shape json (block_writer_init b)) as (Hl1 & Hs1 & Hp1).
  set (b1 := configured_disks json (block_writer_init b)) in *.
  destruct (or_default_ok b1) as ((Hl2 & Hs2 & Hp2) & j & Hj & Hreg);
    [rewrite Hl1; apply len_replicate16|].
  pose proof (open_all_rc (or_default_disk b1)) as Hrc.
  destruct (block_writer_open_all (or_default_disk b1)) as [rc b3] eqn:Eo.
  destruct Hrc as [Hrc|Hrc]; cbn in Hrc; subst rc; [|discriminate E].
  injection E as <- <- <-.
  apply open_all_ready in Eo as (H1 & H2 & H3 & H4 & H5); [|rewrite Hl2, Hl1; apply len_replicate16].
  split; [constructor; [done|rewrite H4, Hs2, Hs1; done|rewrite H5, Hp2, Hp1; done]|].
  split; [done|]. split; [done|].
  split; [exists j; apply H3, H2; done|].
  intros ->. split; [done|]. intros j' Hj' (_ & Hr & _).
  apply (default_disk_only b); [done|]. by apply H2.
Qed.

Lemma receiver_setup_ready_witness :
  ∃ cfg m b', receiver_setup None (mk_bw [] 0 0 0 0 (mk_kernel ∅ ∅ ∅ [Some 4] [] [])) = (0, cfg, m, b') ∧
    disk_ready b' 0.
Proof.
  destruct (receiver_setup None (mk_bw [] 0 0 0 0 (mk_kernel ∅ ∅ ∅ [Some 4] [] [])))
    as [[[rc cfg] m] b'] eqn:E.
  assert (Hrc : rc = 0) by (apply (f_equal (λ x, x.1.1.1)) in E; vm_compute in E; congruence). subst rc.
  exists cfg, m, b'. split; [reflexivity|].
  destruct (receiver_setup_ready None _ cfg m b' E) as (_ & _ & _ & [j Hj] & Honly).
  - vm_compute; split; congruence.
  - destruct (Honly eq_refl) as [_ H0]. rewrite <- (H0 j); [exact Hj|exact (proj1 Hj)|exact Hj].
Defined.
