(* ===== verification/ServerMain.v ===== *)
(** * The receiver's entry (server/main.c: [main], [read_file_all],
      [server_listen])

    The arguments, the configuration file, the log, the listening socket, the
    run of Server.v, the cleanup.  [at_time] is what localtime answers to a
    message; the line number of a message is left at 0.  The sockets closed are a
    list of descriptors. *)

From stdpp Require Import strings.
From S2P Require Import Prelude Protocol Net Zstd Session BlockWriter Json Log Server.

#[local] Abbreviation text := string_bytes.

(** [fread] has to deliver the whole file; the text ends at its first NUL. *)
Definition server_read_file (file : option (list Z)) (malloc_ok fread_ok : bool) : option (list Z) :=
  content ← file;
  if malloc_ok then if fread_ok then Some (take_until (λ c, c =? 0) content) else None else None.

(** The configuration's path; [None]: the help is shown. *)
Fixpoint receiver_args (args : list (list Z)) (config_path : list Z) : option (list Z) :=
  match args with
  | [] => Some config_path
  | a :: r =>
      if bool_decide (a = text "--config") then
        match r with
        | p :: r' => receiver_args r' p
        | [] => Some config_path
        end
      else if bool_decide (a = text "--help") || bool_decide (a = text "-h") then None
      else receiver_args r config_path
  end.

(** The log's level and path *)
Definition receiver_log_config (config_json : option (list Z)) : Z * list Z :=
  match config_json with
  | None => (LOG_LEVEL_INFO, [])
  | Some json =>
      match Receiver.json_nav json (text "Log") with
      | None => (LOG_LEVEL_INFO, [])
      | Some log_section =>
          (json_read_int log_section (text "Level") LOG_LEVEL_INFO,
           default [] (json_read_str log_section (text "Path") 256))
      end
  end.

(** What the socket calls answer. *)
Record listen_env := mk_lenv {
  le_socket : option Z;
  le_inet_addr : list Z → Z;
  le_bind : Z → Z → bool;
  le_listen : bool;
}.

Definition INADDR_ANY : Z := 0.

(** The listening socket, and the descriptors closed on the way. *)
Definition server_listen (E : listen_env) (cfg : server_config_t) : option Z * list Z :=
  match le_socket E with
  | None => (None, [])
  | Some fd =>
      let s_addr := if bool_decide (cfg_address cfg = text "0.0.0.0") then INADDR_ANY
                    else le_inet_addr E (cfg_address cfg) in
      if negb (le_bind E s_addr (cfg_port cfg)) then (None, [fd])
      else if negb (le_listen E) then (None, [fd])
      else (Some fd, [])
  end.

Section Main.
Context `{Zstd} (now : Z) (at_time : nat → tm) (files : list Z → option (list Z)).
Context (malloc_ok fread_ok : bool) (log_opens : list Z → bool) (E : listen_env).

(** A message of main.c from a line of it, at the current length of the log.  The
    log followed here is that of the entry point's own messages: those the other
    modules write in between are left out. *)
Definition log_main (line level : Z) (m : string) (s : log_state) : log_state :=
  log_write level (at_time (length (lg_out s))) (text "main.c") line (text m) s.

(** What is left when [main] returns. *)
Record receiver_end := mk_end {
  en_code : Z;
  en_log : log_state;
  en_closed : list Z;
  en_server : option server;
}.

Definition receiver_main (argv : list (list Z)) (b : writer_state) (evs : list (bool * select_ev)) : receiver_end :=
  match receiver_args argv (text "receiver.json") with
  | None => mk_end 0 log_initial [] None
  | Some config_path =>
      let config_json := server_read_file (files config_path) malloc_ok fread_ok in
      let '(level, log_path) := receiver_log_config config_json in
      let filepath := match log_path with [] => None | p => Some p end in
      let lg := (log_init level filepath (log_opens log_path) log_initial).2 in
      let lg := log_main 428 LOG_LEVEL_INFO "go2cloud receiver starting..." lg in
      let '(rc, cfg, mgr, b) := receiver_setup config_json b in
      if negb (rc =? 0) then mk_end 1 (log_main 493 LOG_LEVEL_ERROR "Failed to open target disks" lg) [] None
      else
        let lg := log_main 499 LOG_LEVEL_INFO "Target disks opened successfully" lg in
        match server_listen E cfg with
        | (None, closed) => mk_end 1 (log_main 504 LOG_LEVEL_ERROR "Failed to create listen socket" lg) closed None
        | (Some listen_fd, _) =>
            let lg := log_main 516 LOG_LEVEL_INFO "Receiver ready, waiting for connections..." lg in
            let sv := server_run now listen_fd cfg (mk_server mgr b ∅) evs in
            let lg := log_main 520 LOG_LEVEL_INFO "Shutting down..." lg in
            let b := receiver_shutdown sv in
            let lg := log_close lg in
            mk_end 0 (log_main 529 LOG_LEVEL_INFO "Receiver stopped." lg) [listen_fd]
              (Some (mk_server (sv_mgr sv) b (sv_socks sv)))
        end
  end.

(** ** Lemmas *)

Lemma log_main_closed line level m s : lg_file s = None → log_main line level m s = s.
Proof. intros Hn. unfold log_main, log_write. rewrite Hn. by destruct (level <? lg_level s). Qed.

(** ** Properties *)

(** [receiver_main_exit]: unless help is asked for, the receiver exits with 1
    exactly when a target disk cannot be opened or the listening socket cannot be
    set up, and then it has closed the socket it made; otherwise with 0, after its
    loop, with the listening socket closed and the log closed: the closing message
    "Receiver stopped." comes after that and is dropped, so that the last line of
    the entry point's own is "Shutting down...", when information is logged. *)
Theorem receiver_main_exit argv b evs path lv f cfg mgr b' :
  receiver_args argv (text "receiver.json") = Some path →
  let json := server_read_file (files path) malloc_ok fread_ok in
  let r := receiver_main argv b evs in
  let rc := (receiver_setup json b).1.1.1 in
  receiver_log_config json = (lv, f) → receiver_setup json b = (rc, cfg, mgr, b') →
  (en_code r = 0 ∨ en_code r = 1) ∧
  (en_code r = 1 ↔ rc ≠ 0 ∨ (server_listen E cfg).1 = None) ∧
  (rc = 0 → ∀ fd, le_socket E = Some fd → en_closed r = [fd]) ∧
  (en_code r = 0 → lg_file (en_log r) = None ∧
     (f = [] → lv ≤ LOG_LEVEL_INFO →
      ∃ t, last (lg_out (en_log r)) = Some (Stderr, log_line LOG_LEVEL_INFO t (text "main.c") 520 (text "Shutting down...")))).
Proof.
  intros Ha json r rc Hl Hs. subst r. unfold receiver_main. rewrite Ha. fold json. rewrite Hl.
  destruct (receiver_setup json b) as [[[rc0 cfg0] mgr0] b0] eqn:Es. cbn [fst] in rc. subst rc. injection Hs as -> -> ->.
  destruct (Z.eqb_spec rc0 0) as [->|Hrc]; cbn [negb].
  2:{ cbn [en_code en_closed en_log]. split; [by right|]. split; [by split; [left|]|]. split; [done|done]. }
  unfold server_listen. destruct (le_socket E) as [fd|] eqn:Ef.
  2:{ cbn. split; [by right|]. split; [by split; [right|]|]. split; [done|done]. }
  set (bound := le_bind E _ _). destruct bound; cbn [negb].
  2:{ cbn [en_code en_closed fst]. split; [by right|]. split; [by split; [right|]|]. split; [by intros _ ? [= <-]|done]. }
  destruct (le_listen E); cbn [negb].
  2:{ cbn [en_code en_closed fst]. split; [by right|]. split; [by split; [right|]|]. split; [by intros _ ? [= <-]|done]. }
  cbn [en_code en_closed en_log fst]. split; [by left|]. split; [split; [done|by intros [?|?]]|].
  split; [by intros _ ? [= <-]|]. intros _. rewrite log_main_closed by done. cbn [log_close lg_file lg_out].
  split; [done|]. intros -> Hlv. cbn [log_init snd].
  unfold log_main, log_write, LOG_LEVEL_INFO in *. cbn [lg_level lg_file lg_out].
  replace (3 <? lv) with false by lia. cbn [lg_level lg_file lg_out]. replace (3 <? lv) with false by lia.
  cbn [lg_level lg_file lg_out]. replace (3 <? lv) with false by lia. cbn [lg_level lg_file lg_out].
  replace (3 <? lv) with false by lia. cbn [lg_level lg_file lg_out]. eexists. by rewrite last_snoc.
Qed.

End Main.

Lemma receiver_main_exit_witness :
  let b := mk_bw [] 0 0 0 0 (mk_kernel ∅ ∅ ∅ [Some 4] [] []) in
  let E := mk_lenv (Some 3) (λ _, 0) (λ _ _, true) true in
  let r := receiver_main (H := stored_zstd) 0 (λ _, mk_tm 126 0 1 0 0 0) (λ _, None) true true (λ _, true) E [] b [] in
  en_code r = 0 ∧ en_closed r = [3] ∧ lg_file (en_log r) = None.
Proof.
  intros b E r.
  destruct (receiver_setup None b) as [[[rc cfg] mgr] b'] eqn:Es.
  assert (rc = 0) as -> by (vm_compute in Es; congruence).
  pose proof (receiver_main_exit (H := stored_zstd) 0 (λ _, mk_tm 126 0 1 0 0 0) (λ _, None) true true (λ _, true) E [] b []
    (string_bytes "receiver.json") LOG_LEVEL_INFO [] cfg mgr b' eq_refl eq_refl) as H.
  cbv beta zeta in H. change (server_read_file None true true) with (@None (list Z)) in H. rewrite Es in H.
  destruct (H eq_refl) as (_ & H1 & H2 & H3).
  assert (Hc : en_code r = 0) by (vm_compute; reflexivity).
  split; [exact Hc|]. split; [by apply H2|]. by apply H3.
Defined.
