(* ===== verification/Queue.v ===== *)
(** * The send queue (client/queue.c)

    A ring of 256 slots.  [queue_pop] hands out a copy of an entry and leaves
    the slot's payload with the queue until [queue_ack] (or a later push into
    the slot) frees it, so a slot is described by its own fields and the FIFO
    by [tail] and [count].  [payload = None] is the null pointer.  The mutex
    makes each operation one step; [malloc_ok] is the allocator's answer. *)

From S2P Require Import Prelude Protocol.

Definition QUEUE_ENTRY_MAX_PAYLOAD : Z := 0x100000 + 256.
Definition QUEUE_CAPACITY : Z := 256.

Record queue_entry := mk_entry {
  qe_devno : Z;
  qe_offset : Z;
  qe_hash : Z;
  qe_payload : option (list Z);
  qe_payload_len : Z;
  qe_pending : Z;
}.

Record send_queue := mk_queue {
  q_entries : list queue_entry;
  q_head : Z;
  q_tail : Z;
  q_count : Z;
  q_backpressure : Z;
}.

Definition empty_entry : queue_entry := mk_entry 0 0 0 None 0 0.

(** [q->entries[i]] *)
Definition q_slot (q : send_queue) (i : Z) : queue_entry := nth (Z.to_nat i) (q_entries q) empty_entry.

(** ** Operations *)

Definition queue_init (malloc_ok : bool) : Z * send_queue :=
  let q := mk_queue (replicate (Z.to_nat QUEUE_CAPACITY) empty_entry) 0 0 0 0 in
  if malloc_ok then (0, q) else (-1, q).

(** Every payload is freed. *)
Definition queue_destroy (q : send_queue) : send_queue :=
  mk_queue ((λ e, mk_entry (qe_devno e) (qe_offset e) (qe_hash e) None (qe_payload_len e) (qe_pending e))
              <$> q_entries q) (q_head q) (q_tail q) (q_count q) (q_backpressure q).

Definition queue_push (malloc_ok : bool) (q : send_queue) (devno offset hash : Z) (payload : list Z)
    : Z * send_queue :=
  if QUEUE_ENTRY_MAX_PAYLOAD <? len payload then (-1, q)
  else if QUEUE_CAPACITY <=? q_count q then (-1, q)
  else if negb malloc_ok then (-1, q)
  else
    let slot := q_head q in
    let e := mk_entry devno offset hash (Some payload) (len payload) 1 in
    let count := q_count q + 1 in
    let bp := if BACKPRESSURE_QUEUE_DEPTH <=? count then 1 else q_backpressure q in
    let q := mk_queue (<[Z.to_nat slot := e]> (q_entries q))
               ((slot + 1) mod QUEUE_CAPACITY) (q_tail q) count bp in
    (if negb (q_backpressure q =? 0) then 2 else 0, q).

Definition queue_pop (q : send_queue) : option queue_entry * send_queue :=
  if q_count q =? 0 then (None, q)
  else
    let slot := q_tail q in
    let count := q_count q - 1 in
    (Some (q_slot q slot),
     mk_queue (q_entries q) (q_head q) ((slot + 1) mod QUEUE_CAPACITY) count
       (if count <? BACKPRESSURE_QUEUE_DEPTH then 0 else q_backpressure q)).

Definition entry_matches (devno offset : Z) (e : queue_entry) : bool :=
  negb (qe_pending e =? 0) && (qe_devno e =? devno) && (qe_offset e =? offset).

Definition acked_entry (e : queue_entry) : queue_entry :=
  mk_entry (qe_devno e) (qe_offset e) (qe_hash e) None (qe_payload_len e) 0.

(** The scan of [queue_ack], in array order: the first match only. *)
Fixpoint ack_scan (devno offset : Z) (es : list queue_entry) : list queue_entry :=
  match es with
  | [] => []
  | e :: r => if entry_matches devno offset e then acked_entry e :: r
              else e :: ack_scan devno offset r
  end.

Definition queue_ack (q : send_queue) (devno offset : Z) : send_queue :=
  mk_queue (ack_scan devno offset (q_entries q)) (q_head q) (q_tail q) (q_count q) (q_backpressure q).

Definition queue_count (q : send_queue) : Z := q_count q.

(** The (devno, offset) pairs, at most [max_entries] of them. *)
Definition queue_get_pending (q : send_queue) (max_entries : Z) : list (Z * Z) :=
  ztake max_entries ((λ e, (qe_devno e, qe_offset e)) <$>
    filter (λ e, qe_pending e ≠ 0) (q_entries q)).

Definition queue_should_backpressure (q : send_queue) : Z :=
  if BACKPRESSURE_QUEUE_DEPTH <=? q_count q then 1 else 0.

(** ** Invariant and abstraction *)

Record queue_ok (q : send_queue) : Prop := {
  qok_len : len (q_entries q) = QUEUE_CAPACITY;
  qok_tail : 0 ≤ q_tail q < QUEUE_CAPACITY;
  qok_count : 0 ≤ q_count q ≤ QUEUE_CAPACITY;
  qok_head : q_head q = (q_tail q + q_count q) mod QUEUE_CAPACITY;
  qok_bp : q_backpressure q = queue_should_backpressure q;
}.

(** The slot of the [i]-th entry in the queue. *)
Definition ring (q : send_queue) (i : nat) : Z := (q_tail q + Z.of_nat i) mod QUEUE_CAPACITY.

(** The queue as a list, oldest first. *)
Definition fifo (q : send_queue) : list queue_entry :=
  (λ i, q_slot q (ring q i)) <$> seq 0 (Z.to_nat (q_count q)).

(** ** Lemmas *)

Lemma ring_range q i : 0 ≤ ring q i < QUEUE_CAPACITY.
Proof. apply Z.mod_pos_bound. done. Qed.

Lemma ring_head q : queue_ok q → ring q (Z.to_nat (q_count q)) = q_head q.
Proof. intros [_ _ Hc -> _]. unfold ring. by rewrite Z2Nat.id by lia. Qed.

(** Two entries of the queue never share a slot. *)
Lemma ring_inj q i j :
  Z.of_nat i < QUEUE_CAPACITY → Z.of_nat j < QUEUE_CAPACITY → ring q i = ring q j → i = j.
Proof.
  unfold ring, QUEUE_CAPACITY. intros Hi Hj E.
  pose proof (Z.div_mod (q_tail q + Z.of_nat i) 256 ltac:(lia)).
  pose proof (Z.div_mod (q_tail q + Z.of_nat j) 256 ltac:(lia)). lia.
Qed.

Lemma q_slot_insert q i j e hd tl c bp :
  0 ≤ i < len (q_entries q) → 0 ≤ j →
  q_slot (mk_queue (<[Z.to_nat i := e]> (q_entries q)) hd tl c bp) j = if i =? j then e else q_slot q j.
Proof.
  intros Hi Hj. unfold q_slot, len in *. cbn. rewrite !nth_lookup.
  destruct (Z.eqb_spec i j) as [->|Hne].
  - by rewrite list_lookup_insert_eq by lia.
  - by rewrite list_lookup_insert_ne by lia.
Qed.

Lemma length_ack_scan d o es : length (ack_scan d o es) = length es.
Proof. induction es as [|e es IH]; cbn; [done|]. case_test; cbn; congruence. Qed.

Lemma ack_scan_slot d o es : ∀ i e,
  ack_scan d o es !! i = Some e →
  ∃ e0, es !! i = Some e0 ∧ (e = e0 ∨ (e = acked_entry e0 ∧ entry_matches d o e0 = true)).
Proof.
  induction es as [|e0 es IH]; intros i e He; [done|]. cbn in He.
  destruct (entry_matches d o e0) eqn:Em; destruct i as [|i]; cbn in He |- *.
  - injection He as <-. eauto.
  - eauto.
  - injection He as <-. eauto.
  - by apply IH.
Qed.

(** The empty queue, and what every operation does to the list. *)
Lemma queue_init_ok ok : queue_ok (queue_init ok).2 ∧ fifo (queue_init ok).2 = [].
Proof. destruct ok; (split; [constructor; done|done]). Qed.

Lemma push_fifo q devno offset hash payload rc q' :
  queue_ok q → len payload ≤ QUEUE_ENTRY_MAX_PAYLOAD → q_count q < QUEUE_CAPACITY →
  queue_push true q devno offset hash payload = (rc, q') →
  queue_ok q' ∧ fifo q' = fifo q ++ [mk_entry devno offset hash (Some payload) (len payload) 1] ∧
  rc = (if BACKPRESSURE_QUEUE_DEPTH <=? q_count q + 1 then 2 else 0).
Proof.
  intros Hq Hl Hc E. pose proof Hq as [Hlen Htail Hcount Hhead Hbp]. unfold queue_push in E.
  replace (_ <? len payload) with false in E by lia.
  replace (QUEUE_CAPACITY <=? q_count q) with false in E by lia. cbn [negb] in E.
  set (e := mk_entry devno offset hash (Some payload) (len payload) 1) in *.
  set (bp := if BACKPRESSURE_QUEUE_DEPTH <=? q_count q + 1 then 1 else q_backpressure q) in *.
  assert (Hbp' : bp = if BACKPRESSURE_QUEUE_DEPTH <=? q_count q + 1 then 1 else 0).
  { unfold bp. case_test; [done|]. rewrite Hbp. unfold queue_should_backpressure.
    by replace (_ <=? q_count q) with false by lia. }
  injection E as <- <-. cbn [q_backpressure]. split; [|split].
  - constructor; cbn [q_entries q_head q_tail q_count q_backpressure].
    + unfold len in *. by rewrite length_insert.
    + done.
    + lia.
    + rewrite Hhead. unfold QUEUE_CAPACITY. rewrite Zplus_mod_idemp_l. f_equal. lia.
    + exact Hbp'.
  - unfold fifo. cbn [q_count].
    replace (Z.to_nat (q_count q + 1)) with (S (Z.to_nat (q_count q))) by lia.
    rewrite seq_S, fmap_app. cbn [fmap list_fmap]. f_equal.
    + apply list_fmap_ext. intros i j Hj. apply lookup_seq in Hj as [-> Hi]. cbn [plus].
      unfold ring. cbn [q_tail]. fold (ring q i).
      rewrite (q_slot_insert q (q_head q) (ring q i)).
      * replace (q_head q =? ring q i) with false; [done|]. symmetry. apply Z.eqb_neq.
        rewrite <- ring_head by done. intros Hr. apply ring_inj in Hr; lia.
      * rewrite Hlen, <- ring_head by done. apply ring_range.
      * apply ring_range.
    + f_equal. unfold ring. cbn [q_tail plus]. fold (ring q (Z.to_nat (q_count q))).
      rewrite ring_head by done.
      rewrite (q_slot_insert q (q_head q) (q_head q)); [by rewrite Z.eqb_refl| |].
      * rewrite Hlen, <- ring_head by done. apply ring_range.
      * rewrite <- ring_head by done. apply ring_range.
  - rewrite Hbp'. by destruct (BACKPRESSURE_QUEUE_DEPTH <=? q_count q + 1).
Qed.

Lemma pop_fifo q r q' :
  queue_ok q → queue_pop q = (r, q') →
  queue_ok q' ∧
  match fifo q with
  | [] => r = None ∧ q' = q
  | e :: l => r = Some e ∧ fifo q' = l ∧ q_entries q' = q_entries q
  end.
Proof.
  intros Hq E. pose proof Hq as [Hlen Htail Hcount Hhead Hbp]. unfold queue_pop in E.
  destruct (Z.eqb_spec (q_count q) 0) as [H0|H0].
  - injection E as <- <-. split; [done|]. unfold fifo. rewrite H0. done.
  - injection E as <- <-. unfold fifo at 1.
    replace (Z.to_nat (q_count q)) with (S (Z.to_nat (q_count q - 1))) by lia.
    cbn [seq fmap list_fmap]. split.
    + constructor; cbn [q_entries q_head q_tail q_count q_backpressure]; try done.
      * apply Z.mod_pos_bound. done.
      * lia.
      * rewrite Hhead. unfold QUEUE_CAPACITY. rewrite Zplus_mod_idemp_l. f_equal. lia.
      * unfold queue_should_backpressure in *. cbn [q_count].
        destruct (Z.ltb_spec (q_count q - 1) BACKPRESSURE_QUEUE_DEPTH).
        -- by replace (_ <=? q_count q - 1) with false by lia.
        -- rewrite Hbp. replace (_ <=? q_count q) with true by lia.
           by replace (_ <=? q_count q - 1) with true by lia.
    + split; [|split; [|done]].
      * f_equal. unfold ring. rewrite Z.add_0_r, Z.mod_small by done. done.
      * unfold fifo. cbn [q_count].
        rewrite <- (fmap_S_seq 0), <- list_fmap_compose. apply list_fmap_ext.
        intros i j Hj. apply lookup_seq in Hj as [-> Hi]. cbn.
        unfold ring, q_slot. cbn [q_tail q_entries]. unfold QUEUE_CAPACITY.
        rewrite Zplus_mod_idemp_l. do 3 f_equal. lia.
Qed.

Lemma ack_fifo q devno offset :
  queue_ok q →
  queue_ok (queue_ack q devno offset) ∧
  Forall2 (λ e e', e' = e ∨ (e' = acked_entry e ∧ entry_matches devno offset e = true))
    (fifo q) (fifo (queue_ack q devno offset)).
Proof.
  intros [Hlen Htail Hcount Hhead Hbp]. split.
  - constructor; try done. unfold len in *. cbn. by rewrite length_ack_scan.
  - unfold fifo. cbn [q_count queue_ack]. apply Forall2_fmap, Forall_Forall2_diag, Forall_forall.
    intros i _. unfold q_slot. cbn [q_entries queue_ack].
    change (ring (queue_ack q devno offset) i) with (ring q i). pose proof (ring_range q i).
    rewrite !nth_lookup.
    destruct (ack_scan devno offset (q_entries q) !! Z.to_nat (ring q i)) as [e|] eqn:Ee.
    + apply ack_scan_slot in Ee as (e0 & -> & He). cbn. done.
    + apply lookup_ge_None in Ee. rewrite length_ack_scan in Ee. unfold len in *. lia.
Qed.

(** ** The abstract queue

    What the client relies on: a bounded first-in first-out list of blocks,
    each known by its device, offset and hash. *)

Module Fifo.

Inductive op :=
  | Push (devno offset hash : Z) (payload : list Z)
  | Pop
  | Ack (devno offset : Z).

Inductive obs :=
  | Pushed (rc : Z)
  | Popped (r : option (Z * Z * Z))
  | Acked.

Definition state := list (Z * Z * Z).

Definition step (l : state) (o : op) : state * obs :=
  match o with
  | Push d f h p =>
      if (QUEUE_ENTRY_MAX_PAYLOAD <? len p) || (QUEUE_CAPACITY <=? len l) then (l, Pushed (-1))
      else (l ++ [(d, f, h)],
            Pushed (if BACKPRESSURE_QUEUE_DEPTH <=? len l + 1 then 2 else 0))
  | Pop => match l with [] => ([], Popped None) | x :: r => (r, Popped (Some x)) end
  | Ack _ _ => (l, Acked)
  end.

Definition block_id (e : queue_entry) : Z * Z * Z := (qe_devno e, qe_offset e, qe_hash e).

(** The same operation on the ring buffer. *)
Definition ring_step (q : send_queue) (o : op) : send_queue * obs :=
  match o with
  | Push d f h p => let '(rc, q) := queue_push true q d f h p in (q, Pushed rc)
  | Pop => let '(r, q) := queue_pop q in (q, Popped (block_id <$> r))
  | Ack d f => (queue_ack q d f, Acked)
  end.

Fixpoint run {S} (f : S → op → S * obs) (s : S) (os : list op) : S * list obs :=
  match os with
  | [] => (s, [])
  | o :: r => let '(s, x) := f s o in let '(s, xs) := run f s r in (s, x :: xs)
  end.

(** The simulation relation. *)
Definition refines (q : send_queue) (l : state) : Prop := queue_ok q ∧ block_id <$> fifo q = l.

Lemma refines_count q l : refines q l → q_count q = len l.
Proof.
  intros [[_ _ Hc _ _] <-]. unfold len, fifo. rewrite !length_fmap, length_seq. lia.
Qed.

Lemma step_refines q l o :
  refines q l →
  refines (ring_step q o).1 (step l o).1 ∧ (ring_step q o).2 = (step l o).2.
Proof.
  intros Hr. pose proof (refines_count q l Hr) as Hc. destruct Hr as [Hq Hl].
  destruct o as [d f h p| |d f]; cbn [ring_step step].
  - rewrite <- Hc. destruct (Z.ltb_spec QUEUE_ENTRY_MAX_PAYLOAD (len p)) as [H1|H1].
    { unfold queue_push. replace (_ <? len p) with true by lia. done. }
    destruct (Z.leb_spec QUEUE_CAPACITY (q_count q)) as [H2|H2].
    { unfold queue_push. replace (_ <? len p) with false by lia.
      replace (_ <=? q_count q) with true by lia. done. }
    destruct (queue_push true q d f h p) as [rc q'] eqn:E. cbn.
    apply push_fifo in E as (Hq' & Hf & ->); [|done|lia|done].
    split; [|done]. split; [done|]. by rewrite Hf, fmap_app, Hl.
  - destruct (queue_pop q) as [r q'] eqn:E. apply pop_fifo in E as [Hq' Hf]; [|done].
    cbn. destruct (fifo q) as [|e es]; cbn in Hl; subst l.
    + destruct Hf as [-> ->]. cbn. split; [|done]. split; [done|].
      destruct Hq as [_ _ Hcount _ _]. unfold fifo. rewrite Hc. done.
    + destruct Hf as (-> & Hf & _). cbn. split; [|done]. split; [done|]. by rewrite Hf.
  - split; [|done]. destruct (ack_fifo q d f Hq) as [Hq' HF]. split; [done|]. subst l. cbn.
    revert HF. generalize (fifo q) (fifo (queue_ack q d f)). intros l1 l2.
    induction 1 as [|e e' es es' [->|[-> _]] HF IH]; [done| |]; cbn [fmap list_fmap]; by f_equal.
Qed.

End Fifo.

(** The pairs of the pending slots, in array order. *)
Definition pending_ids (es : list queue_entry) : list (Z * Z) :=
  (λ e, (qe_devno e, qe_offset e)) <$> filter (λ e, qe_pending e ≠ 0) es.

Lemma pending_ids_len es : len (pending_ids es) ≤ len es.
Proof.
  unfold len, pending_ids. rewrite length_fmap.
  pose proof (length_filter (λ e, qe_pending e ≠ 0) es). lia.
Qed.

Lemma pending_ids_cons e es :
  pending_ids (e :: es) =
  (if qe_pending e =? 0 then [] else [(qe_devno e, qe_offset e)]) ++ pending_ids es.
Proof.
  unfold pending_ids. destruct (Z.eqb_spec (qe_pending e) 0).
  - by rewrite filter_cons_False by lia.
  - by rewrite filter_cons_True by lia.
Qed.

Lemma ack_scan_pending d o es :
  ((d, o) ∉ pending_ids es ∧ pending_ids (ack_scan d o es) = pending_ids es) ∨
  ∃ l1 l2, pending_ids es = l1 ++ (d, o) :: l2 ∧ (d, o) ∉ l1 ∧
           pending_ids (ack_scan d o es) = l1 ++ l2.
Proof.
  induction es as [|e es IH]; [left; split; [apply not_elem_of_nil|done]|]. cbn [ack_scan].
  destruct (entry_matches d o e) eqn:Em; unfold entry_matches in Em.
  - bool_to_prop. right. exists [], (pending_ids es). rewrite !pending_ids_cons. cbn [qe_pending acked_entry].
    replace (qe_pending e =? 0) with false by lia. cbn. subst.
    split; [done|]. split; [apply not_elem_of_nil|done].
  - rewrite !pending_ids_cons. destruct (Z.eqb_spec (qe_pending e) 0) as [H0|H0]; [done|]. cbn [app].
    assert (Hne : (d, o) ≠ (qe_devno e, qe_offset e)) by (intros [= -> ->]; lia).
    destruct IH as [[H1 ->]|(l1 & l2 & -> & H2 & ->)].
    + left. split; [by apply not_elem_of_cons|done].
    + right. exists ((qe_devno e, qe_offset e) :: l1), l2. split; [done|].
      split; [by apply not_elem_of_cons|done].
Qed.

(** ** Properties *)

(** C15 (queue_refines_fifo): the ring buffer implements the bounded FIFO.  For
    every sequence of pushes, pops and acknowledgements from the initial
    state, each push and pop answers exactly as the abstract queue does (the
    blocks come out in the order they went in, none lost, none twice; -1
    exactly on an oversized payload or a full queue; 2, with the block in the
    queue, from the 40th block on), and the ring's invariant holds at the
    end. *)
Theorem queue_refines_fifo os :
  (Fifo.run Fifo.ring_step (queue_init true).2 os).2 = (Fifo.run Fifo.step [] os).2 ∧
  Fifo.refines (Fifo.run Fifo.ring_step (queue_init true).2 os).1 (Fifo.run Fifo.step [] os).1.
Proof.
  assert (Hsim : ∀ os q l, Fifo.refines q l →
    (Fifo.run Fifo.ring_step q os).2 = (Fifo.run Fifo.step l os).2 ∧
    Fifo.refines (Fifo.run Fifo.ring_step q os).1 (Fifo.run Fifo.step l os).1).
  { clear os. induction os as [|o os IH]; intros q l Hr; [done|]. cbn.
    destruct (Fifo.step_refines q l o Hr) as [Hr' Ho].
    destruct (Fifo.ring_step q o) as [q1 x1], (Fifo.step l o) as [l1 y1]. cbn in Hr', Ho. subst y1.
    destruct (IH q1 l1 Hr') as [H1 H2].
    destruct (Fifo.run Fifo.ring_step q1 os) as [q2 xs], (Fifo.run Fifo.step l1 os) as [l2 ys].
    cbn in *. subst ys. done. }
  apply Hsim. split; [apply queue_init_ok|done].
Qed.

(** [queue_ack_first_match]: an acknowledgement clears one pending slot at
    most.  The (device, offset) pairs reported for retransmission afterwards
    are the ones before it without the first occurrence of the acknowledged
    pair in array order, and all of them if it does not occur. *)
Theorem queue_ack_first_match q d o :
  queue_ok q →
  let before := queue_get_pending q QUEUE_CAPACITY in
  let after := queue_get_pending (queue_ack q d o) QUEUE_CAPACITY in
  ((d, o) ∉ before ∧ after = before) ∨
  ∃ l1 l2, before = l1 ++ (d, o) :: l2 ∧ (d, o) ∉ l1 ∧ after = l1 ++ l2.
Proof.
  intros [Hlen _ _ _ _]. cbv zeta. unfold queue_get_pending. cbn [queue_ack q_entries].
  fold (pending_ids (q_entries q)) (pending_ids (ack_scan d o (q_entries q))).
  pose proof (pending_ids_len (q_entries q)). pose proof (pending_ids_len (ack_scan d o (q_entries q))).
  assert (len (ack_scan d o (q_entries q)) = QUEUE_CAPACITY)
    by (unfold len in *; by rewrite length_ack_scan).
  rewrite !ztake_ge by lia. apply ack_scan_pending.
Qed.

Lemma queue_ack_first_match_witness :
  let q := (queue_push true (queue_init true).2 1 4096 111 [7]).2 in
  queue_get_pending (queue_ack q 1 4096) QUEUE_CAPACITY = [].
Proof.
  intros q. assert (Hq : queue_ok q) by (constructor; try done; vm_compute; split; congruence).
  destruct (queue_ack_first_match q 1 4096 Hq) as [[Hn _]|(l1 & l2 & Hb & Hn & Ha)].
  - destruct Hn. vm_compute. left.
  - rewrite Ha. vm_compute in Hb. destruct l1 as [|x l1]; [injection Hb as <-; reflexivity|].
    injection Hb as <- Hb. destruct l1; discriminate Hb.
Defined.

(** [queue_ack_frees_unsent]: the pair does not tell two versions of a block
    apart.  With an older version in flight (popped, not acknowledged) in slot
    255 and a newer one waiting in slot 0, the acknowledgement of the older
    one takes the payload away from the newer one, which is still in the
    queue, and leaves the older one's slot pending. *)
Theorem queue_ack_frees_unsent :
  let q0 := mk_queue (q_entries (queue_init true).2) 255 255 0 0 in
  let q1 := (queue_push true q0 1 4096 111 [7]).2 in
  let q2 := (queue_pop q1).2 in
  let q3 := (queue_push true q2 1 4096 222 [8]).2 in
  let q4 := queue_ack q3 1 4096 in
  queue_ok q0 ∧ fifo q4 = [mk_entry 1 4096 222 None 1 0] ∧
  q_slot q4 255 = mk_entry 1 4096 111 (Some [7]) 1 1.
Proof. split; [constructor; done|]. vm_compute. done. Qed.
