(* ===== verification/Timer.v ===== *)
(** * Timers (client/timer.c)

    Four events, each with the time it last fired and its interval, in
    unsigned 64-bit milliseconds.  [last_fire] and [interval] list the events
    from [TIMER_RETRANSMIT] on ([TIMER_NONE] has no timer). *)

From S2P Require Import Prelude Protocol.

Inductive timer_event_t :=
  | TIMER_NONE
  | TIMER_RETRANSMIT
  | TIMER_RECONNECT
  | TIMER_ACTION
  | TIMER_INCREMENTAL.

#[export] Instance timer_event_eq_dec : EqDecision timer_event_t.
Proof. solve_decision. Defined.

Record timer := mk_timer { last_fire : Z; interval : Z }.

Record timer_mgr_t := mk_timers {
  tm_retransmit : timer;
  tm_reconnect : timer;
  tm_action : timer;
  tm_incremental : timer;
}.

Definition timer_init (now : Z) : timer_mgr_t :=
  mk_timers (mk_timer now RETRANSMIT_TIMER_MS) (mk_timer now RECONNECT_TIMER_MS)
    (mk_timer (u64 (now + 5000 - ACTION_TIMER_MS)) ACTION_TIMER_MS)
    (mk_timer now RETRANSMIT_TIMER_MS).

(** [CLOCK_MONOTONIC] in milliseconds. *)
Definition timer_now_ms (tv_sec tv_nsec : Z) : Z := u64 (tv_sec * 1000 + tv_nsec / 1000000).

Definition timer_get (tm : timer_mgr_t) (ev : timer_event_t) : option timer :=
  match ev with
  | TIMER_NONE => None
  | TIMER_RETRANSMIT => Some (tm_retransmit tm)
  | TIMER_RECONNECT => Some (tm_reconnect tm)
  | TIMER_ACTION => Some (tm_action tm)
  | TIMER_INCREMENTAL => Some (tm_incremental tm)
  end.

(** [now_ms - last_fire[i] >= interval[i]], the subtraction modulo 2^64. *)
Definition timer_due (now_ms : Z) (t : timer) : bool := interval t <=? u64 (now_ms - last_fire t).

Definition timer_events : list timer_event_t :=
  [TIMER_RETRANSMIT; TIMER_RECONNECT; TIMER_ACTION; TIMER_INCREMENTAL].

(** [for (int i = 1; i < TIMER_COUNT; i++)] *)
Fixpoint check_from (tm : timer_mgr_t) (now_ms : Z) (evs : list timer_event_t) : timer_event_t :=
  match evs with
  | [] => TIMER_NONE
  | ev :: r =>
      match timer_get tm ev with
      | Some t => if timer_due now_ms t then ev else check_from tm now_ms r
      | None => check_from tm now_ms r
      end
  end.

Definition timer_check (tm : timer_mgr_t) (now_ms : Z) : timer_event_t :=
  check_from tm now_ms timer_events.

Definition timer_reset (now : Z) (tm : timer_mgr_t) (ev : timer_event_t) : timer_mgr_t :=
  let fired t := mk_timer now (interval t) in
  match ev with
  | TIMER_NONE => tm
  | TIMER_RETRANSMIT => mk_timers (fired (tm_retransmit tm)) (tm_reconnect tm) (tm_action tm) (tm_incremental tm)
  | TIMER_RECONNECT => mk_timers (tm_retransmit tm) (fired (tm_reconnect tm)) (tm_action tm) (tm_incremental tm)
  | TIMER_ACTION => mk_timers (tm_retransmit tm) (tm_reconnect tm) (fired (tm_action tm)) (tm_incremental tm)
  | TIMER_INCREMENTAL => mk_timers (tm_retransmit tm) (tm_reconnect tm) (tm_action tm) (fired (tm_incremental tm))
  end.

(** ** Lemmas *)

Lemma u64_sub_exact a b : 0 ≤ b ≤ a → a < 2 ^ 64 → u64 (a - b) = a - b.
Proof. intros. apply (wrapU_id 64). unfold in_u. lia. Qed.

(** The distance of two clock values does not see the wrap of [last_fire]. *)
Lemma u64_sub_wrap a b : u64 (a - u64 b) = u64 (a - b).
Proof. unfold u64, wrapU. by rewrite Zminus_mod_idemp_r. Qed.

Lemma timer_due_elapsed now fired iv :
  0 ≤ now - fired < 2 ^ 64 → timer_due now (mk_timer (u64 fired) iv) = (iv <=? now - fired).
Proof.
  intros H. unfold timer_due. cbn. rewrite u64_sub_wrap. unfold u64. by rewrite wrapU_id.
Qed.

(** ** Properties *)

(** [timer_check_sound]: [timer_check] reports an event exactly when its
    interval has elapsed and no event before it in the order retransmit,
    reconnect, action, incremental is due; it reports none exactly when none
    is due; and an event that was just reset is not reported again before its
    interval has passed. *)
Theorem timer_check_sound tm now :
  (timer_check tm now = TIMER_NONE ↔
   timer_due now (tm_retransmit tm) = false ∧ timer_due now (tm_reconnect tm) = false ∧
   timer_due now (tm_action tm) = false ∧ timer_due now (tm_incremental tm) = false) ∧
  (timer_check tm now = TIMER_RETRANSMIT ↔ timer_due now (tm_retransmit tm) = true) ∧
  (timer_check tm now = TIMER_RECONNECT ↔
   timer_due now (tm_retransmit tm) = false ∧ timer_due now (tm_reconnect tm) = true) ∧
  (∀ ev t, timer_get tm ev = Some t → 0 ≤ now < 2 ^ 64 →
     ∀ later, now ≤ later < now + interval t → later < 2 ^ 64 →
     timer_check (timer_reset now tm ev) later ≠ ev).
Proof.
  assert (Hu : timer_check tm now =
    if timer_due now (tm_retransmit tm) then TIMER_RETRANSMIT
    else if timer_due now (tm_reconnect tm) then TIMER_RECONNECT
    else if timer_due now (tm_action tm) then TIMER_ACTION
    else if timer_due now (tm_incremental tm) then TIMER_INCREMENTAL else TIMER_NONE) by done.
  rewrite Hu. split; [repeat case_match; naive_solver|]. split; [repeat case_match; naive_solver|].
  split; [repeat case_match; naive_solver|]. clear Hu.
  intros ev t Ht Hn later Hl Hl2.
  assert (Hnot : timer_due later (mk_timer now (interval t)) = false).
  { unfold timer_due. cbn. rewrite u64_sub_exact by lia. lia. }
  destruct ev; [done|..]; injection Ht as <-; unfold timer_check; cbn; rewrite Hnot;
    repeat case_match; discriminate.
Qed.

(** [timer_init_schedule]: after [timer_init] at time [now] nothing is reported
    for five seconds, then the action timer, and from [now + 18000] on (until
    it is reset) the retransmission timer.  The start of the action timer,
    which goes below zero when the machine has been up for less than five
    seconds, wraps around harmlessly. *)
Theorem timer_init_schedule now t :
  0 ≤ now → now + 20000 < 2 ^ 64 → now ≤ t ≤ now + 20000 →
  timer_check (timer_init now) t =
  if t <? now + 5000 then TIMER_NONE
  else if t <? now + 18000 then TIMER_ACTION else TIMER_RETRANSMIT.
Proof.
  intros Hn Hmax Ht. unfold timer_check, timer_init. cbn [check_from timer_events timer_get
    tm_retransmit tm_reconnect tm_action tm_incremental].
  assert (Hz : ∀ iv, timer_due t (mk_timer now iv) = (iv <=? t - now)).
  { intros iv. unfold timer_due. cbn. by rewrite u64_sub_exact by lia. }
  rewrite !Hz, timer_due_elapsed by (unfold ACTION_TIMER_MS; lia).
  unfold RETRANSMIT_TIMER_MS, RECONNECT_TIMER_MS, ACTION_TIMER_MS.
  destruct (Z.ltb_spec t (now + 5000)).
  - replace (18000 <=? t - now) with false by lia. replace (20000 <=? t - now) with false by lia.
    by replace (10000 <=? _) with false by lia.
  - destruct (Z.ltb_spec t (now + 18000)).
    + replace (18000 <=? t - now) with false by lia. replace (20000 <=? t - now) with false by lia.
      by replace (10000 <=? _) with true by lia.
    + by replace (18000 <=? t - now) with true by lia.
Qed.

Lemma timer_init_schedule_witness :
  timer_check (timer_init 100) 5100 =
  if 5100 <? 100 + 5000 then TIMER_NONE
  else if 5100 <? 100 + 18000 then TIMER_ACTION else TIMER_RETRANSMIT.
Proof. apply timer_init_schedule; [lia|reflexivity|lia]. Defined.
