(* ===== verification/Pool.v ===== *)
(** * The connection pool (client/pool.c)

    Seven slots; a slot's pointer is its index.  The results of the successive
    [pool_connect]s are the script [pl_connects] (a descriptor, or [None] for
    [SOCKET_ERR]; exhausted: every connect fails), the closed descriptors the
    trace [pl_closed].  [c_scratch] is the capacity of the send buffer, [None]
    for a null pointer. *)

From S2P Require Import Prelude Protocol Net.

Definition SOCKET_ERR : Z := -1.
Definition SEND_SCRATCH_SIZE : Z := 0x130000.
Definition POOL_SLOTS : nat := Z.to_nat SOCKET_POOL_TARGET.

Record pool_conn := mk_conn {
  c_fd : Z;
  c_server_ip : list Z;
  c_server_port : Z;
  c_in_use : Z;
  c_last_active : Z;
  c_created_at : Z;
  c_blocks_sent : Z;
  c_bytes_sent : Z;
  c_scratch : option Z;
}.

Record socket_pool := mk_pool {
  pl_conns : list pool_conn;
  pl_count : Z;
  pl_next_index : Z;
  pl_connects : list (option Z);
  pl_closed : list Z;
}.

(** A slot as [memset] leaves it. *)
Definition zero_conn : pool_conn := mk_conn 0 [] 0 0 0 0 0 0 None.

Definition conn_at (p : socket_pool) (i : Z) : pool_conn := nth (Z.to_nat i) (pl_conns p) zero_conn.

Definition set_conn (p : socket_pool) (i : Z) (c : pool_conn) : socket_pool :=
  mk_pool (<[Z.to_nat i := c]> (pl_conns p)) (pl_count p) (pl_next_index p) (pl_connects p) (pl_closed p).

Definition with_fd (c : pool_conn) (fd : Z) : pool_conn :=
  mk_conn fd (c_server_ip c) (c_server_port c) (c_in_use c) (c_last_active c) (c_created_at c)
    (c_blocks_sent c) (c_bytes_sent c) (c_scratch c).

Definition with_in_use (c : pool_conn) (u : Z) : pool_conn :=
  mk_conn (c_fd c) (c_server_ip c) (c_server_port c) u (c_last_active c) (c_created_at c)
    (c_blocks_sent c) (c_bytes_sent c) (c_scratch c).

(** ** Operations *)

(** The next [pool_connect]. *)
Definition pool_connect (p : socket_pool) : Z * socket_pool :=
  match pl_connects p with
  | [] => (SOCKET_ERR, p)
  | r :: rest =>
      (default SOCKET_ERR r,
       mk_pool (pl_conns p) (pl_count p) (pl_next_index p) rest (pl_closed p))
  end.

Section Pool.
Context (malloc_ok : Z → bool) (now : Z).

(** The loop of [pool_init] from slot [i]; the slots are zeroed before it. *)
Fixpoint init_loop (n : nat) (i : Z) (server_ip : list Z) (server_port : Z) (p : socket_pool)
    : Z * socket_pool :=
  match n with
  | O => (0, p)
  | S n' =>
      let c := mk_conn SOCKET_ERR (ztake 63 server_ip) server_port 0 0 0 0 0 None in
      if negb (malloc_ok i) then init_loop n' (i + 1) server_ip server_port (set_conn p i c)
      else
        let c := mk_conn SOCKET_ERR (ztake 63 server_ip) server_port 0 0 0 0 0 (Some SEND_SCRATCH_SIZE) in
        let '(fd, p) := pool_connect (set_conn p i c) in
        if fd =? SOCKET_ERR then (if i =? 0 then -1 else 0, p)
        else
          let c := mk_conn fd (c_server_ip c) (c_server_port c) 0 now now 0 0 (c_scratch c) in
          let p := set_conn p i c in
          init_loop n' (i + 1) server_ip server_port
            (mk_pool (pl_conns p) (pl_count p + 1) (pl_next_index p) (pl_connects p) (pl_closed p))
  end.

(** [memset], the mutex (which [mutex_ok] says could be allocated), the loop. *)
Definition pool_init (mutex_ok : bool) (server_ip : list Z) (server_port : Z)
    (connects : list (option Z)) : Z * socket_pool :=
  let p := mk_pool (replicate POOL_SLOTS zero_conn) 0 0 connects [] in
  if negb mutex_ok then (-1, p) else init_loop POOL_SLOTS 0 server_ip server_port p.

Definition pool_destroy (p : socket_pool) : socket_pool :=
  mk_pool ((λ c, mk_conn SOCKET_ERR (c_server_ip c) (c_server_port c) (c_in_use c) (c_last_active c)
                   (c_created_at c) (c_blocks_sent c) (c_bytes_sent c) None) <$> pl_conns p)
    0 (pl_next_index p) (pl_connects p)
    (pl_closed p ++ (c_fd <$> filter (λ c, c_fd c ≠ SOCKET_ERR) (pl_conns p))).

(** An open connection nobody uses. *)
Definition conn_free (c : pool_conn) : bool := negb (c_fd c =? SOCKET_ERR) && (c_in_use c =? 0).

(** The round-robin scan: the attempt at which it stops. *)
Fixpoint scan_free (n : nat) (attempt start : Z) (p : socket_pool) : option Z :=
  match n with
  | O => None
  | S n' =>
      let i := (start + attempt) mod SOCKET_POOL_TARGET in
      if conn_free (conn_at p i) then Some i else scan_free n' (attempt + 1) start p
  end.

(** The first closed slot that has a send buffer. *)
Fixpoint scan_closed (n : nat) (i : Z) (p : socket_pool) : option Z :=
  match n with
  | O => None
  | S n' =>
      let c := conn_at p i in
      if (c_fd c =? SOCKET_ERR) && bool_decide (is_Some (c_scratch c)) then Some i
      else scan_closed n' (i + 1) p
  end.

Definition pool_acquire (p : socket_pool) : option Z * socket_pool :=
  match scan_free POOL_SLOTS 0 (pl_next_index p) p with
  | Some i =>
      let p := set_conn p i (with_in_use (conn_at p i) 1) in
      (Some i, mk_pool (pl_conns p) (pl_count p) ((i + 1) mod SOCKET_POOL_TARGET)
                 (pl_connects p) (pl_closed p))
  | None =>
      if pl_count p <? SOCKET_POOL_TARGET then
        match scan_closed POOL_SLOTS 0 p with
        | None => (None, p)
        | Some i =>
            let '(fd, p) := pool_connect p in
            if fd =? SOCKET_ERR then (None, p)
            else
              let c := conn_at p i in
              let c := mk_conn fd (c_server_ip c) (c_server_port c) 1 now (c_created_at c)
                         (c_blocks_sent c) (c_bytes_sent c) (c_scratch c) in
              let p := set_conn p i c in
              (Some i, mk_pool (pl_conns p) (pl_count p + 1) ((i + 1) mod SOCKET_POOL_TARGET)
                         (pl_connects p) (pl_closed p))
        end
      else (None, p)
  end.

Definition pool_release (p : socket_pool) (i : Z) : socket_pool :=
  set_conn p i (with_in_use (conn_at p i) 0).

Definition touch_conn (c : pool_conn) : pool_conn :=
  mk_conn (c_fd c) (c_server_ip c) (c_server_port c) (c_in_use c) now (c_created_at c)
    (c_blocks_sent c) (c_bytes_sent c) (c_scratch c).

Definition pool_touch (p : socket_pool) (i : Z) : socket_pool :=
  set_conn p i (touch_conn (conn_at p i)).

Definition conn_stale (c : pool_conn) : bool :=
  conn_free c && (STALE_SOCKET_TIMEOUT_SEC <? now - c_last_active c).

Definition pool_reap_stale (p : socket_pool) : Z * socket_pool :=
  let stale := filter (λ c, conn_stale c = true) (pl_conns p) in
  (len stale,
   mk_pool ((λ c, if conn_stale c then with_fd c SOCKET_ERR else c) <$> pl_conns p)
     (pl_count p - len stale) (pl_next_index p) (pl_connects p) (pl_closed p ++ (c_fd <$> stale))).

Definition pool_count (p : socket_pool) : Z := pl_count p.

End Pool.

(** [pool_recv_ack]: the result of the loop from [received] bytes in [buf]; on
    would-block the bytes received so far are dropped with the local buffer. *)
Inductive ack_res := AckNone | AckError | AckGot (r : server_response_t).

Fixpoint recv_ack_loop (fuel : nat) (evs : list recv_ev) (buf : list Z) : ack_res * list recv_ev :=
  match fuel with
  | O => (AckNone, evs)
  | S fuel' =>
      if len buf <? SERVER_RESPONSE_SIZE then
        match sys_recv (SERVER_RESPONSE_SIZE - len buf) evs with
        | (RcvAgain, evs) => (AckNone, evs)
        | (RcvErr, evs) => (AckError, evs)
        | (RcvBytes [], evs) => (AckError, evs)
        | (RcvBytes bs, evs) => recv_ack_loop fuel' evs (buf ++ bs)
        end
      else (AckGot (response_of_bytes buf), evs)
  end.

(** Every turn but the last receives a byte. *)
Definition pool_recv_ack (fd : sock) : ack_res * sock :=
  let '(r, evs) := recv_ack_loop 21 (sk_in fd) [] in (r, mk_sock (sk_out fd) (sk_send fd) evs).

#[global] Arguments recv_ack_loop : simpl never.

(** ** Invariant *)

(** The count is the number of open connections. *)
Definition open_conns (cs : list pool_conn) : list pool_conn := filter (λ c, c_fd c ≠ SOCKET_ERR) cs.

Record pool_ok (p : socket_pool) : Prop := {
  pok_len : len (pl_conns p) = SOCKET_POOL_TARGET;
  pok_count : pl_count p = len (open_conns (pl_conns p));
  pok_next : 0 ≤ pl_next_index p < SOCKET_POOL_TARGET;
}.

(** ** Lemmas *)

Lemma conn_at_lookup p i :
  0 ≤ i < len (pl_conns p) → pl_conns p !! Z.to_nat i = Some (conn_at p i).
Proof.
  intros Hi. unfold conn_at, len in *. rewrite nth_lookup.
  destruct (lookup_lt_is_Some_2 (pl_conns p) (Z.to_nat i)) as [c ->]; [lia|done].
Qed.

Lemma conn_at_set p i j c :
  0 ≤ i < len (pl_conns p) → 0 ≤ j →
  conn_at (set_conn p i c) j = if i =? j then c else conn_at p j.
Proof.
  intros Hi Hj. unfold conn_at, len in *. cbn. rewrite !nth_lookup.
  destruct (Z.eqb_spec i j) as [->|Hne].
  - by rewrite list_lookup_insert_eq by lia.
  - by rewrite list_lookup_insert_ne by lia.
Qed.

(** Replacing one connection changes the number of open ones by what it and
    its replacement contribute. *)
Lemma open_conns_insert cs i c c' :
  cs !! i = Some c →
  len (open_conns (<[i := c']> cs)) =
  len (open_conns cs) - (if c_fd c =? SOCKET_ERR then 0 else 1) + (if c_fd c' =? SOCKET_ERR then 0 else 1).
Proof.
  intros Hc. unfold open_conns.
  assert (Hi : (i < length cs)%nat) by (by eapply lookup_lt_Some).
  rewrite insert_take_drop by done. rewrite <- (take_drop_middle cs i c Hc) at 3.
  rewrite !filter_app, !len_app, !filter_cons.
  destruct (Z.eqb_spec (c_fd c) SOCKET_ERR), (Z.eqb_spec (c_fd c') SOCKET_ERR);
    repeat case_decide; rewrite ?len_cons; first [lia | exfalso; tauto].
Qed.

Lemma set_conn_ok p i c n nx co cl :
  pool_ok p → 0 ≤ i < SOCKET_POOL_TARGET → 0 ≤ nx < SOCKET_POOL_TARGET →
  n = pl_count p - (if c_fd (conn_at p i) =? SOCKET_ERR then 0 else 1)
      + (if c_fd c =? SOCKET_ERR then 0 else 1) →
  pool_ok (mk_pool (pl_conns (set_conn p i c)) n nx co cl).
Proof.
  intros [Hl Hc Hn] Hi Hnx ->. constructor; cbn [pl_conns pl_count pl_next_index set_conn].
  - unfold len in *. by rewrite length_insert.
  - rewrite (open_conns_insert _ _ (conn_at p i)); [lia|]. apply conn_at_lookup. lia.
  - done.
Qed.

Lemma scan_free_spec p start : ∀ n attempt,
  0 ≤ attempt →
  match scan_free n attempt start p with
  | Some i => 0 ≤ i < SOCKET_POOL_TARGET ∧ conn_free (conn_at p i) = true ∧
              ∃ k, attempt ≤ k < attempt + Z.of_nat n ∧ i = (start + k) mod SOCKET_POOL_TARGET ∧
                   ∀ k', attempt ≤ k' < k →
                     conn_free (conn_at p ((start + k') mod SOCKET_POOL_TARGET)) = false
  | None => ∀ k, attempt ≤ k < attempt + Z.of_nat n →
              conn_free (conn_at p ((start + k) mod SOCKET_POOL_TARGET)) = false
  end.
Proof.
  induction n as [|n IH]; intros attempt Ha; cbn [scan_free]; [lia|].
  destruct (conn_free (conn_at p ((start + attempt) mod SOCKET_POOL_TARGET))) eqn:E.
  - split; [apply Z.mod_pos_bound; done|]. split; [done|]. exists attempt. split; [lia|]. split; [done|]. lia.
  - specialize (IH (attempt + 1) ltac:(lia)).
    destruct (scan_free n (attempt + 1) start p) as [i|].
    + destruct IH as (H1 & H2 & k & H3 & H4 & H5). split; [done|]. split; [done|].
      exists k. split; [lia|]. split; [done|]. intros k' Hk'.
      destruct (decide (k' = attempt)) as [->|]; [done|]. apply H5. lia.
    + intros k Hk. destruct (decide (k = attempt)) as [->|]; [done|]. apply IH. lia.
Qed.

(** The scan covers every slot. *)
Lemma scan_free_none p start :
  0 ≤ start < SOCKET_POOL_TARGET → scan_free POOL_SLOTS 0 start p = None →
  ∀ i, 0 ≤ i < SOCKET_POOL_TARGET → conn_free (conn_at p i) = false.
Proof.
  intros Hs E i Hi. pose proof (scan_free_spec p start POOL_SLOTS 0 ltac:(lia)) as H. rewrite E in H.
  unfold SOCKET_POOL_TARGET in *.
  specialize (H ((i - start) mod 7)). rewrite Zplus_mod_idemp_r in H.
  replace (start + (i - start)) with i in H by lia. rewrite (Z.mod_small i) in H by lia. apply H.
  pose proof (Z.mod_pos_bound (i - start) 7 ltac:(lia)). change (Z.of_nat POOL_SLOTS) with 7. lia.
Qed.

Lemma scan_closed_spec p : ∀ n i j,
  0 ≤ i → scan_closed n i p = Some j →
  i ≤ j < i + Z.of_nat n ∧ c_fd (conn_at p j) = SOCKET_ERR ∧ is_Some (c_scratch (conn_at p j)).
Proof.
  induction n as [|n IH]; intros i j Hi E; cbn [scan_closed] in E; [done|].
  case_test_in E.
  - injection E as <-. bool_to_prop. split; [lia|]. done.
  - apply IH in E; [|lia]. destruct E as (H1 & H2). split; [lia|done].
Qed.

Lemma pool_connect_keeps p :
  pl_conns (pool_connect p).2 = pl_conns p ∧ pl_count (pool_connect p).2 = pl_count p ∧
  pl_next_index (pool_connect p).2 = pl_next_index p ∧ pl_closed (pool_connect p).2 = pl_closed p.
Proof. unfold pool_connect. by destruct (pl_connects p). Qed.

(** A slot [pool_init] has connected. *)
Definition fresh_conn (c : pool_conn) : Prop := c_in_use c = 0 ∧ c_scratch c = Some SEND_SCRATCH_SIZE.

Lemma take_S_insert {A} (l : list A) i x :
  (i < length l)%nat → take (S i) (<[i := x]> l) = take i l ++ [x].
Proof.
  intros Hi. rewrite (take_S_r _ _ x) by (by rewrite list_lookup_insert_eq).
  by rewrite take_insert_ge by lia.
Qed.

(** The loop when every connection succeeds. *)
Lemma init_loop_all now ip port n : ∀ i p fds,
  len (pl_conns p) = SOCKET_POOL_TARGET → 0 ≤ i → i + Z.of_nat n = SOCKET_POOL_TARGET →
  length fds = n → pl_connects p = Some <$> fds → Forall (λ fd, fd ≠ SOCKET_ERR) fds →
  pl_count p = i → Forall fresh_conn (take (Z.to_nat i) (pl_conns p)) →
  ∃ p', init_loop (λ _, true) now n i ip port p = (0, p') ∧
    len (pl_conns p') = SOCKET_POOL_TARGET ∧ pl_count p' = SOCKET_POOL_TARGET ∧
    pl_next_index p' = pl_next_index p ∧
    c_fd <$> pl_conns p' = (c_fd <$> take (Z.to_nat i) (pl_conns p)) ++ fds ∧
    Forall fresh_conn (pl_conns p').
Proof.
  induction n as [|n IH]; intros i p fds Hl Hi Hn Hf Hc HF Hcount Hg.
  - exists p. destruct fds; [|done]. unfold len in *.
    rewrite app_nil_r, take_ge in * by (unfold SOCKET_POOL_TARGET in *; lia).
    split; [done|]. split; [done|]. split; [lia|]. done.
  - destruct fds as [|fd fds]; [done|]. apply Forall_cons in HF as [Hfd HF].
    cbn [init_loop negb]. unfold pool_connect. cbn [pl_connects set_conn]. rewrite Hc.
    cbn [fmap list_fmap default].
    unfold default, id. cbn [from_option].
    replace (fd =? SOCKET_ERR) with false by lia.
    cbn [pl_conns pl_count pl_next_index pl_connects pl_closed set_conn c_server_ip c_server_port c_scratch].
    rewrite list_insert_insert_eq.
    set (c := mk_conn fd (ztake 63 ip) port 0 now now 0 0 (Some SEND_SCRATCH_SIZE)).
    assert (Hlt : (Z.to_nat i < length (pl_conns p))%nat) by (unfold len, SOCKET_POOL_TARGET in *; lia).
    assert (Htake : take (Z.to_nat (i + 1)) (<[Z.to_nat i := c]> (pl_conns p)) =
                    take (Z.to_nat i) (pl_conns p) ++ [c]).
    { replace (Z.to_nat (i + 1)) with (S (Z.to_nat i)) by lia. by apply take_S_insert. }
    match goal with |- ∃ p', init_loop _ _ n (i + 1) _ _ ?q = _ ∧ _ =>
      destruct (IH (i + 1) q fds) as (p' & E & H1 & H2 & H3 & H4 & H5);
        [| | | | | | | |exists p'; split; [exact E|]] end.
    + unfold len in *. cbn. by rewrite length_insert.
    + lia.
    + lia.
    + by injection Hf.
    + done.
    + done.
    + cbn. lia.
    + cbn [pl_conns]. rewrite Htake. apply Forall_app. split; [done|]. by repeat constructor.
    + split; [done|]. split; [done|]. split; [done|]. split; [|done].
      rewrite H4. cbn [pl_conns]. rewrite Htake, fmap_app, <- app_assoc. done.
Qed.

(** ** Reading responses *)

(** A stream that delivers [bs] without a would-block in between, in any
    pieces, before the events [rest]. *)
Inductive delivers : list recv_ev → list Z → list recv_ev → Prop :=
  | del_done rest : delivers rest [] rest
  | del_piece ps bs evs rest :
      ps ≠ [] → delivers evs bs rest → delivers (RecvData ps :: evs) (ps ++ bs) rest.

Lemma delivers_app evs bs rest more :
  more ≠ [] → delivers evs bs rest → delivers (RecvData more :: evs) (more ++ bs) rest.
Proof. intros. by constructor. Qed.

Lemma recv_ack_loop_S fuel evs buf :
  recv_ack_loop (S fuel) evs buf =
  (if len buf <? SERVER_RESPONSE_SIZE then
     match sys_recv (SERVER_RESPONSE_SIZE - len buf) evs with
     | (RcvAgain, evs) => (AckNone, evs)
     | (RcvErr, evs) => (AckError, evs)
     | (RcvBytes [], evs) => (AckError, evs)
     | (RcvBytes bs, evs) => recv_ack_loop fuel evs (buf ++ bs)
     end
   else (AckGot (response_of_bytes buf), evs)).
Proof. done. Qed.

(** Enough turns to fill the buffer. *)
Lemma recv_ack_loop_delivers fuel : ∀ evs buf bs rest,
  delivers evs bs rest → len buf ≤ SERVER_RESPONSE_SIZE → SERVER_RESPONSE_SIZE ≤ len buf + len bs →
  SERVER_RESPONSE_SIZE - len buf < Z.of_nat fuel →
  ∃ evs', recv_ack_loop fuel evs buf =
            (AckGot (response_of_bytes (buf ++ ztake (SERVER_RESPONSE_SIZE - len buf) bs)), evs') ∧
          delivers evs' (zdrop (SERVER_RESPONSE_SIZE - len buf) bs) rest.
Proof.
  unfold SERVER_RESPONSE_SIZE.
  induction fuel as [|fuel IH]; intros evs buf bs rest Hd Hb Hl Hf; [lia|].
  rewrite recv_ack_loop_S. unfold SERVER_RESPONSE_SIZE.
  destruct (Z.ltb_spec (len buf) 20) as [Hlt|Hge].
  2: { replace (20 - len buf) with 0 by lia. exists evs. rewrite zdrop_0.
       change (ztake 0 bs) with (@nil Z). by rewrite app_nil_r. }
  destruct Hd as [rest|ps bs evs rest Hps Hd]; [change (len (@nil Z)) with 0 in Hl; lia|].
  assert (Hpl : 0 < len ps) by (destruct ps; [done|rewrite len_cons; pose proof (len_nonneg ps); lia]).
  cbn [sys_recv]. rewrite len_app in Hl.
  destruct (Z.ltb_spec (20 - len buf) (len ps)) as [Hcut|Hfit].
  - assert (Ht : len (ztake (20 - len buf) ps) = 20 - len buf) by (rewrite len_ztake; lia).
    destruct (ztake (20 - len buf) ps) as [|x r] eqn:Et; [change (len (@nil Z)) with 0 in Ht; lia|].
    rewrite <- Et in *. destruct fuel as [|fuel]; [lia|]. rewrite recv_ack_loop_S. unfold SERVER_RESPONSE_SIZE.
    replace (len (buf ++ ztake (20 - len buf) ps) <? 20) with false by (rewrite len_app; lia).
    eexists. split.
    + rewrite ztake_app_le by lia. done.
    + rewrite zdrop_app_le by lia. constructor; [|done].
      intros Hn. apply (f_equal len) in Hn. rewrite len_zdrop in Hn. change (len (@nil Z)) with 0 in Hn. lia.
  - destruct ps as [|x ps]; [done|].
    destruct (IH evs (buf ++ x :: ps) bs rest Hd) as (evs' & He & Hd').
    { rewrite len_app. lia. } { rewrite len_app. lia. } { rewrite len_app. lia. }
    exists evs'. rewrite He. rewrite len_app in *. split.
    + f_equal. f_equal. f_equal. rewrite <- app_assoc. f_equal.
      unfold ztake. rewrite take_app. f_equal.
      * symmetry. apply take_ge. unfold len in *. lia.
      * f_equal. unfold len in *. lia.
    + replace (zdrop (20 - len buf) ((x :: ps) ++ bs)) with (zdrop (20 - (len buf + len (x :: ps))) bs); [done|].
      unfold zdrop. rewrite drop_app, (drop_ge (x :: ps)) by (unfold len in *; lia). cbn [app].
      f_equal. unfold len in *. lia.
Qed.

(** Successive calls on one connection. *)
Fixpoint recv_acks (n : nat) (fd : sock) : list ack_res * sock :=
  match n with
  | O => ([], fd)
  | S n' => let '(r, fd) := pool_recv_ack fd in let '(rs, fd) := recv_acks n' fd in (r :: rs, fd)
  end.

(** ** Properties *)

(** C27 (pool_acquire_correct): [pool_acquire] on a well-formed pool.  A slot it
    returns was open and unused (the first such one in round-robin order from
    the saved index), or was closed and has just been connected; it is in use
    and open afterwards, every other slot is untouched, the next search starts
    after it, and the pool stays well formed.  It returns NULL only when every
    open connection is in use, and then changes no slot. *)
Theorem pool_acquire_correct now p r p' :
  pool_ok p → Forall (λ c, c ≠ Some SOCKET_ERR) (pl_connects p) →
  pool_acquire now p = (r, p') →
  pool_ok p' ∧
  match r with
  | Some i =>
      0 ≤ i < SOCKET_POOL_TARGET ∧ c_in_use (conn_at p' i) = 1 ∧ c_fd (conn_at p' i) ≠ SOCKET_ERR ∧
      pl_next_index p' = (i + 1) mod SOCKET_POOL_TARGET ∧
      (∀ j, 0 ≤ j → j ≠ i → conn_at p' j = conn_at p j) ∧
      (conn_free (conn_at p i) = true ∧ pl_connects p' = pl_connects p ∧
       (∃ k, 0 ≤ k ∧ i = (pl_next_index p + k) mod SOCKET_POOL_TARGET ∧
             ∀ k', 0 ≤ k' < k →
               conn_free (conn_at p ((pl_next_index p + k') mod SOCKET_POOL_TARGET)) = false)
       ∨ c_fd (conn_at p i) = SOCKET_ERR ∧ pl_connects p = Some (c_fd (conn_at p' i)) :: pl_connects p')
  | None => pl_conns p' = pl_conns p ∧
            ∀ i, 0 ≤ i < SOCKET_POOL_TARGET → conn_free (conn_at p i) = false
  end.
Proof.
  intros Hp Hco E. unfold pool_acquire in E. pose proof Hp as [Hlen Hcount Hnext].
  pose proof (scan_free_spec p (pl_next_index p) POOL_SLOTS 0 ltac:(lia)) as Hscan.
  pose proof (scan_free_none p (pl_next_index p) Hnext) as Hnone.
  destruct (scan_free POOL_SLOTS 0 (pl_next_index p) p) as [i|] eqn:Es.
  - destruct Hscan as (Hi & Hf & k & Hk & Hik & Hbefore). injection E as <- <-.
    assert (Hat : ∀ j, 0 ≤ j → conn_at (set_conn p i (with_in_use (conn_at p i) 1)) j =
                               if i =? j then with_in_use (conn_at p i) 1 else conn_at p j)
      by (intros j Hj; apply conn_at_set; lia).
    unfold conn_free in Hf. bool_to_prop.
    split.
    { apply (set_conn_ok p i); [done|done|apply Z.mod_pos_bound; done|]. cbn. lia. }
    change (conn_at (mk_pool _ _ _ _ _)) with (conn_at (set_conn p i (with_in_use (conn_at p i) 1))).
    rewrite Hat, Z.eqb_refl by lia. split; [done|]. split; [done|]. split; [done|]. split; [done|].
    split; [intros j Hj Hne; rewrite Hat by done; by replace (i =? j) with false by lia|].
    left. split; [unfold conn_free; lia|]. split; [done|]. exists k. split; [lia|]. split; [done|].
    intros k' Hk'. apply Hbefore. lia.
  - specialize (Hnone eq_refl).
    destruct (Z.ltb_spec (pl_count p) SOCKET_POOL_TARGET); [|by injection E as <- <-].
    destruct (scan_closed POOL_SLOTS 0 p) as [i|] eqn:Ec; [|by injection E as <- <-].
    apply scan_closed_spec in Ec as (Hi & Hfd & Hsc); [|lia]. change (0 + Z.of_nat POOL_SLOTS) with 7 in Hi.
    destruct (pool_connect_keeps p) as (Hk1 & Hk2 & Hk3 & Hk4).
    unfold pool_connect in *. destruct (pl_connects p) as [|[fd|] rest] eqn:Econ; cbn in E.
    + by injection E as <- <-.
    + apply Forall_cons in Hco as [Hfd0 _].
      destruct (Z.eqb_spec fd SOCKET_ERR) as [->|Hfd1]; [done|].
      set (p1 := mk_pool (pl_conns p) (pl_count p) (pl_next_index p) rest (pl_closed p)) in *.
      set (c := mk_conn fd _ _ _ _ _ _ _ _) in *. injection E as <- <-.
      assert (Hat : ∀ j, 0 ≤ j → conn_at (set_conn p1 i c) j = if i =? j then c else conn_at p j)
        by (intros j Hj; apply (conn_at_set p1); [|lia];
            change (pl_conns p1) with (pl_conns p); rewrite Hlen; unfold SOCKET_POOL_TARGET; lia).
      split.
      { apply (set_conn_ok p i c); [done|unfold SOCKET_POOL_TARGET; lia|apply Z.mod_pos_bound; done|].
        rewrite Hfd. cbn. unfold SOCKET_ERR in *. replace (fd =? -1) with false by lia. lia. }
      change (conn_at (mk_pool _ _ _ _ _)) with (conn_at (set_conn p1 i c)).
      rewrite Hat, Z.eqb_refl by lia. split; [unfold SOCKET_POOL_TARGET; lia|]. split; [done|]. split; [done|].
      split; [done|].
      split; [intros j Hj Hne; rewrite Hat by done; by replace (i =? j) with false by lia|].
      right. done.
    + injection E as <- <-. split; [by destruct Hp|done].
Qed.

(** A pool with one idle and one busy connection, for the witnesses. *)
Definition demo_conn (fd use last : Z) : pool_conn := mk_conn fd [] 1 use last 0 0 0 (Some SEND_SCRATCH_SIZE).

Definition demo_pool : socket_pool :=
  mk_pool (demo_conn 5 0 100 :: demo_conn 6 1 100 :: replicate 5 (demo_conn SOCKET_ERR 0 0)) 2 1 [Some 9] [].

Lemma demo_pool_ok : pool_ok demo_pool.
Proof. constructor; done. Qed.

Lemma pool_acquire_correct_witness :
  ∃ p', pool_acquire 50 demo_pool = (Some 0, p') ∧ pool_ok p'.
Proof.
  destruct (pool_acquire 50 demo_pool) as [r p'] eqn:E. exists p'.
  assert (Hf : Forall (λ c, c ≠ Some SOCKET_ERR) (pl_connects demo_pool))
    by (repeat constructor; discriminate).
  destruct (pool_acquire_correct 50 demo_pool r p' demo_pool_ok Hf E) as [H _].
  split; [|exact H]. apply (f_equal fst) in E. vm_compute in E. rewrite <- E. reflexivity.
Defined.

(** A slot that keeps its socket. *)
Lemma set_slot_ok p i c : pool_ok p → c_fd c = c_fd (conn_at p i) → pool_ok (set_conn p i c).
Proof.
  intros [Hl Hc Hn] E. unfold set_conn, conn_at in *.
  destruct (decide (Z.to_nat i < length (pl_conns p))%nat) as [Hi|Hi].
  - pose proof (set_conn_ok p (Z.of_nat (Z.to_nat i)) c (pl_count p) (pl_next_index p) (pl_connects p) (pl_closed p)) as Hp.
    unfold set_conn, conn_at in Hp. rewrite !Nat2Z.id in Hp.
    apply Hp; [by constructor|unfold len in Hl; lia|done|rewrite E; lia].
  - rewrite list_insert_ge by lia. by constructor.
Qed.

Lemma release_ok p i : pool_ok p → pool_ok (pool_release p i).
Proof. intros Hp. by apply set_slot_ok. Qed.

Lemma touch_ok now p i : pool_ok p → pool_ok (pool_touch now p i).
Proof. intros Hp. by apply set_slot_ok. Qed.

(** Whatever connecting answers, the pool stays well formed, and the connection
    handed out is open. *)
Lemma acquire_ok now p :
  pool_ok p →
  pool_ok (pool_acquire now p).2 ∧
  ∀ i, (pool_acquire now p).1 = Some i →
       0 ≤ i < SOCKET_POOL_TARGET ∧ c_fd (conn_at (pool_acquire now p).2 i) ≠ SOCKET_ERR.
Proof.
  intros Hp. pose proof Hp as [Hlen Hcount Hnext]. unfold pool_acquire.
  pose proof (scan_free_spec p (pl_next_index p) POOL_SLOTS 0 ltac:(lia)) as Hscan.
  destruct (scan_free POOL_SLOTS 0 (pl_next_index p) p) as [i|].
  - destruct Hscan as (Hi & Hf & _). unfold conn_free in Hf. bool_to_prop. cbn [fst snd]. split.
    + apply (set_conn_ok p i); [done|done|apply Z.mod_pos_bound; done|]. cbn. lia.
    + intros ? [= <-]. split; [done|].
      change (conn_at (mk_pool _ _ _ _ _) i) with (conn_at (set_conn p i (with_in_use (conn_at p i) 1)) i).
      rewrite conn_at_set, Z.eqb_refl by lia. cbn. lia.
  - case_test; [|split; [exact Hp|done]].
    destruct (scan_closed POOL_SLOTS 0 p) as [i|] eqn:Ec; [|split; [exact Hp|done]].
    apply scan_closed_spec in Ec as (Hi & Hfd & _); [|lia]. change (0 + Z.of_nat POOL_SLOTS) with 7 in Hi.
    assert (Hi' : 0 ≤ i < SOCKET_POOL_TARGET) by (unfold SOCKET_POOL_TARGET; lia).
    destruct (pool_connect p) as [fd p1] eqn:Ep.
    assert (Hsame : pl_conns p1 = pl_conns p ∧ pl_count p1 = pl_count p ∧ pl_next_index p1 = pl_next_index p).
    { unfold pool_connect in Ep. by destruct (pl_connects p) as [|r rest]; injection Ep as <- <-. }
    destruct Hsame as (E1 & E2 & E3).
    assert (Hp1 : pool_ok p1) by (constructor; [by rewrite E1|by rewrite E1, E2|by rewrite E3]).
    destruct (Z.eqb_spec fd SOCKET_ERR) as [|Hne]; [split; [exact Hp1|done]|]. cbn [fst snd].
    assert (Hat : conn_at p1 i = conn_at p i) by (unfold conn_at; by rewrite E1). set (c := mk_conn fd _ _ _ _ _ _ _ _). split.
    + apply (set_conn_ok p1 i c); [done|done|by apply Z.mod_pos_bound|]. rewrite Hat, Hfd. cbn [c_fd c set_conn pl_count].
      rewrite Z.eqb_refl. apply Z.eqb_neq in Hne. rewrite Hne. lia.
    + intros ? [= <-]. split; [done|]. change (conn_at (mk_pool _ _ _ _ _) i) with (conn_at (set_conn p1 i c) i).
      rewrite conn_at_set, Z.eqb_refl by (destruct Hp1; lia). exact Hne.
Qed.

Lemma reap_stale_ok now p : pool_ok p → pool_ok (pool_reap_stale now p).2.
Proof.
  intros [Hl Hc Hn]. unfold pool_reap_stale. constructor; cbn [snd pl_conns pl_count pl_next_index]; [|..|done].
  - unfold len in *. by rewrite length_fmap.
  - rewrite Hc. clear. induction (pl_conns p) as [|c cs IH]; [done|].
    unfold open_conns in *. rewrite fmap_cons, !filter_cons.
    unfold conn_stale, conn_free in *.
    destruct (Z.eqb_spec (c_fd c) SOCKET_ERR); cbn [negb andb].
    + rewrite !decide_False by (done || tauto). exact IH.
    + destruct ((c_in_use c =? 0) && (STALE_SOCKET_TIMEOUT_SEC <? now - c_last_active c)); cbn [c_fd with_fd].
      * rewrite (decide_False (P := SOCKET_ERR ≠ SOCKET_ERR)) by tauto.
        rewrite !decide_True by done. rewrite !len_cons. lia.
      * rewrite (decide_False (P := false = true)) by done. rewrite !decide_True by done. rewrite !len_cons. lia.
Qed.

(** [pool_reap_correct]: [pool_reap_stale] closes exactly the open, unused
    connections idle for more than 720 seconds: it returns their number,
    closes their sockets once each, leaves every other slot as it was, and the
    count of the pool stays the number of open connections. *)
Theorem pool_reap_correct now p n p' :
  pool_ok p → pool_reap_stale now p = (n, p') →
  pool_ok p' ∧ n = pl_count p - pl_count p' ∧
  pl_closed p' = pl_closed p ++ (c_fd <$> filter (λ c, conn_stale now c = true) (pl_conns p)) ∧
  ∀ i, 0 ≤ i < SOCKET_POOL_TARGET →
    conn_at p' i = if conn_stale now (conn_at p i) then with_fd (conn_at p i) SOCKET_ERR else conn_at p i.
Proof.
  intros Hok E. pose proof (reap_stale_ok now p Hok) as Hok'. destruct Hok as [Hl Hc Hn].
  unfold pool_reap_stale in *. injection E as <- <-. cbn [pl_count pl_closed].
  split; [done|split; [lia|split; [done|]]].
  intros i Hi. unfold conn_at at 1. cbn [pl_conns]. rewrite nth_lookup, list_lookup_fmap.
  rewrite (conn_at_lookup p i) by lia. done.
Qed.

Lemma pool_reap_correct_witness :
  ∃ p', pool_reap_stale 900 demo_pool = (1, p') ∧ pool_ok p' ∧ pl_closed p' = [5].
Proof.
  destruct (pool_reap_stale 900 demo_pool) as [n p'] eqn:E. exists p'.
  destruct (pool_reap_correct 900 demo_pool n p' demo_pool_ok E) as (H1 & H2 & H3 & _).
  split; [|split; [exact H1|rewrite H3; vm_compute; reflexivity]].
  apply (f_equal fst) in E. vm_compute in E. rewrite <- E. reflexivity.
Defined.

(** [recv_acks_in_order]: on a connection that delivers the server's
    responses, cut into any pieces, without a would-block inside them,
    successive [pool_recv_ack] calls return exactly those responses in
    order. *)
Theorem recv_acks_in_order rs fd rest :
  Forall response_ok rs → delivers (sk_in fd) (concat (response_bytes <$> rs)) rest →
  (recv_acks (length rs) fd).1 = AckGot <$> rs.
Proof.
  revert fd. induction rs as [|r rs IH]; intros fd HF Hd; [done|].
  apply Forall_cons in HF as [Hr HF]. cbn [length recv_acks].
  unfold pool_recv_ack. cbn [fmap list_fmap concat] in Hd.
  destruct (recv_ack_loop_delivers 21 (sk_in fd) [] _ rest Hd) as (evs' & -> & Hd').
  { done. }
  { rewrite len_app, len_response_bytes. change (len (@nil Z)) with 0. pose proof (len_nonneg (concat (response_bytes <$> rs))). lia. }
  { done. }
  change (len (@nil Z)) with 0 in *. rewrite Z.sub_0_r in *. rewrite (ztake_app_exact SERVER_RESPONSE_SIZE) by (by rewrite len_response_bytes).
  rewrite (zdrop_app_exact SERVER_RESPONSE_SIZE) in Hd' by (by rewrite len_response_bytes).
  cbn [app]. rewrite response_codec by done.
  specialize (IH (mk_sock (sk_out fd) (sk_send fd) evs') HF Hd').
  destruct (recv_acks (length rs) _) as [xs fd']. cbn in *. by rewrite IH.
Qed.

Lemma recv_acks_in_order_witness :
  let r1 := mk_response 0 1 4096 8192 in
  let r2 := mk_response 2 0 0 0 in
  let bs := response_bytes r1 ++ response_bytes r2 in
  (recv_acks 2 (mk_sock [] [] [RecvData (ztake 33 bs); RecvData (zdrop 33 bs)])).1 = [AckGot r1; AckGot r2].
Proof.
  intros r1 r2 bs. apply (recv_acks_in_order [r1; r2] _ []).
  - repeat constructor; vm_compute; congruence.
  - cbn [sk_in]. change (concat (response_bytes <$> [r1; r2])) with (ztake 33 bs ++ zdrop 33 bs ++ []).
    constructor; [vm_compute; discriminate|]. constructor; [vm_compute; discriminate|]. constructor.
Defined.

(** [recv_ack_loses_partial]: a would-block in the middle of a response makes
    the receiver lose step.  The bytes read before it are dropped, and the
    next call starts in the middle of the response: after 12 of the 20 bytes of
    an ACK, the rest of it and a second ACK are read as one response that was
    never sent. *)
Theorem recv_ack_loses_partial :
  let r1 := mk_response RESPONSE_ACK 1 4096 8192 in
  let r2 := mk_response RESPONSE_ACK 1 4096 12288 in
  let bs := response_bytes r1 ++ response_bytes r2 in
  (recv_acks 2 (mk_sock [] [] [RecvData (ztake 12 bs); RecvAgain; RecvData (zdrop 12 bs)])).1 =
  [AckNone; AckGot (mk_response 8192 0 0 (1 + 4096 * 2 ^ 32))].
Proof. vm_compute. done. Qed.

(** [pool_init_correct]: when every connection succeeds, [pool_init] leaves
    seven open, unused connections with send buffers, and a well-formed pool.
    When a later one fails, it still returns 0, but the slots after the
    failing one are left zeroed: descriptor 0, which is not SOCKET_ERR, and no
    send buffer; the count is then not the number of slots that pass for open,
    and the next [pool_acquire]s hand out descriptor 0. *)
Theorem pool_init_correct now ip port fds :
  len fds = SOCKET_POOL_TARGET → Forall (λ fd, fd ≠ SOCKET_ERR) fds →
  (let '(rc, p) := pool_init (λ _, true) now true ip port (Some <$> fds) in
   rc = 0 ∧ pool_ok p ∧ pl_count p = SOCKET_POOL_TARGET ∧ c_fd <$> pl_conns p = fds ∧
   Forall (λ c, c_in_use c = 0 ∧ c_scratch c = Some SEND_SCRATCH_SIZE) (pl_conns p)) ∧
  (let '(rc, p) := pool_init (λ _, true) now true ip port [Some 11; Some 12; None] in
   rc = 0 ∧ pl_count p = 2 ∧ c_fd <$> pl_conns p = [11; 12; -1; 0; 0; 0; 0] ∧
   c_scratch (conn_at p 3) = None ∧
   let p1 := (pool_acquire now p).2 in let p2 := (pool_acquire now p1).2 in
   (pool_acquire now p2).1 = Some 3).
Proof.
  intros Hl HF. split; [|vm_compute; by repeat split].
  unfold pool_init. cbn [negb].
  set (p0 := mk_pool (replicate POOL_SLOTS zero_conn) 0 0 (Some <$> fds) []).
  destruct (init_loop_all now ip port POOL_SLOTS 0 p0 fds) as (p & -> & Hlen & Hcount & Hnext & Hfds & Hg);
    [done|lia|done|unfold POOL_SLOTS, len, SOCKET_POOL_TARGET in *; lia|done|done|done|constructor|].
  change (c_fd <$> pl_conns p = fds) in Hfds.
  split; [done|]. split; [|done].
  constructor; [done| |by rewrite Hnext]. rewrite Hcount, <- Hlen. unfold open_conns. f_equal.
  symmetry. apply filter_all. apply Forall_forall. intros c Hc. rewrite Forall_forall in HF. apply HF.
  rewrite <- Hfds. apply list_elem_of_fmap. by exists c.
Qed.

Lemma pool_init_correct_witness :
  (pool_init (λ _, true) 7 true [] 80 (Some <$> [3; 4; 5; 6; 7; 8; 9])).1 = 0.
Proof.
  destruct (pool_init_correct 7 [] 80 [3; 4; 5; 6; 7; 8; 9]) as [H _].
  - reflexivity.
  - repeat constructor; discriminate.
  - destruct (pool_init (λ _, true) 7 true [] 80 (Some <$> [3; 4; 5; 6; 7; 8; 9])) as [rc p].
    exact (proj1 H).
Defined.
