(* ===== verification/Tracker.v ===== *)
(** * The block tracker (client/sqlite.c)

    [T_BLOCK] has a unique index on (devno, offset): it is a finite map from
    such pairs to rows.  [T_VERSION] is the list of its rows in insertion
    order.  Each operation is the meaning of its SQL statement; the library's
    own failures are the script [db_events], one entry per operation (an
    exhausted script means no failure).  A hash is stored as the signed 64-bit
    integer with the same bits.  Where ORDER BY leaves rows tied their order
    is that of the map's enumeration. *)

From stdpp Require Import sorting.
From S2P Require Import Prelude.

Record block_row := mk_row {
  r_size : Z;
  r_hash : Z;
  r_ack : Z;
  r_last_sent : Z;
  r_version : Z;
  r_remote_id : list Z;
}.

Record version_row := mk_vrow {
  v_version : Z;
  v_remote_id : list Z;
  v_start_time : Z;
  v_end_time : Z;
  v_scanned_count : Z;
  v_changed_count : Z;
}.

(** [DbStepFail rows]: a step fails, in a query of several rows after [rows] of
    them have been read. *)
Inductive db_ev := DbOk | DbPrepareFail | DbStepFail (rows : nat).

Record sqlite_db := mk_db {
  t_block : gmap (Z * Z) block_row;
  t_version : list version_row;
  db_remote_id : list Z;
  db_events : list db_ev;
}.

(** [block_info_t] *)
Definition block_info : Type := Z * Z * block_row.

Definition with_blocks (db : sqlite_db) (t : gmap (Z * Z) block_row) : sqlite_db :=
  mk_db t (t_version db) (db_remote_id db) (db_events db).

Definition with_versions (db : sqlite_db) (t : list version_row) : sqlite_db :=
  mk_db (t_block db) t (db_remote_id db) (db_events db).

(** The library's answer to the next operation. *)
Definition db_next (db : sqlite_db) : db_ev * sqlite_db :=
  match db_events db with
  | [] => (DbOk, db)
  | e :: r => (e, mk_db (t_block db) (t_version db) (db_remote_id db) r)
  end.

(** A query or an update under [db_next]: the value for a failing prepare, the
    one for a failing step, and what happens otherwise. *)
Definition db_query {A} (db : sqlite_db) (prep : A) (step : nat → sqlite_db → A) (f : sqlite_db → A)
    : A * sqlite_db :=
  match db_next db with
  | (DbPrepareFail, db) => (prep, db)
  | (DbStepFail rows, db) => (step rows db, db)
  | (DbOk, db) => (f db, db)
  end.

(** A query of several rows: [while (sqlite3_step(stmt) == SQLITE_ROW)].  A step
    that fails ends the loop like the last row. *)
Definition counted {A} (rows : list A) : Z * list A := (len rows, rows).

Definition db_rows {A} (db : sqlite_db) (rows : sqlite_db → list A) : Z * list A * sqlite_db :=
  db_query db (-1, []) (λ n db, counted (take n (rows db))) (λ db, counted (rows db)).

Definition db_update (db : sqlite_db) (f : sqlite_db → sqlite_db) : Z * sqlite_db :=
  match db_next db with
  | (DbPrepareFail, db) | (DbStepFail _, db) => (-1, db)
  | (DbOk, db) => (0, f db)
  end.

(** [remote_id ? remote_id : db->remote_id] *)
Definition rid_or (db : sqlite_db) (remote_id : option (list Z)) : list Z :=
  default (db_remote_id db) remote_id.

(** ** Opening *)

(** The tables as they are in the file; the flags: [sqlite3_open], CREATE
    T_BLOCK, CREATE T_VERSION and [malloc] succeed. *)
Definition sqlite_open (open_ok create_ok create_v_ok malloc_ok : bool)
    (blocks : gmap (Z * Z) block_row) (versions : list version_row) : option sqlite_db :=
  if negb open_ok then None
  else if negb create_ok then None
  else if negb create_v_ok then None
  else if negb malloc_ok then None
  else Some (mk_db blocks versions [] []).

Definition sqlite_set_remote_id (db : sqlite_db) (remote_id : list Z) : sqlite_db :=
  mk_db (t_block db) (t_version db) (ztake 255 remote_id) (db_events db).

(** ** Blocks *)

Definition sum_sizes (t : gmap (Z * Z) block_row) : Z :=
  foldr (λ kr acc, r_size kr.2 + acc) 0 (map_to_list t).

Definition sqlite_total_acked_bytes (db : sqlite_db) : Z * sqlite_db :=
  db_query db (-1) (λ _ _, 0) (λ db, sum_sizes (filter (λ kr, r_ack kr.2 = 1) (t_block db))).

Definition sqlite_clear_all_blocks (db : sqlite_db) : Z * sqlite_db :=
  db_update db (λ db, with_blocks db ∅).

(** The code and [*out_hash]. *)
Definition sqlite_block_lookup (db : sqlite_db) (devno offset : Z) : Z * option Z * sqlite_db :=
  db_query db (-2, None) (λ _ _, (-2, None)) (λ db,
    match t_block db !! (devno, offset) with
    | Some r => (0, Some (u64 (r_hash r)))
    | None => (-1, None)
    end).

Definition sqlite_block_acked (db : sqlite_db) (devno offset : Z) : Z * sqlite_db :=
  db_query db (-1) (λ _ _, -1) (λ db,
    match t_block db !! (devno, offset) with
    | Some r => if r_ack r =? 0 then 0 else 1
    | None => -1
    end).

Definition sqlite_block_upsert_v (db : sqlite_db) (devno offset size hash ack version : Z)
    : Z * sqlite_db :=
  db_update db (λ db, with_blocks db
    (<[(devno, offset) := mk_row size (s64 hash) ack 0 version (db_remote_id db)]> (t_block db))).

Definition sqlite_block_upsert (db : sqlite_db) (devno offset size hash ack : Z) : Z * sqlite_db :=
  sqlite_block_upsert_v db devno offset size hash ack 0.

Definition acked_row (r : block_row) : block_row :=
  mk_row (r_size r) (r_hash r) 1 (r_last_sent r) (r_version r) (r_remote_id r).

Definition sqlite_block_mark_acked (db : sqlite_db) (devno offset : Z) : Z * sqlite_db :=
  db_update db (λ db, with_blocks db (alter acked_row (devno, offset) (t_block db))).

Definition sqlite_update_last_sent (db : sqlite_db) (devno offset timestamp_ms : Z) : Z * sqlite_db :=
  db_update db (λ db, with_blocks db
    (alter (λ r, mk_row (r_size r) (r_hash r) (r_ack r) timestamp_ms (r_version r) (r_remote_id r))
       (devno, offset) (t_block db))).

Definition sqlite_block_mark_verified (db : sqlite_db) (devno offset version : Z) : Z * sqlite_db :=
  db_update db (λ db, with_blocks db
    (alter (λ r, mk_row (r_size r) (r_hash r) 1 (r_last_sent r) version (r_remote_id r))
       (devno, offset) (t_block db))).

(** WHERE ack=0 AND remote_id=? *)
Definition unacked (rid : list Z) (kr : Z * Z * block_row) : Prop :=
  r_ack kr.2 = 0 ∧ r_remote_id kr.2 = rid.

#[export] Instance unacked_dec rid kr : Decision (unacked rid kr).
Proof. unfold unacked. apply _. Defined.

(** ORDER BY last_sent, offset *)
Definition sent_before (a b : Z * Z * block_row) : Prop :=
  r_last_sent a.2 < r_last_sent b.2 ∨
  (r_last_sent a.2 = r_last_sent b.2 ∧ a.1.2 ≤ b.1.2).

#[export] Instance sent_before_dec : RelDecision sent_before.
Proof. intros a b. unfold sent_before. apply _. Defined.

Definition unacked_rows (db : sqlite_db) (rid : list Z) : list (Z * Z * block_row) :=
  merge_sort sent_before (map_to_list (filter (unacked rid) (t_block db))).

(** The number of rows and the (devno, offset) pairs. *)
Definition sqlite_get_unacked (db : sqlite_db) (max_entries : Z) (remote_id : option (list Z))
    : Z * list (Z * Z) * sqlite_db :=
  db_rows db (λ db, fst <$> ztake max_entries (unacked_rows db (rid_or db remote_id))).

(** The same with the hash and [last_sent]. *)
Definition sqlite_get_unacked_with_hash (db : sqlite_db) (max_entries : Z) (remote_id : option (list Z))
    : Z * list (Z * Z * Z * Z) * sqlite_db :=
  db_rows db (λ db, (λ kr, (kr.1.1, kr.1.2, u64 (r_hash kr.2), r_last_sent kr.2)) <$>
                      ztake max_entries (unacked_rows db (rid_or db remote_id))).

Definition sqlite_get_block_info (db : sqlite_db) (devno offset : Z)
    : Z * option block_info * sqlite_db :=
  db_query db (-2, None) (λ _ _, (-2, None)) (λ db,
    match t_block db !! (devno, offset) with
    | Some r => (0, Some (devno, offset, r))
    | None => (-1, None)
    end).

(** ORDER BY devno, offset; with a device given only its rows. *)
Definition key_before (a b : Z * Z * block_row) : Prop :=
  a.1.1 < b.1.1 ∨ (a.1.1 = b.1.1 ∧ a.1.2 ≤ b.1.2).

#[export] Instance key_before_dec : RelDecision key_before.
Proof. intros a b. unfold key_before. apply _. Defined.

Definition sqlite_list_blocks (db : sqlite_db) (devno max_count : Z)
    : Z * list block_info * sqlite_db :=
  db_rows db (λ db, ztake max_count
    (merge_sort key_before
       (map_to_list (filter (λ kr, devno < 0 ∨ kr.1.1 = devno) (t_block db))))).

Definition sqlite_count_blocks (db : sqlite_db) (devno ack : Z) : Z * sqlite_db :=
  db_query db (-1) (λ _ _, 0) (λ db,
    s32 (Z.of_nat (size (filter (λ kr, (devno < 0 ∨ kr.1.1 = devno) ∧ (ack < 0 ∨ r_ack kr.2 = ack))
                           (t_block db))))).

(** UPDATE T_BLOCK SET ack=0 WHERE ack=1 AND remote_id=?; the result is
    [sqlite3_changes]. *)
Definition sqlite_reset_acked (db : sqlite_db) (remote_id : option (list Z)) : Z * sqlite_db :=
  let rid := rid_or db remote_id in
  let hit r := bool_decide (r_ack r = 1 ∧ r_remote_id r = rid) in
  match db_next db with
  | (DbPrepareFail, db) | (DbStepFail _, db) => (-1, db)
  | (DbOk, db) =>
      (s32 (Z.of_nat (size (filter (λ kr, hit kr.2 = true) (t_block db)))),
       with_blocks db ((λ r, if hit r then mk_row (r_size r) (r_hash r) 0 (r_last_sent r)
                                            (r_version r) (r_remote_id r) else r) <$> t_block db))
  end.

Definition sqlite_count_unacked (db : sqlite_db) (remote_id : option (list Z)) : Z * sqlite_db :=
  db_query db (-1) (λ _ _, 0) (λ db, s32 (Z.of_nat (size (filter (unacked (rid_or db remote_id)) (t_block db))))).

Definition sqlite_count_unacked_v (db : sqlite_db) (remote_id : option (list Z)) (before_version : Z)
    : Z * sqlite_db :=
  db_query db (-1) (λ _ _, 0) (λ db,
    s32 (Z.of_nat (size (filter (λ kr, unacked (rid_or db remote_id) kr ∧ r_version kr.2 < before_version)
                           (t_block db))))).

(** ** Versions *)

Definition versions_of (db : sqlite_db) (rid : list Z) : list version_row :=
  filter (λ v, v_remote_id v = rid) (t_version db).

(** COALESCE(MAX(version), 0) + 1 *)
Definition max_version (vs : list version_row) : Z :=
  match vs with
  | [] => 0
  | v :: r => foldr (λ v acc, Z.max (v_version v) acc) (v_version v) r
  end.

Definition sqlite_get_next_version (db : sqlite_db) (remote_id : option (list Z)) : Z * sqlite_db :=
  db_query db (-1) (λ _ _, 1) (λ db, s32 (max_version (versions_of db (rid_or db remote_id)) + 1)).

Definition sqlite_version_start (db : sqlite_db) (version : Z) (remote_id : option (list Z))
    (start_time_ms : Z) : Z * sqlite_db :=
  db_update db (λ db, with_versions db
    (t_version db ++ [mk_vrow version (rid_or db remote_id) start_time_ms 0 0 0])).

Definition sqlite_version_end (db : sqlite_db) (version : Z) (remote_id : option (list Z))
    (end_time_ms scanned_delta changed_delta : Z) : Z * sqlite_db :=
  db_update db (λ db, with_versions db
    ((λ v, if bool_decide (v_version v = version ∧ v_remote_id v = rid_or db remote_id)
           then mk_vrow (v_version v) (v_remote_id v) (v_start_time v) end_time_ms
                  (v_scanned_count v + scanned_delta) (v_changed_count v + changed_delta)
           else v) <$> t_version db)).

Definition version_before (a b : version_row) : Prop := v_version a ≤ v_version b.

#[export] Instance version_before_dec : RelDecision version_before.
Proof. intros a b. unfold version_before. apply _. Defined.

Definition sqlite_get_version_history (db : sqlite_db) (remote_id : option (list Z)) (max_count : Z)
    : Z * list version_row * sqlite_db :=
  let rid := rid_or db remote_id in
  db_rows db (λ db,
    let vs := if bool_decide (rid = []) then t_version db else versions_of db rid in
    ztake max_count (merge_sort version_before vs)).

Definition sqlite_get_version_info (db : sqlite_db) (version : Z) (remote_id : option (list Z))
    : Z * option version_row * sqlite_db :=
  db_query db (-2, None) (λ _ _, (-2, None)) (λ db,
    match filter (λ v, v_version v = version) (versions_of db (rid_or db remote_id)) with
    | v :: _ => (0, Some v)
    | [] => (-1, None)
    end).

Definition sqlite_count_blocks_by_version (db : sqlite_db) (version : Z) (remote_id : option (list Z))
    : Z * sqlite_db :=
  let rid := rid_or db remote_id in
  db_query db (-1) (λ _ _, 0) (λ db,
    s32 (Z.of_nat (size (filter (λ kr, r_version kr.2 = version ∧ (rid = [] ∨ r_remote_id kr.2 = rid))
                           (t_block db))))).

(** ** Lemmas *)

(** A hash survives its trip through the signed column. *)
Lemma u64_s64 h : 0 ≤ h < 2 ^ 64 → u64 (s64 h) = h.
Proof.
  intros Hh. unfold u64, s64, wrapU, wrapS.
  rewrite Zminus_mod_idemp_l. replace (h + 2 ^ (64 - 1) - 2 ^ (64 - 1)) with h by lia.
  by apply Z.mod_small.
Qed.

Lemma db_query_ok {A} db (p : A) s f : db_events db = [] → db_query db p s f = (f db, db).
Proof. intros E. unfold db_query, db_next. by rewrite E. Qed.

Lemma db_rows_ok {A} db (rows : sqlite_db → list A) : db_events db = [] → db_rows db rows = (len (rows db), rows db, db).
Proof. intros E. unfold db_rows. by rewrite db_query_ok. Qed.

Lemma db_update_ok db f : db_events db = [] → db_update db f = (0, f db).
Proof. intros E. unfold db_update, db_next. by rewrite E. Qed.

#[export] Instance sent_before_trans : Transitive sent_before.
Proof. intros [[d1 o1] r1] [[d2 o2] r2] [[d3 o3] r3]. unfold sent_before; cbn. lia. Qed.

#[export] Instance sent_before_total : Total sent_before.
Proof. intros [[d1 o1] r1] [[d2 o2] r2]. unfold sent_before; cbn. lia. Qed.

Lemma unacked_rows_perm db rid :
  unacked_rows db rid ≡ₚ map_to_list (filter (unacked rid) (t_block db)).
Proof. apply merge_sort_Permutation. Qed.

Lemma unacked_rows_sorted db rid : StronglySorted sent_before (unacked_rows db rid).
Proof. apply StronglySorted_merge_sort; apply _. Qed.

Lemma unacked_rows_elem db rid d o r :
  (d, o, r) ∈ unacked_rows db rid ↔
  t_block db !! (d, o) = Some r ∧ r_ack r = 0 ∧ r_remote_id r = rid.
Proof.
  rewrite unacked_rows_perm, elem_of_map_to_list, map_lookup_filter_Some. done.
Qed.

Lemma unacked_rows_keys db rid : NoDup (unacked_rows db rid).*1.
Proof. rewrite unacked_rows_perm. apply NoDup_fst_map_to_list. Qed.

Lemma len_unacked_rows db rid :
  len (unacked_rows db rid) = Z.of_nat (size (filter (unacked rid) (t_block db))).
Proof.
  unfold len. rewrite unacked_rows_perm. unfold size, map_size. by rewrite length_map_to_list.
Qed.

Lemma max_version_ge vs v : v ∈ vs → v_version v ≤ max_version vs.
Proof.
  destruct vs as [|v0 vs]; [intros H; by apply elem_of_nil in H|]. cbn. intros [->|Hin]%elem_of_cons.
  - induction vs as [|x vs IH]; cbn; lia.
  - induction vs as [|x vs IH]; [by apply elem_of_nil in Hin|].
    cbn. apply elem_of_cons in Hin as [->|Hin]; [lia|]. specialize (IH Hin). lia.
Qed.

Lemma max_version_range vs hi :
  0 < hi → Forall (λ v, 0 ≤ v_version v < hi) vs → 0 ≤ max_version vs < hi.
Proof.
  intros Hh HF. destruct HF as [|x l Hx HF]; cbn; [lia|].
  induction HF as [|y l Hy HF IH]; cbn; lia.
Qed.

Lemma max_version_snoc vs x :
  0 ≤ v_version x → (∀ y, y ∈ vs → v_version y < v_version x) → max_version (vs ++ [x]) = v_version x.
Proof.
  intros Hx Hlt. destruct vs as [|v vs]; [done|]. cbn.
  rewrite foldr_app. cbn.
  assert (Hv : v_version v < v_version x) by (apply Hlt; left).
  assert (Hvs : ∀ y, y ∈ vs → v_version y < v_version x) by (intros y Hy; apply Hlt; by right).
  rewrite Z.max_l by lia. clear Hlt. induction vs as [|y vs IH]; [done|]. cbn.
  rewrite IH by (intros z Hz; apply Hvs; by right).
  assert (v_version y < v_version x) by (apply Hvs; left). lia.
Qed.

(** ** Properties *)

(** [tracker_upsert_lookup]: the tracker is a map from (device, offset) to the
    block's hash and acknowledgement.  After an upsert, looking the block up
    gives back the very 64-bit hash and its acknowledgement flag, also when a
    row for it existed before; every other block's row is unchanged; marking
    the block acknowledged sets its flag and keeps its hash, and a later upsert
    with flag 0 makes it unacknowledged again. *)
Theorem tracker_upsert_lookup db devno offset size hash version :
  db_events db = [] → 0 ≤ hash < 2 ^ 64 →
  let db1 := (sqlite_block_upsert_v db devno offset size hash 0 version).2 in
  let db2 := (sqlite_block_mark_acked db1 devno offset).2 in
  let db3 := (sqlite_block_upsert_v db2 devno offset size hash 0 version).2 in
  (sqlite_block_lookup db1 devno offset).1 = (0, Some hash) ∧
  (sqlite_block_acked db1 devno offset).1 = 0 ∧
  (sqlite_block_lookup db2 devno offset).1 = (0, Some hash) ∧
  (sqlite_block_acked db2 devno offset).1 = 1 ∧
  (sqlite_block_acked db3 devno offset).1 = 0 ∧
  ∀ k, k ≠ (devno, offset) → t_block db3 !! k = t_block db !! k.
Proof.
  intros E Hh. cbv zeta.
  unfold sqlite_block_upsert_v. rewrite !(db_update_ok db) by done. cbn [snd].
  set (t1 := <[(devno, offset) := _]> (t_block db)).
  unfold sqlite_block_mark_acked. rewrite !(db_update_ok (with_blocks db t1)) by done. cbn [snd].
  set (t2 := alter acked_row (devno, offset) (t_block (with_blocks db t1))).
  rewrite !(db_update_ok (with_blocks (with_blocks db t1) t2)) by done. cbn [snd].
  assert (H1 : t1 !! (devno, offset) = Some (mk_row size (s64 hash) 0 0 version (db_remote_id db)))
    by apply lookup_insert_eq.
  assert (H2 : t2 !! (devno, offset) = Some (mk_row size (s64 hash) 1 0 version (db_remote_id db)))
    by (unfold t2; cbn; by rewrite lookup_alter_eq, H1).
  unfold sqlite_block_lookup, sqlite_block_acked. rewrite !db_query_ok by done. cbn [fst].
  unfold with_blocks; cbn [t_block]. rewrite H1, H2. cbn. rewrite u64_s64 by done.
  repeat split; try done.
  - by rewrite lookup_insert_eq.
  - intros k Hk. rewrite lookup_insert_ne by done. unfold t2, t1. cbn.
    by rewrite lookup_alter_ne, lookup_insert_ne by done.
Qed.

Lemma tracker_upsert_lookup_witness :
  let db1 := (sqlite_block_upsert_v (mk_db ∅ [] [120] []) 0 1048576 1048576 (2 ^ 63 + 5) 0 1).2 in
  (sqlite_block_lookup db1 0 1048576).1 = (0, Some (2 ^ 63 + 5)).
Proof.
  refine (proj1 (tracker_upsert_lookup (mk_db ∅ [] [120] []) 0 1048576 1048576 (2 ^ 63 + 5) 1 _ _)).
  - reflexivity.
  - lia.
Defined.

(** C24 (tracker_unacked_exact): the query behind retransmission returns exactly
    the unacknowledged blocks of one remote: sorted by the time they were last
    sent, then by offset, without duplicates, at most [max] of them, all of
    them when there are no more than [max]; and [sqlite_count_unacked] is
    their number. *)
Theorem tracker_unacked_exact db max remote_id :
  db_events db = [] → 0 ≤ max →
  let rid := rid_or db remote_id in
  let '(n, rows, _) := sqlite_get_unacked db max remote_id in
  let total := Z.of_nat (size (filter (unacked rid) (t_block db))) in
  n = Z.min max total ∧ len rows = n ∧ NoDup rows ∧
  rows `prefix_of` (unacked_rows db rid).*1 ∧ StronglySorted sent_before (unacked_rows db rid) ∧
  (∀ d o, (d, o) ∈ rows → ∃ r, t_block db !! (d, o) = Some r ∧ r_ack r = 0 ∧ r_remote_id r = rid) ∧
  (total ≤ max → ∀ d o r, t_block db !! (d, o) = Some r → r_ack r = 0 → r_remote_id r = rid →
                          (d, o) ∈ rows) ∧
  (total < 2 ^ 31 → (sqlite_count_unacked db remote_id).1 = total).
Proof.
  intros E Hm. cbv zeta. unfold sqlite_get_unacked. rewrite db_rows_ok by done.
  set (rid := rid_or db remote_id). rewrite <- len_unacked_rows.
  set (l := unacked_rows db rid).
  assert (Hpre : (ztake max l).*1 `prefix_of` l.*1).
  { exists (zdrop max l).*1. by rewrite <- fmap_app, ztake_zdrop. }
  assert (Hlen : len (ztake max l).*1 = Z.min max (len l)).
  { unfold len at 1. rewrite length_fmap. fold (len (ztake max l)). rewrite len_ztake. lia. }
  split; [done|]. split; [done|]. split.
  { destruct Hpre as [t Ht]. pose proof (unacked_rows_keys db rid) as Hn. fold l in Hn. rewrite Ht in Hn.
    by apply NoDup_app in Hn as []. }
  split; [done|]. split; [apply unacked_rows_sorted|]. split; [|split].
  - intros d o Hin. apply list_elem_of_fmap in Hin as (((d', o') & r) & Heq & Hin). cbn in Heq.
    injection Heq as <- <-. exists r. apply unacked_rows_elem. fold l.
    rewrite <- (ztake_zdrop max l). apply elem_of_app. by left.
  - intros Hall d o r H1 H2 H3. rewrite ztake_ge by done. apply list_elem_of_fmap.
    exists (d, o, r). split; [done|]. by apply unacked_rows_elem.
  - intros Ht. unfold sqlite_count_unacked. rewrite db_query_ok by done. cbn [fst]. fold rid.
    rewrite <- len_unacked_rows. fold l. apply (wrapS_id 32); [lia|]. unfold in_s.
    pose proof (len_nonneg l). lia.
Qed.

Lemma tracker_unacked_exact_witness :
  let db := mk_db {[(0, 4096) := mk_row 4096 9 0 50 1 [120]; (0, 0) := mk_row 4096 9 1 0 1 [120]]} [] [120] [] in
  (sqlite_get_unacked db 10 None).1.2 = [(0, 4096)] ∧ (sqlite_count_unacked db None).1 = 1.
Proof.
  intros db. pose proof (tracker_unacked_exact db 10 None) as H.
  assert (Hr : sqlite_get_unacked db 10 None = (1, [(0, 4096)], db)) by (vm_compute; reflexivity).
  rewrite Hr in H. split; [rewrite Hr; reflexivity|].
  destruct H as (_ & _ & _ & _ & _ & _ & _ & Hc); [reflexivity|lia|]. rewrite Hc; vm_compute; reflexivity.
Defined.

(** [tracker_versions]: a round's version number is new: it exceeds every
    version recorded for the remote.  Starting the round records it, ending it
    adds the scanned and changed counts to it and to no other version, and the
    number of the following round is one more. *)
Theorem tracker_versions db remote_id t0 t1 scanned changed :
  db_events db = [] → Forall (λ v, 0 ≤ v_version v < 2 ^ 31 - 2) (t_version db) →
  let rid := rid_or db remote_id in
  let v := (sqlite_get_next_version db remote_id).1 in
  let db1 := (sqlite_version_start db v remote_id t0).2 in
  let db2 := (sqlite_version_end db1 v remote_id t1 scanned changed).2 in
  (∀ x, x ∈ versions_of db rid → v_version x < v) ∧
  t_version db2 = t_version db ++ [mk_vrow v rid t0 t1 scanned changed] ∧
  (sqlite_get_version_info db2 v remote_id).1 = (0, Some (mk_vrow v rid t0 t1 scanned changed)) ∧
  (sqlite_get_next_version db2 remote_id).1 = v + 1.
Proof.
  intros E HF. cbv zeta. set (rid := rid_or db remote_id).
  assert (Hmax : 0 ≤ max_version (versions_of db rid) < 2 ^ 31 - 2).
  { apply max_version_range; [lia|]. apply Forall_forall. intros x Hx.
    apply list_elem_of_filter in Hx as [_ Hx]. rewrite Forall_forall in HF. by apply HF. }
  set (v := max_version (versions_of db rid) + 1).
  assert (Hv : (sqlite_get_next_version db remote_id).1 = v).
  { unfold sqlite_get_next_version. rewrite db_query_ok by done. cbn [fst]. fold rid v.
    apply (wrapS_id 32); [lia|]. unfold in_s, v. lia. }
  rewrite Hv.
  assert (Hnew : ∀ x, x ∈ versions_of db rid → v_version x < v).
  { intros x Hx. apply max_version_ge in Hx. unfold v. lia. }
  split; [done|].
  unfold sqlite_version_start. rewrite db_update_ok by done. cbn [snd]. fold rid.
  set (t1' := t_version db ++ [mk_vrow v rid t0 0 0 0]).
  unfold sqlite_version_end. rewrite db_update_ok by done. cbn [snd].
  change (rid_or (with_versions db t1') remote_id) with rid.
  assert (Ht2 : (λ x, if bool_decide (v_version x = v ∧ v_remote_id x = rid)
      then mk_vrow (v_version x) (v_remote_id x) (v_start_time x) t1
             (v_scanned_count x + scanned) (v_changed_count x + changed) else x) <$> t1' =
      t_version db ++ [mk_vrow v rid t0 t1 scanned changed]).
  { unfold t1'. rewrite fmap_app. cbn. rewrite bool_decide_true by done. f_equal.
    rewrite <- list_fmap_id. apply list_fmap_ext. intros i x Hx.
    rewrite bool_decide_false; [done|]. intros [H1 H2].
    assert (x ∈ versions_of db rid).
    { apply list_elem_of_filter. split; [done|]. by eapply list_elem_of_lookup_2. }
    apply Hnew in H. lia. }
  cbn [t_version with_versions]. rewrite Ht2. split; [done|].
  set (db2 := with_versions _ _).
  assert (Hof : versions_of db2 rid = versions_of db rid ++ [mk_vrow v rid t0 t1 scanned changed]).
  { unfold versions_of. cbn. rewrite filter_app. f_equal. by rewrite filter_cons_True. }
  split.
  - unfold sqlite_get_version_info. rewrite db_query_ok by done. cbn [fst].
    change (rid_or db2 remote_id) with rid. rewrite Hof, filter_app.
    rewrite filter_cons_True by done.
    assert (Hnil : filter (λ x, v_version x = v) (versions_of db rid) = []).
    { apply filter_none. apply Forall_forall. intros x Hx Hxv. apply Hnew in Hx. lia. }
    by rewrite Hnil.
  - unfold sqlite_get_next_version. rewrite db_query_ok by done. cbn [fst].
    change (rid_or db2 remote_id) with rid. rewrite Hof.
    assert (Hm : max_version (versions_of db rid ++ [mk_vrow v rid t0 t1 scanned changed]) = v).
    { apply (max_version_snoc _ (mk_vrow v rid t0 t1 scanned changed)); cbn; [unfold v; lia|]. intros x Hx. apply Hnew in Hx. lia. }
    rewrite Hm. apply (wrapS_id 32); [lia|]. unfold in_s, v. lia.
Qed.

Lemma tracker_versions_witness :
  let db := mk_db ∅ [mk_vrow 4 [120] 0 0 0 0] [120] [] in
  (sqlite_get_next_version db None).1 = 5 ∧
  ∀ x, x ∈ versions_of db [120] → v_version x < 5.
Proof.
  intros db. split; [vm_compute; reflexivity|].
  refine (proj1 (tracker_versions db None 0 0 0 0 _ _)).
  - reflexivity.
  - repeat constructor; vm_compute; congruence.
Defined.
