(* ===== verification/BlockIO.v ===== *)
(** * Reading the source disks (client/block_io.c and [volume_block_count] of
      client/volume.c)

    A reader is the size found at opening and the device behind it: [br_pread]
    is the answer of [pread64] to an offset and a count ([None]: an error). *)

From S2P Require Import Prelude Protocol.

Record block_reader := mk_reader {
  br_total_bytes : Z;
  br_pread : Z → Z → option (list Z);
}.

(** [open] with and without O_DIRECT, the size from [lseek64] (-1: error),
    [malloc]. *)
Definition block_reader_open (direct_ok plain_ok : bool) (size : Z) (malloc_ok : bool)
    (pread : Z → Z → option (list Z)) : option block_reader :=
  if negb direct_ok && negb plain_ok then None
  else if size =? -1 then None
  else if negb malloc_ok then None
  else Some (mk_reader size pread).

Definition block_reader_size (r : block_reader) : Z := br_total_bytes r.

Definition block_reader_block_count (r : block_reader) (block_size : Z) : Z :=
  if block_size =? 0 then 0
  else
    let count := br_total_bytes r / block_size in
    if negb (br_total_bytes r mod block_size =? 0) then count + 1 else count.

(** The code and the bytes read ([*bytes_read] is their number). *)
Definition block_reader_read (r : block_reader) (offset buf_size : Z) : option (list Z) :=
  let to_read := u32 (Z.min buf_size (u64 (br_total_bytes r - offset))) in
  br_pread r offset to_read.

(** ** The Windows branch

    The file position is set first; [wr_seek] answers SetFilePointerEx, [wr_read]
    is ReadFile at a position. *)
Record win_reader := mk_wreader {
  wr_total_bytes : Z;
  wr_seek : Z → bool;
  wr_read : Z → Z → option (list Z);
}.

(** CreateFileA, the length from IOCTL_DISK_GET_LENGTH_INFO, [malloc]. *)
Definition block_reader_open_win (handle : bool) (length : option Z) (malloc_ok : bool)
    (seek : Z → bool) (read : Z → Z → option (list Z)) : option win_reader :=
  if negb handle then None
  else
    match length with
    | None => None
    | Some n => if negb malloc_ok then None else Some (mk_wreader (u64 n) seek read)
    end.

Definition block_reader_read_win (r : win_reader) (offset buf_size : Z) : option (list Z) :=
  if negb (wr_seek r (s64 offset)) then None
  else
    let to_read := u32 (Z.min buf_size (u64 (wr_total_bytes r - offset))) in
    wr_read r (s64 offset) to_read.

Definition volume_block_count (total_bytes block_size : Z) : Z :=
  if block_size =? 0 then 0
  else
    let count := total_bytes / block_size in
    if negb (total_bytes mod block_size =? 0) then count + 1 else count.

(** ** A device *)

(** [pread64] on a device holding [bs], without short reads. *)
Definition device_pread (bs : list Z) (offset count : Z) : option (list Z) :=
  Some (ztake count (zdrop offset bs)).

Definition device (bs : list Z) : block_reader := mk_reader (len bs) (device_pread bs).

(** The blocks [0 .. n) of a reader, read one after the other. *)
Definition read_blocks (r : block_reader) (block_size : Z) (n : nat) : list (option (list Z)) :=
  (λ i, block_reader_read r (Z.of_nat i * block_size) block_size) <$> seq 0 n.

Lemma ceil_blocks total bs :
  0 ≤ total → 0 < bs →
  let n := volume_block_count total bs in
  0 ≤ n ∧ total ≤ n * bs ∧ (0 < total → (n - 1) * bs < total) ∧ (total = 0 → n = 0).
Proof.
  intros Ht Hb. cbv zeta. unfold volume_block_count. replace (bs =? 0) with false by lia.
  pose proof (Z.div_mod total bs ltac:(lia)). pose proof (Z.mod_pos_bound total bs Hb).
  assert (0 ≤ total / bs) by (apply Z.div_pos; lia).
  destruct (Z.eqb_spec (total mod bs) 0); cbn [negb].
  - nia.
  - nia.
Qed.

Lemma block_count_same r bs : block_reader_block_count r bs = volume_block_count (br_total_bytes r) bs.
Proof. done. Qed.

(** A read inside the device: the requested block or what is left of it. *)
Lemma device_read bs off size :
  0 ≤ off ≤ len bs → 0 ≤ size < 2 ^ 32 → len bs < 2 ^ 64 →
  block_reader_read (device bs) off size = Some (ztake size (zdrop off bs)).
Proof.
  intros Ho Hs Hl. unfold block_reader_read, device, device_pread. cbn [br_total_bytes br_pread].
  unfold u64, u32. rewrite (wrapU_id 64) by (unfold in_u; lia).
  rewrite wrapU_id by (unfold in_u; lia). f_equal.
  destruct (Z.min_spec size (len bs - off)) as [[H ->]|[H ->]]; [done|].
  rewrite !ztake_ge by (rewrite len_zdrop; lia). done.
Qed.

Lemma read_blocks_prefix bs size n :
  0 < size < 2 ^ 32 → len bs < 2 ^ 64 → (Z.of_nat n - 1) * size < len bs ∨ n = 0%nat →
  ∃ l, read_blocks (device bs) size n = Some <$> l ∧ concat l = ztake (Z.of_nat n * size) bs.
Proof.
  intros Hs Hl. induction n as [|n IH]; intros Hn.
  - exists []. done.
  - destruct IH as (l & Hr & Hc); [destruct n; [by right|left; nia]|].
    destruct Hn as [Hn|Hn]; [|done].
    exists (l ++ [ztake size (zdrop (Z.of_nat n * size) bs)]). split.
    + unfold read_blocks in *. rewrite seq_S, !fmap_app, Hr. cbn [fmap list_fmap plus].
      rewrite device_read by nia. done.
    + rewrite concat_app, Hc. cbn. rewrite app_nil_r.
      replace (Z.of_nat (S n) * size) with (Z.of_nat n * size + size) by lia.
      assert (0 ≤ Z.of_nat n * size) by nia. unfold ztake, zdrop.
      replace (Z.to_nat (Z.of_nat n * size + size)) with (Z.to_nat (Z.of_nat n * size) + Z.to_nat size)%nat by lia.
      by rewrite take_take_drop.
Qed.

(** ** Properties *)

(** [blocks_cover_device]: reading the blocks 0 .. block_count - 1 of a disk
    with [block_reader_read], the last one being cut to what is left, gives
    the whole content of the disk, once, in order, for every positive block
    size; [volume_block_count] and [block_reader_block_count] agree on how
    many there are. *)
Theorem blocks_cover_device bs block_size :
  0 < block_size < 2 ^ 32 → len bs < 2 ^ 64 →
  let n := block_reader_block_count (device bs) block_size in
  n = volume_block_count (len bs) block_size ∧
  ∃ l, read_blocks (device bs) block_size (Z.to_nat n) = Some <$> l ∧ concat l = bs.
Proof.
  intros Hb Hl. cbv zeta. rewrite block_count_same. split; [done|].
  cbn [br_total_bytes device].
  destruct (ceil_blocks (len bs) block_size (len_nonneg _) ltac:(lia)) as (H0 & H1 & H2 & H3).
  set (n := volume_block_count (len bs) block_size) in *.
  destruct (read_blocks_prefix bs block_size (Z.to_nat n) Hb Hl) as (l & Hr & Hc).
  { pose proof (len_nonneg bs). destruct (Z.eq_dec (len bs) 0) as [He|He].
    - right. rewrite H3 by done. done.
    - left. rewrite Z2Nat.id by done. apply H2. lia. }
  exists l. split; [done|]. rewrite Hc, Z2Nat.id by done. by apply ztake_ge.
Qed.

Lemma blocks_cover_device_witness :
  ∃ l, read_blocks (device [1; 2; 3; 4; 5]) 2 3 = Some <$> l ∧ concat l = [1; 2; 3; 4; 5].
Proof.
  exact (proj2 (blocks_cover_device [1; 2; 3; 4; 5] 2 ltac:(split; reflexivity) ltac:(reflexivity))).
Defined.

(** On a device both branches can open, they read the same bytes at every offset a
    file position can hold. *)
Lemma reader_branches_agree size pread seek offset buf_size :
  0 ≤ size < 2 ^ 63 → 0 ≤ offset < 2 ^ 63 → (∀ o, 0 ≤ o → seek o = true) →
  ∃ r rw, block_reader_open true true size true pread = Some r ∧
    block_reader_open_win true (Some size) true seek pread = Some rw ∧
    block_reader_read_win rw offset buf_size = block_reader_read r offset buf_size.
Proof.
  intros Hs Ho Hk. eexists _, _. split; [|split; [reflexivity|]].
  { unfold block_reader_open. cbn [negb andb]. by replace (size =? -1) with false by lia. }
  unfold block_reader_read_win, block_reader_read. cbn [wr_seek wr_total_bytes wr_read br_total_bytes br_pread].
  replace (s64 offset) with offset by (symmetry; apply (wrapS_id 64); [lia|unfold in_s; lia]).
  rewrite Hk by lia. cbn [negb]. by replace (u64 size) with size by (symmetry; apply (wrapU_id 64); unfold in_u; lia).
Qed.
