(* ===== verification/Volume.v ===== *)
(** * Enumerating the partitions (client/volume.c, [volume_enumerate])

    What the Windows device calls answer is data: [create_file n] is the
    physical drive n with the answers to its control codes ([None]: it cannot be
    opened), a [win_volume] is what the volume calls answer for one volume of
    the [FindFirstVolumeW] sequence.  The volume array with its count is the
    list of the entries in use. *)

From stdpp Require Import strings.
From S2P Require Import Prelude Protocol BlockIO Json.

Definition MAX_VOLUMES : Z := 64.
Definition VOLUME_PATH_MAX : Z := 256.
Definition VSS_PATH_MAX : Z := 512.

(** [volume_info_t] *)
Record volume_info := mk_vol {
  vi_devno : Z;
  vi_disk_path : list Z;
  vi_vss_path : list Z;
  vi_name : list Z;
  vi_partition_offset : Z;
  vi_total_bytes : Z;
  vi_total_sectors : Z;
  vi_block_count : Z;
  vi_writable : Z;
  vi_has_vss : bool;
  vi_part_index : Z;
}.

(** PARTITION_INFORMATION_EX: StartingOffset and PartitionLength. *)
Record partition := mk_part { pt_offset : Z; pt_length : Z }.

(** A drive that could be opened: its geometry (MediaType, BytesPerSector), its
    device number, whether the layout buffer can be allocated, its layout. *)
Record drive := mk_drive {
  dr_geometry : option (Z * Z);
  dr_number : option Z;
  dr_calloc : bool;
  dr_layout : option (list partition);
}.

(** A volume: its first mount path (in narrow characters, empty when it has
    none), whether it can be opened and the extent buffer allocated, its
    extents (DiskNumber, StartingOffset). *)
Record win_volume := mk_wvol {
  wv_paths : option (list Z);
  wv_open : bool;
  wv_calloc : bool;
  wv_extents : option (list (Z * Z));
}.

Definition FixedMedia : Z := 12.

(** [snprintf(path, sizeof(path), "\\\\.\\PhysicalDrive%d", n)] *)
Definition drive_path (n : Z) : list Z :=
  ztake (VOLUME_PATH_MAX - 1) (string_bytes "\\.\PhysicalDrive" ++ print_int n).

(** ["Disk%dPart%lu"] in 16 bytes *)
Definition part_name (devno part : Z) : list Z :=
  ztake 15 (string_bytes "Disk" ++ print_int devno ++ string_bytes "Part" ++ print_int part).

(** The entry for the partition of index [p].  A drive's sector size is above
    zero: the code divides by it unchecked. *)
Definition partition_volume (n devno bytes_per_sector p : Z) (part : partition) : volume_info :=
  mk_vol devno (drive_path n) [] (part_name devno (u32 (p + 1))) (u64 (pt_offset part)) (u64 (pt_length part))
    (u64 (Z.quot (pt_length part) bytes_per_sector))
    (volume_block_count (u64 (pt_length part)) BLOCK_SIZE) 0 false (s32 (p + 1)).

(** [for (DWORD p = 0; p < layout->PartitionCount; p++)] *)
Fixpoint add_partitions (n devno bps p : Z) (parts : list partition) (vols : list volume_info)
    : list volume_info :=
  match parts with
  | [] => vols
  | part :: r =>
      if pt_length part =? 0 then add_partitions n devno bps (p + 1) r vols
      else
        let vols := vols ++ [partition_volume n devno bps p part] in
        if MAX_VOLUMES <=? len vols then vols else add_partitions n devno bps (p + 1) r vols
  end.

Section Enumerate.
Context (create_file : Z → option drive).

(** The body of [for (int n = 0; n < 16; n++)]. *)
Definition scan_drive (n : Z) (vols : list volume_info) : list volume_info :=
  match create_file n with
  | None => vols
  | Some d =>
      match dr_geometry d with
      | None => vols
      | Some (media, bps) =>
          if negb (media =? FixedMedia) then vols
          else
            let devno := s32 (default n (dr_number d)) in
            if negb (dr_calloc d) then vols
            else
              match dr_layout d with
              | None => vols
              | Some parts => add_partitions n devno bps 0 parts vols
              end
      end
  end.

(** From drive [n], [k] drives to go.  (A drive that is passed over leaves the
    count as it was, below the limit.) *)
Fixpoint scan_drives (k : nat) (n : Z) (vols : list volume_info) : list volume_info :=
  match k with
  | O => vols
  | S k' =>
      let vols := scan_drive n vols in
      if MAX_VOLUMES <=? len vols then vols else scan_drives k' (n + 1) vols
  end.

(** ** Drive letters *)

Definition set_name (v : volume_info) (name : list Z) : volume_info :=
  mk_vol (vi_devno v) (vi_disk_path v) (vi_vss_path v) name (vi_partition_offset v) (vi_total_bytes v)
    (vi_total_sectors v) (vi_block_count v) (vi_writable v) (vi_has_vss v) (vi_part_index v).

Definition starts_at (disk offset : Z) (v : volume_info) : bool :=
  (s32 disk =? vi_devno v) && (u64 offset =? vi_partition_offset v).

(** The first entry that starts there gets the letter. *)
Fixpoint name_entry (disk offset : Z) (letter : list Z) (vols : list volume_info) : list volume_info :=
  match vols with
  | [] => []
  | v :: r => if starts_at disk offset v then set_name v (ztake 15 letter) :: r
              else v :: name_entry disk offset letter r
  end.

(** [for (DWORD e = 0; e < ext->NumberOfDiskExtents; e++)], [n] extents in all. *)
Fixpoint name_extents (e n : Z) (exts : list (Z * Z)) (letter : list Z) (vols : list volume_info)
    : list volume_info :=
  match exts with
  | [] => vols
  | (disk, offset) :: r =>
      let vols := name_entry disk offset letter vols in
      if (e =? 0) && (1 <? n) then vols else name_extents (e + 1) n r letter vols
  end.

(** The body of the [FindNextVolumeW] loop: the letter is the first two
    characters of the mount path. *)
Definition name_volume (vols : list volume_info) (w : win_volume) : list volume_info :=
  match wv_paths w with
  | None | Some [] => vols
  | Some path =>
      let letter := ztake 2 path in
      if negb (wv_open w) then vols
      else if negb (wv_calloc w) then vols
      else
        match wv_extents w with
        | None => vols
        | Some exts => name_extents 0 (len exts) exts letter vols
        end
  end.

(** The volumes and the code. *)
Definition volume_enumerate (wvols : list win_volume) : list volume_info * Z :=
  let vols := scan_drives 16 0 [] in
  let vols := foldl name_volume vols wvols in
  (vols, if 0 <? len vols then 0 else -1).

End Enumerate.

(** The branch for other systems. *)
Definition volume_enumerate_posix : list volume_info * Z :=
  ([mk_vol 0 (string_bytes "/dev/sda") [] (string_bytes "sda") 0 0 0 0 0 false 0], 0).

(** ** What is enumerated *)

(** The entries of a layout: one for every partition that is not empty. *)
Fixpoint listed (n devno bps p : Z) (parts : list partition) : list volume_info :=
  match parts with
  | [] => []
  | part :: r =>
      if pt_length part =? 0 then listed n devno bps (p + 1) r
      else partition_volume n devno bps p part :: listed n devno bps (p + 1) r
  end.

(** The layout of a fixed drive that answers: device number, sector size and
    partitions. *)
Definition layout_of (create_file : Z → option drive) (n : Z) : option (Z * Z * list partition) :=
  d ← create_file n;
  '(media, bps) ← dr_geometry d;
  parts ← dr_layout d;
  if (media =? FixedMedia) && dr_calloc d then Some (s32 (default n (dr_number d)), bps, parts) else None.

Definition drive_partitions (create_file : Z → option drive) (n : Z) : list volume_info :=
  match layout_of create_file n with
  | Some (devno, bps, parts) => listed n devno bps 0 parts
  | None => []
  end.

Definition all_partitions (create_file : Z → option drive) : list volume_info :=
  seqZ 0 16 ≫= drive_partitions create_file.

Definition unnamed (v : volume_info) : volume_info := set_name v [].

Lemma add_partitions_spec n devno bps parts : ∀ p vols,
  len vols < MAX_VOLUMES →
  add_partitions n devno bps p parts vols = ztake MAX_VOLUMES (vols ++ listed n devno bps p parts).
Proof.
  induction parts as [|part r IH]; intros p vols Hl; cbn [add_partitions listed].
  - rewrite app_nil_r, ztake_ge; [done|lia].
  - case_test; [by apply IH|].
    set (v := partition_volume n devno bps p part).
    destruct (Z.leb_spec MAX_VOLUMES (len (vols ++ [v]))) as [Hge|Hlt].
    + replace (vols ++ v :: listed n devno bps (p + 1) r)
        with ((vols ++ [v]) ++ listed n devno bps (p + 1) r) by by rewrite <- app_assoc.
      rewrite ztake_app_exact; [done|]. len_norm. lia.
    + rewrite IH by lia. by rewrite <- app_assoc.
Qed.

Lemma scan_drive_spec cf n vols :
  len vols < MAX_VOLUMES → scan_drive cf n vols = ztake MAX_VOLUMES (vols ++ drive_partitions cf n).
Proof.
  intros Hl. assert (Hnil : vols = ztake MAX_VOLUMES (vols ++ [])).
  { rewrite app_nil_r, ztake_ge; [done|lia]. }
  unfold scan_drive, drive_partitions, layout_of.
  destruct (cf n) as [d|]; [|exact Hnil]. cbn [mbind option_bind].
  destruct (dr_geometry d) as [[media bps]|]; [|exact Hnil]. cbn [mbind option_bind].
  destruct (media =? FixedMedia), (dr_calloc d), (dr_layout d) as [parts|];
    cbn [negb andb mbind option_bind]; try exact Hnil. by apply add_partitions_spec.
Qed.

Lemma scan_drives_spec cf k : ∀ n vols,
  len vols < MAX_VOLUMES →
  scan_drives cf k n vols = ztake MAX_VOLUMES (vols ++ (seqZ n (Z.of_nat k) ≫= drive_partitions cf)).
Proof.
  induction k as [|k IH]; intros n vols Hl; cbn [scan_drives].
  - cbn. rewrite app_nil_r, ztake_ge; [done|lia].
  - rewrite scan_drive_spec by done.
    rewrite (seqZ_cons n (Z.of_nat (S k))) by lia. cbn [mbind list_bind]. fold (mbind (drive_partitions cf)).
    replace (Z.succ n) with (n + 1) by lia. replace (Z.pred (Z.of_nat (S k))) with (Z.of_nat k) by lia.
    rewrite app_assoc. set (l := vols ++ drive_partitions cf n).
    destruct (Z.leb_spec MAX_VOLUMES (len (ztake MAX_VOLUMES l))) as [Hge|Hlt].
    + rewrite len_ztake in Hge. rewrite ztake_app_le; [done|lia].
    + rewrite len_ztake in Hlt. rewrite (ztake_ge MAX_VOLUMES l) by lia. apply IH. lia.
Qed.

(** Naming touches nothing but names. *)
Lemma name_entry_unnamed d o nm vols : unnamed <$> name_entry d o nm vols = unnamed <$> vols.
Proof. induction vols as [|v r IH]; cbn; [done|]. case_test; cbn; [done|]. by f_equal. Qed.

Lemma name_extents_unnamed n nm exts : ∀ e vols,
  unnamed <$> name_extents e n exts nm vols = unnamed <$> vols.
Proof.
  induction exts as [|[d o] r IH]; intros e vols; cbn [name_extents]; [done|].
  case_test; [|rewrite IH]; apply name_entry_unnamed.
Qed.

Lemma name_volume_unnamed vols w : unnamed <$> name_volume vols w = unnamed <$> vols.
Proof.
  unfold name_volume. destruct (wv_paths w) as [[|c path]|]; [done| |done].
  destruct (wv_open w), (wv_calloc w), (wv_extents w); try done. apply name_extents_unnamed.
Qed.

Lemma name_volumes_unnamed ws : ∀ vols, unnamed <$> foldl name_volume vols ws = unnamed <$> vols.
Proof.
  induction ws as [|w ws IH]; intros vols; cbn [foldl]; [done|]. by rewrite IH, name_volume_unnamed.
Qed.

Lemma enumerate_unnamed cf ws :
  unnamed <$> (volume_enumerate cf ws).1 = unnamed <$> ztake MAX_VOLUMES (all_partitions cf).
Proof.
  unfold volume_enumerate. cbn [fst]. rewrite name_volumes_unnamed.
  by rewrite (scan_drives_spec cf 16 0 []) by done.
Qed.

(** ** The blocks of the volumes *)

(** The keys under which a volume's blocks are tracked and sent. *)
Definition block_keys (v : volume_info) : list (Z * Z) :=
  (λ i, (vi_devno v, vi_partition_offset v + Z.of_nat i * BLOCK_SIZE)) <$>
    seq 0 (Z.to_nat (vi_block_count v)).

(** Partitions inside a disk of less than 2^63 bytes, and apart from each other. *)
Definition part_ok (p : partition) : Prop :=
  0 ≤ pt_offset p ∧ 0 ≤ pt_length p ∧ pt_offset p + pt_length p < 2 ^ 63.

Definition apart (p q : partition) : Prop :=
  pt_length p = 0 ∨ pt_length q = 0 ∨
  pt_offset p + pt_length p ≤ pt_offset q ∨ pt_offset q + pt_length q ≤ pt_offset p.

Definition layout_ok (parts : list partition) : Prop :=
  Forall part_ok parts ∧ ForallOrdPairs apart parts.

Lemma block_keys_range n devno bps p part d o :
  part_ok part → pt_length part ≠ 0 →
  (d, o) ∈ block_keys (partition_volume n devno bps p part) →
  d = devno ∧ pt_offset part ≤ o < pt_offset part + pt_length part.
Proof.
  intros (Ho & Hl & Hm) Hne Hin. unfold block_keys in Hin. cbn [vi_devno vi_partition_offset vi_block_count partition_volume] in Hin.
  rewrite !(wrapU_id 64) in Hin by (unfold in_u; lia).
  apply list_elem_of_fmap in Hin as (i & Heq & Hi). apply elem_of_seq in Hi. injection Heq as -> ->.
  destruct (ceil_blocks (pt_length part) BLOCK_SIZE Hl ltac:(done)) as (H0 & _ & H2 & _).
  specialize (H2 ltac:(lia)). unfold BLOCK_SIZE in *. split; [done|]. nia.
Qed.

Lemma block_keys_nodup v : NoDup (block_keys v).
Proof.
  unfold block_keys. apply NoDup_fmap_2_strong; [|apply NoDup_seq].
  intros i j _ _ Heq. injection Heq. unfold BLOCK_SIZE. lia.
Qed.

Lemma listed_elem n devno bps parts : ∀ p v,
  v ∈ listed n devno bps p parts →
  ∃ part p', part ∈ parts ∧ pt_length part ≠ 0 ∧ v = partition_volume n devno bps p' part.
Proof.
  induction parts as [|part r IH]; intros p v Hv; cbn [listed] in Hv; [by apply elem_of_nil in Hv|].
  case_test_in Hv; [|apply elem_of_cons in Hv as [->|Hv]; [set_solver|]];
    destruct (IH _ _ Hv) as (q & p' & ? & ? & ->); set_solver.
Qed.

Lemma listed_keys n devno bps parts p d o :
  Forall part_ok parts → (d, o) ∈ (listed n devno bps p parts ≫= block_keys) →
  d = devno ∧ ∃ part, part ∈ parts ∧ pt_length part ≠ 0 ∧ pt_offset part ≤ o < pt_offset part + pt_length part.
Proof.
  intros Hok Hin. apply list_elem_of_bind in Hin as (v & Hk & Hv).
  destruct (listed_elem _ _ _ _ _ _ Hv) as (part & p' & Hp & Hne & ->).
  destruct (block_keys_range n devno bps p' part d o) as [-> Ho]; [|done|done|eauto].
  rewrite Forall_forall in Hok. by apply Hok.
Qed.

Lemma listed_keys_nodup n devno bps parts : ∀ p,
  layout_ok parts → NoDup (listed n devno bps p parts ≫= block_keys).
Proof.
  induction parts as [|part r IH]; intros p [Hok Hap]; cbn [listed]; [constructor|].
  apply Forall_cons in Hok as [Hp Hok]. inversion Hap as [|? ? Hhd Htl]; subst.
  case_test; [by apply IH|]. cbn [mbind list_bind]. fold (mbind block_keys).
  apply NoDup_app. split; [apply block_keys_nodup|]. split; [|by apply IH].
  intros [d o] H1 H2. destruct (listed_keys _ _ _ _ _ _ _ Hok H2) as (_ & q & Hq & Hqn & Hqo).
  destruct (block_keys_range _ _ _ _ _ _ _ Hp E H1) as [_ Hpo].
  rewrite Forall_forall in Hhd. specialize (Hhd q Hq). unfold apart in Hhd. lia.
Qed.

(** ** Names *)

(** The place a Windows volume starts at and its letter, when all calls for it
    succeed. *)
Definition letter_of (w : win_volume) : option (Z * Z * list Z) :=
  match wv_paths w, wv_extents w with
  | Some (c :: path), Some ((disk, offset) :: _) =>
      if wv_open w && wv_calloc w then Some (disk, offset, ztake 2 (c :: path)) else None
  | _, _ => None
  end.

(** The name an entry ends up with. *)
Definition final_name (ws : list win_volume) (v : volume_info) : list Z :=
  foldl (λ nm w, match letter_of w with
                 | Some (disk, offset, letter) => if starts_at disk offset v then letter else nm
                 | None => nm
                 end) (vi_name v) ws.

Definition place (v : volume_info) : Z * Z := (vi_devno v, vi_partition_offset v).

Lemma starts_at_place d o v : starts_at d o v = bool_decide (place v = (s32 d, u64 o)).
Proof.
  unfold starts_at, place. apply eq_true_iff_eq. rewrite bool_decide_eq_true, andb_true_iff, !Z.eqb_eq.
  split; [intros [-> ->]; done|intros [=]; auto].
Qed.

Lemma name_entry_map d o nm vols :
  NoDup (place <$> vols) →
  name_entry d o nm vols = (λ v, if starts_at d o v then set_name v (ztake 15 nm) else v) <$> vols.
Proof.
  induction vols as [|v r IH]; intros Hn; cbn [name_entry]; [done|].
  rewrite fmap_cons in Hn. apply NoDup_cons in Hn as [Hv Hn].
  rewrite fmap_cons. destruct (starts_at d o v) eqn:E; [|by rewrite IH].
  f_equal. rewrite <- (list_fmap_id r) at 1. apply list_fmap_ext. intros i u Hu. cbn.
  destruct (starts_at d o u) eqn:Eu; [|done]. rewrite starts_at_place in E, Eu. bool_to_prop.
  destruct Hv. rewrite E, <- Eu. apply list_elem_of_fmap_2. by eapply list_elem_of_lookup_2.
Qed.

Definition name_if (w : win_volume) (v : volume_info) : volume_info :=
  match letter_of w with
  | Some (disk, offset, letter) => if starts_at disk offset v then set_name v letter else v
  | None => v
  end.

Lemma name_volume_map w vols : NoDup (place <$> vols) → name_volume vols w = name_if w <$> vols.
Proof.
  intros Hn. assert (Hid : vols = (λ v : volume_info, v) <$> vols) by by rewrite list_fmap_id.
  unfold name_volume, name_if, letter_of.
  destruct (wv_paths w) as [[|c path]|]; [exact Hid| |exact Hid].
  destruct (wv_open w), (wv_calloc w), (wv_extents w) as [[|[d o] exts]|]; cbn [negb andb]; try exact Hid.
  assert (Hx : name_extents 0 (len ((d, o) :: exts)) ((d, o) :: exts) (ztake 2 (c :: path)) vols =
               name_entry d o (ztake 2 (c :: path)) vols).
  { cbn [name_extents]. destruct exts as [|x exts]; [done|].
    replace (1 <? len ((d, o) :: x :: exts)) with true; [done|]. len_norm. pose proof (len_nonneg exts). lia. }
  rewrite Hx, name_entry_map by done. rewrite (ztake_ge 15); [done|]. len_norm. lia.
Qed.

Lemma name_if_place w v : place (name_if w v) = place v.
Proof. unfold name_if. destruct (letter_of w) as [[[d o] l]|]; [|done]. by case_test. Qed.

Lemma starts_at_name_if w d o v : starts_at d o (name_if w v) = starts_at d o v.
Proof. by rewrite !starts_at_place, name_if_place. Qed.

Lemma final_name_step w ws v : final_name ws (name_if w v) = final_name (w :: ws) v.
Proof.
  unfold final_name. cbn [foldl].
  replace (vi_name (name_if w v)) with
    (match letter_of w with
     | Some (disk, offset, letter) => if starts_at disk offset v then letter else vi_name v
     | None => vi_name v
     end).
  2:{ unfold name_if. destruct (letter_of w) as [[[d o] l]|]; [|done]. by case_test. }
  generalize (match letter_of w with
     | Some (disk, offset, letter) => if starts_at disk offset v then letter else vi_name v
     | None => vi_name v
     end) as nm.
  induction ws as [|x ws IH]; intros nm; cbn [foldl]; [done|].
  destruct (letter_of x) as [[[d o] l]|]; [rewrite starts_at_name_if|]; apply IH.
Qed.

Lemma name_volumes_map ws : ∀ vols,
  NoDup (place <$> vols) →
  foldl name_volume vols ws = (λ v, set_name v (final_name ws v)) <$> vols.
Proof.
  induction ws as [|w ws IH]; intros vols Hn; cbn [foldl].
  - rewrite <- (list_fmap_id vols) at 1. apply list_fmap_ext. by intros i [] _.
  - rewrite name_volume_map, IH by
      (done || (rewrite <- list_fmap_compose; erewrite list_fmap_ext; [exact Hn|intros; apply name_if_place])).
    rewrite <- list_fmap_compose. apply list_fmap_ext. intros i v _. unfold compose.
    rewrite final_name_step. unfold name_if.
    destruct (letter_of w) as [[[d o] l]|]; [case_test|]; reflexivity.
Qed.

(** ** Properties *)


Definition demo_drives (n : Z) : option drive :=
  if n =? 0 then
    Some (mk_drive (Some (FixedMedia, 512)) (Some 0) true
            (Some [mk_part 0x100000 0x300000; mk_part 0 0; mk_part 0x400000 0x280000]))
  else if n =? 1 then Some (mk_drive (Some (11, 512)) (Some 1) true (Some [mk_part 0 0x100000]))
  else if n =? 3 then Some (mk_drive (Some (FixedMedia, 512)) None true (Some [mk_part 0x100000 0x100000]))
  else None.

Definition demo_letters : list win_volume :=
  [mk_wvol (Some (string_bytes "D:\data\")) true true (Some [(3, 0x100000)]);
   mk_wvol (Some (string_bytes "C:\")) true true (Some [(0, 0x400000); (3, 0x100000)])].


(** C28 (block_keys_distinct): when the partitions of each fixed drive lie apart
    from each other and no two drives have the same device number, the blocks of
    all enumerated volumes have different (device, offset) pairs, although the
    last block of a partition may reach beyond its end: no row of the tracker
    and no acknowledgement stands for two blocks. *)
Theorem block_keys_distinct create_file wvols :
  (∀ n devno bps parts, 0 ≤ n < 16 → layout_of create_file n = Some (devno, bps, parts) → layout_ok parts) →
  (∀ n m d b1 p1 b2 p2, layout_of create_file n = Some (d, b1, p1) →
     layout_of create_file m = Some (d, b2, p2) → n = m) →
  NoDup ((volume_enumerate create_file wvols).1 ≫= block_keys).
Proof.
  intros Hok Hdev. set (vols := (volume_enumerate create_file wvols).1).
  assert (Hun : vols ≫= block_keys = ztake MAX_VOLUMES (all_partitions create_file) ≫= block_keys).
  { assert (Hb : ∀ l, l ≫= block_keys = (unnamed <$> l) ≫= block_keys).
    { intros l. induction l as [|v l IH]; [done|]. cbn. by rewrite <- IH. }
    rewrite Hb, (Hb (ztake _ _)). unfold vols. by rewrite enumerate_unnamed. }
  rewrite Hun. assert (Hall : NoDup (all_partitions create_file ≫= block_keys)).
  { unfold all_partitions. rewrite bind_assoc. apply NoDup_bind.
    - intros n m [d o] Hn Hm H1 H2. unfold drive_partitions in H1, H2.
      apply elem_of_seqZ in Hn, Hm.
      destruct (layout_of create_file n) as [[[d1 b1] p1]|] eqn:E1; [|by apply elem_of_nil in H1].
      destruct (layout_of create_file m) as [[[d2 b2] p2]|] eqn:E2; [|by apply elem_of_nil in H2].
      apply listed_keys in H1 as [-> _]; [|eapply Hok; [|exact E1]; lia].
      apply listed_keys in H2 as [<- _]; [|eapply Hok; [|exact E2]; lia].
      by eapply Hdev.
    - intros n Hn. apply elem_of_seqZ in Hn. unfold drive_partitions.
      destruct (layout_of create_file n) as [[[d b] p]|] eqn:E; [|constructor].
      apply listed_keys_nodup. eapply Hok; [|exact E]. lia.
    - apply NoDup_seqZ. }
  rewrite <- (ztake_zdrop MAX_VOLUMES (all_partitions create_file)), bind_app in Hall.
  by apply NoDup_app in Hall as [? _].
Qed.

Lemma block_keys_distinct_witness :
  NoDup ((volume_enumerate demo_drives demo_letters).1 ≫= block_keys).
Proof.
  apply block_keys_distinct.
  - intros n devno bps parts Hn. unfold layout_of, demo_drives.
    repeat case_test; cbn; try discriminate; intros [= <- <- <-];
      (split; [repeat constructor; cbn; lia|repeat constructor; unfold apart; cbn; lia]).
  - intros n m d b1 p1 b2 p2. unfold layout_of, demo_drives.
    repeat case_test; cbn; try discriminate; intros; simplify_eq; congruence.
Defined.

(** [mount_point_mislabelled]: a volume mounted in a folder of another one is
    taken for the drive itself: only the first two characters of the mount path
    are kept, and the entry is given that drive's letter. *)
Theorem mount_point_mislabelled create_file disk offset rest wvols v :
  let w := mk_wvol (Some ([68; CH_COLON; CH_BACKSLASH] ++ rest)) true true (Some [(disk, offset)]) in
  NoDup (place <$> all_partitions create_file) →
  v ∈ ztake MAX_VOLUMES (all_partitions create_file) → starts_at disk offset v = true →
  set_name v [68; CH_COLON] ∈ (volume_enumerate create_file (wvols ++ [w])).1.
Proof.
  intros w Hn Hv Hs. unfold volume_enumerate. cbn [fst].
  rewrite (scan_drives_spec create_file 16 0 []) by done. cbn [app].
  change (seqZ 0 (Z.of_nat 16) ≫= drive_partitions create_file) with (all_partitions create_file).
  rewrite name_volumes_map by
    (unfold ztake; rewrite fmap_take; eapply sublist_NoDup; [exact Hn|apply sublist_take]).
  replace (set_name v [68; CH_COLON]) with (set_name v (final_name (wvols ++ [w]) v)).
  - apply (list_elem_of_fmap_2 (λ v, set_name v (final_name (wvols ++ [w]) v))). exact Hv.
  - unfold final_name. rewrite foldl_app. cbn [foldl w letter_of wv_paths wv_extents wv_open wv_calloc app andb].
    by rewrite Hs.
Qed.
