(* ===== verification/Vss.v ===== *)
(** * Volume shadow copies (client/vss.c)

    The Windows calls are the script [ans]: [ans n] is what the n-th call
    answers, an HRESULT (negative: FAILED), or for [calloc], [LoadLibraryA] and
    [GetProcAddress] a pointer (0: NULL).  [async n] tells whether the call hands
    out an object (an asynchronous call its IVssAsync, [Next] a snapshot), [prop n]
    are the strings of a snapshot (original volume, device object, in narrow
    characters as the fields hold them, empty for NULL), [ident n] the identifier a
    call hands out, [systime n] what FileTimeToSystemTime makes of the creation
    time of a snapshot.  Every function
    threads the log of the calls with their answers, from which the resources
    still held can be read off. *)

From stdpp Require Import strings.
From S2P Require Import Prelude Json.

Definition VSS_MAX_VOLUMES : Z := 16.
Definition VSS_CTX_BACKUP : Z := 0.
Definition VSS_CTX_CLIENT_ACCESSIBLE : Z := 0x1d.
Definition VSS_VOLSNAP_ATTR_NO_WRITERS : Z := 0x10.
Definition RPC_E_CHANGED_MODE : Z := 0x80010106 - 2 ^ 32.

(** [VSS_ID] *)
Record guid := mk_guid { Data1 : Z; Data2 : Z; Data3 : Z; Data4 : list Z }.

#[export] Instance guid_eq_dec : EqDecision guid.
Proof. solve_decision. Defined.

(** [vss_snapshot_t] *)
Record vss_snapshot := mk_snap {
  sn_original_volume : list Z;
  sn_snapshot_path : list Z;
  sn_snapshot_id : guid;
  sn_valid : bool;
}.

(** [vss_context_t]; a null pointer is [None]. *)
Record vss_context := mk_vctx {
  vx_context : Z;
  vx_initialized : bool;
  vx_snapshot_set_started : bool;
}.

Inductive vcall :=
  | Calloc | Free | LoadLibrary | FreeLibrary | GetProc
  | CoInitialize | CoUninitialize
  | CreateComponents | Release
  | InitializeForBackup | SetContext (ctx : Z) | SetBackupState
  | GatherWriterMetadata | StartSnapshotSet | AddToSnapshotSet (volume : list Z)
  | PrepareForBackup | DoSnapshotSet | GetSnapshotProperties (id : guid) | FreeSnapshotProperties | BackupComplete
  | AsyncWait | AsyncRelease
  | Query | EnumNext | EnumRelease
  | DeleteSnapshots (id : option guid).

#[export] Instance vcall_eq_dec : EqDecision vcall.
Proof. solve_decision. Defined.

(** A call, its answer, and whether it handed out an object. *)
Definition vlog : Type := list (vcall * Z * bool).

Definition FAILED (hr : Z) : bool := hr <? 0.

Section Vss.
Context (ans : nat → Z) (async : nat → bool) (prop : nat → list Z * list Z) (ident : nat → guid).

(** The next call. *)
Definition call (c : vcall) (s : vlog) : Z * vlog := (ans (length s), s ++ [(c, ans (length s), false)]).

(** A call without an answer of interest. *)
Definition run (cs : list vcall) (s : vlog) : vlog := foldl (λ s c, (call c s).2) s cs.

(** A call that may hand out an object; only one that succeeds does. *)
Definition call_async (c : vcall) (s : vlog) : Z * bool * vlog :=
  let hr := ans (length s) in
  let a := negb (FAILED hr) && async (length s) in
  (hr, a, s ++ [(c, hr, a)]).

Definition wait_async (a : bool) (s : vlog) : vlog := if a then run [AsyncWait; AsyncRelease] s else s.

(** ** Setting up and cleaning up *)

Definition vss_init_ex (context : Z) (s : vlog) : option vss_context * vlog :=
  let '(p, s) := call Calloc s in
  if p =? 0 then (None, s)
  else
    let '(dll, s) := call LoadLibrary s in
    if dll =? 0 then (None, run [Free] s)
    else
      let '(fn, s) := call GetProc s in
      let '(fn, s) := if fn =? 0 then call GetProc s else (fn, s) in
      if fn =? 0 then (None, run [FreeLibrary; Free] s)
      else
        let '(hr, s) := call CoInitialize s in
        if FAILED hr && negb (hr =? RPC_E_CHANGED_MODE) then (None, run [FreeLibrary; Free] s)
        else
          let '(hr, s) := call CreateComponents s in
          if FAILED hr then (None, run [CoUninitialize; FreeLibrary; Free] s)
          else
            let '(hr, s) := call InitializeForBackup s in
            if FAILED hr then (None, run [Release; CoUninitialize; FreeLibrary; Free] s)
            else if negb (context =? VSS_CTX_BACKUP) then
              let '(hr, s) := call (SetContext context) s in
              if FAILED hr then (None, run [Release; CoUninitialize; FreeLibrary; Free] s)
              else (Some (mk_vctx context true false), s)
            else (Some (mk_vctx context true false), s).

Definition vss_init (s : vlog) : option vss_context * vlog := vss_init_ex VSS_CTX_BACKUP s.

Definition vss_cleanup (ctx : option vss_context) (s : vlog) : vlog :=
  match ctx with
  | None => s
  | Some _ => run [Release; CoUninitialize; FreeLibrary; Free] s
  end.

(** ** Creating snapshots *)

Definition persistent (ctx : vss_context) : bool :=
  negb (Z.land (vx_context ctx) VSS_VOLSNAP_ATTR_NO_WRITERS =? 0).

(** ["%s\\"] in 64 bytes *)
Definition with_slash (volume : list Z) : list Z := ztake 63 (volume ++ [CH_BACKSLASH]).

(** The volumes that could be added, by their snapshot identifiers. *)
Fixpoint add_volumes (volumes : list (list Z)) (s : vlog) : list guid * vlog :=
  match volumes with
  | [] => ([], s)
  | v :: r =>
      let id := ident (length s) in
      let '(hr, s) := call (AddToSnapshotSet (with_slash v)) s in
      if FAILED hr then add_volumes r s
      else let '(ids, s) := add_volumes r s in (id :: ids, s)
  end.

(** The properties of a snapshot: at most [n] further attempts. *)
Fixpoint get_properties (n : nat) (id : guid) (s : vlog) : option (list Z * list Z) * vlog :=
  let p := prop (length s) in
  let '(hr, s) := call (GetSnapshotProperties id) s in
  if FAILED hr then
    match n with
    | O => (None, s)
    | S n' => get_properties n' id s
    end
  else (Some p, s).

Fixpoint query_properties (ids : list guid) (s : vlog) : list vss_snapshot * vlog :=
  match ids with
  | [] => ([], s)
  | id :: r =>
      let '(p, s) := get_properties 20 id s in
      match p with
      | Some (orig, path) =>
          let '(snaps, s) := query_properties r (run [FreeSnapshotProperties] s) in
          (mk_snap orig path id true :: snaps, s)
      | None => query_properties r s
      end
  end.

(** [GatherWriterMetadata], whose failure is only logged. *)
Definition gather (s : vlog) : vlog :=
  let '(_, a, s) := call_async GatherWriterMetadata s in wait_async a s.

(** The result ([None]: -1), the context and the log.  [volumes] is the array up
    to its NULL. *)
Definition vss_create_snapshots (ctx : option vss_context) (volumes : list (list Z)) (s : vlog)
    : option (list vss_snapshot) * option vss_context * vlog :=
  match ctx with
  | None => (None, ctx, s)
  | Some x =>
      if negb (vx_initialized x) then (None, ctx, s)
      else
        let '(hr, s) := call SetBackupState s in
        if FAILED hr then (None, ctx, s)
        else
          let s := if persistent x then s else gather s in
          let '(hr, s) := call StartSnapshotSet s in
          if FAILED hr then (None, ctx, s)
          else
            let ctx := Some (mk_vctx (vx_context x) (vx_initialized x) true) in
            let '(ids, s) := add_volumes (ztake VSS_MAX_VOLUMES volumes) s in
            if bool_decide (ids = []) then (None, ctx, s)
            else
              let '(hr, a, s) := if persistent x then (0, false, s) else call_async PrepareForBackup s in
              if FAILED hr then (None, ctx, s)
              else
                let s := wait_async a s in
                let '(hr, a, s) := call_async DoSnapshotSet s in
                if FAILED hr then (None, ctx, s)
                else
                  let s := wait_async a s in
                  let '(snaps, s) := query_properties ids s in
                  (Some snaps, ctx, s)
  end.

Definition vss_backup_complete (ctx : option vss_context) (s : vlog) : Z * vlog :=
  match ctx with
  | None => (-1, s)
  | Some x =>
      if persistent x then (0, s)
      else
        let '(hr, a, s) := call_async BackupComplete s in
        if FAILED hr then (-1, s) else (0, wait_async a s)
  end.

Definition vss_snapshot_device_path (snap : vss_snapshot) : option (list Z) :=
  if sn_valid snap then Some (sn_snapshot_path snap) else None.

(** ** Listing and deleting *)

(** [vss_snapshot_info_t] *)
Record vss_snapshot_info := mk_info {
  si_snapshot_id_str : list Z;
  si_original_volume : list Z;
  si_snapshot_path : list Z;
  si_creation_time : list Z;
  si_snapshot_id : guid;
}.

(** ["{%08lx-%04x-%04x-%02x%02x-%02x%02x%02x%02x%02x%02x}"] *)
Definition guid_str (g : guid) : list Z :=
  [123] ++ print_hex 8 (Data1 g) ++ [CH_MINUS] ++ print_hex 4 (Data2 g) ++ [CH_MINUS] ++ print_hex 4 (Data3 g) ++
  [CH_MINUS] ++ (ztake 2 (Data4 g) ≫= print_hex 2) ++ [CH_MINUS] ++ (zdrop 2 (Data4 g) ≫= print_hex 2) ++ [125].

(** Year, month, day, hour, minute, second of a SYSTEMTIME *)
Definition time_str (t : option (Z * Z * Z * Z * Z * Z)) : list Z :=
  match t with
  | Some (y, mo, d, h, mi, sec) =>
      print_padded 4 y ++ [CH_MINUS] ++ print_padded 2 mo ++ [CH_MINUS] ++ print_padded 2 d ++ [CH_SPACE] ++
      print_padded 2 h ++ [CH_COLON] ++ print_padded 2 mi ++ [CH_COLON] ++ print_padded 2 sec
  | None => []
  end.

(** [while (count < max_count)] *)
Fixpoint enum_loop (systime : nat → option (Z * Z * Z * Z * Z * Z)) (n : nat) (s : vlog)
    : list vss_snapshot_info * vlog :=
  match n with
  | O => ([], s)
  | S n' =>
      let k := length s in
      let '(hr, fetched, s) := call_async EnumNext s in
      if FAILED hr || negb fetched then ([], s)
      else
        let '(l, s) := enum_loop systime n' s in
        (mk_info (guid_str (ident k)) (prop k).1 (prop k).2 (time_str (systime k)) (ident k) :: l, s)
  end.

Definition vss_query_snapshots (systime : nat → option (Z * Z * Z * Z * Z * Z)) (max_count : Z) (s : vlog)
    : option (list vss_snapshot_info) * vlog :=
  if max_count <=? 0 then (None, s)
  else
    match vss_init_ex VSS_CTX_CLIENT_ACCESSIBLE s with
    | (None, s) => (None, s)
    | (Some x, s) =>
        let '(hr, s) := call Query s in
        if FAILED hr then (None, vss_cleanup (Some x) s)
        else
          let '(l, s) := enum_loop systime (Z.to_nat max_count) s in
          (Some l, vss_cleanup (Some x) (run [EnumRelease] s))
    end.

(** The text handed to [CLSIDFromString]. *)
Definition guid_text (id : list Z) : list Z :=
  match id with
  | 123 :: _ => ztake 63 id
  | _ => ztake 63 (123 :: id ++ [125])
  end.

(** [clsid]: what [CLSIDFromString] makes of a text; [deleted n]: how many
    snapshots the n-th call deleted. *)
Definition vss_delete_snapshot (clsid : list Z → option guid) (deleted : nat → Z) (id : list Z) (s : vlog) : Z * vlog :=
  match vss_init_ex VSS_CTX_CLIENT_ACCESSIBLE s with
  | (None, s) => (-1, s)
  | (Some x, s) =>
      match clsid (guid_text id) with
      | None => (-1, vss_cleanup (Some x) s)
      | Some g =>
          let k := length s in
          let '(hr, s) := call (DeleteSnapshots (Some g)) s in
          if FAILED hr then (-1, vss_cleanup (Some x) s)
          else (s32 (deleted k), vss_cleanup (Some x) s)
      end
  end.

Definition vss_delete_all_snapshots (deleted : nat → Z) (s : vlog) : Z * vlog :=
  match vss_init_ex VSS_CTX_CLIENT_ACCESSIBLE s with
  | (None, s) => (-1, s)
  | (Some x, s) =>
      let k := length s in
      let '(hr, s) := call (DeleteSnapshots None) s in
      if FAILED hr then (-1, vss_cleanup (Some x) s)
      else (s32 (deleted k), vss_cleanup (Some x) s)
  end.

End Vss.

(** ** Other platforms

    The stubs: no context is ever handed out and every operation fails. *)

Definition vss_init_posix : option vss_context := None.
Definition vss_init_ex_posix (context : Z) : option vss_context := None.
Definition vss_create_snapshots_posix (ctx : option vss_context) (volumes : list (list Z)) : option (list vss_snapshot) := None.
Definition vss_backup_complete_posix (ctx : option vss_context) : Z := -1.
Definition vss_snapshot_device_path_posix (snap : vss_snapshot) : option (list Z) := None.
Definition vss_query_snapshots_posix (max_count : Z) : option (list vss_snapshot_info) := None.
Definition vss_delete_snapshot_posix (id : list Z) : Z := -1.
Definition vss_delete_all_snapshots_posix : Z := -1.

(** ** Resources held *)

Inductive resource := Memory | Library | Com | Components | Enumerator | Async | Strings.

#[export] Instance resource_eq_dec : EqDecision resource.
Proof. solve_decision. Defined.

(** What one call adds to or takes from a resource. *)
Definition delta (r : resource) (e : vcall * Z * bool) : Z :=
  match e.1.1, r with
  | Calloc, Memory => if e.1.2 =? 0 then 0 else 1
  | Free, Memory => -1
  | LoadLibrary, Library => if e.1.2 =? 0 then 0 else 1
  | FreeLibrary, Library => -1
  | CoInitialize, Com => if FAILED e.1.2 then 0 else 1
  | CoUninitialize, Com => -1
  | CreateComponents, Components => if FAILED e.1.2 then 0 else 1
  | Release, Components => -1
  | Query, Enumerator => if FAILED e.1.2 then 0 else 1
  | EnumRelease, Enumerator => -1
  | GetSnapshotProperties _, Strings => if FAILED e.1.2 then 0 else 1
  | FreeSnapshotProperties, Strings => -1
  | EnumNext, Strings => if e.2 then 1 else 0
  | EnumNext, Async => 0
  | AsyncRelease, Async => -1
  | _, Async => if e.2 then 1 else 0
  | _, _ => 0
  end.

Definition held (r : resource) (s : vlog) : Z := foldr (λ e n, delta r e + n) 0 s.

(** The calls of [CoInitializeEx] answered by RPC_E_CHANGED_MODE: COM has not
    been initialised by them. *)
Definition conflict (e : vcall * Z * bool) : Z :=
  match e.1.1 with CoInitialize => if e.1.2 =? RPC_E_CHANGED_MODE then 1 else 0 | _ => 0 end.

Definition conflicts (s : vlog) : Z := foldr (λ e n, conflict e + n) 0 s.

(** What the code takes itself to hold. *)
Definition believed (r : resource) (s : vlog) : Z :=
  held r s + (if bool_decide (r = Com) then conflicts s else 0).

Lemma held_snoc r s e : held r (s ++ [e]) = held r s + delta r e.
Proof. unfold held. induction s as [|x s IH]; cbn; lia. Qed.

Lemma conflicts_snoc s e : conflicts (s ++ [e]) = conflicts s + conflict e.
Proof. unfold conflicts. induction s as [|x s IH]; cbn; lia. Qed.

Definition belief (r : resource) (e : vcall * Z * bool) : Z :=
  delta r e + (if bool_decide (r = Com) then conflict e else 0).

Lemma believed_snoc r s e : believed r (s ++ [e]) = believed r s + belief r e.
Proof. unfold believed, belief. rewrite held_snoc, conflicts_snoc. case_bool_decide; lia. Qed.

Create Rewrite HintDb vss.
#[export] Hint Rewrite believed_snoc : vss.

(** What a context stands for. *)
Definition owned (r : resource) : Z :=
  match r with Memory | Library | Com | Components => 1 | _ => 0 end.

Definition owned_by {A} (r : resource) (x : option A) : Z := if x then owned r else 0.

Section Balance.
Context (ans : nat → Z) (async : nat → bool) (prop : nat → list Z * list Z) (ident : nat → guid).

Lemma call_spec c s a s' : call ans c s = (a, s') → s' = s ++ [(c, a, false)].
Proof. by intros [= <- <-]. Qed.

Lemma call_async_spec c s hr a s' :
  call_async ans async c s = (hr, a, s') → s' = s ++ [(c, hr, a)] ∧ (FAILED hr = true → a = false).
Proof. intros [= <- <- <-]. split; [done|]. by intros ->. Qed.

(** Names the next call's answer and log. *)
Local Ltac next :=
  match goal with
  | |- context [call ans ?c ?s] =>
      let a := fresh "a" in let s' := fresh "s" in let E := fresh "E" in
      destruct (call ans c s) as [a s'] eqn:E; apply call_spec in E
  | |- context [if ?b then _ else _] =>
      lazymatch type of b with bool => let E := fresh "T" in destruct b eqn:E end
  end.

(** Arithmetic on the answers of the log. *)
Local Ltac tally r :=
  subst; unfold run, wait_async; cbn [foldl call snd]; autorewrite with vss; unfold believed, belief, delta, conflict, FAILED in *;
  destruct r; cbn [fst snd owned_by owned] in *;
  repeat case_bool_decide; try done; unfold RPC_E_CHANGED_MODE in *; repeat case_test; bool_to_prop; try lia.

Lemma init_believed r context s x s' :
  vss_init_ex ans context s = (x, s') → believed r s' = believed r s + owned_by r x.
Proof.
  enough (believed r (vss_init_ex ans context s).2 = believed r s + owned_by r (vss_init_ex ans context s).1) as Hx
    by (intros E; by rewrite E in Hx).
  unfold vss_init_ex. repeat next; cbn [fst snd]; tally r.
Qed.

Lemma cleanup_believed r (x : option vss_context) s :
  believed r (vss_cleanup ans x s) = believed r s - owned_by r x.
Proof. unfold vss_cleanup. destruct x; [|cbn; lia]. tally r. Qed.

(** The asynchronous calls of the module. *)
Definition async_calls : list vcall := [GatherWriterMetadata; PrepareForBackup; DoSnapshotSet; BackupComplete].

Lemma async_believed r c s hr a s' :
  call_async ans async c s = (hr, a, s') → c ∈ async_calls →
  (FAILED hr = true → believed r s' = believed r s) ∧ believed r (wait_async ans a s') = believed r s.
Proof.
  intros [-> Ha]%call_async_spec Hc.
  assert (c = GatherWriterMetadata ∨ c = PrepareForBackup ∨ c = DoSnapshotSet ∨ c = BackupComplete) as Hc'
    by (unfold async_calls in Hc; set_solver).
  assert (Hb : ∀ a, belief r (c, hr, a) = if r is Async then if a then 1 else 0 else 0).
  { intros b. unfold belief, delta, conflict. destruct Hc' as [->|[->|[->| ->]]]; by destruct r, b. }
  split.
  - intros Hf. rewrite (Ha Hf), believed_snoc, Hb. destruct r; lia.
  - destruct a; unfold wait_async, run; cbn [foldl call snd]; autorewrite with vss; rewrite Hb; [|destruct r; lia].
    unfold belief, delta, conflict. destruct r; cbn [fst snd]; repeat case_bool_decide; (done || lia).
Qed.

Lemma add_believed r vs : ∀ s, believed r (add_volumes ans ident vs s).2 = believed r s.
Proof.
  induction vs as [|v vs IH]; intros s; cbn [add_volumes]; [done|].
  next. specialize (IH s0). destruct (add_volumes ans ident vs s0) as [ids s1]. cbn [snd] in IH.
  next; cbn [snd]; rewrite IH; tally r.
Qed.

Lemma properties_believed r n id : ∀ s,
  let '(p, s') := get_properties ans prop n id s in
  believed r s' = believed r s + (if p then if bool_decide (r = Strings) then 1 else 0 else 0).
Proof.
  induction n as [|n IH]; intros s; cbn [get_properties]; next.
  - next; tally r.
  - specialize (IH s0). destruct (get_properties ans prop n id s0) as [p s1]. next; [rewrite IH|]; tally r.
Qed.

Lemma query_believed r ids : ∀ s, believed r (query_properties ans prop ids s).2 = believed r s.
Proof.
  induction ids as [|id ids IH]; intros s; cbn [query_properties]; [done|].
  pose proof (properties_believed r 20 id s) as Hp. destruct (get_properties ans prop 20 id s) as [p s1].
  destruct p as [[orig path]|]; [|rewrite IH; lia].
  specialize (IH (run ans [FreeSnapshotProperties] s1)).
  destruct (query_properties ans prop ids (run ans [FreeSnapshotProperties] s1)) as [snaps s2]. cbn [snd] in *.
  rewrite IH. transitivity (believed r s1 - (if bool_decide (r = Strings) then 1 else 0)); [|lia]. clear. tally r.
Qed.

Lemma create_believed r x vs s : believed r (vss_create_snapshots ans async prop ident x vs s).2 = believed r s.
Proof.
  unfold vss_create_snapshots. destruct x as [x|]; [|done].
  destruct (negb (vx_initialized x)); [done|]. next. destruct (FAILED a); [cbn [snd]; tally r|].
  assert (H0 : believed r (if persistent x then s0 else gather ans async s0) = believed r s).
  { transitivity (believed r s0); [|tally r]. destruct (persistent x); [done|]. unfold gather.
    destruct (call_async ans async GatherWriterMetadata s0) as [[hr a'] s1] eqn:Eg.
    eapply async_believed; [exact Eg|set_solver]. }
  set (s1 := if persistent x then s0 else gather ans async s0) in *. clearbody s1.
  next. assert (H1 : believed r s2 = believed r s) by (rewrite <- H0; tally r).
  destruct (FAILED _); [done|]. pose proof (add_believed r (ztake VSS_MAX_VOLUMES vs) s2) as H2.
  destruct (add_volumes ans ident (ztake VSS_MAX_VOLUMES vs) s2) as [ids s3]. cbn [snd] in H2.
  destruct (bool_decide (ids = [])); [cbn [snd]; congruence|].
  destruct (if persistent x then (0, false, s3) else call_async ans async PrepareForBackup s3) as [[hr b] s4] eqn:Ep.
  assert (H4 : (FAILED hr = true → believed r s4 = believed r s) ∧ believed r (wait_async ans b s4) = believed r s).
  { rewrite <- H1, <- H2. destruct (persistent x); [by injection Ep as <- <- <-|].
    eapply async_believed; [exact Ep|set_solver]. }
  destruct H4 as [H4 H4']. destruct (FAILED hr); [by apply H4|].
  destruct (call_async ans async DoSnapshotSet (wait_async ans b s4)) as [[hr2 b2] s5] eqn:Ed.
  destruct (async_believed r _ _ _ _ _ Ed ltac:(set_solver)) as [H5 H5']. rewrite H4' in H5, H5'.
  destruct (FAILED hr2); [by apply H5|].
  pose proof (query_believed r ids (wait_async ans b2 s5)) as H6.
  destruct (query_properties ans prop ids (wait_async ans b2 s5)) as [snaps s6]. cbn [snd] in *. congruence.
Qed.

Lemma complete_believed r x s : believed r (vss_backup_complete ans async x s).2 = believed r s.
Proof.
  unfold vss_backup_complete. destruct x as [x|]; [|done]. destruct (persistent x); [done|].
  destruct (call_async ans async BackupComplete s) as [[hr a] s'] eqn:E.
  destruct (async_believed r _ _ _ _ _ E ltac:(set_solver)) as [H1 H2].
  destruct (FAILED hr); [by apply H1|done].
Qed.

Lemma enum_believed r systime n : ∀ s,
  let '(l, s') := enum_loop ans async prop ident systime n s in
  believed r s' = believed r s + (if bool_decide (r = Strings) then len l else 0).
Proof.
  induction n as [|n IH]; intros s; cbn [enum_loop]; [cbn; len_norm; case_bool_decide; lia|].
  destruct (call_async ans async EnumNext s) as [[hr b] s1] eqn:E. apply call_async_spec in E as [-> Hb].
  specialize (IH (s ++ [(EnumNext, hr, b)])).
  destruct (enum_loop ans async prop ident systime n (s ++ [(EnumNext, hr, b)])) as [l s2].
  rewrite believed_snoc in *. unfold belief, delta, conflict in *. cbn [fst snd] in *.
  destruct (FAILED hr), b; cbn [orb negb]; try (by specialize (Hb eq_refl)); rewrite ?believed_snoc, ?IH;
    unfold belief, delta, conflict; cbn [fst snd]; len_norm; destruct r; repeat case_bool_decide; (done || lia).
Qed.

Lemma query_snapshots_believed r systime max_count s :
  believed r (vss_query_snapshots ans async prop ident systime max_count s).2 = believed r s +
    (if bool_decide (r = Strings) then len (default [] (vss_query_snapshots ans async prop ident systime max_count s).1) else 0).
Proof.
  unfold vss_query_snapshots. destruct (max_count <=? 0); [cbn; len_norm; case_bool_decide; lia|].
  destruct (vss_init_ex ans VSS_CTX_CLIENT_ACCESSIBLE s) as [[x|] s1] eqn:E; apply (init_believed r) in E;
    [|cbn in *; len_norm; case_bool_decide; lia].
  destruct (call ans Query s1) as [hr s2] eqn:Ec. apply call_spec in Ec as ->.
  destruct (FAILED hr) eqn:Ef.
  - cbn [snd fst]. rewrite cleanup_believed, believed_snoc, E. unfold belief, delta, conflict. cbn [fst snd]. rewrite Ef.
    destruct r; repeat case_bool_decide; (done || cbn; len_norm; lia).
  - pose proof (enum_believed r systime (Z.to_nat max_count) (s1 ++ [(Query, hr, false)])) as He.
    destruct (enum_loop ans async prop ident systime (Z.to_nat max_count) (s1 ++ [(Query, hr, false)])) as [l s3].
    cbn [snd fst default] in *. rewrite cleanup_believed. unfold run. cbn [foldl call snd].
    rewrite believed_snoc, He, believed_snoc, E. unfold belief, delta, conflict. cbn [fst snd]. rewrite Ef.
    destruct r; repeat case_bool_decide; (done || cbn; len_norm; lia).
Qed.

End Balance.

(** ** Properties *)

(** A backup as the commands run it: set up, create, complete, clean up. *)
Definition backup_session ans async prop ident context volumes s : vlog :=
  let '(x, s) := vss_init_ex ans context s in
  let '(_, x, s) := vss_create_snapshots ans async prop ident x volumes s in
  let s := (vss_backup_complete ans async x s).2 in
  vss_cleanup ans x s.

Lemma create_keeps_context ans async prop ident x vs s :
  is_Some (vss_create_snapshots ans async prop ident x vs s).1.2 ↔ is_Some x.
Proof.
  unfold vss_create_snapshots. destruct x as [x|]; [|done].
  repeat match goal with
  | |- context [let '(_, _) := ?e in _] => destruct e as [? ?]
  | |- context [if ?b then _ else _] => destruct b
  end; cbn; split; by eexists.
Qed.

(** C22 (vss_balanced): whatever the Windows calls answer, a backup session, a query
    and a deletion give back what they acquired on every error path: memory, the
    library, the backup components, enumerators, asynchronous operations and the
    strings of snapshot properties.  There are two exceptions.  When
    [CoInitializeEx] answers RPC_E_CHANGED_MODE, which does not initialise anything,
    the code goes on and still calls [CoUninitialize], one time too many.  And a
    query never frees the strings of the snapshots it lists. *)
Theorem vss_balanced ans async prop ident systime clsid deleted context volumes max_count id r s :
  let balanced n s' := held r s' = held r s - (if bool_decide (r = Com) then conflicts s' - conflicts s else 0)
                                   + (if bool_decide (r = Strings) then n else 0) in
  balanced 0 (backup_session ans async prop ident context volumes s) ∧
  balanced (len (default [] (vss_query_snapshots ans async prop ident systime max_count s).1))
    (vss_query_snapshots ans async prop ident systime max_count s).2 ∧
  balanced 0 (vss_delete_snapshot ans clsid deleted id s).2 ∧
  balanced 0 (vss_delete_all_snapshots ans deleted s).2.
Proof.
  assert (Hb : ∀ n s', believed r s' = believed r s + (if bool_decide (r = Strings) then n else 0) →
    held r s' = held r s - (if bool_decide (r = Com) then conflicts s' - conflicts s else 0)
                + (if bool_decide (r = Strings) then n else 0)).
  { intros n s'. unfold believed. case_bool_decide; lia. }
  assert (Hb0 : ∀ s', believed r s' = believed r s →
    held r s' = held r s - (if bool_decide (r = Com) then conflicts s' - conflicts s else 0)
                + (if bool_decide (r = Strings) then 0 else 0)).
  { intros s' Hs. apply Hb. rewrite Hs. case_bool_decide; lia. }
  assert (Hq : ∀ a x s2 c, vss_init_ex ans VSS_CTX_CLIENT_ACCESSIBLE s = (Some x, s2) →
    c = DeleteSnapshots a → ∀ hr, believed r (vss_cleanup ans (Some x) (s2 ++ [(c, hr, false)])) = believed r s).
  { intros a x s2 c E -> hr. apply (init_believed ans r) in E. rewrite cleanup_believed, believed_snoc, E.
    unfold belief, delta, conflict. destruct r; cbn [fst snd]; repeat case_bool_decide; (done || lia). }
  cbv zeta. split; [|split; [|split]]; [apply Hb0| |apply Hb0|apply Hb0].
  - unfold backup_session. destruct (vss_init_ex ans context s) as [x s1] eqn:E. apply (init_believed ans r) in E.
    pose proof (create_believed ans async prop ident r x volumes s1) as H1.
    pose proof (create_keeps_context ans async prop ident x volumes s1) as H2.
    destruct (vss_create_snapshots ans async prop ident x volumes s1) as [[res y] s2]. cbn [fst snd] in *.
    rewrite cleanup_believed, complete_believed, H1, E.
    destruct x, y; cbn; try lia; [destruct H2 as [_ [? [=]]]|destruct H2 as [[? [=]] _]]; by eexists.
  - apply Hb. apply query_snapshots_believed.
  - unfold vss_delete_snapshot. destruct (vss_init_ex ans VSS_CTX_CLIENT_ACCESSIBLE s) as [[x|] s1] eqn:E.
    + destruct (clsid (guid_text id)) as [g|]; [|cbn [snd]; apply (init_believed ans r) in E; rewrite cleanup_believed, E; cbn; lia].
      destruct (call ans (DeleteSnapshots (Some g)) s1) as [hr s2] eqn:Ec. apply call_spec in Ec as ->.
      destruct (FAILED hr); cbn [snd]; by eapply Hq.
    + apply (init_believed ans r) in E. cbn in *. lia.
  - unfold vss_delete_all_snapshots. destruct (vss_init_ex ans VSS_CTX_CLIENT_ACCESSIBLE s) as [[x|] s1] eqn:E.
    + destruct (call ans (DeleteSnapshots None) s1) as [hr s2] eqn:Ec. apply call_spec in Ec as ->.
      destruct (FAILED hr); cbn [snd]; by eapply Hq.
    + apply (init_believed ans r) in E. cbn in *. lia.
Qed.

(** ** The order of the calls *)

Inductive phase := PReady | PState | PStarted (added : bool) | PPrepared | PDone | PFailed.

(** What may follow in the life of a snapshot set. *)
Definition protocol (pers : bool) (p : phase) (e : vcall * Z * bool) : option phase :=
  let ok q := if FAILED e.1.2 then PFailed else q in
  match e.1.1, p with
  | SetBackupState, PReady => Some (ok PState)
  | GatherWriterMetadata, PState => if pers then None else Some PState
  | StartSnapshotSet, PState => Some (ok (PStarted false))
  | AddToSnapshotSet _, PStarted b => Some (PStarted (b || negb (FAILED e.1.2)))
  | PrepareForBackup, PStarted true => if pers then None else Some (ok PPrepared)
  | DoSnapshotSet, PStarted true => if pers then Some (ok PDone) else None
  | DoSnapshotSet, PPrepared => Some (ok PDone)
  | (GetSnapshotProperties _ | FreeSnapshotProperties), PDone => Some PDone
  | (AsyncWait | AsyncRelease), PFailed => None
  | (AsyncWait | AsyncRelease), q => Some q
  | _, _ => None
  end.

Fixpoint follow (pers : bool) (p : phase) (l : vlog) : option phase :=
  match l with
  | [] => Some p
  | e :: r => p' ← protocol pers p e; follow pers p' r
  end.

(** The calls between two logs lead from one phase to another. *)
Definition leads (pers : bool) (p : phase) (s : vlog) (q : phase) (s' : vlog) : Prop :=
  ∃ l, s' = s ++ l ∧ follow pers p l = Some q.

Lemma leads_refl pers p s : leads pers p s p s.
Proof. exists []. by rewrite app_nil_r. Qed.

Lemma leads_trans pers p s q s1 r s2 : leads pers p s q s1 → leads pers q s1 r s2 → leads pers p s r s2.
Proof.
  intros (l1 & -> & H1) (l2 & -> & H2). exists (l1 ++ l2). rewrite app_assoc. split; [done|].
  revert p H1. induction l1 as [|e l1 IH]; cbn; intros p H1; [by injection H1 as ->|].
  destruct (protocol pers p e) as [p'|]; [|done]. by apply IH.
Qed.

Lemma leads_call pers p s e q : protocol pers p e = Some q → leads pers p s q (s ++ [e]).
Proof. intros H. exists [e]. split; [done|]. cbn. by rewrite H. Qed.

Section Order.
Context (ans : nat → Z) (async : nat → bool) (prop : nat → list Z * list Z) (ident : nat → guid).

Lemma leads_wait pers p a s : p ≠ PFailed → leads pers p s p (wait_async ans a s).
Proof.
  intros Hp. destruct a; [|apply leads_refl]. unfold wait_async, run. cbn [foldl call snd].
  eapply leads_trans; apply leads_call; by destruct p.
Qed.

Lemma leads_add pers vs : ∀ b s,
  let '(ids, s') := add_volumes ans ident vs s in
  leads pers (PStarted b) s (PStarted (b || negb (bool_decide (ids = [])))) s' ∧ len ids ≤ len vs.
Proof.
  induction vs as [|v vs IH]; intros b s; cbn [add_volumes].
  - rewrite bool_decide_true, orb_false_r by done. split; [apply leads_refl|done].
  - destruct (call ans (AddToSnapshotSet (with_slash v)) s) as [hr s1] eqn:E. apply call_spec in E as ->.
    assert (H1 : leads pers (PStarted b) s (PStarted (b || negb (FAILED hr))) (s ++ [(AddToSnapshotSet (with_slash v), hr, false)]))
      by (by apply leads_call).
    specialize (IH (b || negb (FAILED hr)) (s ++ [(AddToSnapshotSet (with_slash v), hr, false)])).
    destruct (add_volumes ans ident vs _) as [ids s2]. destruct IH as [IH Hl]. len_norm.
    destruct (FAILED hr); cbn [negb] in *; rewrite ?orb_false_r in *.
    + split; [by eapply leads_trans|lia].
    + rewrite bool_decide_false by done. rewrite orb_true_r in IH. cbn [negb orb] in IH. rewrite orb_true_r in *. split; [by eapply leads_trans|]. len_norm. lia.
Qed.

Lemma leads_properties pers n id : ∀ s, leads pers PDone s PDone (get_properties ans prop n id s).2.
Proof.
  induction n as [|n IH]; intros s; cbn [get_properties];
    destruct (call ans (GetSnapshotProperties id) s) as [hr s1] eqn:E; apply call_spec in E as ->;
    destruct (FAILED hr); cbn [snd]; try (by apply leads_call).
  eapply leads_trans; [|apply IH]. by apply leads_call.
Qed.

Lemma leads_query pers ids : ∀ s,
  let '(snaps, s') := query_properties ans prop ids s in
  leads pers PDone s PDone s' ∧ len snaps ≤ len ids ∧ Forall (λ sn, sn_valid sn = true ∧ sn_snapshot_id sn ∈ ids) snaps.
Proof.
  induction ids as [|id ids IH]; intros s; cbn [query_properties]; [split; [apply leads_refl|done]|].
  pose proof (leads_properties pers 20 id s) as Hp. destruct (get_properties ans prop 20 id s) as [p s1]. cbn [snd] in Hp.
  set (s1' := if p then run ans [FreeSnapshotProperties] s1 else s1).
  assert (Hp' : leads pers PDone s PDone s1').
  { unfold s1'. destruct p; [|done]. eapply leads_trans; [exact Hp|]. by apply leads_call. }
  specialize (IH s1'). destruct p as [[orig path]|]; cbn in s1'; subst s1';
    destruct (query_properties ans prop ids _) as [snaps s2]; destruct IH as (H1 & H2 & H3).
  all: assert (H3' : Forall (λ sn, sn_valid sn = true ∧ sn_snapshot_id sn ∈ id :: ids) snaps) by
    (eapply Forall_impl; [exact H3|]; cbn; intros sn [? ?]; split; [done|]; by apply elem_of_cons; right).
  all: split; [by eapply leads_trans|]; split; [len_norm; lia|]; [..|try done].
  constructor; [|done]. cbn. split; [done|]. by apply elem_of_cons; left.
Qed.

(** What the log of calls [l], the first of them the [k]-th, says: the volumes
    that were to be added; the identifiers Windows handed out for those that were;
    the snapshots it answered questions about. *)
Definition volume_tried (e : vcall * Z * bool) : list (list Z) :=
  match e.1.1 with AddToSnapshotSet v => [v] | _ => [] end.

Definition id_given (k : nat) (e : vcall * Z * bool) : list guid :=
  match e.1.1 with AddToSnapshotSet _ => if FAILED e.1.2 then [] else [ident k] | _ => [] end.

Definition snapshot_told (k : nat) (e : vcall * Z * bool) : list vss_snapshot :=
  match e.1.1 with
  | GetSnapshotProperties id => if FAILED e.1.2 then [] else [mk_snap (prop k).1 (prop k).2 id true]
  | _ => []
  end.

Fixpoint collect {A} (f : nat → vcall * Z * bool → list A) (k : nat) (l : vlog) : list A :=
  match l with
  | [] => []
  | e :: r => f k e ++ collect f (S k) r
  end.

Lemma collect_app {A} (f : nat → vcall * Z * bool → list A) l1 l2 : ∀ k,
  collect f k (l1 ++ l2) = collect f k l1 ++ collect f (k + length l1) l2.
Proof.
  induction l1 as [|e l1 IH]; intros k; cbn [collect app length]; [by rewrite Nat.add_0_r|].
  by rewrite IH, <- app_assoc, Nat.add_succ_r.
Qed.

(** How often a question about [id] has failed. *)
Definition unanswered (id : guid) (s : list (vcall * Z * bool)) : nat :=
  length (filter (λ e, e.1.1 = GetSnapshotProperties id ∧ FAILED e.1.2 = true) s).

Lemma unanswered_app id s l : unanswered id (s ++ l) = (unanswered id s + unanswered id l)%nat.
Proof. unfold unanswered. by rewrite filter_app, length_app. Qed.

(** The calls between two logs: the volumes tried, the identifiers given, the
    snapshots told. *)
Definition tells (s : vlog) (vs : list (list Z)) (ids : list guid) (snaps : list vss_snapshot) (s' : vlog) : Prop :=
  ∃ l, s' = s ++ l ∧ collect (λ _, volume_tried) (length s) l = vs ∧
       collect id_given (length s) l = ids ∧ collect snapshot_told (length s) l = snaps.

Lemma tells_trans s vs1 ids1 sn1 s1 vs2 ids2 sn2 s2 :
  tells s vs1 ids1 sn1 s1 → tells s1 vs2 ids2 sn2 s2 → tells s (vs1 ++ vs2) (ids1 ++ ids2) (sn1 ++ sn2) s2.
Proof.
  intros (l1 & -> & <- & <- & <-) (l2 & -> & <- & <- & <-). exists (l1 ++ l2).
  rewrite !collect_app, length_app. by rewrite app_assoc.
Qed.

Lemma tells_refl s : tells s [] [] [] s.
Proof. exists []. by rewrite app_nil_r. Qed.

Lemma tells_call s e : tells s (volume_tried e) (id_given (length s) e) (snapshot_told (length s) e) (s ++ [e]).
Proof. exists [e]. cbn. by rewrite !app_nil_r. Qed.

(** Nothing about volumes and snapshots. *)
Notation quiet s s' := (tells s [] [] [] s').

Definition silent (c : vcall) : bool :=
  match c with AddToSnapshotSet _ | GetSnapshotProperties _ => false | _ => true end.

Lemma quiet_call c hr a s : silent c = true → quiet s (s ++ [(c, hr, a)]).
Proof. intros Hc. pose proof (tells_call s (c, hr, a)) as Ht. by destruct c. Qed.

Lemma quiet_trans s s1 s2 : quiet s s1 → quiet s1 s2 → quiet s s2.
Proof. intros H1 H2. exact (tells_trans _ _ _ _ _ _ _ _ _ H1 H2). Qed.

Lemma tells_quiet s s1 vs ids snaps s2 : quiet s s1 → tells s1 vs ids snaps s2 → tells s vs ids snaps s2.
Proof. intros H1 H2. exact (tells_trans _ _ _ _ _ _ _ _ _ H1 H2). Qed.

Lemma quiet_wait a s : quiet s (wait_async ans a s).
Proof.
  destruct a; [|apply tells_refl]. unfold wait_async, run. cbn [foldl call snd].
  eapply quiet_trans; by apply quiet_call.
Qed.

(** The steps of the set-up, on either kind of context, say nothing of volumes and
    snapshots. *)
Definition goes (pers : bool) (p : phase) (s : vlog) (q : phase) (s' : vlog) : Prop :=
  leads pers p s q s' ∧ quiet s s'.

Lemma goes_trans pers p s q s1 r s2 : goes pers p s q s1 → goes pers q s1 r s2 → goes pers p s r s2.
Proof. intros [L1 Q1] [L2 Q2]. split; [by eapply leads_trans|by eapply quiet_trans]. Qed.

Lemma goes_call pers p c hr a s q :
  protocol pers p (c, hr, a) = Some q → silent c = true → goes pers p s q (s ++ [(c, hr, a)]).
Proof. intros Hp Hc. split; [by apply leads_call|by apply quiet_call]. Qed.

Lemma goes_wait pers p a s : p ≠ PFailed → goes pers p s p (wait_async ans a s).
Proof. intros Hp. split; [by apply leads_wait|apply quiet_wait]. Qed.

Lemma goes_gather pers s : goes pers PState s PState (if pers then s else gather ans async s).
Proof.
  destruct pers; [split; [apply leads_refl|apply tells_refl]|]. unfold gather.
  destruct (call_async ans async GatherWriterMetadata s) as [[hr a] s2] eqn:E. apply call_async_spec in E as [-> _].
  eapply goes_trans; [|by apply goes_wait]. by apply goes_call.
Qed.

Lemma goes_prepare (pers : bool) s hr a s' :
  (if pers then (0, false, s) else call_async ans async PrepareForBackup s) = (hr, a, s') →
  goes pers (PStarted true) s (if FAILED hr then PFailed else if pers then PStarted true else PPrepared) s'.
Proof.
  destruct pers; [intros [= <- <- <-]; split; [apply leads_refl|apply tells_refl]|].
  intros [-> _]%call_async_spec. by apply goes_call.
Qed.

Lemma goes_commit (pers : bool) s hr a s' :
  call_async ans async DoSnapshotSet s = (hr, a, s') →
  goes pers (if pers then PStarted true else PPrepared) s (if FAILED hr then PFailed else PDone) s'.
Proof. intros [-> _]%call_async_spec. apply goes_call; by destruct pers. Qed.

(** The commit of a set that may be prepared first, with the waits. *)
Lemma goes_done (pers : bool) s hr a s1 hr' a' s2 :
  (if pers then (0, false, s) else call_async ans async PrepareForBackup s) = (hr, a, s1) → FAILED hr = false →
  call_async ans async DoSnapshotSet (wait_async ans a s1) = (hr', a', s2) →
  goes pers (PStarted true) s (if FAILED hr' then PFailed else PDone) s2.
Proof.
  intros E1 Hhr E2. apply goes_prepare in E1. rewrite Hhr in E1. eapply goes_trans; [exact E1|].
  apply (goes_trans _ _ _ (if pers then PStarted true else PPrepared) (wait_async ans a s1));
    [apply goes_wait; by destruct pers|by apply (goes_commit pers) in E2].
Qed.

(** Every volume is tried, in order. *)
Lemma tells_add vs : ∀ s,
  let '(ids, s') := add_volumes ans ident vs s in tells s (with_slash <$> vs) ids [] s'.
Proof.
  induction vs as [|v vs IH]; intros s; cbn [add_volumes]; [apply tells_refl|].
  destruct (call ans (AddToSnapshotSet (with_slash v)) s) as [hr s1] eqn:E. apply call_spec in E as ->.
  pose proof (tells_call s (AddToSnapshotSet (with_slash v), hr, false)) as H1. cbn in H1.
  specialize (IH (s ++ [(AddToSnapshotSet (with_slash v), hr, false)])).
  destruct (FAILED hr); destruct (add_volumes ans ident vs _) as [ids s2]; exact (tells_trans _ _ _ _ _ _ _ _ _ H1 IH).
Qed.

(** One snapshot: what it answers, or that all the attempts failed. *)
Lemma tells_properties n id : ∀ s,
  let '(p, s') := get_properties ans prop n id s in
  tells s [] [] (if p is Some p then [mk_snap p.1 p.2 id true] else []) s' ∧
  (p = None → (unanswered id s + S n ≤ unanswered id s')%nat).
Proof.
  induction n as [|n IH]; intros s; cbn [get_properties];
    destruct (call ans (GetSnapshotProperties id) s) as [hr s1] eqn:E; apply call_spec in E as ->;
    pose proof (tells_call s (GetSnapshotProperties id, hr, false)) as H1; cbn in H1;
    (destruct (FAILED hr) eqn:Ef; [|split; [exact H1|done]]).
  - split; [exact H1|]. intros _. rewrite unanswered_app. unfold unanswered at 3.
    rewrite filter_cons_True by done. cbn. lia.
  - specialize (IH (s ++ [(GetSnapshotProperties id, hr, false)])). destruct (get_properties ans prop n id _) as [p s2].
    destruct IH as [H2 H3]. split; [exact (tells_quiet _ _ _ _ _ _ H1 H2)|]. intros Hp. specialize (H3 Hp).
    rewrite unanswered_app in H3. unfold unanswered at 2 in H3. rewrite filter_cons_True in H3 by done. cbn in H3. lia.
Qed.

Lemma tells_more s vs ids snaps s' id : tells s vs ids snaps s' → (unanswered id s ≤ unanswered id s')%nat.
Proof. intros (l & -> & _). rewrite unanswered_app. lia. Qed.

Lemma tells_query ids : ∀ s,
  let '(snaps, s') := query_properties ans prop ids s in
  tells s [] [] snaps s' ∧ (sn_snapshot_id <$> snaps) `sublist_of` ids ∧
  ∀ id, id ∈ ids → id ∈ sn_snapshot_id <$> snaps ∨ (unanswered id s + 21 ≤ unanswered id s')%nat.
Proof.
  induction ids as [|id ids IH]; intros s; cbn [query_properties].
  { split; [apply tells_refl|]. split; [done|]. by intros id ?%not_elem_of_nil. }
  pose proof (tells_properties 20 id s) as Hp. destruct (get_properties ans prop 20 id s) as [[[orig path]|] s1].
  - destruct Hp as [H1 _].
    assert (H1' : tells s [] [] [mk_snap orig path id true] (run ans [FreeSnapshotProperties] s1)).
    { eapply (tells_trans _ [] [] [_] _ [] [] []); [exact H1|]. by apply quiet_call. }
    specialize (IH (run ans [FreeSnapshotProperties] s1)). destruct (query_properties ans prop ids _) as [snaps s2].
    destruct IH as (H2 & H3 & H4). split; [exact (tells_trans _ _ _ _ _ _ _ _ _ H1' H2)|].
    split; [cbn; by apply sublist_skip|]. intros i [->|Hi]%elem_of_cons; [left; cbn; left|].
    destruct (H4 i Hi) as [Hs|Hs]; [left; by right|right]. apply (tells_more _ _ _ _ _ i) in H1'. lia.
  - destruct Hp as [H1 H0]. specialize (IH s1). destruct (query_properties ans prop ids s1) as [snaps s2].
    destruct IH as (H2 & H3 & H4). split; [exact (tells_quiet _ _ _ _ _ _ H1 H2)|]. split; [by apply sublist_cons|].
    intros i [->|Hi]%elem_of_cons.
    + right. specialize (H0 eq_refl). apply (tells_more _ _ _ _ _ id) in H2. lia.
    + destruct (H4 i Hi) as [Hs|Hs]; [by left|right]. apply (tells_more _ _ _ _ _ i) in H1. lia.
Qed.

(** What the function reports of a run that stops in phase [q]: on success, the
    calls since [s] have tried to add the first sixteen volumes, in order; every
    snapshot is one whose properties Windows has told, with the identifier it was
    given for a volume that was added, in the order of the volumes; and of an
    added volume that is missing, 21 questions have failed. *)
Definition reported (volumes : list (list Z)) (s s' : vlog) (q : phase) (res : option (list vss_snapshot)) : Prop :=
  (is_Some res ↔ q = PDone) ∧
  (∀ snaps, res = Some snaps →
     len snaps ≤ Z.min VSS_MAX_VOLUMES (len volumes) ∧ Forall (λ sn, sn_valid sn = true) snaps ∧
     ∃ ids, tells s (with_slash <$> ztake VSS_MAX_VOLUMES volumes) ids snaps s' ∧
       (sn_snapshot_id <$> snaps) `sublist_of` ids ∧
       ∀ id, id ∈ ids → id ∈ sn_snapshot_id <$> snaps ∨ (unanswered id s + 21 ≤ unanswered id s')%nat).

Lemma reported_stop volumes s s' q : q ≠ PDone → reported volumes s s' q None.
Proof. intros Hq. split; [|done]. split; [by intros []|done]. Qed.

(** C21 (vss_create_protocol): [vss_create_snapshots] on an initialised context
    follows the protocol of a snapshot set: the state is set first; writers'
    metadata are gathered only for a set with writers; volumes are added to a
    started set; a set with writers is prepared before it is committed; nothing is
    committed without a volume; properties are asked only of a committed set.  It
    succeeds exactly when the commit has succeeded.  Then it has tried to add the
    first sixteen volumes, in order, and its snapshots are, in that order, those of
    the added volumes that answered: each carries the identifier Windows gave for
    its volume and the names Windows told for that identifier; an added volume is
    missing only after 21 failed questions about it. *)
Theorem vss_create_protocol x volumes s :
  vx_initialized x = true →
  let '(res, _, s') := vss_create_snapshots ans async prop ident (Some x) volumes s in
  ∃ q, leads (persistent x) PReady s q s' ∧ reported volumes s s' q res.
Proof.
  intros Hi. unfold vss_create_snapshots. rewrite Hi. cbn [negb]. set (pers := persistent x).
  assert (Hstop : ∀ q s', q ≠ PDone → leads pers PReady s q s' →
    ∃ q, leads pers PReady s q s' ∧ reported volumes s s' q None)
    by (intros q s' Hq Hl; exists q; split; [done|by apply reported_stop]).
  destruct (call ans SetBackupState s) as [hr s1] eqn:E1.
  assert (H1 : goes pers PReady s (if FAILED hr then PFailed else PState) s1)
    by (apply call_spec in E1 as ->; by apply goes_call).
  destruct (FAILED hr); [apply (Hstop PFailed); [done|apply H1]|].
  pose proof (goes_trans _ _ _ _ _ _ _ H1 (goes_gather pers s1)) as H2. clear H1 E1.
  destruct (call ans StartSnapshotSet (if pers then s1 else gather ans async s1)) as [hr2 s3] eqn:E2.
  assert (H3 : goes pers PReady s (if FAILED hr2 then PFailed else PStarted false) s3)
    by (eapply goes_trans; [exact H2|]; apply call_spec in E2 as ->; by apply goes_call).
  destruct (FAILED hr2); [apply (Hstop PFailed); [done|apply H3]|]. clear H2 E2.
  pose proof (leads_add pers (ztake VSS_MAX_VOLUMES volumes) false s3) as H4.
  pose proof (tells_add (ztake VSS_MAX_VOLUMES volumes) s3) as T4.
  destruct (add_volumes ans ident (ztake VSS_MAX_VOLUMES volumes) s3) as [ids s4]. destruct H4 as [H4 Hids].
  apply (leads_trans _ _ _ _ _ _ _ (proj1 H3)) in H4. apply (tells_quiet _ _ _ _ _ _ (proj2 H3)) in T4. cbn [orb] in H4. clear H3.
  destruct (bool_decide (ids = [])); [by apply (Hstop (PStarted false))|]. cbn [negb] in H4.
  destruct (if pers then (0, false, s4) else call_async ans async PrepareForBackup s4) as [[hr3 a3] s5] eqn:E3.
  destruct (FAILED hr3) eqn:F3.
  { apply (Hstop PFailed); [done|]. apply goes_prepare in E3 as [L _]. rewrite F3 in L. by eapply leads_trans. }
  destruct (call_async ans async DoSnapshotSet (wait_async ans a3 s5)) as [[hr4 a4] s6] eqn:E4.
  pose proof (goes_done pers _ _ _ _ _ _ _ E3 F3 E4) as H5. clear E3 E4.
  destruct (FAILED hr4); [apply (Hstop PFailed); [done|]; eapply leads_trans; [exact H4|apply H5]|].
  destruct (goes_trans _ _ _ _ _ _ _ H5 (goes_wait pers PDone a4 s6 ltac:(done))) as [L6 Q6].
  pose proof (leads_query pers ids (wait_async ans a4 s6)) as H7. pose proof (tells_query ids (wait_async ans a4 s6)) as T7.
  destruct (query_properties ans prop ids (wait_async ans a4 s6)) as [snaps s7].
  destruct H7 as (L7 & Hlen & Hval), T7 as (T7 & Hsub & Hmiss).
  exists PDone. split; [by do 2 (eapply leads_trans; [eassumption|])|]. split; [by split|]. intros l [= <-].
  rewrite len_ztake in Hids. split; [unfold VSS_MAX_VOLUMES in *; lia|].
  split; [eapply Forall_impl; [exact Hval|]; by intros sn [? _]|].
  apply (tells_quiet _ _ _ _ _ _ Q6) in T7. pose proof (tells_trans _ _ _ _ _ _ _ _ _ T4 T7) as T8.
  rewrite !app_nil_r in T8. exists ids. split; [exact T8|]. split; [exact Hsub|]. intros id Hid.
  destruct (Hmiss id Hid) as [?|Hu]; [by left|right].
  apply (tells_more _ _ _ _ _ id) in T4. apply (tells_more _ _ _ _ _ id) in Q6. lia.
Qed.

End Order.

Lemma vss_create_protocol_witness :
  let '(res, _, s') := vss_create_snapshots (λ n, if (n =? 3)%nat then -1 else 1) (λ _, true) (λ n, ([Z.of_nat n], [7]))
                         (λ n, mk_guid (Z.of_nat n) 0 0 []) (Some (mk_vctx VSS_CTX_BACKUP true false))
                         [[67; CH_COLON]; [68; CH_COLON]] [] in
  ∃ q, leads false PReady [] q s' ∧
       reported (λ n, ([Z.of_nat n], [7])) (λ n, mk_guid (Z.of_nat n) 0 0 []) [[67; CH_COLON]; [68; CH_COLON]] [] s' q res.
Proof.
  exact (vss_create_protocol (λ n, if (n =? 3)%nat then -1 else 1) (λ _, true) (λ n, ([Z.of_nat n], [7]))
    (λ n, mk_guid (Z.of_nat n) 0 0 []) (mk_vctx VSS_CTX_BACKUP true false) [[67; CH_COLON]; [68; CH_COLON]] [] eq_refl).
Defined.
