(* ===== verification/Driver.v ===== *)
(** * VirtIO driver injection (client/driver_inject.c)

    What the functions ask of Windows is the record [denv]: its version, the
    files, and the processes it starts.  [W] is what a process may change; a
    process answers with the pieces its output is read in (at most 255 bytes
    each) and its exit code, or cannot be started.  Narrow and wide characters
    are not told apart: names are the bytes of their narrow form, and paths are
    shorter than the buffers that hold them unless the source cuts them. *)

From stdpp Require Import strings.
From S2P Require Import Prelude Protocol Json.

Record denv (W : Type) := mk_denv {
  de_version : option (Z * Z);                      (* RtlGetVersion: major, minor *)
  de_exists : list Z → bool;                        (* GetFileAttributesA *)
  de_full : list Z → option (list Z);               (* GetFullPathNameA *)
  de_search : option (list Z);                      (* SearchPathA, below MAX_PATH *)
  de_list : list Z → option (list (list Z * bool)); (* FindFirstFileW/FindNextFileW: name, directory *)
  de_first : list Z → option (list Z);              (* FindFirstFileW: the first match *)
  de_pipe : W → bool;                               (* CreatePipe *)
  de_spawn : W → list Z → W * option (list (list Z) * Z);
}.
Arguments mk_denv {W}. Arguments de_version {W}. Arguments de_exists {W}. Arguments de_full {W}.
Arguments de_search {W}. Arguments de_list {W}. Arguments de_first {W}. Arguments de_pipe {W}. Arguments de_spawn {W}.

(** [strstr] as a test; any of several patterns. *)
Definition contains (s : list Z) (pat : string) : bool :=
  if strstr s (string_bytes pat) then true else false.

Definition contains_any (s : list Z) (pats : list string) : bool := existsb (contains s) pats.

(** [tolower] *)
Definition tolower (c : Z) : Z := if (65 <=? c) && (c <=? 90) then c + 32 else c.

Section Driver.
Context {W : Type} (E : denv W).

(** [get_windows_version] leaves its outputs at zero on failure. *)
Definition folder_matches_os (folder : list Z) : bool :=
  match de_version E with
  | None => false
  | Some (major, minor) =>
      let lower := tolower <$> ztake 31 folder in
      if major =? 10 then
        contains_any lower ["w10"; "win10"; "w11"; "win11"; "2k16"; "2016"; "2k19"; "2019"; "2k22"; "2022"]%string
      else if (major =? 6) && (minor =? 3) then contains_any lower ["w8.1"; "win8.1"; "2k12r2"; "2012r2"]%string
      else if (major =? 6) && (minor =? 2) then contains_any lower ["w8"; "win8"; "2k12"; "2012"]%string
      else if (major =? 6) && (minor =? 1) then contains_any lower ["w7"; "win7"; "2k8r2"; "2008r2"]%string
      else false
  end.

(** ** Running devcon.exe *)

Definition devcon_candidates : list (list Z) := [string_bytes "devcon.exe"; string_bytes "D:\migrate\devcon.exe"].

(** The path; a full path that GetFullPathNameA cannot form leaves nothing. *)
Definition find_devcon : option (list Z) :=
  match filter (λ c, de_exists E c = true) devcon_candidates with
  | c :: _ => Some (default [] (de_full E c))
  | [] => de_search E
  end.

(** The loop over [ReadFile]: an empty piece ends it, and so does a full buffer. *)
Fixpoint capture (out_size : Z) (out : list Z) (pieces : list (list Z)) : list Z :=
  match pieces with
  | [] => out
  | p :: r =>
      if len p =? 0 then out
      else
        let nread := if out_size <=? len out + len p then out_size - len out - 1 else len p in
        if nread =? 0 then out else capture out_size (out ++ ztake nread p) r
  end.

(** [out[len-1] == '\r' || out[len-1] == '\n'] from the end *)
Definition trim_newlines (s : list Z) : list Z :=
  reverse (skip_while (λ c, (c =? 13) || (c =? 10)) (reverse s)).

(** The exit code and the text in [out]; [out_size = None]: a null [out]. *)
Definition devcon_run (args : list Z) (out_size : option Z) (w : W) : W * Z * list Z :=
  match find_devcon with
  | None => (w, -1, [])
  | Some devcon_path =>
      let cmd := ztake 1023 (CH_QUOTE :: devcon_path ++ CH_QUOTE :: CH_SPACE :: args) in
      if (if out_size then negb (de_pipe E w) else false) then (w, -1, [])
      else
        match de_spawn E w cmd with
        | (w, None) => (w, -1, [])
        | (w, Some (pieces, exit_code)) =>
            let out := match out_size with
                       | Some n => if 0 <? n then take_until (λ c, c =? 0) (capture n [] pieces) else []
                       | None => []
                       end in
            (w, s32 exit_code, trim_newlines out)
        end
  end.

(** ** Finding the INF *)

Definition folder_score (name : list Z) : Z :=
  if folder_matches_os name then 100
  else if contains_any name ["w10"; "Win10"; "2k16"]%string then 50
  else if contains_any name ["w8.1"; "Win8.1"; "2k12R2"]%string then 40
  else if contains_any name ["w8"; "Win8"; "2k12"]%string then 30
  else if contains_any name ["w7"; "Win7"]%string then 20
  else 0.

(** The directories other than [.] and [..] *)
Definition version_folders (entries : list (list Z * bool)) : list (list Z) :=
  filter (λ name, name ≠ string_bytes "." ∧ name ≠ string_bytes "..") (fst <$> filter (λ e, e.2 = true) entries).

(** [best_folder] and [best_score] *)
Definition best_folder (folders : list (list Z)) : list Z * Z :=
  foldl (λ best name, if best.2 <? folder_score name then (name, folder_score name) else best) ([], -1) folders.

Definition backslash_join (a b : list Z) : list Z := ztake 511 (a ++ CH_BACKSLASH :: b).

(** The INF names in the order they are tried *)
Definition inf_names (driver_name : list Z) : list (list Z) :=
  ztake 63 (driver_name ++ string_bytes ".inf") ::
  (if bool_decide (driver_name = string_bytes "viostor") then [string_bytes "vioscsi.inf"] else []) ++
  [string_bytes "*.inf"].

Definition candidate_paths (install_dir folder : list Z) : list (list Z) :=
  [backslash_join install_dir (folder ++ string_bytes "\amd64"); backslash_join install_dir folder].

(** The first of the searches that finds a file: its directory and its name. *)
Fixpoint first_inf (searches : list (list Z * list Z)) : option (list Z * list Z) :=
  match searches with
  | [] => None
  | (name, dir) :: r =>
      match de_first E (backslash_join dir name) with
      | Some found => Some (dir, found)
      | None => first_inf r
      end
  end.

Definition inf_searches (install_dir driver_name folder : list Z) : list (list Z * list Z) :=
  name ← inf_names driver_name; dir ← candidate_paths install_dir folder; [(name, dir)].

(** The path in [buf] (512 bytes), [None]: -1. *)
Definition driver_find_inf (install_dir driver_name : list Z) : option (list Z) :=
  entries ← de_list E (backslash_join install_dir (string_bytes "*"));
  let best := (best_folder (version_folders entries)).1 in
  if bool_decide (best = []) then None
  else
    '(dir, found) ← first_inf (inf_searches install_dir driver_name best);
    let buf := backslash_join dir found in
    Some (match de_full E buf with Some full => ztake 511 full | None => buf end).

(** ** Installing and probing *)

(** The result and [*reboot_required] *)
Definition driver_inject_install (inf_path hwid : list Z) (w : W) : W * Z * bool :=
  if negb (de_exists E inf_path) then (w, -1, false)
  else
    let args := ztake 767 (string_bytes "install " ++ CH_QUOTE :: inf_path ++ CH_QUOTE :: CH_SPACE :: hwid) in
    let '(w, rc, _) := devcon_run args None w in
    if rc =? 0 then (w, 0, false)
    else if rc =? 1 then (w, 0, true)
    else if rc =? 2 then (w, 0, false)
    else (w, -1, false).

(** The hardware identifier up to [&SUBSYS] *)
Definition short_hwid (hwid : list Z) : list Z :=
  let h := ztake 127 hwid in
  match strstr h (string_bytes "&SUBSYS") with
  | Some rest => ztake (len h - len rest) h
  | None => h
  end.

Definition driver_inject_probe (hwid : list Z) (w : W) : W * Z :=
  let args := ztake 255 (string_bytes "find " ++ CH_QUOTE :: short_hwid hwid ++ [42; CH_QUOTE]) in
  let '(w, rc, out) := devcon_run args (Some 512) w in
  (w, if (rc =? 0) && negb (bool_decide (out = [])) then 1 else 0).

(** [driver_result_t] *)
Record driver_result := mk_dres {
  dr_name : list Z;
  dr_hwid : list Z;
  dr_installed : Z;
  dr_just_installed : bool;
  dr_reboot_required : bool;
  dr_error : list Z;
}.

(** [names] and [hwids] *)
Definition virtio_drivers : list (list Z * list Z) :=
  [(string_bytes "viostor", string_bytes "PCI\VEN_1AF4&DEV_1001&SUBSYS_00021AF4&REV_00");
   (string_bytes "netkvm", string_bytes "PCI\VEN_1AF4&DEV_1000&SUBSYS_00011AF4&REV_00");
   (string_bytes "qxldod", string_bytes "PCI\VEN_1B36&DEV_0100&SUBSYS_11001AF4")].

(** One round of the loop of [driver_inject_virtio]: the result and whether it
    leaves [all_ok]. *)
Definition inject_one (driver_dir : list Z) (d : list Z * list Z) (w : W) : W * driver_result * bool :=
  let '(name, hwid) := d in
  let install_dir := ztake 511 (driver_dir ++ CH_BACKSLASH :: name ++ string_bytes "\Install") in
  match driver_find_inf install_dir name with
  | None => (w, mk_dres name hwid 0 false false (ztake 255 (string_bytes "cannot find INF for " ++ name)), false)
  | Some inf_path =>
      let '(w, probe) := driver_inject_probe hwid w in
      if probe <? 0 then (w, mk_dres name hwid 0 false false (string_bytes "probe failed"), false)
      else if negb (probe =? 0) then (w, mk_dres name hwid probe false false [], true)
      else
        let '(w, rc, reboot) := driver_inject_install inf_path hwid w in
        if rc =? 0 then
          let '(w, probe2) := driver_inject_probe hwid w in
          (w, mk_dres name hwid (if 0 <? probe2 then 1 else probe) true reboot [], true)
        else (w, mk_dres name hwid probe false false (string_bytes "devcon install failed"), false)
  end.

(** One round of the loop of [driver_check_virtio] *)
Definition check_one (d : list Z * list Z) (w : W) : W * driver_result * bool :=
  let '(name, hwid) := d in
  let '(w, probe) := driver_inject_probe hwid w in
  if probe <? 0 then (w, mk_dres name hwid 0 false false (string_bytes "probe failed"), false)
  else if probe =? 0 then (w, mk_dres name hwid probe false false (string_bytes "not installed"), false)
  else (w, mk_dres name hwid probe false false [], true).

(** The loop over the drivers: the results and the flag. *)
Fixpoint for_drivers (one : list Z * list Z → W → W * driver_result * bool) (ds : list (list Z * list Z)) (w : W)
    : W * list driver_result * bool :=
  match ds with
  | [] => (w, [], true)
  | d :: r =>
      let '(w, res, ok) := one d w in
      let '(w, rs, oks) := for_drivers one r w in
      (w, res :: rs, ok && oks)
  end.

Definition driver_inject_virtio (driver_dir : list Z) (w : W) : W * Z * list driver_result :=
  let '(w, results, all_ok) := for_drivers (inject_one driver_dir) virtio_drivers w in
  (w, if all_ok then 0 else -1, results).

Definition driver_check_virtio (w : W) : W * Z * list driver_result :=
  let '(w, results, all_installed) := for_drivers check_one virtio_drivers w in
  (w, if all_installed then 0 else -1, results).

End Driver.

(** ** Other platforms *)

Definition driver_find_inf_posix (install_dir driver_name : list Z) : option (list Z) := None.
Definition driver_inject_install_posix (inf_path hwid : list Z) : Z * bool := (-1, false).
Definition driver_inject_probe_posix (hwid : list Z) : Z := 0.

Definition driver_unsupported : Z * list driver_result :=
  (-1, (λ d, mk_dres d.1 [] 0 false false (string_bytes "platform not supported")) <$> virtio_drivers).

Definition driver_inject_virtio_posix (driver_dir : list Z) : Z * list driver_result := driver_unsupported.
Definition driver_check_virtio_posix (driver_dir : list Z) : Z * list driver_result := driver_unsupported.

(** ** Lemmas *)

Section Facts.
Context {W : Type} (E : denv W).

Lemma best_folder_snoc fs f :
  best_folder E (fs ++ [f]) =
  if (best_folder E fs).2 <? folder_score E f then (f, folder_score E f) else best_folder E fs.
Proof. unfold best_folder. by rewrite foldl_app. Qed.

Lemma folder_score_nonneg f : 0 ≤ folder_score E f.
Proof. unfold folder_score. repeat case_match; lia. Qed.

(** [f] is the first folder of the highest score. *)
Definition preferred (folders : list (list Z)) (f : list Z) : Prop :=
  ∃ pre post, folders = pre ++ f :: post ∧ Forall (λ g, folder_score E g < folder_score E f) pre ∧
    Forall (λ g, folder_score E g ≤ folder_score E f) post.

Lemma best_folder_preferred folders :
  (folders = [] ∧ best_folder E folders = ([], -1)) ∨
  (best_folder E folders).2 = folder_score E (best_folder E folders).1 ∧ preferred folders (best_folder E folders).1.
Proof.
  induction folders as [|f fs IH] using rev_ind; [left; by split|]. right. rewrite best_folder_snoc.
  pose proof (folder_score_nonneg f). destruct (best_folder E fs) as [b bs]. cbn [fst snd] in *.
  destruct IH as [[-> [= -> ->]]|(-> & pre & post & -> & H1 & H2)].
  - replace (-1 <? folder_score E f) with true by lia. split; [done|]. by exists [], [].
  - destruct (Z.ltb_spec (folder_score E b) (folder_score E f)) as [Hlt|Hge]; cbn [fst snd]; (split; [done|]).
    + exists (pre ++ b :: post), []. split; [done|]. split; [|done].
      apply Forall_app. split; [|constructor]; [eapply Forall_impl; [exact H1|cbn; lia]|lia|
        eapply Forall_impl; [exact H2|cbn; lia]].
    + exists pre, (post ++ [f]). split; [by rewrite <- app_assoc|]. split; [done|].
      apply Forall_app. split; [done|]. by constructor.
Qed.

Lemma first_inf_spec searches :
  match first_inf E searches with
  | Some (dir, found) => ∃ s1 name s2, searches = s1 ++ (name, dir) :: s2 ∧
      de_first E (backslash_join dir name) = Some found ∧
      Forall (λ x, de_first E (backslash_join x.2 x.1) = None) s1
  | None => Forall (λ x, de_first E (backslash_join x.2 x.1) = None) searches
  end.
Proof.
  induction searches as [|[name dir] r IH]; cbn [first_inf]; [done|].
  destruct (de_first E (backslash_join dir name)) as [found|] eqn:Ef.
  - by exists [], name, r.
  - destruct (first_inf E r) as [[d f]|]; [|by constructor].
    destruct IH as (s1 & n & s2 & -> & H1 & H2). exists ((name, dir) :: s1), n, s2. split; [done|].
    split; [done|]. by constructor.
Qed.

(** A search is preceded by those for the earlier names, in all directories, and
    those for its own name in the earlier directories. *)
Lemma search_split (names dirs : list (list Z)) s1 name dir s2 :
  (n ← names; d ← dirs; [(n, d)]) = s1 ++ (name, dir) :: s2 →
  ∃ n1 n2 d1 d2, names = n1 ++ name :: n2 ∧ dirs = d1 ++ dir :: d2 ∧
    (∀ n d, n ∈ n1 → d ∈ dirs → (n, d) ∈ s1) ∧ (∀ d, d ∈ d1 → (name, d) ∈ s1).
Proof.
  assert (Hrow : ∀ (n : list Z) (ds : list (list Z)), (d ← ds; [(n, d)]) = (λ d, (n, d)) <$> ds).
  { intros n ds. induction ds as [|d ds IH]; [done|]. rewrite bind_cons, IH. done. }
  revert s1. induction names as [|n names IH]; intros s1 Hs; [by destruct s1|].
  rewrite bind_cons, Hrow in Hs.
  apply app_eq_inv in Hs as [(k & H1 & H2)|(k & H1 & H2)]; [destruct k as [|p k]|].
  - rewrite app_nil_r in H1. destruct (IH [] (eq_sym H2)) as (n1 & n2 & d1 & d2 & -> & Hd & Hall & Hpre).
    exists (n :: n1), n2, d1, d2. split; [done|]. split; [done|].
    split; [|intros d Hdd; by destruct (not_elem_of_nil (name, d)); apply Hpre].
    intros x d [->|Hx]%elem_of_cons Hdd; [|by destruct (not_elem_of_nil (x, d)); apply Hall].
    rewrite <- H1. apply list_elem_of_fmap. by exists d.
  - injection H2 as <- ->. apply fmap_app_inv in H1 as (d1 & d2 & -> & H2 & ->).
    destruct d2 as [|d d2]; [done|]. simplify_eq/=. exists [], names, d1, d2.
    split; [done|]. split; [done|]. split; [by intros ?? ?%not_elem_of_nil|].
    intros x Hx. apply list_elem_of_fmap. by exists x.
  - destruct (IH k H2) as (n1 & n2 & d1 & d2 & -> & Hd & Hall & Hpre).
    exists (n :: n1), n2, d1, d2. split; [done|]. split; [done|]. rewrite H1. split.
    + intros x d [->|Hx]%elem_of_cons Hdd; apply elem_of_app; [left|right; by apply Hall].
      apply list_elem_of_fmap. by exists d.
    + intros d Hdd. apply elem_of_app. right. by apply Hpre.
Qed.

Lemma capture_spec n good : ∀ out rest,
  Forall (λ p, p ≠ []) good → (rest = [] ∨ ∃ r, rest = [] :: r) → len out < n →
  capture n out (good ++ rest) = ztake (n - 1) (out ++ concat good).
Proof.
  induction good as [|p good IH]; intros out rest Hg Hr Hout; cbn [app concat].
  - rewrite app_nil_r, ztake_ge by lia. by destruct Hr as [->|[r ->]].
  - apply Forall_cons in Hg as [Hp Hg]. cbn [capture].
    assert (Hlen : 0 < len p) by (pose proof (len_nonneg p); destruct (Z.eq_dec (len p) 0) as [->%len_zero_nil|]; [done|lia]).
    replace (len p =? 0) with false by lia. pose proof (len_nonneg out).
    destruct (Z.leb_spec n (len out + len p)).
    + destruct (Z.eqb_spec (n - len out - 1) 0).
      * unfold ztake. rewrite take_app_le by (unfold len in *; lia). rewrite take_ge; [done|unfold len in *; lia].
      * assert (Hk : len (out ++ ztake (n - len out - 1) p) = n - 1) by (len_norm; lia).
        rewrite IH by (done || lia). rewrite ztake_app_exact by done.
        rewrite <- (ztake_zdrop (n - len out - 1) p) at 2. rewrite <- app_assoc, app_assoc.
        by rewrite ztake_app_exact.
    + replace (len p =? 0) with false by lia. rewrite (ztake_ge (len p)) by lia.
      rewrite IH by (done || len_norm; lia). by rewrite <- app_assoc.
Qed.

(** ** Properties *)

(** C31 (driver_find_inf_correct): the search answers with an INF of the first
    version folder with the highest score.  Of the names it tries (<driver>.inf,
    then vioscsi.inf for viostor, then any INF) it takes the first that the amd64
    folder or the version folder has, and of these two places the amd64 folder if it
    has a file of that name.  It fails exactly when there is no version folder, or
    the one chosen has no INF of any of these names in either place. *)
Theorem driver_find_inf_correct install_dir name entries :
  de_list E (backslash_join install_dir (string_bytes "*")) = Some entries →
  Forall (λ f, f ≠ []) (version_folders entries) →
  let names := ztake 63 (name ++ string_bytes ".inf") ::
               (if bool_decide (name = string_bytes "viostor") then [string_bytes "vioscsi.inf"] else []) ++
               [string_bytes "*.inf"] in
  let amd64 f := ztake 511 (install_dir ++ CH_BACKSLASH :: f ++ string_bytes "\amd64") in
  let plain f := ztake 511 (install_dir ++ CH_BACKSLASH :: f) in
  let missing pat dir := de_first E (backslash_join dir pat) = None in
  let none pats f := ∀ pat, pat ∈ pats → missing pat (amd64 f) ∧ missing pat (plain f) in
  match driver_find_inf E install_dir name with
  | Some path => ∃ f better pat rest dir file,
      preferred (version_folders entries) f ∧ names = better ++ pat :: rest ∧ none better f ∧
      (dir = amd64 f ∨ dir = plain f ∧ missing pat (amd64 f)) ∧ de_first E (backslash_join dir pat) = Some file ∧
      path = match de_full E (backslash_join dir file) with Some full => ztake 511 full | None => backslash_join dir file end
  | None => version_folders entries = [] ∨ ∃ f, preferred (version_folders entries) f ∧ none names f
  end.
Proof.
  intros Hl Hne. cbv zeta. unfold driver_find_inf. rewrite Hl. cbn [mbind option_bind].
  destruct (best_folder_preferred (version_folders entries)) as [[-> _]|[_ Hb]]; [by left|].
  set (b := (best_folder E (version_folders entries)).1) in *. clearbody b.
  rewrite bool_decide_false.
  2:{ destruct Hb as (pre & post & Hf & _). rewrite Hf in Hne. by apply Forall_app in Hne as [_ [? _]%Forall_cons]. }
  pose proof (first_inf_spec (inf_searches install_dir name b)) as Hs.
  destruct (first_inf E (inf_searches install_dir name b)) as [[dir file]|]; cbn [mbind option_bind].
  - destruct Hs as (s1 & pat & s2 & Heq & Hfound & Hnone).
    apply search_split in Heq as (n1 & n2 & d1 & d2 & Hn & Hd & Hall & Hpre).
    assert (Hmiss : ∀ n d, (n, d) ∈ s1 → de_first E (backslash_join d n) = None)
      by (intros n d Hin; exact (proj1 (Forall_forall _ _) Hnone (n, d) Hin)).
    exists b, n1, pat, n2, dir, file. split; [done|]. split; [exact Hn|]. split; [|split; [|done]].
    + intros pat' Hp. split; apply Hmiss, Hall; (done || unfold candidate_paths; set_solver).
    + destruct d1 as [|d [|d' d1]]; [left; by injection Hd as <- _| |].
      * right. injection Hd as <- <- _. split; [done|]. apply Hmiss, Hpre. by left.
      * by destruct d1.
  - right. exists b. split; [done|]. intros pat Hp.
    assert (Hm : ∀ d, d ∈ candidate_paths install_dir b → de_first E (backslash_join d pat) = None).
    { intros d Hd. refine (proj1 (Forall_forall _ _) Hs (pat, d) _). unfold inf_searches. apply list_elem_of_bind.
      exists pat. split; [|done]. apply list_elem_of_bind. exists d. by rewrite list_elem_of_singleton. }
    split; apply Hm; unfold candidate_paths; set_solver.
Qed.

(** [devcon_output_bounded]: what devcon_run keeps of the output is its first
    511 bytes, whatever the pieces it arrives in, cut at a NUL and without the line
    ends at its end: it never exceeds the buffer. *)
Theorem devcon_output_bounded args w w' pieces rest exit_code path :
  find_devcon E = Some path → de_pipe E w = true →
  de_spawn E w (ztake 1023 (CH_QUOTE :: path ++ CH_QUOTE :: CH_SPACE :: args)) = (w', Some (pieces ++ rest, exit_code)) →
  Forall (λ p, p ≠ []) pieces → (rest = [] ∨ ∃ r, rest = [] :: r) →
  devcon_run E args (Some 512) w =
    (w', s32 exit_code, trim_newlines (take_until (λ c, c =? 0) (ztake 511 (concat pieces)))).
Proof.
  intros Hd Hp Hs Hg Hr. unfold devcon_run. rewrite Hd, Hp, Hs. cbn [negb]. change (0 <? 512) with true. cbn match.
  by rewrite capture_spec by (done || (cbn; len_norm; lia)).
Qed.

(** The probe answers 0 or 1. *)
Lemma probe_01 hwid w : (driver_inject_probe E hwid w).2 = 0 ∨ (driver_inject_probe E hwid w).2 = 1.
Proof.
  unfold driver_inject_probe. destruct (devcon_run E _ (Some 512) w) as [[w' rc] out]. cbn. case_match; auto.
Qed.

(** What the result of one driver can be. *)
Definition result_ok (r : driver_result) : Prop :=
  (dr_error r = [] → dr_installed r = 1 ∨ dr_just_installed r = true) ∧
  (dr_error r ≠ [] → dr_installed r = 0 ∧ dr_just_installed r = false ∧ dr_reboot_required r = false) ∧
  (dr_reboot_required r = true → dr_just_installed r = true).

Lemma inject_one_ok driver_dir name hwid w :
  let '(_, r, ok) := inject_one E driver_dir (name, hwid) w in
  result_ok r ∧ dr_name r = name ∧ dr_hwid r = hwid ∧ (ok = true ↔ dr_error r = []) ∧
  dr_error r ∈ [[]; ztake 255 (string_bytes "cannot find INF for " ++ name); string_bytes "devcon install failed"].
Proof.
  unfold inject_one, result_ok.
  destruct (driver_find_inf E _ name) as [inf|]; [|by cbn; repeat split; try done; set_solver].
  pose proof (probe_01 hwid w) as Hp. destruct (driver_inject_probe E hwid w) as [w1 p]. cbn [snd] in Hp.
  replace (p <? 0) with false by lia. destruct (Z.eqb_spec p 0) as [->|Hp0]; cbn [negb].
  - destruct (driver_inject_install E inf hwid w1) as [[w2 rc] reboot]. destruct (rc =? 0).
    + pose proof (probe_01 hwid w2) as Hp2. destruct (driver_inject_probe E hwid w2) as [w3 p2].
      cbn. repeat split; try done; try (by right); set_solver.
    + cbn. repeat split; try done; set_solver.
  - cbn. repeat split; try done; try (left; lia); set_solver.
Qed.

Lemma for_drivers_ok (one : list Z * list Z → W → W * driver_result * bool) (P : list Z * list Z → driver_result → Prop) :
  (∀ d w, let '(_, r, ok) := one d w in P d r ∧ (ok = true ↔ dr_error r = [])) → ∀ ds w,
  let '(_, rs, ok) := for_drivers one ds w in
  Forall2 P ds rs ∧ (ok = true ↔ Forall (λ r, dr_error r = []) rs).
Proof.
  intros Hone ds. induction ds as [|d ds IH]; intros w; cbn [for_drivers]; [by split|].
  specialize (Hone d w). destruct (one d w) as [[w1 r] ok]. destruct Hone as [HP Hok].
  specialize (IH w1). destruct (for_drivers one ds w1) as [[w2 rs] oks]. destruct IH as [HPs Hoks].
  split; [by constructor|]. by rewrite andb_true_iff, Forall_cons, Hok, Hoks.
Qed.

Lemma check_virtio_length w : len (driver_check_virtio E w).2 = 3.
Proof.
  unfold driver_check_virtio, virtio_drivers. cbn [for_drivers].
  repeat match goal with |- context [check_one E ?d ?w] => destruct (check_one E d w) as [[? ?] ?] end. done.
Qed.

(** C32 (driver_inject_virtio_correct): an injection reports on the three drivers in
    order and returns 0 exactly when none of them has an error; a driver without an
    error was found or has just been installed, one with an error is reported
    neither installed, just installed nor waiting for a restart, and only a driver
    just installed asks for a restart. *)
Theorem driver_inject_virtio_correct driver_dir w :
  let '(_, rc, results) := driver_inject_virtio E driver_dir w in
  (λ r, (dr_name r, dr_hwid r)) <$> results = virtio_drivers ∧ Forall result_ok results ∧
  (rc = 0 ∨ rc = -1) ∧ (rc = 0 ↔ Forall (λ r, dr_error r = []) results).
Proof.
  unfold driver_inject_virtio.
  unshelve epose proof (for_drivers_ok (inject_one E driver_dir) (λ d r, (dr_name r, dr_hwid r) = d ∧ result_ok r) _
    virtio_drivers w) as H'.
  { intros [name hwid] w0. pose proof (inject_one_ok driver_dir name hwid w0) as H1.
    destruct (inject_one E driver_dir (name, hwid) w0) as [[w1 r] ok]. destruct H1 as (H1 & <- & <- & H2 & _). done. }
  destruct (for_drivers (inject_one E driver_dir) virtio_drivers w) as [[w1 rs] ok]. destruct H' as [HP Hok].
  split; [|split].
  - clear Hok. induction HP as [|d r ds rs' [Hd _] _ IH]; [done|]. cbn. by rewrite Hd, IH.
  - clear Hok. induction HP as [|d r ds rs' [_ Hr] _ IH]; by constructor.
  - rewrite <- Hok. destruct ok; split; auto; by split.
Qed.

(** [driver_check_virtio_correct]: a check returns 0 exactly when every probe
    finds a device, and reports each driver as installed or ["not installed"].
    "probe failed" is never reported: a devcon.exe that is missing or cannot be
    started reads as a driver that is not installed. *)
Theorem driver_check_virtio_correct w :
  let '(_, rc, results) := driver_check_virtio E w in
  (λ r, (dr_name r, dr_hwid r)) <$> results = virtio_drivers ∧
  Forall (λ r, (dr_installed r = 1 ∧ dr_error r = []) ∨ (dr_installed r = 0 ∧ dr_error r = string_bytes "not installed")) results ∧
  (rc = 0 ↔ Forall (λ r, dr_installed r = 1) results) ∧
  (find_devcon E = None → rc = -1 ∧ Forall (λ r, dr_error r = string_bytes "not installed") results).
Proof.
  unfold driver_check_virtio.
  set (Q := λ r, (dr_installed r = 1 ∧ dr_error r = []) ∨ (dr_installed r = 0 ∧ dr_error r = string_bytes "not installed")).
  unshelve epose proof (for_drivers_ok (check_one E) (λ d r, (dr_name r, dr_hwid r) = d ∧ Q r ∧
    (find_devcon E = None → dr_error r = string_bytes "not installed")) _ virtio_drivers w) as H'.
  { intros [name hwid] w0. unfold check_one. pose proof (probe_01 hwid w0) as Hp.
    assert (Hn : find_devcon E = None → (driver_inject_probe E hwid w0).2 = 0).
    { intros Hn. unfold driver_inject_probe, devcon_run. by rewrite Hn. }
    destruct (driver_inject_probe E hwid w0) as [w1 p]. cbn [snd] in *. replace (p <? 0) with false by lia.
    unfold Q. destruct (Z.eqb_spec p 0) as [->|]; cbn; (split; [split; [done|]|done]).
    - split; [by right|done].
    - split; [left; split; [lia|done]|]. intros Hd. by apply Hn in Hd. }
  destruct (for_drivers (check_one E) virtio_drivers w) as [[w1 rs] ok].
  destruct H' as [HP Hok].
  assert (Hall : Forall (λ r, Q r ∧ (find_devcon E = None → dr_error r = string_bytes "not installed")) rs).
  { clear Hok. induction HP as [|d r ds rs' [_ Hr] _ IH]; by constructor. }
  apply Forall_and in Hall as [HQ Hn].
  assert (Hiff : Forall (λ r, dr_error r = []) rs ↔ Forall (λ r, dr_installed r = 1) rs).
  { clear -HQ. induction HQ as [|r rs Hr _ IH]; [done|]. rewrite !Forall_cons, IH. destruct Hr as [[-> ->]|[-> ->]].
    - by split; intros [_ ?].
    - by split; intros [? _]. }
  split; [|split; [done|split]].
  - clear -HP. induction HP as [|d r ds rs' [Hd _] _ IH]; [done|]. cbn. by rewrite Hd, IH.
  - rewrite <- Hiff, <- Hok. by destruct ok.
  - intros Hd. assert (HF : Forall (λ r, dr_error r = string_bytes "not installed") rs)
      by (eapply Forall_impl; [exact Hn|]; cbn; auto). split; [|done].
    destruct ok; [|done]. apply Forall2_length in HP. destruct rs as [|r rs]; [done|].
    apply Forall_cons in HF as [HF _]. pose proof (proj1 Hok eq_refl) as [Hr _]%Forall_cons. by rewrite Hr in HF.
Qed.

End Facts.

(** A Windows 10 machine with the driver folders of a full installation medium;
    [answer] is what devcon.exe prints for a search. *)
Definition demo_denv (answer : list Z) : denv (list (list Z)) := {|
  de_version := Some (10, 0);
  de_exists := λ _, true;
  de_full := λ p, Some p;
  de_search := None;
  de_list := λ _, Some [(string_bytes ".", true); (string_bytes "..", true); (string_bytes "w8", true);
                        (string_bytes "w10", true); (string_bytes "w11", true); (string_bytes "readme", false)];
  de_first := λ p, if contains p "amd64\viostor.inf" then Some (string_bytes "viostor.inf")
                   else if contains p "*.inf" then Some (string_bytes "any.inf") else None;
  de_pipe := λ _, true;
  de_spawn := λ w cmd, (w ++ [cmd], Some (if contains cmd " find " then ([answer], 0) else ([], 1)));
|}.

Lemma driver_find_inf_correct_witness :
  driver_find_inf (demo_denv []) (string_bytes "d") (string_bytes "viostor") = Some (string_bytes "d\w10\amd64\viostor.inf") ∧
  ∃ f, preferred (demo_denv []) [string_bytes "w8"; string_bytes "w10"; string_bytes "w11"] f.
Proof.
  pose proof (driver_find_inf_correct (demo_denv []) (string_bytes "d") (string_bytes "viostor") _ eq_refl) as H.
  assert (Hf : version_folders [(string_bytes ".", true); (string_bytes "..", true); (string_bytes "w8", true);
    (string_bytes "w10", true); (string_bytes "w11", true); (string_bytes "readme", false)] =
    [string_bytes "w8"; string_bytes "w10"; string_bytes "w11"]) by (vm_compute; reflexivity).
  rewrite Hf in H. assert (E : driver_find_inf (demo_denv []) (string_bytes "d") (string_bytes "viostor") =
    Some (string_bytes "d\w10\amd64\viostor.inf")) by (vm_compute; reflexivity).
  rewrite E in H. split; [done|]. destruct H as (f & _ & _ & _ & _ & _ & Hp & _); [by repeat constructor|]. by exists f.
Defined.

Lemma devcon_output_bounded_witness :
  devcon_run (demo_denv [80; 67; 73; 10]) (string_bytes "x find y") (Some 512) [] =
    ([CH_QUOTE :: string_bytes "devcon.exe" ++ CH_QUOTE :: CH_SPACE :: string_bytes "x find y"], 0, [80; 67; 73]).
Proof.
  rewrite (devcon_output_bounded (demo_denv [80; 67; 73; 10]) (string_bytes "x find y") []
             [CH_QUOTE :: string_bytes "devcon.exe" ++ CH_QUOTE :: CH_SPACE :: string_bytes "x find y"] [[80; 67; 73; 10]] [] 0
             (string_bytes "devcon.exe")); [reflexivity|reflexivity|reflexivity|reflexivity|by repeat constructor|by left].
Defined.

(** [driver_no_match_message]: the probe takes any text devcon.exe prints for a
    device found.  When devcon.exe answers a search that finds nothing with a
    message and exit code 0, the injection reports success with all three drivers
    installed, and no install has been run. *)
Theorem driver_no_match_message :
  let '(log, rc, results) := driver_inject_virtio (demo_denv (string_bytes "No matching devices found.")) (string_bytes "drivers") [] in
  rc = 0 ∧ Forall (λ r, dr_installed r = 1 ∧ dr_just_installed r = false) results ∧ length log = 3%nat ∧
  Forall (λ cmd, contains cmd " install " = false) log.
Proof. vm_compute. repeat constructor. Qed.

(** When it prints nothing, each driver is installed after its first probe. *)
Lemma driver_silent_search :
  let '(log, rc, results) := driver_inject_virtio (demo_denv []) (string_bytes "drivers") [] in
  rc = 0 ∧ Forall (λ r, dr_installed r = 0 ∧ dr_just_installed r = true ∧ dr_reboot_required r = true) results ∧
  length log = 9%nat.
Proof. vm_compute. repeat constructor. Qed.
