(* ===== verification/Syschk.v ===== *)
(** * The system check before a migration (client/syschk.c)

    Each check is a function of the answers of the Windows calls it makes; the
    answers a whole run needs are the record [sysenv].  A check answers with its
    severity and its message (512 bytes).  [%lu] prints an unsigned number. *)

From stdpp Require Import strings.
From S2P Require Import Prelude Protocol Json BlockIO Volume Driver.

Definition SYSCHK_PASS : Z := 0.
Definition SYSCHK_WARN : Z := 1.
Definition SYSCHK_FAIL : Z := 2.
Definition SYSCHK_INFO : Z := 3.
Definition SYSCHK_MAX_CHECKS : Z := 16.

(** [snprintf(msg, msg_size, ...)] of a formatted text *)
Definition msg (parts : list (list Z)) : list Z := ztake 511 (concat parts).

#[local] Abbreviation text := string_bytes.

(** ** The checks *)

(** [sid]: AllocateAndInitializeSid; [member]: CheckTokenMembership's answer *)
Definition check_admin_rights (sid member : bool) : Z * list Z :=
  let is_admin := sid && member in
  if is_admin then (SYSCHK_PASS, msg [text "running with administrator privileges"])
  else (SYSCHK_FAIL, msg [text "NOT running as administrator  --  PhysicalDrive access requires elevation"]).

Definition version_text (v : Z * Z * Z) : list (list Z) :=
  [text "Windows "; print_int v.1.1; text "."; print_int v.1.2; text " (build "; print_int v.2; text ")  --  "].

(** [ntdll] and [fn]: the handle and the function are found; [vi]: the version *)
Definition check_windows_version (ntdll fn : bool) (vi : option (Z * Z * Z)) : Z * list Z :=
  if negb ntdll then (SYSCHK_WARN, msg [text "cannot detect Windows version"])
  else if negb fn then (SYSCHK_WARN, msg [text "cannot detect Windows version"])
  else
    match vi with
    | None => (SYSCHK_WARN, msg [text "RtlGetVersion failed"])
    | Some (major, minor, build) =>
        if 10 <=? major then (SYSCHK_PASS, msg (version_text (major, minor, build) ++ [text "supported"]))
        else if (major =? 6) && (1 <=? minor) then
          (SYSCHK_PASS, msg (version_text (major, minor, build) ++ [text "supported"]))
        else (SYSCHK_FAIL, msg (version_text (major, minor, build) ++ [text "UNSUPPORTED (need 6.1+)"]))
    end.

Definition ERROR_SERVICE_DOES_NOT_EXIST : Z := 1060.
Definition SERVICE_STOPPED : Z := 1.
Definition SERVICE_START_PENDING : Z := 2.
Definition SERVICE_RUNNING : Z := 4.

(** What the service calls answer: [inl] an error code. *)
Definition check_vss_service (scm svc : Z + unit) (status : Z + Z) : Z * list Z :=
  match scm with
  | inl err => (SYSCHK_WARN, msg [text "cannot open Service Control Manager (err="; print_int err; text ")"])
  | inr _ =>
      match svc with
      | inl err =>
          (SYSCHK_FAIL,
           if err =? ERROR_SERVICE_DOES_NOT_EXIST then
             msg [text "VSS service not found  --  Volume Shadow Copy unavailable"]
           else msg [text "cannot open VSS service (err="; print_int err; text ")"])
      | inr _ =>
          match status with
          | inl err => (SYSCHK_FAIL, msg [text "cannot query VSS service status (err="; print_int err; text ")"])
          | inr state =>
              if state =? SERVICE_RUNNING then (SYSCHK_PASS, msg [text "VSS service is running"])
              else if state =? SERVICE_START_PENDING then (SYSCHK_WARN, msg [text "VSS service is starting..."])
              else if state =? SERVICE_STOPPED then
                (SYSCHK_PASS,
                 msg [text "VSS service is stopped (demand-start — will auto-start on first snapshot request)"])
              else (SYSCHK_WARN, msg [text "VSS service state="; print_int state; text "  --  unexpected"])
          end
      end
  end.

(** The loop of [check_disks]: accessible, inaccessible, the detail text and
    [pos].  [open]: the size of the reader [block_reader_open] gives. *)
Record disk_scan := mk_scan { ds_accessible : Z; ds_inaccessible : Z; ds_detail : list Z; ds_pos : Z }.

(** ["%s%s(%.2f GB) "] *)
Definition disk_text (vol : volume_info) (size : Z) : list Z :=
  (match vi_name vol with [] => vi_disk_path vol | name => name ++ text " " end) ++
  text "(" ++ print_int (size / (1024 * 1024 * 1024)) ++ text ".00 GB) ".

(** [snprintf(detail + pos, sizeof(detail) - pos, ...)] when [pos] is within the
    guard. *)
Definition add_detail (piece : list Z) (s : disk_scan) : list Z * Z :=
  if ds_pos s <? 512 - 60 then (ds_detail s ++ ztake (512 - ds_pos s - 1) piece, ds_pos s + len piece)
  else (ds_detail s, ds_pos s).

Definition scan_disk (open : list Z → option Z) (s : disk_scan) (vol : volume_info) : disk_scan :=
  match open (vi_disk_path vol) with
  | Some size =>
      let '(detail, pos) := add_detail (disk_text vol size) s in
      mk_scan (ds_accessible s + 1) (ds_inaccessible s) detail pos
  | None => mk_scan (ds_accessible s) (ds_inaccessible s + 1) (ds_detail s) (ds_pos s)
  end.

(** [enumerated]: what [volume_enumerate] answers *)
Definition check_disks (enumerated : list volume_info * Z) (open : list Z → option Z) : Z * list Z :=
  let '(vols, rc) := enumerated in
  if negb (rc =? 0) || (len vols =? 0) then (SYSCHK_FAIL, msg [text "no fixed disks found  --  nothing to migrate"])
  else
    let s := foldl (scan_disk open) (mk_scan 0 0 [] 0) vols in
    if ds_inaccessible s =? 0 then
      (SYSCHK_PASS, msg [print_int (len vols); text " disk(s) accessible: "; ds_detail s])
    else if 0 <? ds_accessible s then
      (SYSCHK_WARN, msg [print_int (ds_accessible s); text "/"; print_int (len vols); text " disk(s) accessible (";
                         print_int (ds_inaccessible s); text " failed). "; ds_detail s])
    else (SYSCHK_FAIL, msg [text "cannot access any of "; print_int (len vols); text " disk(s)"]).

(** [sys_drive]: 8 bytes.  [var]: the value of SystemDrive, if it is set, of at most
    the seven characters the buffer takes ([GetEnvironmentVariableA] stores no
    longer one); it answers 0 for an empty value too. *)
Definition system_drive (var : option (list Z)) : cres (list Z) :=
  match var with
  | None => Ret (text "C:\")
  | Some v =>
      match last v with
      | None => Ret (text "C:\")
      | Some c => if c =? CH_BACKSLASH then Ret v
                  else if 8 <? len v + 2 then Oob else Ret (v ++ [CH_BACKSLASH])
      end
  end.

(** [space]: GetDiskFreeSpaceExA, the free and the total bytes or the error. *)
Definition check_disk_space (var : option (list Z)) (space : list Z → Z + Z * Z) : cres (Z * list Z) :=
  sys_drive ← system_drive var;
  match space sys_drive with
  | inl err => Ret (SYSCHK_WARN, msg [text "cannot query free space on "; sys_drive; text " (err="; print_int err; text ")"])
  | inr (free_bytes, total_bytes) =>
      let free_gb := free_bytes / (1024 * 1024 * 1024) in
      let total_gb := total_bytes / (1024 * 1024 * 1024) in
      let report verdict := msg [sys_drive; text ": "; print_int free_gb; text " GB free / "; print_int total_gb;
                                 text " GB total  --  "; verdict] in
      Ret (if 2 <=? free_gb then (SYSCHK_PASS, report (text "adequate"))
           else if 1 <=? free_gb then (SYSCHK_WARN, report (text "low (recommend 2+ GB)"))
           else (SYSCHK_FAIL, report (text "critically low, may cause SQLite errors")))
  end.

Definition FirmwareTypeBios : Z := 1.
Definition FirmwareTypeUefi : Z := 2.
Definition ERROR_FILE_NOT_FOUND : Z := 2.

Definition bios_fallback (runtime : Z + unit) : Z * list Z :=
  match runtime with
  | inr _ => (SYSCHK_PASS, msg [text "UEFI firmware detected (via runtime service access)"])
  | inl err =>
      if err =? ERROR_FILE_NOT_FOUND then (SYSCHK_PASS, msg [text "Legacy BIOS detected (no UEFI runtime)"])
      else (SYSCHK_WARN, msg [text "firmware type could not be determined"])
  end.

(** [gft]: the answer of GetFirmwareType, where there is one; [runtime]: opening
    the runtime service, or its error. *)
Definition check_bios_mode (k32 has_gft : bool) (gft : option Z) (runtime : Z + unit) : Z * list Z :=
  match (if k32 && has_gft then gft else None) with
  | Some ft =>
      if ft =? FirmwareTypeUefi then (SYSCHK_PASS, msg [text "UEFI firmware detected  --  target VM must use UEFI boot"])
      else if ft =? FirmwareTypeBios then
        (SYSCHK_PASS, msg [text "Legacy BIOS detected  --  target VM must use BIOS boot"])
      else bios_fallback runtime
  | None => bios_fallback runtime
  end.

(** The loop over the results: installed, missing_critical, missing_qxldod. *)
Definition count_drivers (results : list driver_result) : Z * bool * bool :=
  foldl (λ '(installed, critical, qxldod) r,
           if negb (dr_installed r =? 0) then (installed + 1, critical, qxldod)
           else if bool_decide (dr_name r = text "qxldod") then (installed, critical, true)
           else (installed, true, qxldod)) (0, false, false) results.

(** The world of the processes is changed by the probes. *)
Definition check_virtio_drivers {W} (E : denv W) (driver_dir : option (list Z)) (w : W) : W * (Z * list Z) :=
  match driver_dir with
  | None => (w, (SYSCHK_INFO, msg [text "no driver directory specified  --  skipped"]))
  | Some _ =>
      let '(w, _, results) := driver_check_virtio E w in
      let '(installed, missing_critical, missing_qxldod) := count_drivers results in
      (w,
       if installed =? 3 then (SYSCHK_PASS, msg [text "all 3 VirtIO drivers are pre-installed"])
       else if missing_critical && missing_qxldod then
         (SYSCHK_FAIL, msg [text "viostor+netkvm missing (will BSOD), qxldod missing (VNC console only). Run: inject_driver"])
       else if missing_critical then
         (SYSCHK_FAIL, msg [text "viostor or netkvm missing  --  VM will BSOD or lose network. Run: inject_driver"])
       else (SYSCHK_WARN, msg [text "qxldod missing  --  VNC console may not display correctly (non-critical)"]))
  end.

(** [sel_rc]: the answer of select; [so_error]: the socket's error. *)
Definition check_network (server_ip : option (list Z)) (port : Z) (wsa sock : bool) (sel_rc so_error : Z) : Z * list Z :=
  match server_ip with
  | None => (SYSCHK_INFO, msg [text "no target server specified  --  skipped"])
  | Some ip =>
      let at_server a b := msg [text a; ip; text ":"; print_int port; text b] in
      if negb wsa then (SYSCHK_FAIL, msg [text "Winsock init failed"])
      else if negb sock then (SYSCHK_FAIL, msg [text "cannot create socket"])
      else if 0 <? sel_rc then
        if so_error =? 0 then (SYSCHK_PASS, at_server "TCP connect to "%string " succeeded"%string)
        else (SYSCHK_FAIL, at_server "TCP connect to "%string " failed  --  check firewall and server availability"%string)
      else if sel_rc =? 0 then
        (SYSCHK_FAIL, at_server "TCP connect to "%string " timed out (3s)  --  check firewall and network"%string)
      else (SYSCHK_FAIL, at_server "select error on "%string ""%string)
  end.

(** ** The batch *)

(** [syschk_item_t] and [syschk_result_t] *)
Record syschk_item := mk_item { it_label : list Z; it_severity : Z; it_message : list Z }.

Record syschk_result := mk_result {
  sr_items : list syschk_item;
  sr_pass_count : Z;
  sr_warn_count : Z;
  sr_fail_count : Z;
}.

(** What a run asks of the system. *)
Record sysenv := mk_senv {
  se_admin : bool * bool;
  se_version : bool * bool * option (Z * Z * Z);
  se_service : (Z + unit) * (Z + unit) * (Z + Z);
  se_volumes : list volume_info * Z;
  se_open : list Z → option Z;
  se_drive : option (list Z);
  se_space : list Z → Z + Z * Z;
  se_firmware : bool * bool * option Z * (Z + unit);
}.

(** One item, by its severity. *)
Definition tally (r : syschk_result * Z) (it : syschk_item) : syschk_result * Z :=
  let '(mk_result items p wn f, rc) := r in
  if it_severity it =? SYSCHK_PASS then (mk_result items (p + 1) wn f, rc)
  else if it_severity it =? SYSCHK_WARN then (mk_result items p (wn + 1) f, rc)
  else if it_severity it =? SYSCHK_FAIL then (mk_result items p wn (f + 1), -1)
  else r.

Definition item (label : string) (c : Z * list Z) : syschk_item := mk_item (text label) c.1 c.2.

Definition system_check_run {W} (E : denv W) (S : sysenv) (driver_dir : option (list Z)) (w : W)
    : cres (W * Z * syschk_result) :=
  let admin := check_admin_rights (se_admin S).1 (se_admin S).2 in
  let version := check_windows_version (se_version S).1.1 (se_version S).1.2 (se_version S).2 in
  let service := check_vss_service (se_service S).1.1 (se_service S).1.2 (se_service S).2 in
  let disks := check_disks (se_volumes S) (se_open S) in
  space ← check_disk_space (se_drive S) (se_space S);
  let bios := check_bios_mode (se_firmware S).1.1.1 (se_firmware S).1.1.2 (se_firmware S).1.2 (se_firmware S).2 in
  let items := [item "Admin rights" admin; item "OS version" version; item "VSS service" service;
                item "Disk access" disks; item "Disk space" space; item "BIOS mode" bios] in
  let '(w, items) :=
    match driver_dir with
    | Some _ => let '(w, drivers) := check_virtio_drivers E driver_dir w in (w, items ++ [item "VirtIO drivers" drivers])
    | None => (w, items)
    end in
  let '(result, rc) := foldl tally (mk_result items 0 0 0, 0) items in
  Ret (w, rc, result).

Definition icon (severity : Z) : list Z :=
  if severity =? SYSCHK_PASS then text "[PASS]"
  else if severity =? SYSCHK_WARN then text "[WARN]"
  else if severity =? SYSCHK_FAIL then text "[FAIL]"
  else text "[INFO]".

(** ["%-18s"] *)
Definition pad18 (s : list Z) : list Z := s ++ replicate (18 - length s) CH_SPACE.

Definition nl : list Z := [CH_NL].

Definition item_line (it : syschk_item) : list Z :=
  text "  " ++ icon (it_severity it) ++ text " " ++ pad18 (it_label it) ++ text " " ++ it_message it ++ nl.

(** The text printed. *)
Definition system_check_print (r : syschk_result) : list Z :=
  nl ++ text "  System Environment Check" ++ nl ++ text "  ========================" ++ nl ++ nl ++
  (sr_items r ≫= item_line) ++
  nl ++ text "  Summary: " ++ print_int (sr_pass_count r) ++ text " pass, " ++ print_int (sr_warn_count r) ++
  text " warn, " ++ print_int (sr_fail_count r) ++ text " fail" ++ nl ++
  (if 0 <? sr_fail_count r then
     nl ++ text "  FAIL -- " ++ print_int (sr_fail_count r) ++ text " check(s) failed. Fix issues above before migration." ++ nl ++ nl
   else if 0 <? sr_warn_count r then
     nl ++ text "  WARN -- " ++ print_int (sr_warn_count r) ++ text " warning(s). Review before proceeding." ++ nl ++ nl
   else nl ++ text "  ALL PASS -- system is ready for migration." ++ nl ++ nl).

(** ** Other platforms *)

Definition check_admin_rights_posix (euid : Z) : Z * list Z :=
  if euid =? 0 then (SYSCHK_PASS, msg [text "running as root"])
  else (SYSCHK_FAIL, msg [text "NOT running as root  --  disk access requires root"]).

Definition check_windows_version_posix : Z * list Z := (SYSCHK_INFO, msg [text "not running on Windows"]).
Definition check_vss_service_posix : Z * list Z := (SYSCHK_INFO, msg [text "not applicable on this platform"]).
Definition check_disk_space_posix : Z * list Z := (SYSCHK_INFO, msg [text "disk space check not implemented for this platform"]).

Definition check_bios_mode_posix (efi : bool) : Z * list Z :=
  (SYSCHK_PASS, if efi then msg [text "UEFI firmware detected"] else msg [text "Legacy BIOS or unknown firmware"]).

(** ** Lemmas *)

Lemma count_severity_cons (p : Z → bool) it (l : list syschk_item) :
  len (filter (λ x, p (it_severity x) = true) (it :: l)) =
  (if p (it_severity it) then 1 else 0) + len (filter (λ x, p (it_severity x) = true) l).
Proof. rewrite filter_cons. repeat case_match; len_norm; (done || lia). Qed.

(** The items of a severity. *)
Definition of_severity (s : Z) (l : list syschk_item) : Z := len (filter (λ x, (it_severity x =? s) = true) l).

Lemma tally_all l : ∀ items p wn f rc,
  foldl tally (mk_result items p wn f, rc) l =
  (mk_result items (p + of_severity SYSCHK_PASS l) (wn + of_severity SYSCHK_WARN l) (f + of_severity SYSCHK_FAIL l),
   if 0 <? of_severity SYSCHK_FAIL l then -1 else rc).
Proof.
  induction l as [|it l IH]; intros; cbn [foldl tally]; [unfold of_severity; cbn; len_norm; f_equal; f_equal; lia|].
  unfold of_severity in *. rewrite !(count_severity_cons (λ s, s =? _)).
  set (np := len (filter _ l)) in *. assert (0 ≤ len (filter (λ x, (it_severity x =? SYSCHK_FAIL) = true) l)) by auto with g2c.
  unfold SYSCHK_PASS, SYSCHK_WARN, SYSCHK_FAIL in *.
  destruct (Z.eqb_spec (it_severity it) 0); [|destruct (Z.eqb_spec (it_severity it) 1); [|destruct (Z.eqb_spec (it_severity it) 2)]];
    rewrite IH; decide_tests; repeat case_test; try lia; f_equal; f_equal; lia.
Qed.

Lemma tally_rc items :
  (if 0 <? of_severity SYSCHK_FAIL items then -1 else 0) = 0 ↔ Forall (λ x, it_severity x ≠ SYSCHK_FAIL) items.
Proof.
  induction items as [|it items IH]; [done|]. unfold of_severity in *.
  rewrite (count_severity_cons (λ s, s =? _)), Forall_cons, <- IH.
  pose proof (len_nonneg (filter (λ x, (it_severity x =? SYSCHK_FAIL) = true) items)).
  destruct (Z.eqb_spec (it_severity it) SYSCHK_FAIL); repeat case_test; split; try lia; intuition.
Qed.

(** The scan counts the disks that open, and its text stays in the buffer. *)
Definition scan_ok (s : disk_scan) : Prop :=
  0 ≤ ds_pos s ∧ len (ds_detail s) = Z.min (ds_pos s) 511.

Lemma add_detail_ok piece s : scan_ok s →
  let '(detail, pos) := add_detail piece s in 0 ≤ pos ∧ len detail = Z.min pos 511.
Proof.
  intros [Hp Hl]. unfold add_detail. pose proof (len_nonneg piece). case_test; [|done].
  split; [lia|]. len_norm. rewrite Hl. lia.
Qed.

Lemma scan_disks_spec open vols : ∀ s, scan_ok s →
  let s' := foldl (scan_disk open) s vols in
  scan_ok s' ∧
  ds_accessible s' = ds_accessible s + len (filter (λ v, is_Some (open (vi_disk_path v))) vols) ∧
  ds_inaccessible s' = ds_inaccessible s + len (filter (λ v, open (vi_disk_path v) = None) vols).
Proof.
  induction vols as [|v vols IH]; intros s Hs; cbn [foldl]; [rewrite !filter_nil; len_norm; split; [done|lia]|].
  assert (Hok : scan_ok (scan_disk open s v)).
  { unfold scan_disk. destruct (open (vi_disk_path v)) as [size|]; [|done].
    pose proof (add_detail_ok (disk_text v size) s Hs). by destruct (add_detail (disk_text v size) s). }
  destruct (IH _ Hok) as (H1 & H2 & H3). split; [done|]. rewrite H2, H3. unfold scan_disk.
  destruct (open (vi_disk_path v)) as [size|] eqn:Ho.
  - destruct (add_detail (disk_text v size) s) as [d p]. cbn [ds_accessible ds_inaccessible].
    rewrite filter_cons_True by (rewrite Ho; by eexists). rewrite filter_cons_False by (by rewrite Ho). len_norm. lia.
  - cbn [ds_accessible ds_inaccessible].
    rewrite filter_cons_False by (rewrite Ho; by intros []). rewrite filter_cons_True by done. len_norm. lia.
Qed.

(** ** What lets a migration go ahead *)

Section Ready.
Context {W : Type} (E : denv W).

Definition version_ready (ntdll fn : bool) (vi : option (Z * Z * Z)) : Prop :=
  ∀ major minor build, ntdll = true → fn = true → vi = Some (major, minor, build) →
  10 ≤ major ∨ (major = 6 ∧ 1 ≤ minor).

Definition service_ready (scm svc : Z + unit) (status : Z + Z) : Prop :=
  scm = inr () → svc = inr () ∧ ∃ state, status = inr state.

Definition disks_ready (enumerated : list volume_info * Z) (open : list Z → option Z) : Prop :=
  enumerated.2 = 0 ∧ ∃ v, v ∈ enumerated.1 ∧ is_Some (open (vi_disk_path v)).

Definition space_ready (drive : list Z) (space : list Z → Z + Z * Z) : Prop :=
  ∀ free total, space drive = inr (free, total) → 1024 * 1024 * 1024 ≤ free.

(** viostor and netkvm are found. *)
Definition drivers_ready (driver_dir : option (list Z)) (w : W) : Prop :=
  driver_dir ≠ None → Forall (λ r, dr_name r ≠ string_bytes "qxldod" → dr_installed r ≠ 0) (driver_check_virtio E w).2.

Definition failed (c : Z * list Z) : Prop := c.1 = SYSCHK_FAIL.

(** [c] fails exactly when its condition does not hold. *)
Definition decides (c : Z * list Z) (P : Prop) : Prop := (failed c ∧ ¬ P) ∨ (¬ failed c ∧ P).

Lemma version_decides ntdll fn vi : decides (check_windows_version ntdll fn vi) (version_ready ntdll fn vi).
Proof.
  unfold check_windows_version, version_ready.
  destruct ntdll; cbn [negb]; [|by right; split; [|intros]]. destruct fn; cbn [negb]; [|by right; split; [|intros]].
  destruct vi as [[[major minor] build]|]; [|by right; split; [|intros]].
  destruct (Z.leb_spec 10 major).
  - right. split; [done|]. intros ??? _ _ [= <- <- <-]. by left.
  - destruct ((major =? 6) && (1 <=? minor)) eqn:Hm.
    + right. split; [done|]. intros ??? _ _ [= <- <- <-]. bool_to_prop. by right.
    + left. split; [done|]. intros Hv. specialize (Hv _ _ _ eq_refl eq_refl eq_refl). lia.
Qed.

Lemma service_decides scm svc status : decides (check_vss_service scm svc status) (service_ready scm svc status).
Proof.
  unfold check_vss_service, service_ready. destruct scm as [err|[]]; [by right|].
  destruct svc as [err|[]].
  { left. split; [done|]. intros H. by destruct (H eq_refl) as [? _]. }
  destruct status as [err|state].
  { left. split; [done|]. intros H. by destruct (H eq_refl) as [_ [? ?]]. }
  right. split; [repeat case_match; done|]. intros _. split; [done|]. by eexists.
Qed.

Lemma disks_decides enumerated open : decides (check_disks enumerated open) (disks_ready enumerated open).
Proof.
  unfold check_disks, disks_ready. destruct enumerated as [vols rc]. cbn [fst snd].
  destruct (negb (rc =? 0) || (len vols =? 0)) eqn:Hz.
  { left. split; [done|]. intros [-> (v & Hv & _)]. cbn in Hz. bool_to_prop. apply len_zero_nil in Hz as ->. by apply not_elem_of_nil in Hv. }
  bool_to_prop. pose proof (scan_disks_spec open vols (mk_scan 0 0 [] 0)) as (_ & Ha & Hi); [by split|].
  set (s := foldl (scan_disk open) (mk_scan 0 0 [] 0) vols) in *. cbn [ds_accessible ds_inaccessible] in *.
  assert (Hex : ∀ v, v ∈ vols → is_Some (open (vi_disk_path v)) → 0 < ds_accessible s).
  { intros v Hv Ho. rewrite Ha. destruct (filter _ vols) as [|x l] eqn:Ef; [|len_norm; pose proof (len_nonneg l); lia].
    assert (v ∈ filter (λ v, is_Some (open (vi_disk_path v))) vols) as Hin by (by apply list_elem_of_filter).
    rewrite Ef in Hin. by apply not_elem_of_nil in Hin. }
  assert (Hnone : 0 < ds_accessible s → ∃ v, v ∈ vols ∧ is_Some (open (vi_disk_path v))).
  { rewrite Ha. destruct (filter _ vols) as [|x l] eqn:Ef; [intros Hlt; exfalso; len_norm; lia|]. intros _. exists x.
    assert (x ∈ filter (λ v, is_Some (open (vi_disk_path v))) vols) as Hin by (rewrite Ef; set_solver).
    by apply list_elem_of_filter in Hin as []. }
  destruct (Z.eqb_spec (ds_inaccessible s) 0) as [Hi0|Hi0].
  - right. split; [done|]. split; [done|]. destruct vols as [|v vols]; [done|].
    exists v. split; [set_solver|]. destruct (open (vi_disk_path v)) eqn:Ho; [by eexists|].
    rewrite Hi0, filter_cons_True in Hi by done. len_norm. pose proof (len_nonneg (filter (λ v, open (vi_disk_path v) = None) vols)). lia.
  - destruct (Z.ltb_spec 0 (ds_accessible s)).
    + right. split; [done|]. by split; [|apply Hnone].
    + left. split; [done|]. intros [_ (v & Hv & Ho)]. specialize (Hex v Hv Ho). lia.
Qed.

Lemma space_decides drive space var :
  system_drive var = Ret drive → ∃ c, check_disk_space var space = Ret c ∧ decides c (space_ready drive space).
Proof.
  intros Hd. unfold check_disk_space, space_ready. rewrite Hd. cbn [mbind cres_bind].
  destruct (space drive) as [err|[free total]]; eexists; (split; [reflexivity|]); [by right|].
  set (g := 1024 * 1024 * 1024). pose proof (Z.div_mod free g ltac:(lia)). pose proof (Z.mod_pos_bound free g ltac:(lia)).
  destruct (Z.leb_spec 2 (free / g)); [|destruct (Z.leb_spec 1 (free / g))].
  - right. split; [done|]. intros ?? [= <- <-]. lia.
  - right. split; [done|]. intros ?? [= <- <-]. lia.
  - left. split; [done|]. intros H'. specialize (H' _ _ eq_refl). lia.
Qed.

Lemma count_drivers_spec rs : ∀ i c q,
  let '(i', c', q') := foldl (λ '(installed, critical, qxldod) r,
     if negb (dr_installed r =? 0) then (installed + 1, critical, qxldod)
     else if bool_decide (dr_name r = string_bytes "qxldod") then (installed, critical, true)
     else (installed, true, qxldod)) (i, c, q) rs in
  i ≤ i' ≤ i + len rs ∧ (i' = i + len rs → c' = c ∧ q' = q ∧ Forall (λ r, dr_installed r ≠ 0) rs) ∧
  (c' = false ↔ c = false ∧ Forall (λ r, dr_name r ≠ string_bytes "qxldod" → dr_installed r ≠ 0) rs).
Proof.
  induction rs as [|r rs IH]; intros i c q; cbn [foldl]; [by rewrite len_nil, !Forall_nil; repeat split; try lia; intuition|].
  rewrite len_cons. destruct (Z.eqb_spec (dr_installed r) 0) as [H0|H0]; cbn [negb].
  - case_bool_decide.
    + specialize (IH i c true). destruct (foldl _ (i, c, true) rs) as [[i' c'] q']. destruct IH as (H1 & H2 & H3).
      split; [lia|]. split; [lia|]. rewrite H3, Forall_cons. by intuition.
    + specialize (IH i true q). destruct (foldl _ (i, true, q) rs) as [[i' c'] q']. destruct IH as (H1 & H2 & H3).
      split; [lia|]. split; [lia|]. rewrite H3, Forall_cons. by intuition.
  - specialize (IH (i + 1) c q). destruct (foldl _ (i + 1, c, q) rs) as [[i' c'] q']. destruct IH as (H1 & H2 & H3).
    split; [lia|]. split; [intros; destruct H2 as (? & ? & ?); [lia|]; by rewrite Forall_cons|]. rewrite H3, Forall_cons. by intuition.
Qed.

Lemma drivers_decides driver_dir w : decides (check_virtio_drivers E driver_dir w).2 (drivers_ready driver_dir w).
Proof.
  unfold check_virtio_drivers, drivers_ready. destruct driver_dir as [dir|]; [|by right].
  pose proof (check_virtio_length E w) as Hlen. destruct (driver_check_virtio E w) as [[w' rc] rs]. cbn [snd] in *.
  pose proof (count_drivers_spec rs 0 false false) as H. unfold count_drivers.
  destruct (foldl _ (0, false, false) rs) as [[i c] q]. destruct H as (H1 & H2 & H3). rewrite Hlen in *.
  destruct (Z.eqb_spec i 3) as [->|Hi].
  - right. split; [done|]. intros _. destruct H2 as (-> & _ & _); [done|]. by apply H3.
  - destruct c; cbn [andb].
    + left. split; [by destruct q|]. intros H. specialize (H ltac:(done)). by pose proof (proj2 H3 (conj eq_refl H)).
    + right. split; [done|]. intros _. by apply H3.
Qed.

(** C30 (system_check_run_correct): the system check returns 0 exactly when none of
    its checks fails: the process is an administrator's; Windows is 6.1 or later,
    when its version can be told; the VSS service can be queried, when the service
    manager can be opened, and may be in any state, stopped included, which
    docs/system_check.md counts as a failure; some enumerated disk opens; at least
    one gigabyte is free on the system drive, when its space can be asked; and with
    a driver directory the viostor and netkvm drivers are found.  Warnings do not
    count against it.  It runs six checks,
    seven with a driver directory, and its counters are the numbers of checks
    passed, warned about and failed. *)
Theorem system_check_run_correct S driver_dir drive w :
  system_drive (se_drive S) = Ret drive →
  ∃ w' rc res, system_check_run E S driver_dir w = Ret (w', rc, res) ∧
    len (sr_items res) = (if driver_dir then 7 else 6) ∧ len (sr_items res) ≤ SYSCHK_MAX_CHECKS ∧
    sr_pass_count res = of_severity SYSCHK_PASS (sr_items res) ∧
    sr_warn_count res = of_severity SYSCHK_WARN (sr_items res) ∧
    sr_fail_count res = of_severity SYSCHK_FAIL (sr_items res) ∧
    (rc = 0 ∨ rc = -1) ∧
    (rc = 0 ↔ se_admin S = (true, true) ∧
              version_ready (se_version S).1.1 (se_version S).1.2 (se_version S).2 ∧
              service_ready (se_service S).1.1 (se_service S).1.2 (se_service S).2 ∧
              disks_ready (se_volumes S) (se_open S) ∧ space_ready drive (se_space S) ∧ drivers_ready driver_dir w).
Proof.
  intros Hdrive. unfold system_check_run.
  pose proof (version_decides (se_version S).1.1 (se_version S).1.2 (se_version S).2) as Hv.
  pose proof (service_decides (se_service S).1.1 (se_service S).1.2 (se_service S).2) as Hs.
  pose proof (disks_decides (se_volumes S) (se_open S)) as Hd.
  destruct (space_decides drive (se_space S) (se_drive S) Hdrive) as (space & -> & Hsp).
  cbn [mbind cres_bind].
  pose proof (drivers_decides driver_dir w) as Hdr.
  set (bios := check_bios_mode _ _ _ _).
  assert (Hb : ¬ failed bios).
  { unfold bios, check_bios_mode, bios_fallback. repeat case_match; done. }
  assert (Ha : decides (check_admin_rights (se_admin S).1 (se_admin S).2) (se_admin S = (true, true))).
  { unfold check_admin_rights. destruct (se_admin S) as [[] []]; cbn; [by right|by left..]. }
  set (admin := check_admin_rights _ _) in *. set (version := check_windows_version _ _ _) in *.
  set (service := check_vss_service _ _ _) in *. set (disks := check_disks _ _) in *.
  clearbody admin version service disks bios.
  destruct driver_dir as [dir|].
  1: destruct (check_virtio_drivers E (Some dir) w) as [w' drivers]; cbn [snd] in Hdr.
  2: destruct Hdr as [[? _]|[_ Hdr]]; [done|].
  all: rewrite tally_all; eexists _, _, _; split; [reflexivity|];
    cbn [sr_items sr_pass_count sr_warn_count sr_fail_count];
    repeat (split; [done|]); (split; [case_test; auto|]); rewrite tally_rc; unfold decides, failed in *; cbn [app];
    rewrite !Forall_cons, Forall_nil; cbn [it_severity item]; tauto.
Qed.

End Ready.

(** A Windows Server 2019 with one disk and 40 GB free. *)
Definition demo_senv : sysenv := {|
  se_admin := (true, true);
  se_version := (true, true, Some (10, 0, 17763));
  se_service := (inr (), inr (), inr SERVICE_STOPPED);
  se_volumes := ([mk_vol 0 (drive_path 0) [] (string_bytes "C:") 0 (100 * 2 ^ 30) 0 0 0 false 1], 0);
  se_open := λ _, Some (100 * 2 ^ 30);
  se_drive := Some (string_bytes "C:");
  se_space := λ _, inr (40 * 2 ^ 30, 100 * 2 ^ 30);
  se_firmware := (true, true, Some FirmwareTypeUefi, inl 0);
|}.

Lemma system_check_run_correct_witness :
  ∃ w' rc res, system_check_run (demo_denv [80]) demo_senv (Some []) [] = Ret (w', rc, res) ∧ rc = 0 ∧
    sr_pass_count res = 7 ∧ sr_fail_count res = of_severity SYSCHK_FAIL (sr_items res).
Proof.
  destruct (system_check_run_correct (demo_denv [80]) demo_senv (Some []) (string_bytes "C:\") [] eq_refl)
    as (w' & rc & res & H & _ & _ & _ & _ & Hf & _). exists w', rc, res.
  assert (E : ∃ w1 r1, system_check_run (demo_denv [80]) demo_senv (Some []) [] = Ret (w1, 0, r1) ∧ sr_pass_count r1 = 7)
    by (vm_compute; by eexists _, _).
  destruct E as (w1 & r1 & E & E7). rewrite E in H. injection H as <- <- <-. done.
Defined.

(** [system_drive_overflow]: the eight bytes for the system drive hold every
    value of up to six characters with its backslash; a value of seven characters
    without one makes [strcat] write past the end. *)
Theorem system_drive_overflow v :
  v ≠ [] → len v ≤ 7 →
  (system_drive (Some v) = Oob ↔ len v = 7 ∧ last v ≠ Some CH_BACKSLASH) ∧
  (∀ d, system_drive (Some v) = Ret d → len d ≤ 7 ∧ last d = Some CH_BACKSLASH).
Proof.
  intros Hv Hl. unfold system_drive. destruct (last v) as [c|] eqn:El; [|by apply last_None in El].
  destruct (Z.eqb_spec c CH_BACKSLASH) as [->|Hc].
  - split; [by split; [|intros [_ []]]|]. by intros d [= <-].
  - destruct (Z.ltb_spec 8 (len v + 2)).
    + split; [|done]. split; [|done]. intros _. split; [lia|congruence].
    + split; [split; [done|intros [? _]; lia]|]. intros d [= <-]. rewrite last_snoc. len_norm. split; [lia|done].
Qed.

Lemma system_drive_overflow_witness :
  system_drive (Some (string_bytes "X:abcde")) = Oob ∧ system_drive (Some (string_bytes "C:")) = Ret (string_bytes "C:\").
Proof.
  destruct (system_drive_overflow (string_bytes "X:abcde") ltac:(done) ltac:(vm_compute; discriminate)) as [H1 _].
  split; [|reflexivity]. apply H1. by split.
Defined.

(** The code passes a stopped VSS service, which starts on demand; the manual
    (docs/system_check.md) lists it among the failures. *)
Lemma stopped_service_passes : (check_vss_service (inr ()) (inr ()) (inr SERVICE_STOPPED)).1 = SYSCHK_PASS.
Proof. done. Qed.

(** A missing network driver alone is reported as both missing. *)
Lemma virtio_message_overstates :
  let E := mk_denv (W := unit) None (λ _, true) (λ p, Some p) None (λ _, None) (λ _, None) (λ _, true)
             (λ w cmd, (w, Some (if contains cmd "DEV_1001" then [[80]] else [], 0))) in
  (check_virtio_drivers E (Some []) ()).2.1 = SYSCHK_FAIL ∧
  starts_with (string_bytes "viostor+netkvm missing") (check_virtio_drivers E (Some []) ()).2.2 = true ∧
  dr_installed <$> head (driver_check_virtio E ()).2 = Some 1.
Proof. vm_compute. done. Qed.
