(* ===== verification/Client.v ===== *)
(** * The migration client's engine (client/main.c, lines 817 to 1419)

    [migrate_ctx_t] is split in two: what the configuration fixes ([config])
    and what changes ([cstate]).  The sockets behind the pool's descriptors are
    the map [cs_socks].  The environment is read through functions of the
    counter [cs_tick], which every read advances: [clock] (the monotonic
    milliseconds), [wall] (the time of day), [running] (the flag [g_running]),
    [malloc_ok] (whether the next [malloc] succeeds).
    A null payload handed to [wire_send] is undefined behaviour, recorded in
    [cs_crashed].  Sleeping has no effect on the state and is left out. *)

From stdpp Require Import strings.
From S2P Require Import Prelude Protocol Hash Net Zstd Msgpack Wire Queue Timer Pool Tracker BlockIO Json.

Record config := mk_cfg {
  cf_server_ip : list Z;
  cf_server_port : Z;
  cf_zstd_level : Z;
  cf_tail_send : bool;
  cf_dry_run : bool;
  cf_rate_limit_mb : Z;
}.

Record cstate := mk_cs {
  cs_queue : send_queue;
  cs_db : sqlite_db;
  cs_pool : socket_pool;
  cs_socks : gmap Z sock;
  cs_writer : msgpack_writer;
  cs_all_done : Z;
  cs_ctl_end_sent : Z;
  cs_server_done_rcvd : Z;
  cs_inc_round : Z;
  cs_inc_version : Z;
  cs_zero_change_rounds : Z;
  cs_rate_bytes_sent : Z;
  cs_rate_window_start : Z;
  cs_tick : nat;
  cs_crashed : bool;
}.

(** ** Field updates *)

Definition set_queue (s : cstate) (q : send_queue) : cstate :=
  mk_cs q (cs_db s) (cs_pool s) (cs_socks s) (cs_writer s) (cs_all_done s) (cs_ctl_end_sent s)
    (cs_server_done_rcvd s) (cs_inc_round s) (cs_inc_version s) (cs_zero_change_rounds s)
    (cs_rate_bytes_sent s) (cs_rate_window_start s) (cs_tick s) (cs_crashed s).

Definition set_db (s : cstate) (db : sqlite_db) : cstate :=
  mk_cs (cs_queue s) db (cs_pool s) (cs_socks s) (cs_writer s) (cs_all_done s) (cs_ctl_end_sent s)
    (cs_server_done_rcvd s) (cs_inc_round s) (cs_inc_version s) (cs_zero_change_rounds s)
    (cs_rate_bytes_sent s) (cs_rate_window_start s) (cs_tick s) (cs_crashed s).

Definition set_pool (s : cstate) (p : socket_pool) : cstate :=
  mk_cs (cs_queue s) (cs_db s) p (cs_socks s) (cs_writer s) (cs_all_done s) (cs_ctl_end_sent s)
    (cs_server_done_rcvd s) (cs_inc_round s) (cs_inc_version s) (cs_zero_change_rounds s)
    (cs_rate_bytes_sent s) (cs_rate_window_start s) (cs_tick s) (cs_crashed s).

Definition set_sock (s : cstate) (fd : Z) (k : sock) : cstate :=
  mk_cs (cs_queue s) (cs_db s) (cs_pool s) (<[fd := k]> (cs_socks s)) (cs_writer s) (cs_all_done s)
    (cs_ctl_end_sent s) (cs_server_done_rcvd s) (cs_inc_round s) (cs_inc_version s)
    (cs_zero_change_rounds s) (cs_rate_bytes_sent s) (cs_rate_window_start s) (cs_tick s) (cs_crashed s).

Definition set_writer (s : cstate) (w : msgpack_writer) : cstate :=
  mk_cs (cs_queue s) (cs_db s) (cs_pool s) (cs_socks s) w (cs_all_done s) (cs_ctl_end_sent s)
    (cs_server_done_rcvd s) (cs_inc_round s) (cs_inc_version s) (cs_zero_change_rounds s)
    (cs_rate_bytes_sent s) (cs_rate_window_start s) (cs_tick s) (cs_crashed s).

(** [all_done], [ctl_end_sent], [server_done_rcvd] *)
Definition set_flags (s : cstate) (all_done end_sent done_rcvd : Z) : cstate :=
  mk_cs (cs_queue s) (cs_db s) (cs_pool s) (cs_socks s) (cs_writer s) all_done end_sent done_rcvd
    (cs_inc_round s) (cs_inc_version s) (cs_zero_change_rounds s)
    (cs_rate_bytes_sent s) (cs_rate_window_start s) (cs_tick s) (cs_crashed s).

Definition set_zero_rounds (s : cstate) (n : Z) : cstate :=
  mk_cs (cs_queue s) (cs_db s) (cs_pool s) (cs_socks s) (cs_writer s) (cs_all_done s) (cs_ctl_end_sent s)
    (cs_server_done_rcvd s) (cs_inc_round s) (cs_inc_version s) n
    (cs_rate_bytes_sent s) (cs_rate_window_start s) (cs_tick s) (cs_crashed s).

Definition set_inc (s : cstate) (round version : Z) : cstate :=
  mk_cs (cs_queue s) (cs_db s) (cs_pool s) (cs_socks s) (cs_writer s) (cs_all_done s) (cs_ctl_end_sent s)
    (cs_server_done_rcvd s) round version (cs_zero_change_rounds s)
    (cs_rate_bytes_sent s) (cs_rate_window_start s) (cs_tick s) (cs_crashed s).

Definition set_rate (s : cstate) (bytes window : Z) : cstate :=
  mk_cs (cs_queue s) (cs_db s) (cs_pool s) (cs_socks s) (cs_writer s) (cs_all_done s) (cs_ctl_end_sent s)
    (cs_server_done_rcvd s) (cs_inc_round s) (cs_inc_version s) (cs_zero_change_rounds s)
    bytes window (cs_tick s) (cs_crashed s).

Definition set_crashed (s : cstate) : cstate :=
  mk_cs (cs_queue s) (cs_db s) (cs_pool s) (cs_socks s) (cs_writer s) (cs_all_done s) (cs_ctl_end_sent s)
    (cs_server_done_rcvd s) (cs_inc_round s) (cs_inc_version s) (cs_zero_change_rounds s)
    (cs_rate_bytes_sent s) (cs_rate_window_start s) (cs_tick s) true.

Definition tick (s : cstate) : cstate :=
  mk_cs (cs_queue s) (cs_db s) (cs_pool s) (cs_socks s) (cs_writer s) (cs_all_done s) (cs_ctl_end_sent s)
    (cs_server_done_rcvd s) (cs_inc_round s) (cs_inc_version s) (cs_zero_change_rounds s)
    (cs_rate_bytes_sent s) (cs_rate_window_start s) (S (cs_tick s)) (cs_crashed s).

Definition csock (s : cstate) (fd : Z) : sock := default fresh_sock (cs_socks s !! fd).

(** [reader_entry_t]: the fields the engine reads. *)
Record reader_entry := mk_rentry {
  re_reader : block_reader;
  re_live_reader : option block_reader;
  re_devno : Z;
  re_partition_offset : Z;
  re_is_vss : bool;
  re_block_count : Z;
}.

Definition BACKPRESSURE_RETRIES : Z := 600.
Definition INC_PUSH_RETRIES : Z := 300.

(** ["%s:%d"] in 256 bytes *)
Definition make_remote_id (cfg : config) : list Z :=
  ztake 255 (cf_server_ip cfg ++ CH_COLON :: print_int (cf_server_port cfg)).

Section Engine.
Context `{Zstd} (realloc_ok : Z → bool) (malloc_ok : nat → bool).
Context (clock wall : nat → Z) (running : nat → bool).
Context (cfg : config).

Definition timer_now (s : cstate) : Z * cstate := (clock (cs_tick s), tick s).
Definition time_now (s : cstate) : Z * cstate := (wall (cs_tick s), tick s).
Definition is_running (s : cstate) : bool * cstate := (running (cs_tick s), tick s).

(** ** process_ack *)

(** [queue_ack], then [sqlite_block_mark_acked] unless in tail mode. *)
Definition ack_block (s : cstate) (devno offset : Z) : cstate :=
  let s := set_queue s (queue_ack (cs_queue s) devno offset) in
  if cf_tail_send cfg then s else set_db s (sqlite_block_mark_acked (cs_db s) devno offset).2.

Definition handle_response (s : cstate) (resp : server_response_t) : cstate :=
  if (resp_type resp =? RESPONSE_ACK) || (resp_type resp =? RESPONSE_ACK_ALT) then
    ack_block s (resp_devno resp) (resp_offset resp)
  else if resp_type resp =? RESPONSE_SERVER_DONE then
    set_flags s (cs_all_done s) (cs_ctl_end_sent s) 1
  else s.

(** [while (1)]: until nothing more can be read from this connection. *)
Fixpoint ack_conn (fuel : nat) (fd : Z) (s : cstate) : cstate :=
  match fuel with
  | O => s
  | S fuel' =>
      let '(r, k) := pool_recv_ack (csock s fd) in
      let s := set_sock s fd k in
      match r with
      | AckGot resp => ack_conn fuel' fd (handle_response s resp)
      | _ => s
      end
  end.

(** A response takes twenty bytes. *)
Definition ack_fuel (k : sock) : nat := S (length (script_bytes (sk_in k))).

Fixpoint ack_conns (cs : list pool_conn) (s : cstate) : cstate :=
  match cs with
  | [] => s
  | c :: r =>
      if c_fd c =? SOCKET_ERR then ack_conns r s
      else ack_conns r (ack_conn (ack_fuel (csock s (c_fd c))) (c_fd c) s)
  end.

Definition process_ack (s : cstate) : cstate :=
  if cf_dry_run cfg then
    foldl (λ s p, ack_block s p.1 p.2) s (queue_get_pending (cs_queue s) 256)
  else ack_conns (pl_conns (cs_pool s)) s.

(** ** flush_one *)

(** The window of the rate limit. *)
Definition rate_account (s : cstate) (n : Z) : cstate :=
  if 0 <? cf_rate_limit_mb cfg then
    let bytes := u64 (cs_rate_bytes_sent s + n) in
    let '(now, s) := timer_now s in
    let window := if cs_rate_window_start s =? 0 then now else cs_rate_window_start s in
    if 5000 <? u64 (now - window) then set_rate s 0 now else set_rate s bytes window
  else s.

Definition flush_one (s : cstate) : Z * cstate :=
  match queue_pop (cs_queue s) with
  | (None, q) => (0, set_queue s q)
  | (Some entry, q) =>
      let s := set_queue s q in
      if cf_dry_run cfg then (1, ack_block s (qe_devno entry) (qe_offset entry))
      else
        let '(now, s) := time_now s in
        let '(conn, p) := pool_acquire now (cs_pool s) in
        let s := set_pool s p in
        match conn with
        | None => (-1, s)
        | Some i =>
            let c := conn_at p i in
            match qe_payload entry with
            | None => (-1, set_crashed s)
            | Some payload =>
                let '(rc, k) := wire_send (csock s (c_fd c)) payload (cf_zstd_level cfg)
                                  (default 0 (c_scratch c)) in
                let s := set_sock s (c_fd c) k in
                let '(now, s) := time_now s in
                let p := pool_touch now (cs_pool s) i in
                if negb (rc =? 0) then (-1, set_pool s (pool_release p i))
                else
                  let c := conn_at p i in
                  let c := mk_conn (c_fd c) (c_server_ip c) (c_server_port c) (c_in_use c)
                             (c_last_active c) (c_created_at c) (u64 (c_blocks_sent c + 1))
                             (u64 (c_bytes_sent c + qe_payload_len entry)) (c_scratch c) in
                  let s := set_pool s (pool_release (set_conn p i c) i) in
                  (1, rate_account s (qe_payload_len entry))
            end
        end
  end.

(** [while (flush_one(ctx) > 0) { }]: every turn takes an entry. *)
Fixpoint drain (fuel : nat) (s : cstate) : cstate :=
  match fuel with
  | O => s
  | S fuel' => let '(rc, s) := flush_one s in if 0 <? rc then drain fuel' s else s
  end.

Definition drain_queue (s : cstate) : cstate := drain (S (Z.to_nat (q_count (cs_queue s)))) s.

(** [while (queue_count(&ctx->queue) > 0 && g_running)] around it: every turn
    takes at least one entry. *)
Fixpoint force_drain (fuel : nat) (s : cstate) : cstate :=
  match fuel with
  | O => s
  | S fuel' =>
      if 0 <? queue_count (cs_queue s) then
        let '(run, s) := is_running s in
        if run then force_drain fuel' (process_ack (drain_queue s)) else s
      else s
  end.

Definition drain_all (s : cstate) : cstate := force_drain (Z.to_nat (q_count (cs_queue s))) s.

(** ** send_block *)

(** The push loop: the flag is false when [g_running] ended it.  A forced drain
    after 600 turns empties the queue, so that the next push succeeds. *)
Fixpoint push_retry (fuel : nat) (retry : Z) (s : cstate) (devno offset h : Z) (payload : list Z)
    : bool * cstate :=
  match fuel with
  | O => (false, s)
  | S fuel' =>
      let '(rc, q) := queue_push (malloc_ok (cs_tick s)) (cs_queue s) devno offset h payload in
      let s := set_queue s q in
      if rc =? 0 then (true, s)
      else
        let '(run, s) := is_running s in
        if negb run then (false, s)
        else
          let s := process_ack (drain_queue s) in
          let retry := retry + 1 in
          if BACKPRESSURE_RETRIES <? retry then
            push_retry fuel' 0 (drain_all s) devno offset h payload
          else push_retry fuel' retry s devno offset h payload
  end.

Definition PUSH_FUEL : nat := 603.

Definition send_block (s : cstate) (reader : block_reader) (devno disk_offset reader_offset : Z)
    : Z * cstate :=
  match block_reader_read reader reader_offset BLOCK_SIZE with
  | None => (-1, s)
  | Some data =>
      if len data =? 0 then (0, s)
      else
        let '(acked, db) := sqlite_block_acked (cs_db s) devno (s64 disk_offset) in
        let s := set_db s db in
        if acked =? 1 then (0, s)
        else
          let h := hash_block data (Z.land disk_offset 0xFFFFFFFF) in
          let '(same, s) :=
            if cf_tail_send cfg then
              let '(rc, stored, db) := sqlite_block_lookup (cs_db s) devno (s64 disk_offset) in
              (bool_decide (rc = 0 ∧ stored = Some h), set_db s db)
            else (false, s) in
          if (same : bool) then (0, s)
          else
            match msgpack_encode_block realloc_ok (cs_writer s) devno (s64 disk_offset) data with
            | None => (-1, s)
            | Some w =>
                let s := set_writer s w in
                let '(ok, s) := push_retry PUSH_FUEL 0 s devno (s64 disk_offset) h (wr_data w) in
                if (ok : bool) then
                  (0, set_db s (sqlite_block_upsert_v (cs_db s) devno (s64 disk_offset)
                                  (len data) h 0 (cs_inc_version s)).2)
                else (-1, s)
            end
  end.

(** ** do_retransmit *)

(** The entry covering an offset of a device, with the offset to read at. *)
Fixpoint find_reader (readers : list reader_entry) (devno disk_offset : Z) : option (reader_entry * Z) :=
  match readers with
  | [] => None
  | e :: r =>
      if negb (re_devno e =? devno) then find_reader r devno disk_offset
      else
        let part_end := u64 (re_partition_offset e + block_reader_size (re_reader e)) in
        if (re_partition_offset e <=? disk_offset) && (disk_offset <? part_end) then
          Some (e, if re_is_vss e then disk_offset - re_partition_offset e else disk_offset)
        else find_reader r devno disk_offset
  end.

Fixpoint retransmit_loop (blocks : list (Z * Z)) (readers : list reader_entry) (s : cstate) : cstate :=
  match blocks with
  | [] => s
  | (devno, offset) :: r =>
      let '(run, s) := is_running s in
      if negb run then s
      else
        match find_reader readers devno (u64 offset) with
        | None => retransmit_loop r readers s
        | Some (e, reader_offset) =>
            retransmit_loop r readers (send_block s (re_reader e) devno (u64 offset) reader_offset).2
        end
  end.

(** The query's remote id is the empty string. *)
Definition do_retransmit (s : cstate) (readers : list reader_entry) : cstate :=
  let '(count, blocks, db) := sqlite_get_unacked (cs_db s) 256 (Some []) in
  retransmit_loop blocks readers (set_db s db).

(** ** do_reconnect *)

(** [None]: the loop has not ended after [fuel] turns. *)
Fixpoint reconnect_loop (fuel : nat) (s : cstate) : option cstate :=
  match fuel with
  | O => None
  | S fuel' =>
      if pool_count (cs_pool s) <? SOCKET_POOL_TARGET then
        let '(now, s) := time_now s in
        match pool_acquire now (cs_pool s) with
        | (Some i, p) => reconnect_loop fuel' (set_pool s (pool_release p i))
        | (None, p) => Some (set_pool s p)
        end
      else Some s
  end.

Definition do_reconnect (fuel : nat) (s : cstate) : option cstate :=
  let '(now, s) := time_now s in
  let '(_, p) := pool_reap_stale now (cs_pool s) in
  reconnect_loop fuel (set_pool s p).

End Engine.

(** ** The queue under the engine *)

Section EngineQueue.
Context `{Zstd} (clock wall : nat → Z) (running : nat → bool) (cfg : config).

Lemma ack_block_queue s d o :
  queue_ok (cs_queue s) →
  queue_ok (cs_queue (ack_block cfg s d o)) ∧
  q_count (cs_queue (ack_block cfg s d o)) = q_count (cs_queue s) ∧
  cs_tick (ack_block cfg s d o) = cs_tick s.
Proof.
  intros Hq. unfold ack_block. destruct (ack_fifo (cs_queue s) d o Hq) as [Hq' _].
  by destruct (cf_tail_send cfg).
Qed.

Lemma handle_response_queue s r :
  queue_ok (cs_queue s) →
  queue_ok (cs_queue (handle_response cfg s r)) ∧
  q_count (cs_queue (handle_response cfg s r)) = q_count (cs_queue s) ∧
  cs_tick (handle_response cfg s r) = cs_tick s.
Proof.
  intros Hq. unfold handle_response. case_test; [by apply ack_block_queue|]. by case_test.
Qed.

Lemma ack_conn_queue fuel fd : ∀ s,
  queue_ok (cs_queue s) →
  queue_ok (cs_queue (ack_conn cfg fuel fd s)) ∧
  q_count (cs_queue (ack_conn cfg fuel fd s)) = q_count (cs_queue s) ∧
  cs_tick (ack_conn cfg fuel fd s) = cs_tick s.
Proof.
  induction fuel as [|fuel IH]; intros s Hq; cbn [ack_conn]; [done|].
  destruct (pool_recv_ack (csock s fd)) as [r k]. destruct r as [| |resp]; [done|done|].
  destruct (handle_response_queue (set_sock s fd k) resp Hq) as (H1 & H2 & H3).
  destruct (IH _ H1) as (H4 & H5 & H6). split; [done|]. by rewrite H5, H6, H2, H3.
Qed.

Lemma ack_conns_queue cs : ∀ s,
  queue_ok (cs_queue s) →
  queue_ok (cs_queue (ack_conns cfg cs s)) ∧
  q_count (cs_queue (ack_conns cfg cs s)) = q_count (cs_queue s) ∧
  cs_tick (ack_conns cfg cs s) = cs_tick s.
Proof.
  induction cs as [|c cs IH]; intros s Hq; cbn [ack_conns]; [done|]. case_test; [by apply IH|].
  destruct (ack_conn_queue (ack_fuel (csock s (c_fd c))) (c_fd c) s Hq) as (H1 & H2 & H3).
  destruct (IH _ H1) as (H4 & H5 & H6). split; [done|]. by rewrite H5, H6, H2, H3.
Qed.

Lemma process_ack_queue s :
  queue_ok (cs_queue s) →
  queue_ok (cs_queue (process_ack cfg s)) ∧
  q_count (cs_queue (process_ack cfg s)) = q_count (cs_queue s) ∧
  cs_tick (process_ack cfg s) = cs_tick s.
Proof.
  intros Hq. unfold process_ack. destruct (cf_dry_run cfg); [|by apply ack_conns_queue].
  generalize (queue_get_pending (cs_queue s) 256). intros l. revert s Hq.
  induction l as [|[d o] l IH]; intros s Hq; cbn; [done|].
  destruct (ack_block_queue s d o Hq) as (H1 & H2 & H3).
  destruct (IH _ H1) as (H4 & H5 & H6). split; [done|]. by rewrite H5, H6, H2, H3.
Qed.

Lemma rate_account_queue s n :
  cs_queue (rate_account clock cfg s n) = cs_queue s ∧ (cs_tick s ≤ cs_tick (rate_account clock cfg s n))%nat.
Proof. unfold rate_account, timer_now. repeat case_test; cbn; (split; [done|lia]). Qed.

(** Every call takes one entry, and answers 0 only on an empty queue. *)
Lemma flush_one_queue s rc s' :
  queue_ok (cs_queue s) → flush_one clock wall cfg s = (rc, s') →
  queue_ok (cs_queue s') ∧ (cs_tick s ≤ cs_tick s')%nat ∧
  ((q_count (cs_queue s) = 0 ∧ rc = 0 ∧ q_count (cs_queue s') = 0) ∨
   (0 < q_count (cs_queue s) ∧ (rc = 1 ∨ rc = -1) ∧ q_count (cs_queue s') = q_count (cs_queue s) - 1)).
Proof.
  intros Hq E. unfold flush_one in E.
  destruct (queue_pop (cs_queue s)) as [r q] eqn:Ep.
  pose proof (pop_fifo _ _ _ Hq Ep) as [Hq' _].
  assert (Hc : (r = None ∧ q_count (cs_queue s) = 0 ∧ q = cs_queue s) ∨
               (is_Some r ∧ 0 < q_count (cs_queue s) ∧ q_count q = q_count (cs_queue s) - 1)).
  { unfold queue_pop in Ep. destruct Hq as [_ _ Hc _ _].
    destruct (Z.eqb_spec (q_count (cs_queue s)) 0); injection Ep as <- <-; [by left|right].
    split; [by eexists|]. cbn. lia. }
  destruct r as [entry|].
  2: { injection E as <- <-. destruct Hc as [(_ & H1 & ->)|[[? [=]] _]].
       split; [done|]. split; [cbn; lia|]. left. done. }
  destruct Hc as [[[=] _]|(_ & Hpos & Hcnt)].
  destruct (cf_dry_run cfg).
  { injection E as <- <-. destruct (ack_block_queue (set_queue s q) (qe_devno entry) (qe_offset entry) Hq')
      as (H1 & H2 & H3).
    split; [done|]. rewrite H3. split; [cbn; lia|]. right. split; [done|]. split; [by left|].
    rewrite H2. done. }
  cbn [time_now] in E. destruct (pool_acquire _ _) as [conn p].
  destruct conn as [i|]; [|injection E as <- <-; split; [done|]; split; [cbn; lia|]; right; auto].
  destruct (qe_payload entry) as [payload|];
    [|injection E as <- <-; split; [done|]; split; [cbn; lia|]; right; auto].
  destruct (wire_send _ _ _ _) as [wrc k].
  destruct (negb (wrc =? 0)); injection E as <- <-.
  - split; [done|]. split; [cbn; lia|]. right. auto.
  - match goal with |- context [rate_account clock cfg ?x ?n] =>
      destruct (rate_account_queue x n) as [H1 H2]; rewrite H1 end.
    split; [done|]. split; [cbn in *; lia|]. right. auto.
Qed.

Lemma drain_queue_ok fuel : ∀ s,
  queue_ok (cs_queue s) →
  queue_ok (cs_queue (drain clock wall cfg fuel s)) ∧
  (cs_tick s ≤ cs_tick (drain clock wall cfg fuel s))%nat ∧
  q_count (cs_queue (drain clock wall cfg fuel s)) ≤
    (if (fuel =? 0)%nat then q_count (cs_queue s) else Z.max 0 (q_count (cs_queue s) - 1)).
Proof.
  induction fuel as [|fuel IH]; intros s Hq; cbn [drain]; [cbn; split; [done|]; split; lia|].
  destruct (flush_one clock wall cfg s) as [rc s1] eqn:E.
  apply flush_one_queue in E as (H1 & H2 & H3); [|done]. cbn [Nat.eqb].
  case_test.
  - destruct (IH s1 H1) as (H4 & H5 & H6). split; [done|]. split; [lia|].
    destruct fuel; cbn [Nat.eqb] in H6; lia.
  - split; [done|]. split; [done|]. lia.
Qed.

(** A forced drain empties the queue unless the program is being stopped. *)
Lemma force_drain_ok fuel : ∀ s,
  queue_ok (cs_queue s) → q_count (cs_queue s) ≤ Z.of_nat fuel →
  let s' := force_drain clock wall running cfg fuel s in
  queue_ok (cs_queue s') ∧ (cs_tick s ≤ cs_tick s')%nat ∧
  (q_count (cs_queue s') = 0 ∨ ∃ t, (t < cs_tick s')%nat ∧ running t = false).
Proof.
  induction fuel as [|fuel IH]; intros s Hq Hf; cbn [force_drain].
  - split; [done|]. split; [done|]. left. destruct Hq as [_ _ Hc _ _]. lia.
  - destruct (Z.ltb_spec 0 (queue_count (cs_queue s))) as [Hpos|Hz]; unfold queue_count in *.
    2: { split; [done|]. split; [done|]. left. destruct Hq as [_ _ Hc _ _]. lia. }
    unfold is_running. destruct (running (cs_tick s)) eqn:Er.
    + set (s1 := tick s).
      destruct (drain_queue_ok (S (Z.to_nat (q_count (cs_queue s1)))) s1 Hq) as (H1 & H2 & H3).
      fold (drain_queue clock wall cfg s1) in *.
      destruct (process_ack_queue (drain_queue clock wall cfg s1) H1) as (H4 & H5 & H6).
      destruct (IH (process_ack cfg (drain_queue clock wall cfg s1)) H4) as (H7 & H8 & H9).
      { rewrite H5. cbn [Nat.eqb] in H3. cbn in H3 |- *. lia. }
      split; [done|]. split; [|done]. rewrite H6 in H8. cbn in *. lia.
    + split; [done|]. split; [cbn; lia|]. right. exists (cs_tick s). split; [cbn; lia|done].
Qed.

End EngineQueue.

(** ** The push loop ends *)

Section PushRetry.
Context `{Zstd} (malloc_ok : nat → bool) (clock wall : nat → Z) (running : nat → bool) (cfg : config).
Context (alloc : ∀ t, malloc_ok t = true).
Context (stops : ∀ t t', (t ≤ t')%nat → running t = false → running t' = false).
Context (devno offset h : Z) (payload : list Z).
Context (fits : len payload ≤ QUEUE_ENTRY_MAX_PAYLOAD).

(** The outcome of the loop: the block is the newest in the queue, or the
    program is being stopped. *)
Definition push_outcome (r : bool * cstate) : Prop :=
  queue_ok (cs_queue r.2) ∧
  if r.1 then ∃ l, fifo (cs_queue r.2) = l ++ [mk_entry devno offset h (Some payload) (len payload) 1]
  else ∃ t, running t = false.

(** One turn that pushes, and what is known when it does not end the loop. *)
Lemma push_turn s rc q :
  queue_ok (cs_queue s) → queue_push true (cs_queue s) devno offset h payload = (rc, q) →
  queue_ok q ∧ (rc = 0 → push_outcome (true, set_queue s q)) ∧
  (q_count (cs_queue s) = 0 → rc = 0).
Proof using fits.
  intros Hq E. pose proof Hq as [_ _ Hc _ _].
  destruct (Z.lt_ge_cases (q_count (cs_queue s)) QUEUE_CAPACITY) as [Hlt|Hge].
  - destruct (push_fifo _ _ _ _ _ _ _ Hq fits Hlt E) as (H1 & H2 & H3).
    split; [done|]. split; [intros _; split; [done|]; cbn; rewrite H2; by eexists|].
    intros H0. rewrite H3, H0. done.
  - unfold queue_push in E. replace (_ <? len payload) with false in E by lia.
    replace (QUEUE_CAPACITY <=? q_count (cs_queue s)) with true in E by lia. injection E as <- <-.
    split; [done|]. split; [done|]. unfold QUEUE_CAPACITY in Hge. lia.
Qed.

Lemma push_retry_ends fuel : ∀ retry s,
  queue_ok (cs_queue s) → 0 ≤ retry ≤ BACKPRESSURE_RETRIES →
  BACKPRESSURE_RETRIES + 2 - retry ≤ Z.of_nat fuel →
  push_outcome (push_retry malloc_ok clock wall running cfg fuel retry s devno offset h payload).
Proof using alloc stops fits.
  unfold BACKPRESSURE_RETRIES.
  induction fuel as [|fuel IH]; intros retry s Hq Hr Hf; [lia|]. cbn [push_retry]. rewrite alloc.
  destruct (queue_push true (cs_queue s) devno offset h payload) as [rc q] eqn:E.
  destruct (push_turn s rc q Hq E) as (Hq1 & Hok & _).
  destruct (Z.eqb_spec rc 0) as [->|Hrc]; [by apply Hok|].
  unfold is_running. set (s1 := set_queue s q). destruct (running (cs_tick s1)) eqn:Erun; cbn [negb].
  2: { split; [done|]. by eexists. }
  destruct (drain_queue_ok clock wall cfg (S (Z.to_nat (q_count (cs_queue (tick s1))))) (tick s1) Hq1)
    as (H1 & H2 & _).
  fold (drain_queue clock wall cfg (tick s1)) in *.
  destruct (process_ack_queue cfg (drain_queue clock wall cfg (tick s1)) H1) as (H4 & _ & _).
  set (s2 := process_ack cfg (drain_queue clock wall cfg (tick s1))) in *.
  unfold BACKPRESSURE_RETRIES. destruct (Z.ltb_spec 600 (retry + 1)); [|apply IH; [done|lia|lia]].
  destruct (force_drain_ok clock wall running cfg (Z.to_nat (q_count (cs_queue s2))) s2 H4) as (H5 & _ & H6).
  { destruct H4 as [_ _ Hc _ _]. lia. }
  fold (drain_all clock wall running cfg s2) in *. set (s3 := drain_all clock wall running cfg s2) in *.
  destruct fuel as [|fuel]; [lia|]. clear IH. cbn [push_retry]. rewrite alloc.
  destruct (queue_push true (cs_queue s3) devno offset h payload) as [rc3 q3] eqn:E3.
  destruct (push_turn s3 rc3 q3 H5 E3) as (Hq3 & Hok3 & Hz3).
  destruct (Z.eqb_spec rc3 0) as [->|Hrc3]; [by apply Hok3|].
  destruct H6 as [H6|(t & Ht & Hstop)]; [by destruct Hrc3; apply Hz3|].
  unfold is_running. change (cs_tick (set_queue s3 q3)) with (cs_tick s3).
  rewrite (stops t (cs_tick s3)) by (lia || done). cbn [negb].
  split; [done|]. by eexists.
Qed.

End PushRetry.

(** ** Responses *)

(** What a list of responses does to the state. *)
Definition handle_responses (cfg : config) (s : cstate) (rs : list server_response_t) : cstate :=
  foldl (handle_response cfg) s rs.

Lemma handle_response_sock cfg s fd k r :
  handle_response cfg (set_sock s fd k) r = set_sock (handle_response cfg s r) fd k.
Proof.
  unfold handle_response, ack_block. repeat case_test; done.
Qed.

Lemma set_sock_twice s fd k k' : set_sock (set_sock s fd k) fd k' = set_sock s fd k'.
Proof. unfold set_sock. cbn. by rewrite insert_insert_eq. Qed.

Lemma csock_set s fd k : csock (set_sock s fd k) fd = k.
Proof. unfold csock. cbn. by rewrite lookup_insert_eq. Qed.

Lemma len_responses rs : len (concat (response_bytes <$> rs)) = 20 * len rs.
Proof.
  induction rs as [|r rs IH]; [done|]. cbn [fmap list_fmap concat].
  rewrite len_app, IH, len_response_bytes, len_cons. unfold SERVER_RESPONSE_SIZE. lia.
Qed.

Lemma delivers_nil evs rest : delivers evs [] rest → evs = rest.
Proof.
  intros Hd. remember (@nil Z) as l eqn:El. destruct Hd as [rest|ps bs evs rest Hps Hd]; [done|].
  apply app_eq_nil in El as [Hnil _]. by destruct Hps.
Qed.

Lemma delivers_script evs bs rest : delivers evs bs rest → len bs ≤ len (script_bytes evs).
Proof.
  induction 1 as [rest|ps bs evs rest Hps Hd IH]; cbn [script_bytes].
  - rewrite len_nil. apply len_nonneg.
  - rewrite !len_app. lia.
Qed.

(** A connection that holds the responses [rs] and then nothing. *)
Lemma ack_conn_responses cfg fd rs : ∀ fuel s,
  Forall response_ok rs → delivers (sk_in (csock s fd)) (concat (response_bytes <$> rs)) [] →
  len rs < Z.of_nat fuel →
  ack_conn cfg fuel fd s =
  set_sock (handle_responses cfg s rs) fd (mk_sock (sk_out (csock s fd)) (sk_send (csock s fd)) []).
Proof.
  induction rs as [|r rs IH]; intros fuel s HF Hd Hf; (destruct fuel as [|fuel]; [unfold len in Hf; cbn in Hf; lia|]);
    cbn [ack_conn]; unfold pool_recv_ack.
  - apply delivers_nil in Hd. by rewrite Hd.
  - apply Forall_cons in HF as [Hr HF]. cbn [fmap list_fmap concat] in Hd.
    destruct (recv_ack_loop_delivers 21 (sk_in (csock s fd)) [] _ [] Hd) as (evs' & -> & Hd').
    { done. }
    { rewrite len_app, len_response_bytes, len_responses. change (len (@nil Z)) with 0.
      pose proof (len_nonneg rs). lia. }
    { done. }
    change (len (@nil Z)) with 0 in *. rewrite Z.sub_0_r in *.
    rewrite (ztake_app_exact SERVER_RESPONSE_SIZE) by (by rewrite len_response_bytes).
    rewrite (zdrop_app_exact SERVER_RESPONSE_SIZE) in Hd' by (by rewrite len_response_bytes).
    cbn [app]. rewrite response_codec by done. rewrite handle_response_sock.
    rewrite (IH fuel (set_sock (handle_response cfg s r) fd _)).
    + rewrite csock_set. cbn [sk_out sk_send].
      unfold handle_responses. cbn [foldl].
      assert (Hs : ∀ rs s k, foldl (handle_response cfg) (set_sock s fd k) rs =
                             set_sock (foldl (handle_response cfg) s rs) fd k).
      { clear. induction rs as [|r rs IH]; intros s k; [done|]. cbn. by rewrite handle_response_sock, IH. }
      rewrite Hs. by rewrite set_sock_twice.
    + done.
    + by rewrite csock_set.
    + rewrite len_cons in Hf. lia.
Qed.

(** The tracker after acknowledgements. *)
Lemma mark_acked_ok db d o :
  db_events db = [] →
  sqlite_block_mark_acked db d o = (0, with_blocks db (alter acked_row (d, o) (t_block db))).
Proof. intros E. unfold sqlite_block_mark_acked. by rewrite db_update_ok. Qed.

Definition ack_of (r : server_response_t) : option (Z * Z) :=
  if (resp_type r =? RESPONSE_ACK) || (resp_type r =? RESPONSE_ACK_ALT)
  then Some (resp_devno r, resp_offset r) else None.

Lemma handle_responses_db cfg rs : ∀ s,
  cf_tail_send cfg = false → db_events (cs_db s) = [] →
  let s' := handle_responses cfg s rs in
  db_events (cs_db s') = [] ∧
  ∀ k, t_block (cs_db s') !! k =
       if bool_decide (k ∈ omap ack_of rs) then acked_row <$> t_block (cs_db s) !! k
       else t_block (cs_db s) !! k.
Proof.
  induction rs as [|r rs IH]; intros s Ht He; cbn [handle_responses foldl].
  - split; [done|]. intros k. rewrite bool_decide_false; [done|]. apply not_elem_of_nil.
  - assert (Hstep : db_events (cs_db (handle_response cfg s r)) = [] ∧
      ∀ k, t_block (cs_db (handle_response cfg s r)) !! k =
           if bool_decide (ack_of r = Some k) then acked_row <$> t_block (cs_db s) !! k
           else t_block (cs_db s) !! k).
    { unfold handle_response, ack_of. destruct (_ || _).
      - unfold ack_block. rewrite Ht. cbn [cs_db set_db set_queue]. rewrite mark_acked_ok by done.
        cbn [snd]. split; [done|]. intros k. cbn. case_bool_decide as Hk.
        + injection Hk as <-. by rewrite lookup_alter_eq.
        + by rewrite lookup_alter_ne by congruence.
      - destruct (resp_type r =? RESPONSE_SERVER_DONE); done. }
    destruct Hstep as [He1 Hk1]. destruct (IH (handle_response cfg s r) Ht He1) as [He2 Hk2].
    split; [exact He2|]. intros k. change (foldl (handle_response cfg) (handle_response cfg s r) rs)
      with (handle_responses cfg (handle_response cfg s r) rs). rewrite Hk2, Hk1.
    cbn [omap list_omap]. destruct (ack_of r) as [k0|]; cbn.
    + rewrite (bool_decide_ext (k ∈ k0 :: omap ack_of rs) (k = k0 ∨ k ∈ omap ack_of rs)) by apply elem_of_cons.
      destruct (decide (k = k0)) as [->|Hne].
      * rewrite !(bool_decide_true (Some k0 = Some k0)) by done.
        rewrite (bool_decide_true (k0 = k0 ∨ _)) by auto.
        case_bool_decide; [|done]. by destruct (t_block (cs_db s) !! k0) as [[]|].
      * rewrite (bool_decide_false (Some k0 = Some k)) by congruence.
        rewrite (bool_decide_ext (k = k0 ∨ k ∈ omap ack_of rs) (k ∈ omap ack_of rs)) by tauto. done.
    + done.
Qed.

(** SERVER_DONE sets its flag; in tail mode the tracker is not touched. *)
Lemma handle_response_flags cfg s r :
  let s' := handle_response cfg s r in
  cs_server_done_rcvd s' = (if resp_type r =? RESPONSE_SERVER_DONE then 1 else cs_server_done_rcvd s) ∧
  (cf_tail_send cfg = true → cs_db s' = cs_db s) ∧ cs_socks s' = cs_socks s.
Proof.
  cbv zeta. unfold handle_response. destruct (_ || _) eqn:E.
  - replace (resp_type r =? RESPONSE_SERVER_DONE) with false
      by (unfold RESPONSE_ACK, RESPONSE_ACK_ALT, RESPONSE_SERVER_DONE in *; lia).
    unfold ack_block. by destruct (cf_tail_send cfg).
  - by case_test.
Qed.

Lemma handle_responses_flags cfg rs : ∀ s,
  let s' := handle_responses cfg s rs in
  cs_server_done_rcvd s' =
    (if existsb (λ r, resp_type r =? RESPONSE_SERVER_DONE) rs then 1 else cs_server_done_rcvd s) ∧
  (cf_tail_send cfg = true → cs_db s' = cs_db s) ∧ cs_socks s' = cs_socks s.
Proof.
  induction rs as [|r rs IH]; intros s; cbv zeta; [done|].
  change (handle_responses cfg s (r :: rs)) with (handle_responses cfg (handle_response cfg s r) rs).
  destruct (IH (handle_response cfg s r)) as (H1 & H2 & H3).
  destruct (handle_response_flags cfg s r) as (H4 & H5 & H6). cbn [existsb].
  rewrite H1, H3, H4, H6. split; [by destruct (resp_type r =? _), (existsb _ rs)|].
  split; [|done]. intros Ht. by rewrite H2, H5.
Qed.

Definition with_socks (s : cstate) (m : gmap Z sock) : cstate :=
  mk_cs (cs_queue s) (cs_db s) (cs_pool s) m (cs_writer s) (cs_all_done s) (cs_ctl_end_sent s)
    (cs_server_done_rcvd s) (cs_inc_round s) (cs_inc_version s) (cs_zero_change_rounds s)
    (cs_rate_bytes_sent s) (cs_rate_window_start s) (cs_tick s) (cs_crashed s).

Lemma handle_responses_socks cfg rs : ∀ s m,
  handle_responses cfg (with_socks s m) rs = with_socks (handle_responses cfg s rs) m.
Proof.
  induction rs as [|r rs IH]; intros s m; [done|]. unfold handle_responses in *. cbn [foldl].
  rewrite <- IH. f_equal. unfold handle_response, ack_block. repeat case_test; done.
Qed.

(** What the pool's connections hold: [rs] on each open one, then nothing. *)
Definition conn_holds (s : cstate) (c : pool_conn) (rs : list server_response_t) : Prop :=
  Forall response_ok rs ∧ delivers (sk_in (csock s (c_fd c))) (concat (response_bytes <$> rs)) [].

Lemma conn_holds_ext s fd s' l rss :
  (∀ fd', fd ≠ fd' → csock s' fd' = csock s fd') → fd ∉ c_fd <$> l →
  Forall2 (conn_holds s) l rss → Forall2 (conn_holds s') l rss.
Proof.
  intros Hs Hnin HF. induction HF as [|c rs l rss [Hok Hd] HF IH]; [done|].
  cbn [fmap list_fmap] in Hnin. apply not_elem_of_cons in Hnin as [Hne Hnin].
  constructor; [|by apply IH]. split; [done|]. by rewrite Hs.
Qed.

(** All the responses are handled, connection after connection. *)
Lemma ack_conns_responses cfg cs : ∀ rss s,
  NoDup (c_fd <$> open_conns cs) → Forall2 (conn_holds s) (open_conns cs) rss →
  ∃ m, ack_conns cfg cs s = with_socks (handle_responses cfg s (concat rss)) m.
Proof.
  induction cs as [|c cs IH]; intros rss s Hnd HF; cbn [ack_conns].
  - inversion HF. subst. exists (cs_socks s). by destruct s.
  - unfold open_conns in Hnd, HF. rewrite filter_cons in Hnd, HF.
    destruct (Z.eqb_spec (c_fd c) SOCKET_ERR) as [Ec|Ec].
    + rewrite decide_False in Hnd, HF by tauto. by apply IH.
    + rewrite decide_True in Hnd, HF by done.
      apply Forall2_cons_inv_l in HF as (rs & rss' & [Hok Hd] & HF & ->).
      cbn [fmap list_fmap] in Hnd. apply NoDup_cons in Hnd as [Hnin Hnd].
      rewrite (ack_conn_responses cfg (c_fd c) rs) by
        (done || (pose proof (delivers_script _ _ _ Hd) as Hs; rewrite len_responses in Hs;
                  unfold ack_fuel, len in *; lia)).
      set (k := mk_sock _ _ []). set (s1 := set_sock _ _ k).
      destruct (IH rss' s1 Hnd) as [m Hm].
      * apply (conn_holds_ext s (c_fd c)); [|done|done]. intros fd' Hne.
        unfold s1, csock, set_sock. cbn [cs_socks]. rewrite lookup_insert_ne by done.
        by destruct (handle_responses_flags cfg rs s) as (_ & _ & ->).
      * exists m. rewrite Hm. unfold s1.
        change (set_sock (handle_responses cfg s rs) (c_fd c) k) with
          (with_socks (handle_responses cfg s rs) (<[c_fd c := k]> (cs_socks (handle_responses cfg s rs)))).
        rewrite handle_responses_socks. cbn [concat]. unfold handle_responses. by rewrite foldl_app.
Qed.

(** ** What draining and acknowledging leave alone

    A preorder on states that holds across every elementary update holds across
    the loops built from them. *)

Class EngineFrame (R : relation cstate) := {
  ef_preorder :: PreOrder R;
  ef_queue s q : R s (set_queue s q);
  ef_acked s d o : R s (set_db s (sqlite_block_mark_acked (cs_db s) d o).2);
  ef_pool s p : R s (set_pool s p);
  ef_sock s fd k : R s (set_sock s fd k);
  ef_done s : R s (set_flags s (cs_all_done s) (cs_ctl_end_sent s) 1);
  ef_rate s b w : R s (set_rate s b w);
  ef_tick s : R s (tick s);
  ef_crashed s : R s (set_crashed s);
}.

Section Frame.
Context `{Zstd} (malloc_ok : nat → bool) (clock wall : nat → Z) (running : nat → bool) (cfg : config).
Context (R : relation cstate) `{!EngineFrame R}.

(** Closing a goal [R s (f (g s))] by walking back through the updates. *)
Local Ltac frame :=
  repeat first
    [ done
    | match goal with
      | |- R _ (set_queue ?s _) => transitivity s; [|apply ef_queue]
      | |- R _ (set_pool ?s _) => transitivity s; [|apply ef_pool]
      | |- R _ (set_sock ?s _ _) => transitivity s; [|apply ef_sock]
      | |- R _ (set_rate ?s _ _) => transitivity s; [|apply ef_rate]
      | |- R _ (tick ?s) => transitivity s; [|apply ef_tick]
      | |- R _ (set_crashed ?s) => transitivity s; [|apply ef_crashed]
      end ].

Lemma ack_block_frame s d o : R s (ack_block cfg s d o).
Proof using EngineFrame0.
  unfold ack_block. destruct (cf_tail_send cfg); [frame|].
  etransitivity; [|apply ef_acked]. frame.
Qed.

Lemma handle_response_frame s r : R s (handle_response cfg s r).
Proof using EngineFrame0.
  unfold handle_response. case_test; [apply ack_block_frame|]. case_test; [apply ef_done|done].
Qed.

Lemma ack_conn_frame fuel fd : ∀ s, R s (ack_conn cfg fuel fd s).
Proof using EngineFrame0.
  induction fuel as [|fuel IH]; intros s; cbn [ack_conn]; [done|].
  destruct (pool_recv_ack (csock s fd)) as [[| |resp] k]; [frame..|].
  etransitivity; [|apply IH]. etransitivity; [|apply handle_response_frame]. frame.
Qed.

Lemma process_ack_frame s : R s (process_ack cfg s).
Proof using EngineFrame0.
  unfold process_ack. destruct (cf_dry_run cfg).
  - generalize (queue_get_pending (cs_queue s) 256). intros l. revert s.
    induction l as [|[d o] l IH]; intros s; cbn; [done|].
    etransitivity; [apply (ack_block_frame s d o)|apply IH].
  - generalize (pl_conns (cs_pool s)). intros cs. revert s.
    induction cs as [|c cs IH]; intros s; cbn [ack_conns]; [done|].
    case_test; [apply IH|]. etransitivity; [apply ack_conn_frame|apply IH].
Qed.

Lemma rate_account_frame s n : R s (rate_account clock cfg s n).
Proof using EngineFrame0. unfold rate_account, timer_now. repeat case_test; frame. Qed.

Lemma flush_one_frame s : R s (flush_one clock wall cfg s).2.
Proof using EngineFrame0.
  unfold flush_one. destruct (queue_pop (cs_queue s)) as [[entry|] q]; [|cbn; frame].
  destruct (cf_dry_run cfg); [cbn [snd]; etransitivity; [|apply ack_block_frame]; frame|].
  unfold time_now. destruct (pool_acquire _ _) as [[i|] p]; [|cbn; frame].
  destruct (qe_payload entry); [|cbn; frame]. destruct (wire_send _ _ _ _) as [rc k].
  destruct (negb (rc =? 0)); cbn [snd]; [frame|].
  etransitivity; [|apply rate_account_frame]. frame.
Qed.

Lemma drain_frame fuel : ∀ s, R s (drain clock wall cfg fuel s).
Proof using EngineFrame0.
  induction fuel as [|fuel IH]; intros s; cbn [drain]; [done|].
  pose proof (flush_one_frame s) as Hs. destruct (flush_one clock wall cfg s) as [rc s1].
  case_test; [|done]. etransitivity; [exact Hs|apply IH].
Qed.

Lemma force_drain_frame fuel : ∀ s, R s (force_drain clock wall running cfg fuel s).
Proof using EngineFrame0.
  induction fuel as [|fuel IH]; intros s; cbn [force_drain]; [done|].
  unfold is_running. case_test; [|done]. destruct (running (cs_tick s)); [|frame].
  etransitivity; [|apply IH]. etransitivity; [|apply process_ack_frame].
  etransitivity; [|apply drain_frame]. frame.
Qed.

Lemma push_retry_frame fuel : ∀ retry s d o h payload,
  R s (push_retry malloc_ok clock wall running cfg fuel retry s d o h payload).2.
Proof using EngineFrame0.
  induction fuel as [|fuel IH]; intros retry s d o h payload; cbn [push_retry]; [done|].
  destruct (queue_push _ _ _ _ _ _) as [rc q]. case_test; [cbn; frame|].
  unfold is_running. case_test; [cbn [snd]; frame|].
  assert (Hs : R s (process_ack cfg (drain_queue clock wall cfg (tick (set_queue s q))))).
  { etransitivity; [|apply process_ack_frame]. etransitivity; [|apply drain_frame]. frame. }
  case_test; (etransitivity; [|apply IH]); [|exact Hs].
  etransitivity; [exact Hs|apply force_drain_frame].
Qed.

End Frame.

(** The tracker stays reachable and keeps its remote id, and the version of the
    round stays. *)
Definition db_kept (s s' : cstate) : Prop :=
  (db_events (cs_db s) = [] → db_events (cs_db s') = []) ∧
  db_remote_id (cs_db s') = db_remote_id (cs_db s) ∧ cs_inc_version s' = cs_inc_version s.

#[export] Instance db_kept_frame : EngineFrame db_kept.
Proof.
  constructor; try (intros; unfold db_kept; done).
  - split; unfold db_kept; [done|]. intros s1 s2 s3 (H1 & H2 & H3) (H4 & H5 & H6).
    split; [auto|]. split; congruence.
  - intros s d o. unfold db_kept, sqlite_block_mark_acked, db_update, db_next.
    destruct (db_events (cs_db s)) as [|[] ev] eqn:Ev; cbn; rewrite ?Ev; done.
Qed.

(** ** Properties *)

(** A client for the witnesses: an empty queue, a tracker with the given rows,
    the pool of Pool.v, whose descriptor 5 takes a megabyte at a time. *)
Definition demo_cfg : config := mk_cfg [CH_COLON] 1 3 false false 0.

Definition demo_db (rows : list (Z * Z * block_row)) : sqlite_db :=
  mk_db (list_to_map rows) [] [7] [].

Definition demo_cs (rows : list (Z * Z * block_row)) (ins : list recv_ev) : cstate :=
  mk_cs (queue_init true).2 (demo_db rows) demo_pool
    {[5 := mk_sock [] (replicate 40 (SendRoom 1048576)) ins]}
    (msgpack_writer_init alloc_always) 0 0 0 0 0 0 0 0 0 false.

Definition always (t : nat) : bool := true.
Definition midnight (t : nat) : Z := 0.

(** The acknowledged blocks, and in tail mode the unchanged ones, are skipped. *)
Definition block_skipped (cfg : config) (db : sqlite_db) (devno offset h : Z) : Prop :=
  ∃ r, t_block db !! (devno, offset) = Some r ∧
       (r_ack r ≠ 0 ∨ (cf_tail_send cfg = true ∧ u64 (r_hash r) = h)).

#[export] Instance block_skipped_dec cfg db devno offset h : Decision (block_skipped cfg db devno offset h).
Proof.
  unfold block_skipped. destruct (t_block db !! (devno, offset)) as [r|].
  - destruct (decide (r_ack r ≠ 0 ∨ (cf_tail_send cfg = true ∧ u64 (r_hash r) = h))) as [Hd|Hd].
    + left. by exists r.
    + right. by intros (r' & [= <-] & ?).
  - right. by intros (r' & [=] & _).
Defined.

Lemma set_db_same s : set_db s (cs_db s) = s.
Proof. by destruct s. Qed.

(** The tests of [send_block] before it encodes. *)
Lemma send_block_eq `{Zstd} realloc_ok malloc_ok clock wall running cfg s reader
    devno disk_offset reader_offset data :
  db_events (cs_db s) = [] →
  block_reader_read reader reader_offset BLOCK_SIZE = Some data → 0 < len data →
  send_block realloc_ok malloc_ok clock wall running cfg s reader devno disk_offset reader_offset =
  let off := s64 disk_offset in
  let h := hash_block data (Z.land disk_offset 0xFFFFFFFF) in
  if bool_decide (block_skipped cfg (cs_db s) devno off h) then (0, s)
  else
    match msgpack_encode_block realloc_ok (cs_writer s) devno off data with
    | None => (-1, s)
    | Some w =>
        let '(ok, s) := push_retry malloc_ok clock wall running cfg PUSH_FUEL 0 (set_writer s w)
                          devno off h (wr_data w) in
        if (ok : bool) then
          (0, set_db s (sqlite_block_upsert_v (cs_db s) devno off (len data) h 0 (cs_inc_version s)).2)
        else (-1, s)
    end.
Proof.
  intros He Hr Hl. unfold send_block. rewrite Hr. replace (len data =? 0) with false by lia.
  cbv zeta. generalize (s64 disk_offset), (hash_block data (Z.land disk_offset 0xFFFFFFFF)). intros off h.
  unfold sqlite_block_acked, sqlite_block_lookup. rewrite !db_query_ok, set_db_same by done.
  pose proof (bool_decide_reflect (block_skipped cfg (cs_db s) devno off h)) as Hs.
  destruct (bool_decide (block_skipped cfg (cs_db s) devno off h)); apply reflect_iff in Hs;
    unfold block_skipped in Hs; rewrite ?set_db_same;
    destruct (t_block (cs_db s) !! (devno, off)) as [r|]; cbn [Z.eqb fst snd].
  - destruct (proj2 Hs eq_refl) as (r' & [= <-] & [Ha|[-> Hh]]).
    + by replace (r_ack r =? 0) with false by lia.
    + destruct (r_ack r =? 0); [|done]. cbn [Z.eqb]. by rewrite bool_decide_true by (by rewrite Hh).
  - by destruct (proj2 Hs eq_refl) as (r' & [=] & _).
  - destruct (Z.eqb_spec (r_ack r) 0) as [Ha|Ha]; [cbn [Z.eqb]|assert (false = true) by (apply Hs; eauto); done].
    destruct (cf_tail_send cfg); [|done]. rewrite bool_decide_false; [done|].
    intros [_ [= Hh]]. assert (false = true) by (apply Hs; eauto). done.
  - destruct (cf_tail_send cfg); [|done]. by rewrite bool_decide_false by (by intros [[=] _]).
Qed.



(** C13 (process_ack_correct): [process_ack] on a pool whose open connections
    hold, each, a sequence of responses cut into reads at will.  In full mode
    the rows marked acknowledged are exactly those of the blocks the responses
    name, every other row is untouched; in tail mode no row changes; SERVER_DONE
    is noticed on whichever connection it arrives. *)
Theorem process_ack_correct cfg s rss :
  cf_dry_run cfg = false → db_events (cs_db s) = [] →
  NoDup (c_fd <$> open_conns (pl_conns (cs_pool s))) →
  Forall2 (conn_holds s) (open_conns (pl_conns (cs_pool s))) rss →
  let s' := process_ack cfg s in
  (∀ k, t_block (cs_db s') !! k =
        if negb (cf_tail_send cfg) && bool_decide (k ∈ omap ack_of (concat rss))
        then acked_row <$> t_block (cs_db s) !! k else t_block (cs_db s) !! k) ∧
  cs_server_done_rcvd s' =
    (if existsb (λ r, resp_type r =? RESPONSE_SERVER_DONE) (concat rss) then 1
     else cs_server_done_rcvd s).
Proof.
  intros Hdry He Hnd HF. cbv zeta. unfold process_ack. rewrite Hdry.
  destruct (ack_conns_responses cfg _ rss s Hnd HF) as [m ->].
  cbn [with_socks cs_db cs_server_done_rcvd].
  destruct (handle_responses_flags cfg (concat rss) s) as (H1 & H2 & _). split; [|exact H1].
  intros k. destruct (cf_tail_send cfg) eqn:Et; cbn [negb andb]; [by rewrite H2|].
  by destruct (handle_responses_db cfg (concat rss) s Et He) as [_ ->].
Qed.

(** Two connections; an acknowledgement split over two reads on the first, the
    end of the migration on the second. *)
Definition demo_acks : cstate :=
  set_sock (set_sock (demo_cs [((1, 0), mk_row 3 9 0 0 0 [7]); ((1, 4096), mk_row 3 9 0 0 0 [7])] [])
    5 (mk_sock [] [] [RecvData (ztake 7 (response_bytes (mk_response RESPONSE_ACK 1 3 0)));
                      RecvData (zdrop 7 (response_bytes (mk_response RESPONSE_ACK 1 3 0)))]))
    6 (mk_sock [] [] [RecvData (response_bytes (mk_response RESPONSE_SERVER_DONE 0 0 0))]).

Lemma process_ack_correct_witness :
  let s' := process_ack demo_cfg demo_acks in
  t_block (cs_db s') !! (1, 0) = Some (mk_row 3 9 1 0 0 [7]) ∧
  t_block (cs_db s') !! (1, 4096) = Some (mk_row 3 9 0 0 0 [7]) ∧ cs_server_done_rcvd s' = 1.
Proof.
  destruct (process_ack_correct demo_cfg demo_acks
              [[mk_response RESPONSE_ACK 1 3 0]; [mk_response RESPONSE_SERVER_DONE 0 0 0]])
    as [Hk Hd]; [done|done|..].
  - by apply (bool_decide_unpack _).
  - constructor; [split|constructor; [split|constructor]].
    + repeat constructor; vm_compute; congruence.
    + set (bs := response_bytes (mk_response RESPONSE_ACK 1 3 0)).
      change (delivers [RecvData (ztake 7 bs); RecvData (zdrop 7 bs)] (ztake 7 bs ++ zdrop 7 bs ++ []) []).
      constructor; [vm_compute; discriminate|]. constructor; [vm_compute; discriminate|]. constructor.
    + repeat constructor; vm_compute; congruence.
    + set (bs := response_bytes (mk_response RESPONSE_SERVER_DONE 0 0 0)).
      change (delivers [RecvData bs] (bs ++ []) []). constructor; [vm_compute; discriminate|]. constructor.
  - split; [|split]; [rewrite Hk; reflexivity|rewrite Hk; reflexivity|rewrite Hd; reflexivity].
Defined.

Lemma rate_account_keeps clock cfg s n :
  let s' := rate_account clock cfg s n in
  cs_queue s' = cs_queue s ∧ cs_db s' = cs_db s ∧ (∀ fd, csock s' fd = csock s fd) ∧ cs_pool s' = cs_pool s.
Proof. cbv zeta. unfold rate_account, timer_now. repeat case_test; done. Qed.

Lemma csock_set_ne s fd k fd' : fd ≠ fd' → csock (set_sock s fd k) fd' = csock s fd'.
Proof. intros Hne. unfold csock. cbn. by rewrite lookup_insert_ne. Qed.

(** Touching, counting and releasing keep the descriptors of the pool. *)
Lemma set_conn_fds p i c : c_fd c = c_fd (conn_at p i) → c_fd <$> pl_conns (set_conn p i c) = c_fd <$> pl_conns p.
Proof.
  intros Hc. cbn. rewrite list_fmap_insert, Hc. apply list_insert_id'. intros Hi.
  rewrite length_fmap in Hi. rewrite list_lookup_fmap. unfold conn_at. rewrite nth_lookup.
  by destruct (lookup_lt_is_Some_2 (pl_conns p) (Z.to_nat i) Hi) as [x ->].
Qed.

Lemma touch_fds now p i : c_fd <$> pl_conns (pool_touch now p i) = c_fd <$> pl_conns p.
Proof. by apply set_conn_fds. Qed.

Lemma release_fds p i : c_fd <$> pl_conns (pool_release p i) = c_fd <$> pl_conns p.
Proof. by apply set_conn_fds. Qed.

Lemma flush_one_frame_sent `{ZstdOk} clock wall cfg s e l payload i p cap :
  cf_dry_run cfg = false → queue_ok (cs_queue s) → fifo (cs_queue s) = e :: l →
  qe_payload e = Some payload → bytes_ok payload → len payload ≤ QUEUE_ENTRY_MAX_PAYLOAD →
  pool_acquire (wall (cs_tick s)) (cs_pool s) = (Some i, p) →
  0 ≤ i < len (pl_conns p) → c_scratch (conn_at p i) = Some cap →
  ZSTD_COMPRESS_BOUND (len payload) + 7 ≤ cap →
  let fd := c_fd (conn_at p i) in
  ZSTD_COMPRESS_BOUND (len payload) + 7 ≤ granted (sk_send (csock s fd)) →
  ∃ c s', flush_one clock wall cfg s = (1, s') ∧
    ZSTD_compress (ZSTD_COMPRESS_BOUND (len payload)) payload (cf_zstd_level cfg) = Some c ∧
    sk_out (csock s' fd) = sk_out (csock s fd) ++ data_frame c ∧
    (∀ fd', fd ≠ fd' → csock s' fd' = csock s fd') ∧
    queue_ok (cs_queue s') ∧ fifo (cs_queue s') = l ∧ cs_db s' = cs_db s ∧
    c_in_use (conn_at (cs_pool s') i) = 0 ∧
    c_fd <$> pl_conns (cs_pool s') = c_fd <$> pl_conns p.
Proof.
  intros Hdry Hq Hf Hp Hb Hl Ha Hi Hsc Hcap fd Hg. unfold flush_one.
  destruct (queue_pop (cs_queue s)) as [r q] eqn:Eq.
  destruct (pop_fifo _ _ _ Hq Eq) as [Hq' Hpop]. rewrite Hf in Hpop. destruct Hpop as (-> & Hl' & _).
  rewrite Hdry, Hp. cbn [time_now cs_tick cs_pool set_queue tick]. rewrite Ha. fold fd. rewrite Hsc.
  cbn [default].
  change (csock (set_pool (tick (set_queue s q)) p) fd) with (csock s fd).
  destruct (wire_send_frame (csock s fd) payload (cf_zstd_level cfg) cap) as (c & Hc & Hlc & _ & Hws);
    [done|unfold QUEUE_ENTRY_MAX_PAYLOAD in Hl; change (2 ^ 31) with 2147483648; lia|done|].
  destruct (send_all_loop_delivers (sk_send (csock s fd)) (data_frame c) (sk_out (csock s fd))) as [evs' He].
  { unfold data_frame, FRAME_MAGIC, FRAME_MAGIC_LEN. len_norm. lia. }
  unfold id in *. rewrite Hws. unfold send_all. rewrite He. cbn [Z.eqb negb].
  eexists c, _. split; [done|]. split; [done|].
  match goal with |- context [rate_account clock cfg ?x ?n] =>
    destruct (rate_account_keeps clock cfg x n) as (H1 & H2 & H3 & H4) end.
  rewrite H3, H1, H2, H4. split; [unfold csock; cbn; by rewrite lookup_insert_eq|].
  split; [intros fd' Hne; rewrite H3; unfold csock; cbn; by rewrite lookup_insert_ne|].
  split; [done|]. split; [done|]. split; [done|].
  cbn [cs_pool set_pool]. split; [|by rewrite release_fds, set_conn_fds, touch_fds].
  unfold pool_release at 1.
  match goal with |- context [set_conn ?P i (with_in_use (conn_at ?P i) 0)] => rewrite (conn_at_set P) end;
    [by rewrite Z.eqb_refl| |lia].
  cbn. unfold len. rewrite !length_insert. unfold len in Hi. lia.
Qed.

(** C23 (flush_one_sends): with a connection to be had whose scratch buffer and
    kernel take the frame, [flush_one] takes the oldest entry of the queue and
    appends exactly one data frame with its payload to that connection's stream;
    no other stream, no row of the tracker and no other entry changes, and the
    connection is free again. *)
Theorem flush_one_sends `{ZstdOk} clock wall cfg s e l payload i p cap :
  cf_dry_run cfg = false → queue_ok (cs_queue s) → fifo (cs_queue s) = e :: l →
  qe_payload e = Some payload → bytes_ok payload → len payload ≤ QUEUE_ENTRY_MAX_PAYLOAD →
  pool_acquire (wall (cs_tick s)) (cs_pool s) = (Some i, p) →
  0 ≤ i < len (pl_conns p) → c_scratch (conn_at p i) = Some cap →
  ZSTD_COMPRESS_BOUND (len payload) + 7 ≤ cap →
  let fd := c_fd (conn_at p i) in
  ZSTD_COMPRESS_BOUND (len payload) + 7 ≤ granted (sk_send (csock s fd)) →
  ∃ c s', flush_one clock wall cfg s = (1, s') ∧
    ZSTD_compress (ZSTD_COMPRESS_BOUND (len payload)) payload (cf_zstd_level cfg) = Some c ∧
    sk_out (csock s' fd) = sk_out (csock s fd) ++ data_frame c ∧
    (∀ fd', fd ≠ fd' → csock s' fd' = csock s fd') ∧
    queue_ok (cs_queue s') ∧ fifo (cs_queue s') = l ∧ cs_db s' = cs_db s ∧
    c_in_use (conn_at (cs_pool s') i) = 0.
Proof.
  intros Hdry Hq Hf Hp Hb Hl Ha Hi Hsc Hcap fd Hg.
  destruct (flush_one_frame_sent clock wall cfg s e l payload i p cap Hdry Hq Hf Hp Hb Hl Ha Hi Hsc Hcap Hg)
    as (c & s' & H1 & H2 & H3 & H4 & H5 & H6 & H7 & H8 & _).
  by exists c, s'.
Qed.

Lemma flush_one_sends_witness :
  let s := set_queue (demo_cs [] []) (queue_push true (queue_init true).2 1 0 9 [147; 1; 2]).2 in
  ∃ c s', flush_one (H := stored_zstd) midnight midnight demo_cfg s = (1, s') ∧
    sk_out (csock s' 5) = data_frame c ∧ fifo (cs_queue s') = [] ∧ c_in_use (conn_at (cs_pool s') 0) = 0.
Proof.
  intros s.
  destruct (flush_one_sends midnight midnight demo_cfg s (mk_entry 1 0 9 (Some [147; 1; 2]) 3 1) []
              [147; 1; 2] 0 (pool_acquire 0 demo_pool).2 SEND_SCRATCH_SIZE) as (c & s' & H1 & _ & H2 & _ & _ & H3 & _ & H4);
    [done|constructor; done|reflexivity|reflexivity|repeat constructor; vm_compute; congruence
    |vm_compute; congruence|reflexivity|vm_compute; split; congruence|reflexivity
    |vm_compute; congruence|vm_compute; congruence|].
  exists c, s'. split; [exact H1|]. split; [exact H2|]. split; [exact H3|exact H4].
Defined.

(** [flush_one_drops]: when [flush_one] fails, for want of a connection or
    because the send failed, the block it took is gone: it is no longer in the
    queue and no row of the tracker changes, while the caller that queued the
    block has already recorded it as sent. *)
Theorem flush_one_drops `{Zstd} clock wall cfg s s' :
  queue_ok (cs_queue s) → flush_one clock wall cfg s = (-1, s') →
  (∃ e, fifo (cs_queue s) = e :: fifo (cs_queue s')) ∧ cs_db s' = cs_db s.
Proof.
  intros Hq E. unfold flush_one in E. destruct (queue_pop (cs_queue s)) as [r q] eqn:Eq.
  destruct (pop_fifo _ _ _ Hq Eq) as [Hq' Hpop].
  destruct r as [e|]; [|by injection E]. destruct (fifo (cs_queue s)) as [|e' l]; [by destruct Hpop|].
  destruct Hpop as ([= <-] & Hl & _). destruct (cf_dry_run cfg); [by injection E|].
  assert (Hs : cs_queue s' = q ∧ cs_db s' = cs_db s); [|destruct Hs as [-> ->]; rewrite Hl; eauto].
  unfold time_now in E. destruct (pool_acquire _ _) as [[i|] p]; [|by injection E as <-].
  destruct (qe_payload e); [|by injection E as <-]. destruct (wire_send _ _ _ _) as [rc k].
  destruct (negb (rc =? 0)); by simplify_eq.
Qed.

(** Every connection busy: the only block of the queue is lost. *)
Lemma flush_one_drops_witness :
  let p := mk_pool (replicate POOL_SLOTS (demo_conn 5 1 0)) 7 0 [] [] in
  let s := set_pool (set_queue (demo_cs [] []) (queue_push true (queue_init true).2 1 0 9 [147; 1; 2]).2) p in
  ∃ s', flush_one (H := stored_zstd) midnight midnight demo_cfg s = (-1, s') ∧
        ∃ e, fifo (cs_queue s) = e :: fifo (cs_queue s').
Proof.
  intros p s. destruct (flush_one (H := stored_zstd) midnight midnight demo_cfg s) as [rc s'] eqn:E.
  exists s'. assert (Hrc : rc = -1) by (apply (f_equal fst) in E; vm_compute in E; by rewrite <- E).
  subst rc. split; [reflexivity|].
  destruct (flush_one_drops (H := stored_zstd) midnight midnight demo_cfg s s') as [H1 _];
    [constructor; done|exact E|exact H1].
Defined.

(** [do_retransmit_idle]: [do_retransmit] asks for the unacknowledged blocks
    of the empty remote id, so that with every row recorded under a real one
    (as [send_block] records them) it finds nothing and retransmits nothing,
    however many blocks are unacknowledged. *)
Theorem do_retransmit_idle `{Zstd} realloc_ok malloc_ok clock wall running cfg s readers :
  db_events (cs_db s) = [] → map_Forall (λ _ r, r_remote_id r ≠ []) (t_block (cs_db s)) →
  do_retransmit realloc_ok malloc_ok clock wall running cfg s readers = s.
Proof.
  intros He Hr. unfold do_retransmit, sqlite_get_unacked. rewrite db_rows_ok by done.
  change (rid_or (cs_db s) (Some [])) with (@nil Z). assert (Hu : unacked_rows (cs_db s) [] = []).
  { apply elem_of_nil_inv. intros [[d o] r] Hin. apply unacked_rows_elem in Hin as (Hl & _ & Hrid).
    by apply (Hr (d, o) r). }
  rewrite Hu. unfold ztake. rewrite take_nil. cbn [fmap list_fmap retransmit_loop]. apply set_db_same.
Qed.

Lemma do_retransmit_idle_witness :
  let s := demo_cs [((1, 0), mk_row 3 9 0 0 0 [7])] [] in
  (sqlite_count_unacked (cs_db s) (Some [7])).1 = 1 ∧
  do_retransmit (H := stored_zstd) alloc_always always midnight midnight always demo_cfg s
    [mk_rentry (device [1; 2; 3]) None 1 0 false 1] = s.
Proof.
  intros s. split; [reflexivity|]. apply do_retransmit_idle; [reflexivity|].
  apply map_Forall_insert_2; [done|]. apply map_Forall_empty.
Defined.

(** ** Reconnecting *)

(** Some connection is open and unused. *)
Definition has_free (p : socket_pool) : Prop :=
  ∃ i, 0 ≤ i < SOCKET_POOL_TARGET ∧ conn_free (conn_at p i) = true.

(** A turn of the loop takes such a connection and gives it back: the slots and
    their number are what they were. *)
Lemma reconnect_turn now p :
  pool_ok p → has_free p →
  ∃ i p', pool_acquire now p = (Some i, p') ∧ pl_conns (pool_release p' i) = pl_conns p ∧
          pl_count (pool_release p' i) = pl_count p ∧ 0 ≤ pl_next_index (pool_release p' i) < SOCKET_POOL_TARGET.
Proof.
  intros [Hl Hc Hn] (j & Hj & Hf). unfold pool_acquire.
  pose proof (scan_free_spec p (pl_next_index p) POOL_SLOTS 0 ltac:(lia)) as Hscan.
  destruct (scan_free POOL_SLOTS 0 (pl_next_index p) p) as [i|] eqn:E;
    [|by rewrite (scan_free_none p (pl_next_index p) Hn E j Hj) in Hf].
  destruct Hscan as (Hi & Hfi & _). eexists i, _. split; [done|].
  split; [|split; [done|by apply Z.mod_pos_bound]].
  unfold pool_release. cbn [set_conn pl_conns].
  match goal with |- context [with_in_use (conn_at ?P i) 0] =>
    change (conn_at P i) with (conn_at (set_conn p i (with_in_use (conn_at p i) 1)) i) end.
  rewrite conn_at_set, Z.eqb_refl by (rewrite ?Hl; lia). rewrite list_insert_insert_eq.
  apply list_insert_id. rewrite (conn_at_lookup p i) by (rewrite Hl; lia). f_equal.
  unfold conn_free in Hfi. bool_to_prop. destruct (conn_at p i). cbn in *. by subst.
Qed.

Lemma reconnect_loop_diverges wall fuel : ∀ s,
  pool_ok (cs_pool s) → has_free (cs_pool s) → pl_count (cs_pool s) < SOCKET_POOL_TARGET →
  reconnect_loop wall fuel s = None.
Proof.
  induction fuel as [|fuel IH]; intros s Hp Hf Hc; [done|]. cbn [reconnect_loop]. unfold pool_count.
  replace (_ <? _) with true by lia. unfold time_now. cbn [cs_pool tick].
  destruct (reconnect_turn (wall (cs_tick s)) (cs_pool s) Hp Hf) as (i & p' & -> & H1 & H2 & H3).
  apply IH; cbn [cs_pool set_pool].
  - destruct Hp as [Hl Hcn Hn]. constructor; [by rewrite H1|by rewrite H1, H2|done].
  - destruct Hf as (j & Hj & Hf). exists j. split; [done|]. unfold conn_at in *. by rewrite H1.
  - by rewrite H2.
Qed.

(** No free connection, and the next connect fails. *)
Lemma acquire_fails now p :
  pool_ok p → ¬ has_free p → head (pl_connects p) ∈ [None; Some None] →
  ∃ p', pool_acquire now p = (None, p') ∧ pl_conns p' = pl_conns p.
Proof.
  intros [Hl Hc Hn] Hnf Hco. unfold pool_acquire.
  pose proof (scan_free_spec p (pl_next_index p) POOL_SLOTS 0 ltac:(lia)) as Hscan.
  destruct (scan_free POOL_SLOTS 0 (pl_next_index p) p) as [i|].
  { destruct Hscan as (Hi & Hf & _). destruct Hnf. by exists i. }
  case_test; [|by eexists]. destruct (scan_closed POOL_SLOTS 0 p); [|by eexists].
  unfold pool_connect. destruct (pl_connects p) as [|r rest]; [by eexists|].
  destruct r as [fd|]; [|by eexists]. cbn in Hco. exfalso.
  apply elem_of_cons in Hco as [[=]|Hco]. apply list_elem_of_singleton in Hco. discriminate Hco.
Qed.

(** C38 (do_reconnect_ends): when does [do_reconnect] return?  With seven open
    connections after the stale ones are reaped, at once; with fewer, when no
    connection is free and the next connect fails.  But as soon as a connection
    is free while fewer than seven are open, which is the normal state after one
    has been lost, it never returns: [pool_acquire] hands out the free connection
    instead of opening one, and the count the loop waits for never grows. *)
Theorem do_reconnect_ends wall s :
  pool_ok (cs_pool s) →
  let now := wall (cs_tick s) in
  let p := (pool_reap_stale now (cs_pool s)).2 in
  (pl_count p = SOCKET_POOL_TARGET → ∀ fuel, do_reconnect wall (S fuel) s = Some (set_pool (tick s) p)) ∧
  (pl_count p < SOCKET_POOL_TARGET → ¬ has_free p → head (pl_connects p) ∈ [None; Some None] →
   ∀ fuel, ∃ p', do_reconnect wall (S fuel) s = Some (set_pool (tick (tick s)) p') ∧ pl_conns p' = pl_conns p) ∧
  (pl_count p < SOCKET_POOL_TARGET → has_free p → ∀ fuel, do_reconnect wall fuel s = None).
Proof.
  intros Hok now p.
  assert (Hok' : pool_ok p) by (by apply reap_stale_ok).
  unfold do_reconnect, time_now. cbn [cs_pool tick]. fold now.
  replace (pool_reap_stale now (cs_pool s)) with ((pool_reap_stale now (cs_pool s)).1, p)
    by (unfold p; by destruct (pool_reap_stale now (cs_pool s))).
  split; [|split].
  - intros Hc fuel. cbn [reconnect_loop]. unfold pool_count. cbn [cs_pool set_pool].
    by replace (_ <? _) with false by lia.
  - intros Hc Hnf Hco fuel. cbn [reconnect_loop]. unfold pool_count. cbn [cs_pool set_pool].
    replace (_ <? _) with true by lia. unfold time_now. cbn [cs_pool set_pool tick].
    destruct (acquire_fails (wall (S (cs_tick s))) p) as (p' & E & Hp'); [done|exact Hnf|done|].
    cbn [cs_tick set_pool tick]. rewrite E. exists p'. by split.
  - intros Hc Hf fuel. by apply reconnect_loop_diverges.
Qed.

Lemma do_reconnect_ends_witness :
  pl_count demo_pool = 2 ∧ ∀ fuel, do_reconnect midnight fuel (demo_cs [] []) = None.
Proof.
  split; [reflexivity|].
  apply (do_reconnect_ends midnight (demo_cs [] []) demo_pool_ok); [vm_compute; reflexivity|].
  exists 0. split; [vm_compute; split; congruence|reflexivity].
Defined.

(** A queue one short of the backpressure depth. *)
Definition demo_full : cstate :=
  set_sock
    (set_queue (demo_cs [] [])
       (foldl (λ q i, (queue_push true q 1 (4096 * i) 9 [147; i]).2) (queue_init true).2
          (seqZ 0 (BACKPRESSURE_QUEUE_DEPTH - 1))))
    5 (mk_sock [] (replicate 100 (SendRoom 1048576)) []).

(** [send_block_duplicates]: [queue_push] answers 2 for an entry it has
    stored when the queue reaches the backpressure depth; [send_block] takes any
    non-zero answer for a refusal and pushes again.  With 39 blocks waiting, the
    fortieth is transmitted twice. *)
Theorem send_block_duplicates :
  let '(rc, s) := send_block (H := stored_zstd) alloc_always always midnight midnight always demo_cfg
                    demo_full (device [1; 2; 3]) 1 159744 0 in
  let frame := data_frame (0x28 :: block_encoding 1 159744 [1; 2; 3]) in
  rc = 0 ∧
  sk_out (csock (drain_queue (H := stored_zstd) midnight midnight demo_cfg s) 5) =
    concat ((λ i, data_frame [0x28; 147; i]) <$> seqZ 0 39) ++ frame ++ frame.
Proof. vm_compute. done. Qed.
