(* ===== verification/Incremental.v ===== *)
(** * Incremental rounds and their end (client/main.c, [shuffle_blocks],
      [do_incremental_round], [timer_cb_real], [should_finish])

    The engine's environment is that of Client.v; [rand_at] is the sequence of
    [rand()] values a shuffle draws. *)

From S2P Require Import Prelude Protocol Hash Net Zstd Msgpack Wire Queue Pool Tracker BlockIO Client.

(** ** shuffle_blocks *)

(** Exchanging two elements of an array. *)
Definition swap {A} (i j : nat) (l : list A) : list A :=
  match l !! i, l !! j with
  | Some x, Some y => <[j := x]> (<[i := y]> l)
  | _, _ => l
  end.

Section Shuffle.
Context (rand_at : nat → Z).

(** [for (int i = n - 1; i > 0; i--)], the four arrays in step; [k] counts the
    calls of [rand]. *)
Fixpoint shuffle_loop (i k : nat) (ds os hs ls : list Z) : list Z * list Z * list Z * list Z :=
  match i with
  | O => (ds, os, hs, ls)
  | S i' =>
      let j := Z.to_nat (rand_at k mod (Z.of_nat i + 1)) in
      shuffle_loop i' (S k) (swap i j ds) (swap i j os) (swap i j hs) (swap i j ls)
  end.

Definition shuffle_blocks (ds os hs ls : list Z) (n : Z) : list Z * list Z * list Z * list Z :=
  shuffle_loop (Z.to_nat (n - 1)) 0 ds os hs ls.

End Shuffle.

(** ** do_incremental_round *)

Section Round.
Context `{Zstd} (realloc_ok : Z → bool) (malloc_ok : nat → bool).
Context (clock wall : nat → Z) (running : nat → bool).
Context (cfg : config).

(** The live reader of the partition covering an offset: matched on the readers
    of the full synchronisation, taken from the live ones at the same index. *)
Fixpoint find_live (live vss : list reader_entry) (devno disk_offset : Z) : option reader_entry :=
  match live, vss with
  | l :: live', v :: vss' =>
      let part_end := u64 (re_partition_offset v + block_reader_size (re_reader v)) in
      if (re_devno v =? devno) && (re_partition_offset v <=? disk_offset) && (disk_offset <? part_end)
      then Some l
      else find_live live' vss' devno disk_offset
  | _, _ => None
  end.

(** [entry->live_reader ? entry->live_reader : entry->reader] *)
Definition live_reader_of (e : reader_entry) : block_reader :=
  default (re_reader e) (re_live_reader e).

(** The push loop of a round: 1 pushed, 0 given up after 300 turns, -1 stopped
    by [g_running]. *)
Fixpoint inc_push (n : nat) (s : cstate) (devno offset h : Z) (payload : list Z) : Z * cstate :=
  let '(rc, q) := queue_push (malloc_ok (cs_tick s)) (cs_queue s) devno offset h payload in
  let s := set_queue s q in
  if rc =? 0 then (1, s)
  else
    let '(run, s) := is_running running s in
    if negb run then (-1, s)
    else
      let s := process_ack cfg (drain_queue clock wall cfg s) in
      match n with
      | O => (0, s)
      | S n' => inc_push n' s devno offset h payload
      end.

Definition mark_stable (s : cstate) (devno offset current_version : Z) : cstate :=
  if 0 <? current_version then set_db s (sqlite_block_mark_verified (cs_db s) devno offset current_version).2
  else set_db s (sqlite_block_mark_acked (cs_db s) devno offset).2.

(** A block that was read: stable, or encoded and queued again.  The result is
    the number of blocks requeued, [None] when the round has to return. *)
Definition inc_block (s : cstate) (devno disk_offset old_hash now_ms current_version : Z)
    (data : list Z) : option Z * cstate :=
  let offset := s64 disk_offset in
  let new_hash := hash_block data (Z.land disk_offset 0xFFFFFFFF) in
  if new_hash =? old_hash then
    let s := mark_stable s devno offset current_version in
    (Some 0, set_db s (sqlite_update_last_sent (cs_db s) devno offset now_ms).2)
  else
    let s := set_db s (sqlite_update_last_sent (cs_db s) devno offset now_ms).2 in
    match msgpack_encode_block realloc_ok (cs_writer s) devno offset data with
    | None => (Some 0, s)
    | Some w =>
        let s := set_writer s w in
        let '(r, s) := inc_push (Z.to_nat INC_PUSH_RETRIES) s devno offset new_hash (wr_data w) in
        if r =? -1 then (None, s)
        else if r =? 1 then
          let s := set_db s (sqlite_block_upsert_v (cs_db s) devno offset (len data) new_hash 0
                               current_version).2 in
          let '(now, s) := timer_now clock s in
          (Some 1, set_db s (sqlite_update_last_sent (cs_db s) devno offset (s64 now)).2)
        else (Some 0, s)
    end.

(** [last_sent > 0 && (now_ms - last_sent) < RETRANSMIT_MIN_INTERVAL_SEC * 1000] *)
Definition cooling (now_ms last_sent : Z) : bool :=
  (0 <? last_sent) && (now_ms - last_sent <? RETRANSMIT_MIN_INTERVAL_SEC * 1000).

Fixpoint round_loop (blocks : list (Z * Z * Z * Z)) (live vss : list reader_entry)
    (now_ms current_version requeued : Z) (s : cstate) : Z * cstate :=
  match blocks with
  | [] => (requeued, s)
  | (devno, offset, old_hash, last_sent) :: r =>
      let '(run, s) := is_running running s in
      if negb run then (requeued, s)
      else if cooling now_ms last_sent then round_loop r live vss now_ms current_version requeued s
      else if 9 <? queue_count (cs_queue s) then (requeued, s)
      else
        match find_live live vss devno (u64 offset) with
        | None => round_loop r live vss now_ms current_version requeued s
        | Some e =>
            match block_reader_read (live_reader_of e) (u64 offset) BLOCK_SIZE with
            | None => round_loop r live vss now_ms current_version requeued s
            | Some data =>
                if len data =? 0 then round_loop r live vss now_ms current_version requeued s
                else
                  match inc_block s devno (u64 offset) old_hash now_ms current_version data with
                  | (None, s) => (requeued, s)
                  | (Some n, s) => round_loop r live vss now_ms current_version (requeued + n) s
                  end
            end
        end
  end.

Definition zip4 (ds os hs ls : list Z) : list (Z * Z * Z * Z) :=
  zip (zip (zip ds os) hs) ls.

Definition do_incremental_round (rand_at : nat → Z) (live vss : list reader_entry)
    (current_version : Z) (s : cstate) : Z * cstate :=
  let '(count, rows, db) := sqlite_get_unacked_with_hash (cs_db s) 4096 (Some (make_remote_id cfg)) in
  let s := set_db s db in
  if count <=? 0 then (0, s)
  else
    let '(ds, os, hs, ls) :=
      shuffle_blocks rand_at ((λ r, r.1.1.1) <$> rows) ((λ r, r.1.1.2) <$> rows)
        ((λ r, r.1.2) <$> rows) ((λ r, r.2) <$> rows) count in
    let '(now, s) := timer_now clock s in
    round_loop (zip4 ds os hs ls) live vss (s64 now) current_version 0 s.

(** ** timer_cb_real *)

(** The wait for SERVER_DONE: at most [n] polls. *)
Fixpoint wait_done (n : nat) (s : cstate) : cstate :=
  match n with
  | O => s
  | S n' =>
      let '(run, s) := is_running running s in
      if run && (cs_server_done_rcvd s =? 0) then
        wait_done n' (drain_queue clock wall cfg (process_ack cfg s))
      else s
  end.

Definition timer_cb_real (s : cstate) : Z * cstate :=
  let s := drain_all clock wall running cfg s in
  if cf_dry_run cfg then (1, set_flags s 1 (cs_ctl_end_sent s) (cs_server_done_rcvd s))
  else
    let '(go_on, s) :=
      if cs_ctl_end_sent s =? 0 then
        let '(now, s) := time_now wall s in
        match pool_acquire now (cs_pool s) with
        | (Some i, p) =>
            let fd := c_fd (conn_at p i) in
            let '(_, k) := wire_send_control (csock s fd) CTL_END_INCREMENTAL CTL_END_INCREMENTAL_LEN in
            let s := set_sock s fd k in
            let '(now, s) := time_now wall s in
            let s := set_pool s (pool_release (pool_touch now p i) i) in
            (true, set_flags s (cs_all_done s) 1 (cs_server_done_rcvd s))
        | (None, p) => (false, set_pool s p)
        end
      else (true, s) in
    if negb go_on then (0, s)
    else
      let s := set_flags s (cs_all_done s) (cs_ctl_end_sent s) 0 in
      let s := wait_done 3000 s in
      (1, set_flags s 1 (cs_ctl_end_sent s) (cs_server_done_rcvd s)).

(** ** should_finish *)

Definition should_finish (requeued current_version : Z) (s : cstate) : Z * cstate :=
  let rid := Some (make_remote_id cfg) in
  let '(unacked, db) :=
    if 0 <? current_version then sqlite_count_unacked_v (cs_db s) rid current_version
    else sqlite_count_unacked (cs_db s) rid in
  let '(total, db) := sqlite_count_blocks db (-1) (-1) in
  let s := set_db s db in
  if unacked =? 0 then (1, s)
  else
    let s := if requeued =? 0 then set_zero_rounds s (cs_zero_change_rounds s + 1)
             else set_zero_rounds s 0 in
    let threshold := if Z.quot total 20 <? 512 then 512 else Z.quot total 20 in
    if (requeued =? 0) && (CONVERGENCE_ZERO_ROUNDS <=? cs_zero_change_rounds s) && (unacked <=? threshold)
    then (1, s)
    else if MAX_INCREMENTAL_ROUNDS <=? cs_inc_round s then (1, s)
    else (0, s).

End Round.

#[global] Arguments wait_done : simpl never.

(** ** Shuffling *)

Lemma swap_length {A} i j (l : list A) : length (swap i j l) = length l.
Proof. unfold swap. repeat case_match; rewrite ?length_insert; done. Qed.

Lemma insert_middle {A} (l1 l2 : list A) x y : <[length l1 := y]> (l1 ++ x :: l2) = l1 ++ y :: l2.
Proof. rewrite insert_app_r_alt, Nat.sub_diag by lia. done. Qed.

Lemma swap_split {A} (a b c : list A) x y :
  swap (length a) (length a + S (length b)) (a ++ x :: b ++ y :: c) = a ++ y :: b ++ x :: c.
Proof.
  unfold swap. rewrite list_lookup_middle by done.
  rewrite lookup_app_r by lia. replace (length a + S (length b) - length a)%nat with (S (length b)) by lia.
  change ((x :: b ++ y :: c) !! S (length b)) with ((b ++ y :: c) !! length b).
  rewrite list_lookup_middle by done.
  rewrite insert_middle. replace (a ++ y :: b ++ y :: c) with ((a ++ y :: b) ++ y :: c) by (by app_norm).
  replace (length a + S (length b))%nat with (length (a ++ y :: b)) by (rewrite length_app; done).
  rewrite insert_middle. by app_norm.
Qed.

Lemma swap_comm {A} i j (l : list A) : swap i j l = swap j i l.
Proof.
  unfold swap. destruct (decide (i = j)) as [->|Hne]; [done|].
  destruct (l !! i), (l !! j); try done. by rewrite list_insert_insert_ne by done.
Qed.

Lemma swap_perm_lt {A} i j (l : list A) : (i < j < length l)%nat → swap i j l ≡ₚ l.
Proof.
  intros [Hij Hj].
  destruct (lookup_lt_is_Some_2 l i) as [x Hx]; [lia|]. destruct (lookup_lt_is_Some_2 l j) as [y Hy]; [lia|].
  apply list_elem_of_split_length in Hx as (a & r & -> & ->).
  rewrite lookup_app_r in Hy by lia. destruct (j - length a)%nat as [|k] eqn:Ek; [lia|]. cbn in Hy.
  apply list_elem_of_split_length in Hy as (b & c & -> & ->).
  replace j with (length a + S (length b))%nat by lia. rewrite swap_split.
  apply Permutation_app_head. rewrite <- !Permutation_middle. apply Permutation_swap.
Qed.

Lemma swap_perm {A} i j (l : list A) : swap i j l ≡ₚ l.
Proof.
  destruct (decide (i < length l ∧ j < length l)%nat) as [[Hi Hj]|Hno].
  - destruct (lt_eq_lt_dec i j) as [[Hlt| ->]|Hgt]; [by apply swap_perm_lt| |].
    + unfold swap. destruct (l !! j) as [x|] eqn:E; [|done].
      by rewrite list_insert_insert_eq, list_insert_id.
    + rewrite swap_comm. by apply swap_perm_lt.
  - unfold swap. destruct (l !! i) eqn:Ei; [|done]. destruct (l !! j) eqn:Ej; [|done].
    apply lookup_lt_Some in Ei, Ej. tauto.
Qed.

Lemma swap_zip {A B} i j (a : list A) (b : list B) :
  length a = length b → zip (swap i j a) (swap i j b) = swap i j (zip a b).
Proof.
  intros Hl. unfold swap. rewrite !lookup_zip_with.
  destruct (a !! i) eqn:Ea, (b !! i) eqn:Eb; cbn;
    try (apply lookup_lt_Some in Ea; apply lookup_ge_None in Eb; lia);
    try (apply lookup_lt_Some in Eb; apply lookup_ge_None in Ea; lia); [|done].
  destruct (a !! j) eqn:Fa, (b !! j) eqn:Fb; cbn;
    try (apply lookup_lt_Some in Fa; apply lookup_ge_None in Fb; lia);
    try (apply lookup_lt_Some in Fb; apply lookup_ge_None in Fa; lia); [|done].
  by rewrite !insert_zip_with.
Qed.

Lemma swap_zip4 i j ds os hs ls :
  length os = length ds → length hs = length ds → length ls = length ds →
  zip4 (swap i j ds) (swap i j os) (swap i j hs) (swap i j ls) = swap i j (zip4 ds os hs ls).
Proof.
  intros H1 H2 H3. unfold zip4. rewrite swap_zip by done.
  rewrite swap_zip by (rewrite length_zip_with; lia). by rewrite swap_zip by (rewrite !length_zip_with; lia).
Qed.

Lemma shuffle_loop_perm rand_at i : ∀ k ds os hs ls,
  length os = length ds → length hs = length ds → length ls = length ds →
  let '(ds', os', hs', ls') := shuffle_loop rand_at i k ds os hs ls in
  zip4 ds' os' hs' ls' ≡ₚ zip4 ds os hs ls ∧
  length ds' = length ds ∧ length os' = length ds ∧ length hs' = length ds ∧ length ls' = length ds.
Proof.
  induction i as [|i IH]; intros k ds os hs ls H1 H2 H3; cbn [shuffle_loop]; [done|].
  set (j := Z.to_nat _).
  specialize (IH (S k) (swap (S i) j ds) (swap (S i) j os) (swap (S i) j hs) (swap (S i) j ls)).
  rewrite !swap_length in IH. specialize (IH H1 H2 H3).
  destruct (shuffle_loop _ _ _ _ _ _ _) as [[[ds' os'] hs'] ls']. destruct IH as (IH & ? & ? & ? & ?).
  rewrite swap_zip4 in IH by done. split; [|done]. rewrite IH. apply swap_perm.
Qed.

(** ** A round *)

Section RoundLemmas.
Context `{Zstd} (realloc_ok : Z → bool) (malloc_ok : nat → bool).
Context (clock wall : nat → Z) (running : nat → bool) (cfg : config).
Context (mem : ∀ n, realloc_ok n = true) (alloc : ∀ t, malloc_ok t = true).

(** What the round needs of the state and keeps. *)
Record round_ok (s : cstate) : Prop := {
  ro_queue : queue_ok (cs_queue s);
  ro_writer : writer_ok (cs_writer s);
  ro_db : db_events (cs_db s) = [];
}.

(** The row of an unchanged block, and of a block sent again. *)
Definition stable_row (now_ms version : Z) (r : block_row) : block_row :=
  mk_row (r_size r) (r_hash r) 1 now_ms (if 0 <? version then version else r_version r) (r_remote_id r).

Lemma mark_stable_db s d o v now :
  db_events (cs_db s) = [] →
  let s1 := mark_stable s d o v in
  let s2 := set_db s1 (sqlite_update_last_sent (cs_db s1) d o now).2 in
  s2 = set_db s (with_blocks (cs_db s) (alter (stable_row now v) (d, o) (t_block (cs_db s)))).
Proof.
  intros He. cbv zeta. unfold mark_stable, sqlite_update_last_sent, sqlite_block_mark_verified,
    sqlite_block_mark_acked, stable_row.
  destruct (0 <? v); cbn [cs_db set_db]; rewrite !(db_update_ok (cs_db s)) by done;
    cbn [snd]; rewrite db_update_ok by done; unfold set_db, with_blocks; cbn;
    by rewrite alter_alter_eq.
Qed.

(** With the queue as short as the round's guard asks, the push succeeds at once. *)
Lemma inc_push_short n s d o h payload :
  queue_ok (cs_queue s) → q_count (cs_queue s) ≤ 9 → len payload ≤ QUEUE_ENTRY_MAX_PAYLOAD →
  ∃ q, inc_push malloc_ok clock wall running cfg n s d o h payload = (1, set_queue s q) ∧ queue_ok q ∧
       fifo q = fifo (cs_queue s) ++ [mk_entry d o h (Some payload) (len payload) 1].
Proof using alloc.
  intros Hq Hc Hl. destruct n; cbn [inc_push]; rewrite alloc;
    destruct (queue_push true (cs_queue s) d o h payload) as [rc q] eqn:E;
    (apply push_fifo in E as (H1 & H2 & ->); [|done|done|unfold QUEUE_CAPACITY; lia]);
    unfold BACKPRESSURE_QUEUE_DEPTH; replace (40 <=? _) with false by lia; cbn [Z.eqb]; eauto.
Qed.

Definition inc_entry (devno offset h : Z) (data : list Z) : queue_entry :=
  let enc := block_encoding devno offset data in
  mk_entry devno offset h (Some enc) (len enc) 1.

Lemma inc_block_ok s devno disk_offset old now ver data :
  round_ok s → q_count (cs_queue s) ≤ 9 → 0 < len data ≤ BLOCK_SIZE →
  let off := s64 disk_offset in
  let h := hash_block data (Z.land disk_offset 0xFFFFFFFF) in
  let t := t_block (cs_db s) in
  ∃ s', inc_block realloc_ok malloc_ok clock wall running cfg s devno disk_offset old now ver data
          = (Some (if h =? old then 0 else 1), s') ∧ round_ok s' ∧
        db_remote_id (cs_db s') = db_remote_id (cs_db s) ∧
        fifo (cs_queue s') = fifo (cs_queue s) ++ (if h =? old then [] else [inc_entry devno off h data]) ∧
        t_block (cs_db s') =
          if h =? old then alter (stable_row now ver) (devno, off) t
          else <[(devno, off) := mk_row (len data) (s64 h) 0 (s64 (clock (cs_tick s))) ver
                                   (db_remote_id (cs_db s))]> t.
Proof using mem alloc.
  intros [Hq Hw He] Hc Hl off h t. unfold inc_block. fold off. fold h.
  destruct (h =? old).
  - rewrite mark_stable_db by done. eexists. split; [done|]. split; [done|]. split; [done|].
    split; [cbn; by rewrite app_nil_r|done].
  - set (db1 := (sqlite_update_last_sent (cs_db s) devno off now).2). set (s1 := set_db s db1).
    assert (Edb : db1 = with_blocks (cs_db s) (t_block db1) ∧
                  ∀ row, <[(devno, off) := row]> (t_block db1) = <[(devno, off) := row]> t).
    { unfold db1, sqlite_update_last_sent. rewrite db_update_ok by done. split; [done|].
      intros row. apply insert_alter_eq. }
    destruct Edb as [Edb Hins].
    destruct (encode_block_total realloc_ok (cs_writer s1) devno off data mem) as [w Ew]. rewrite Ew.
    destruct Hw as [Hw1 Hw2]. assert (0 ≤ wr_capacity (cs_writer s1)).
    { cbn. unfold wr_written in Hw1. pose proof (len_nonneg (wr_data (cs_writer s))). lia. }
    unfold BLOCK_SIZE in Hl. apply encode_block_data in Ew as [Hd Hwok]; [|done|done|lia]. rewrite Hd.
    destruct (inc_push_short (Z.to_nat INC_PUSH_RETRIES) (set_writer s1 w) devno off h
                (block_encoding devno off data)) as (q & -> & Hq' & Hf); [done|done| |].
    { pose proof (len_block_encoding devno off data). unfold QUEUE_ENTRY_MAX_PAYLOAD. lia. }
    cbn [Z.eqb]. unfold timer_now, sqlite_block_upsert_v. cbn [cs_db set_db set_queue set_writer tick].
    change (cs_db s1) with db1. rewrite Edb, db_update_ok by done. cbn [snd]. unfold sqlite_update_last_sent. rewrite db_update_ok by done.
    eexists. split; [done|]. split; [by constructor|]. split; [done|]. split; [exact Hf|]. cbn.
    by rewrite alter_insert_eq, Hins.
Qed.

(** [pread64] returns no more than it was asked for. *)
Definition honest (r : block_reader) : Prop :=
  ∀ off n bs, 0 ≤ n → br_pread r off n = Some bs → len bs ≤ n.

Lemma honest_read r off data : honest r → block_reader_read r off BLOCK_SIZE = Some data → len data ≤ BLOCK_SIZE.
Proof.
  intros Hh E. unfold block_reader_read, u32, u64, wrapU, BLOCK_SIZE in *.
  pose proof (Z.mod_pos_bound (br_total_bytes r - off) (2 ^ 64) ltac:(lia)).
  rewrite Z.mod_small in E by lia. apply Hh in E; lia.
Qed.

Lemma s64_u64 o : in_s 64 o → s64 (u64 o) = o.
Proof. intros Ho. unfold s64, u64. rewrite wrapS_wrapU by lia. by apply wrapS_id. Qed.

Lemma find_live_elem live : ∀ vss d o e, find_live live vss d o = Some e → e ∈ live.
Proof.
  induction live as [|l live IH]; intros [|v vss] d o e E; cbn [find_live] in E; try done.
  case_test_in E; [injection E as <-; left|right; by eapply IH].
Qed.

Definition bkey (b : Z * Z * Z * Z) : Z * Z := (b.1.1.1, b.1.1.2).
Definition ekey (e : queue_entry) : Z * Z := (qe_devno e, qe_offset e).

(** The outcome of the loop over [blocks]: only the blocks it queues again enter
    the queue, each with its row, and no row but those of the blocks out of
    their cooling period changes. *)
Definition round_outcome (now ver : Z) (blocks : list (Z * Z * Z * Z)) (requeued : Z) (s : cstate)
    (res : Z * cstate) : Prop :=
  let '(n, s') := res in
  round_ok s' ∧
  (∀ k, (∀ b, b ∈ blocks → bkey b = k → cooling now b.2 = true) →
        t_block (cs_db s') !! k = t_block (cs_db s) !! k) ∧
  ∃ new, fifo (cs_queue s') = fifo (cs_queue s) ++ new ∧ n = requeued + len new ∧
         (new ≠ [] → len (fifo (cs_queue s')) ≤ 10) ∧
         Forall (λ e, ekey e ∈ bkey <$> blocks ∧
                      ∃ r, t_block (cs_db s') !! ekey e = Some r ∧ r_ack r = 0 ∧
                           r_hash r = s64 (qe_hash e) ∧ r_version r = ver) new.

Lemma round_stop now ver blocks requeued s : round_ok s → round_outcome now ver blocks requeued s (requeued, tick s).
Proof.
  intros Hok. split; [by destruct Hok|]. split; [done|]. exists []. rewrite app_nil_r.
  split; [done|]. split; [by rewrite Z.add_0_r|]. done.
Qed.

Lemma round_skip now ver b blocks requeued s res :
  round_outcome now ver blocks requeued (tick s) res → round_outcome now ver (b :: blocks) requeued s res.
Proof.
  destruct res as [n s']. intros (H1 & H2 & new & H3 & H4 & H5 & H6). split; [done|].
  split; [intros k Hk; rewrite H2; [done|]; intros b' Hb'; apply Hk; by right|].
  exists new. split; [done|]. split; [done|]. split; [done|].
  eapply Forall_impl; [exact H6|]. intros e [He Hr]. split; [|done]. cbn. by right.
Qed.

Lemma len_fifo q : queue_ok q → len (fifo q) = q_count q.
Proof. intros [_ _ Hc _ _]. unfold fifo, len. rewrite length_fmap, length_seq. lia. Qed.

(** A block that was read, then the rest of the round. *)
Lemma round_step now ver d o old last blocks requeued s s1 m res :
  round_ok s → q_count (cs_queue s) ≤ 9 → cooling now last = false → (d, o) ∉ bkey <$> blocks →
  round_ok s1 → (∀ k, k ≠ (d, o) → t_block (cs_db s1) !! k = t_block (cs_db s) !! k) →
  (m = [] ∨ ∃ e r, m = [e] ∧ ekey e = (d, o) ∧ t_block (cs_db s1) !! (d, o) = Some r ∧ r_ack r = 0 ∧
                   r_hash r = s64 (qe_hash e) ∧ r_version r = ver) →
  fifo (cs_queue s1) = fifo (cs_queue s) ++ m →
  round_outcome now ver blocks (requeued + len m) s1 res →
  round_outcome now ver ((d, o, old, last) :: blocks) requeued s res.
Proof.
  intros Hok Hc Hcool Hnin Hok1 Hframe Hm Hf1. destruct res as [n s'].
  intros (H1 & H2 & new & H3 & H4 & H5 & H6). split; [done|]. split.
  { intros k Hk. rewrite H2 by (intros b' Hb'; apply Hk; by right). apply Hframe. intros ->.
    specialize (Hk (d, o, old, last) ltac:(left) eq_refl). cbn in Hk. congruence. }
  exists (m ++ new). rewrite H3, Hf1. split; [by rewrite app_assoc|].
  split; [rewrite H4, len_app; lia|]. split.
  - intros Hne. rewrite H3, Hf1 in H5. destruct new as [|e new]; [|by apply H5].
    rewrite !app_nil_r in *. rewrite len_app, len_fifo by (by destruct Hok).
    destruct Hm as [->|(e & r & -> & _)]; [done|]. change (len [e]) with 1. lia.
  - apply Forall_app. split.
    + destruct Hm as [->|(e & r & -> & Hke & Hr)]; [done|]. constructor; [|done].
      rewrite Hke. split; [left|]. exists r. rewrite H2; [done|]. intros b Hb Hkb. destruct Hnin.
      rewrite <- Hkb. by apply list_elem_of_fmap_2.
    + eapply Forall_impl; [exact H6|]. intros e [He Hr]. split; [|done]. by right.
Qed.

Lemma round_loop_ok live vss now ver blocks : ∀ requeued s,
  Forall (λ e, honest (live_reader_of e)) live → round_ok s → NoDup (bkey <$> blocks) →
  Forall (λ b, in_s 64 b.1.1.2) blocks →
  round_outcome now ver blocks requeued s
    (round_loop realloc_ok malloc_ok clock wall running cfg blocks live vss now ver requeued s).
Proof using mem alloc.
  induction blocks as [|[[[d o] old] last] blocks IH]; intros requeued s Hh Hok Hnd Hr.
  { split; [done|]. split; [done|]. exists []. rewrite app_nil_r.
    split; [done|]. split; [by rewrite Z.add_0_r|]. done. }
  cbn [fmap list_fmap] in Hnd. apply NoDup_cons in Hnd as [Hnin Hnd]. apply Forall_cons in Hr as [Ho Hr].
  cbn [round_loop]. unfold is_running.
  assert (Hok' : round_ok (tick s)) by (by destruct Hok).
  pose proof (IH requeued (tick s) Hh Hok' Hnd Hr) as Hskip.
  destruct (running (cs_tick s)); cbn [negb]; [|by apply round_stop].
  destruct (cooling now last) eqn:Ecool; [by apply round_skip|].
  destruct (Z.ltb_spec 9 (queue_count (cs_queue (tick s)))) as [Hq|Hq]; [by apply round_stop|].
  destruct (find_live live vss d (u64 o)) as [e|] eqn:Ef; [|by apply round_skip].
  destruct (block_reader_read (live_reader_of e) (u64 o) BLOCK_SIZE) as [data|] eqn:Er; [|by apply round_skip].
  destruct (Z.eqb_spec (len data) 0) as [Hl|Hl]; [by apply round_skip|].
  assert (Hdl : 0 < len data ≤ BLOCK_SIZE).
  { pose proof (len_nonneg data). split; [lia|]. eapply honest_read; [|exact Er].
    rewrite Forall_forall in Hh. apply Hh. by eapply find_live_elem. }
  destruct (inc_block_ok (tick s) d (u64 o) old now ver data Hok' Hq Hdl) as (s1 & -> & Hok1 & _ & Hf1 & Ht1).
  rewrite s64_u64 in Hf1, Ht1 by done. set (h := hash_block data _) in *.
  eapply (round_step now ver d o old last blocks requeued s s1 (if h =? old then [] else [inc_entry d o h data]));
    [done|done|done|done|done| | |done|].
  - intros k Hk. rewrite Ht1. destruct (h =? old); [by rewrite lookup_alter_ne|by rewrite lookup_insert_ne].
  - rewrite Ht1. destruct (h =? old); [by left|right]. eexists _, _. split; [done|]. split; [done|].
    rewrite lookup_insert_eq. split; [done|]. done.
  - replace (requeued + len _) with (requeued + (if h =? old then 0 else 1)) by (by destruct (h =? old)).
    by apply IH.
Qed.

End RoundLemmas.

(** ** The blocks of a round *)

Lemma zip4_rows (rows : list (Z * Z * Z * Z)) :
  zip4 ((λ r, r.1.1.1) <$> rows) ((λ r, r.1.1.2) <$> rows) ((λ r, r.1.2) <$> rows) ((λ r, r.2) <$> rows) = rows.
Proof.
  induction rows as [|[[[d o] h] l] rows IH]; [done|]. unfold zip4 in *. cbn. by rewrite IH.
Qed.

(** What [sqlite_get_unacked_with_hash] hands out, shuffled. *)
Definition round_blocks (db : sqlite_db) (rid : list Z) : list (Z * Z * Z * Z) :=
  (λ kr, (kr.1.1, kr.1.2, u64 (r_hash kr.2), r_last_sent kr.2)) <$> ztake 4096 (unacked_rows db rid).

Lemma round_blocks_row db rid b :
  b ∈ round_blocks db rid →
  ∃ r, t_block db !! bkey b = Some r ∧ r_ack r = 0 ∧ r_remote_id r = rid ∧ r_last_sent r = b.2.
Proof.
  intros Hb. apply list_elem_of_fmap in Hb as ([[d o] r] & -> & Hin). exists r. cbn.
  assert (Hin' : (d, o, r) ∈ unacked_rows db rid).
  { rewrite <- (ztake_zdrop 4096 (unacked_rows db rid)). apply elem_of_app. by left. }
  apply unacked_rows_elem in Hin' as (H1 & H2 & H3). done.
Qed.

Lemma round_blocks_keys db rid : NoDup (bkey <$> round_blocks db rid).
Proof.
  unfold round_blocks. rewrite <- list_fmap_compose.
  replace ((bkey ∘ _) <$> ztake 4096 (unacked_rows db rid)) with ((ztake 4096 (unacked_rows db rid)).*1).
  - unfold ztake. rewrite fmap_take. eapply sublist_NoDup; [apply unacked_rows_keys|apply sublist_take].
  - apply list_fmap_ext. intros i [[d o] r] _. done.
Qed.

(** ** Properties *)

(** [shuffle_blocks_correct]: whatever [rand] returns, [shuffle_blocks] only
    reorders: the four arrays keep their length and are permuted in step, so
    that every block keeps its own device, offset, hash and send time. *)
Theorem shuffle_blocks_correct rand_at ds os hs ls n :
  length os = length ds → length hs = length ds → length ls = length ds →
  let '(ds', os', hs', ls') := shuffle_blocks rand_at ds os hs ls n in
  zip4 ds' os' hs' ls' ≡ₚ zip4 ds os hs ls ∧
  length ds' = length ds ∧ length os' = length ds ∧ length hs' = length ds ∧ length ls' = length ds.
Proof. apply shuffle_loop_perm. Qed.

Lemma shuffle_blocks_correct_witness :
  let '(ds', os', hs', ls') :=
    shuffle_blocks (λ k, Z.of_nat (7 * k + 5)) [1; 2; 3] [10; 20; 30] [11; 21; 31] [12; 22; 32] 3 in
  zip4 ds' os' hs' ls' ≡ₚ [(1, 10, 11, 12); (2, 20, 21, 22); (3, 30, 31, 32)] ∧ ds' ≠ [1; 2; 3].
Proof.
  pose proof (shuffle_blocks_correct (λ k, Z.of_nat (7 * k + 5)) [1; 2; 3] [10; 20; 30] [11; 21; 31]
                [12; 22; 32] 3 eq_refl eq_refl eq_refl) as Hs.
  destruct (shuffle_blocks _ _ _ _ _ _) as [[[ds' os'] hs'] ls'] eqn:E.
  split; [exact (proj1 Hs)|]. vm_compute in E. congruence.
Defined.

(** The rows a round looks at: unacknowledged, of this server, and not sent
    within the last 121 seconds. *)
Definition round_row (cfg : config) (now : Z) (r : block_row) : Prop :=
  r_ack r = 0 ∧ r_remote_id r = make_remote_id cfg ∧ cooling now (r_last_sent r) = false.

(** C14 (incremental_round_correct): an incremental round, with memory, a working
    tracker and honest readers, in whatever order [rand] puts the blocks.
    Acknowledged rows, rows of another server and rows in their 121 second
    cooling period are not touched.  The entries it queues come after those
    already queued, their number is what it returns, the queue never grows past
    ten, and each entry has its row: unacknowledged, with the entry's hash and
    the round's version. *)
Theorem incremental_round_correct `{Zstd} realloc_ok malloc_ok clock wall running cfg
    rand_at live vss ver s n s' :
  (∀ n, realloc_ok n = true) → (∀ t, malloc_ok t = true) → round_ok s →
  Forall (λ e, honest (live_reader_of e)) live →
  map_Forall (λ k _, in_s 64 k.2) (t_block (cs_db s)) →
  do_incremental_round realloc_ok malloc_ok clock wall running cfg rand_at live vss ver s = (n, s') →
  let now := s64 (clock (cs_tick s)) in
  round_ok s' ∧
  (∀ k r, t_block (cs_db s) !! k = Some r → ¬ round_row cfg now r → t_block (cs_db s') !! k = Some r) ∧
  ∃ new, fifo (cs_queue s') = fifo (cs_queue s) ++ new ∧ n = len new ∧
         (new ≠ [] → len (fifo (cs_queue s')) ≤ 10) ∧
         Forall (λ e, ∃ r, t_block (cs_db s') !! ekey e = Some r ∧ r_ack r = 0 ∧
                           r_hash r = s64 (qe_hash e) ∧ r_version r = ver) new.
Proof.
  intros Hmem Halloc Hok Hh Hrange E now. unfold do_incremental_round, sqlite_get_unacked_with_hash in E.
  rewrite db_rows_ok in E by (by destruct Hok). cbn [rid_or from_option id] in E.
  set (rid := make_remote_id cfg) in *. fold (round_blocks (cs_db s) rid) in E.
  rewrite set_db_same in E. set (rows := round_blocks (cs_db s) rid) in *.
  destruct (Z.leb_spec (len rows) 0) as [Hz|Hpos].
  { injection E as <- <-. split; [done|]. split; [done|]. exists []. by rewrite app_nil_r. }
  pose proof (shuffle_loop_perm rand_at (Z.to_nat (len rows - 1)) 0 ((λ r, r.1.1.1) <$> rows)
                ((λ r, r.1.1.2) <$> rows) ((λ r, r.1.2) <$> rows) ((λ r, r.2) <$> rows)) as Hp.
  rewrite !length_fmap in Hp. specialize (Hp eq_refl eq_refl eq_refl). unfold shuffle_blocks in E.
  destruct (shuffle_loop _ _ _ _ _ _ _) as [[[ds os] hs] ls]. destruct Hp as [Hp _]. rewrite zip4_rows in Hp.
  unfold timer_now in E. fold now in E.
  pose proof (round_loop_ok realloc_ok malloc_ok clock wall running cfg Hmem Halloc live vss now ver
                (zip4 ds os hs ls) 0 (tick s) Hh) as Ho.
  rewrite E in Ho. destruct Ho as (H1 & H2 & new & H3 & H4 & H5 & H6).
  - by destruct Hok.
  - rewrite Hp. apply round_blocks_keys.
  - rewrite Hp. apply Forall_forall. intros b Hb. apply round_blocks_row in Hb as (r & Hr & _).
    by apply (Hrange (bkey b) r).
  - split; [done|]. split.
    + intros k r Hk Hnr. rewrite H2; [done|]. intros b Hb Hkb. rewrite Hp in Hb.
      apply round_blocks_row in Hb as (r' & Hr' & Ha & Hrid & Hls). rewrite Hkb in Hr'.
      replace r' with r in * by (cbn in Hk; congruence). rewrite <- Hls.
      destruct (cooling now (r_last_sent r)) eqn:Ec; [done|]. by destruct Hnr.
    + exists new. split; [done|]. split; [lia|]. split; [done|].
      eapply Forall_impl; [exact H6|]. by intros e [_ He].
Qed.

Lemma honest_device bs : honest (device bs).
Proof. intros off n r Hn [= <-]. unfold len, ztake. rewrite length_take. lia. Qed.

(** One block changed since it was sent, one acknowledged. *)
Definition demo_round : cstate :=
  demo_cs [((1, 0), mk_row 3 9 0 0 0 (make_remote_id demo_cfg));
           ((1, 4096), mk_row 3 9 1 0 0 (make_remote_id demo_cfg))] [].

Definition demo_readers : list reader_entry := [mk_rentry (device [1; 2; 3]) None 1 0 false 1].

Lemma incremental_round_correct_witness :
  let r := do_incremental_round (H := stored_zstd) alloc_always always (λ _, 200000) midnight always demo_cfg
             (λ _, 0) demo_readers demo_readers 2 demo_round in
  r.1 = 1 ∧ t_block (cs_db r.2) !! (1, 4096) = t_block (cs_db demo_round) !! (1, 4096) ∧
  ∃ e, fifo (cs_queue r.2) = [e] ∧ option_map r_version (t_block (cs_db r.2) !! ekey e) = Some 2.
Proof.
  cbv zeta. destruct (do_incremental_round _ _ _ _ _ _ _ _ _ _ _) as [n s'] eqn:E.
  assert (Hn : n = 1) by (apply (f_equal fst) in E; vm_compute in E; congruence). subst n.
  destruct (incremental_round_correct (H := stored_zstd) alloc_always always (λ _, 200000) midnight always demo_cfg
              (λ _, 0) demo_readers demo_readers 2 demo_round 1 s') as (_ & Hk & new & Hf & Hl & _ & HF).
  - reflexivity.
  - reflexivity.
  - constructor; [exact (proj1 (queue_init_ok true))|vm_compute; split; congruence|reflexivity].
  - constructor; [apply honest_device|constructor].
  - apply map_Forall_insert_2; [vm_compute; split; congruence|].
    apply map_Forall_insert_2; [vm_compute; split; congruence|apply map_Forall_empty].
  - exact E.
  - split; [reflexivity|]. split.
    { apply (Hk (1, 4096) (mk_row 3 9 1 0 0 (make_remote_id demo_cfg))); [reflexivity|].
      intros [[=] _]. }
    change (fifo (cs_queue demo_round)) with (@nil queue_entry) in Hf. cbn [app] in Hf.
    destruct new as [|e [|e2 new]]; [discriminate Hl| |].
    + exists e. split; [exact Hf|]. inversion_clear HF as [|x l Hx _].
      destruct Hx as (r & Hr & _ & _ & Hv). cbn [fst snd]. rewrite Hr. cbn. by rewrite Hv.
    + unfold len in Hl. cbn in Hl. exfalso. clear - Hl. lia.
Defined.

(** [unchanged_block_is_confirmed]: a block whose content hashes as recorded
    is marked acknowledged (and verified at the current version) by the round
    itself: the queue, the connections and what the server has answered play no
    part, so that a block whose transmission was lost is confirmed all the same. *)
Theorem unchanged_block_is_confirmed `{Zstd} realloc_ok malloc_ok clock wall running cfg s devno
    disk_offset old now ver data r :
  db_events (cs_db s) = [] → t_block (cs_db s) !! (devno, s64 disk_offset) = Some r →
  hash_block data (Z.land disk_offset 0xFFFFFFFF) = old →
  ∃ db, inc_block realloc_ok malloc_ok clock wall running cfg s devno disk_offset old now ver data
          = (Some 0, set_db s db) ∧
        t_block db !! (devno, s64 disk_offset) = Some (stable_row now ver r) ∧
        r_ack (stable_row now ver r) = 1 ∧
        ∀ k, k ≠ (devno, s64 disk_offset) → t_block db !! k = t_block (cs_db s) !! k.
Proof.
  intros He Hr <-. unfold inc_block. rewrite Z.eqb_refl. rewrite mark_stable_db by done.
  eexists. split; [done|]. cbn [t_block with_blocks]. rewrite lookup_alter_eq, Hr. split; [done|].
  split; [done|]. intros k Hk. by rewrite lookup_alter_ne.
Qed.

Lemma unchanged_block_is_confirmed_witness :
  let h := hash_block [1; 2; 3] 0 in
  let s := demo_cs [((1, 0), mk_row 3 (s64 h) 0 0 0 [7])] [] in
  ∃ db, inc_block (H := stored_zstd) alloc_always always midnight midnight always demo_cfg s 1 0 h 5 2 [1; 2; 3]
          = (Some 0, set_db s db) ∧
        t_block db !! (1, 0) = Some (mk_row 3 (s64 h) 1 5 2 [7]).
Proof.
  intros h s.
  destruct (unchanged_block_is_confirmed (H := stored_zstd) alloc_always always midnight midnight always demo_cfg
              s 1 0 h 5 2 [1; 2; 3] (mk_row 3 (s64 h) 0 0 0 [7])) as (db & H1 & H2 & _);
    [reflexivity|vm_compute; reflexivity|change (Z.land 0 0xFFFFFFFF) with 0; reflexivity|].
  exists db. split; [exact H1|]. change (s64 0) with 0 in H2. exact H2.
Defined.

(** [should_finish_correct]: [should_finish] ends the rounds exactly when no
    row of this server older than the current version is unacknowledged, or the
    limit of rounds is reached, or this is the third round in a row without a
    change and the number of such rows is at most 5% of all rows (or 512).  The
    unacknowledged rows of the current version, those just sent again, do not
    count. *)
Theorem should_finish_correct cfg requeued ver s :
  db_events (cs_db s) = [] → 0 < ver → Z.of_nat (size (t_block (cs_db s))) < 2 ^ 31 →
  let t := t_block (cs_db s) in
  let old := Z.of_nat (size (filter (λ kr, unacked (make_remote_id cfg) kr ∧ r_version kr.2 < ver) t)) in
  (should_finish cfg requeued ver s).1 = 1 ↔
  old = 0 ∨ MAX_INCREMENTAL_ROUNDS ≤ cs_inc_round s ∨
  (requeued = 0 ∧ CONVERGENCE_ZERO_ROUNDS ≤ cs_zero_change_rounds s + 1 ∧
   old ≤ Z.max 512 (Z.of_nat (size t) / 20)).
Proof.
  intros He Hv Hsz t old. unfold should_finish. replace (0 <? ver) with true by lia.
  unfold sqlite_count_unacked_v, sqlite_count_blocks. rewrite !db_query_ok by done.
  change (rid_or (cs_db s) (Some (make_remote_id cfg))) with (make_remote_id cfg). fold t in Hsz |- *. fold old.
  rewrite (map_filter_id _ t) by (intros; lia).
  assert (Hold : 0 ≤ old ≤ Z.of_nat (size t)).
  { unfold old. split; [lia|]. apply Nat2Z.inj_le, map_subseteq_size, map_filter_subseteq. }
  change (2 ^ 31) with 2147483648 in Hsz.
  assert (Hid : ∀ z, 0 ≤ z ≤ Z.of_nat (size t) → s32 z = z).
  { intros z Hz. apply (wrapS_id 32); [lia|]. unfold in_s. change (2 ^ (32 - 1)) with 2147483648. lia. }
  rewrite !Hid by lia. rewrite Z.quot_div_nonneg by lia.
  destruct (Z.eqb_spec old 0) as [->|Hne]; [cbn; tauto|].
  generalize (Z.of_nat (size t) / 20). intros q.
  replace (if q <? 512 then 512 else q) with (Z.max 512 q) by (destruct (Z.ltb_spec q 512); lia).
  unfold set_db, set_zero_rounds. destruct (Z.eqb_spec requeued 0); cbn [andb cs_zero_change_rounds cs_inc_round];
    repeat case_test; cbn [fst]; lia.
Qed.

(** A block of the current version is unacknowledged; the rounds end. *)
Lemma should_finish_correct_witness :
  let s := demo_cs [((1, 0), mk_row 3 9 0 0 2 (make_remote_id demo_cfg))] [] in
  (should_finish demo_cfg 1 2 s).1 = 1 ∧ (sqlite_count_unacked (cs_db s) (Some (make_remote_id demo_cfg))).1 = 1.
Proof.
  intros s. split; [|reflexivity].
  apply (should_finish_correct demo_cfg 1 2 s); [reflexivity|lia|vm_compute; reflexivity|]. left. reflexivity.
Defined.
