(* ===== verification/Migrate.v ===== *)
(** * The migration run (client/main.c, [do_migrate])

    The run of a migration from the opened tracker to the last control frame:
    matching the snapshots with the volumes, opening the readers, the full
    transfer with its timers, the partition tables, the final drain, the
    incremental rounds.  What VSS answers is an argument, [open_reader] is
    [block_reader_open] by path.  The state is the engine's with the timers and
    the counters of the run.  The unbounded loops take a fuel and answer [None]
    when it has run out. *)

From stdpp Require Import strings.
From S2P Require Import Prelude Protocol Net Zstd Wire Queue Timer Pool Tracker BlockIO Json Volume Vss Client Incremental.

(** ** Snapshots *)

(** [v->name[0] && v->name[1] == ':'] *)
Definition has_letter (v : volume_info) : bool :=
  match vi_name v with
  | _ :: c :: _ => c =? CH_COLON
  | _ => false
  end.

(** The indices of the first 16 volumes with a drive letter. *)
Fixpoint letter_volumes (i : nat) (vols : list volume_info) : list nat :=
  match vols with
  | [] => []
  | v :: r => if has_letter v then i :: letter_volumes (S i) r else letter_volumes (S i) r
  end.

Definition vss_vol_indices (vols : list volume_info) : list nat :=
  take (Z.to_nat VSS_MAX_VOLUMES) (letter_volumes 0 vols).

(** ["C:\"] without its backslash. *)
Definition strip_backslash (s : list Z) : list Z :=
  match last s with
  | Some c => if c =? CH_BACKSLASH then take (length s - 1) s else s
  | None => s
  end.

Definition with_vss (v : volume_info) (path : list Z) : volume_info :=
  mk_vol (vi_devno v) (vi_disk_path v) (ztake (VSS_PATH_MAX - 1) path) (vi_name v)
    (vi_partition_offset v) (vi_total_bytes v) (vi_total_sectors v) (vi_block_count v) (vi_writable v)
    true (vi_part_index v).

(** The first listed volume of that name gets the snapshot's path. *)
Fixpoint assign_snapshot (idx : list nat) (orig path : list Z) (vols : list volume_info) : list volume_info :=
  match idx with
  | [] => vols
  | i :: r =>
      match vols !! i with
      | Some v => if bool_decide (vi_name v = orig) then <[i := with_vss v path]> vols
                  else assign_snapshot r orig path vols
      | None => assign_snapshot r orig path vols
      end
  end.

Definition match_snapshots (snaps : list vss_snapshot) (vols : list volume_info) : list volume_info :=
  let idx := vss_vol_indices vols in
  foldl (λ vols sn,
    if sn_valid sn then assign_snapshot idx (strip_backslash (sn_original_volume sn)) (sn_snapshot_path sn) vols
    else vols) vols snaps.

(** ** Readers *)

Section Readers.
Context (open_reader : list Z → option block_reader).
Context (tail_send : bool) (skip_disks : list Z).

(** A volume's reader, and whether it reads the snapshot. *)
Definition open_volume (v : volume_info) : option (block_reader * bool) :=
  if vi_has_vss v then
    match open_reader (vi_vss_path v) with
    | Some r => Some (r, true)
    | None => (λ r, (r, false)) <$> open_reader (vi_disk_path v)
    end
  else (λ r, (r, false)) <$> open_reader (vi_disk_path v).

Definition reader_of (v : volume_info) (r : block_reader) (use_vss : bool) : reader_entry :=
  let live := if tail_send then Some (default r (open_reader (vi_disk_path v))) else None in
  mk_rentry r live (vi_devno v) (vi_partition_offset v) use_vss (vi_block_count v).

(** The volume's own count is lowered to the reader's; the entry's is not. *)
Definition clamp_volume (v : volume_info) (r : block_reader) : volume_info :=
  let reader_blocks := block_reader_block_count r BLOCK_SIZE in
  if reader_blocks <? vi_block_count v then
    mk_vol (vi_devno v) (vi_disk_path v) (vi_vss_path v) (vi_name v) (vi_partition_offset v)
      (vi_total_bytes v) (vi_total_sectors v) reader_blocks (vi_writable v) (vi_has_vss v) (vi_part_index v)
  else v.

(** The entries, and the volumes as the loop leaves them. *)
Fixpoint open_readers (vols : list volume_info) : list reader_entry * list volume_info :=
  match vols with
  | [] => ([], [])
  | v :: rest =>
      let '(es, vs) := open_readers rest in
      if bool_decide (vi_devno v ∈ skip_disks) then (es, v :: vs)
      else
        match open_volume v with
        | Some (r, use_vss) => (reader_of v r use_vss :: es, clamp_volume v r :: vs)
        | None => (es, v :: vs)
        end
  end.

End Readers.

(** [n_blocks] of a partition, clamped to the end of the reader. *)
Definition n_blocks (e : reader_entry) : Z :=
  let disk_end := block_reader_size (re_reader e) in
  if re_partition_offset e <? disk_end then
    let max_blocks := (disk_end - re_partition_offset e) / BLOCK_SIZE in
    if max_blocks <? re_block_count e then max_blocks else re_block_count e
  else 0.

(** ** The run *)

Record mstate := mk_ms {
  ms_c : cstate;
  ms_timer : timer_mgr_t;
  ms_sent_blocks : Z;
  ms_total_bytes : Z;
  ms_total_blocks : Z;
}.

Definition with_c (m : mstate) (c : cstate) : mstate :=
  mk_ms c (ms_timer m) (ms_sent_blocks m) (ms_total_bytes m) (ms_total_blocks m).

Definition with_timer (m : mstate) (t : timer_mgr_t) : mstate :=
  mk_ms (ms_c m) t (ms_sent_blocks m) (ms_total_bytes m) (ms_total_blocks m).

(** [sent_blocks++; total_bytes += BLOCK_SIZE] *)
Definition count_sent (m : mstate) : mstate :=
  mk_ms (ms_c m) (ms_timer m) (u64 (ms_sent_blocks m + 1)) (u64 (ms_total_bytes m + BLOCK_SIZE))
    (ms_total_blocks m).

Definition add_total (m : mstate) (n : Z) : mstate :=
  mk_ms (ms_c m) (ms_timer m) (ms_sent_blocks m) (ms_total_bytes m) (u64 (ms_total_blocks m + n)).

Section Run.
Context `{Zstd} (realloc_ok : Z → bool) (malloc_ok : nat → bool).
Context (clock wall : nat → Z) (running : nat → bool).
Context (cfg : config) (rand_at : nat → nat → Z).
Context (open_reader : list Z → option block_reader).

(** [print_full_progress] asks the tracker for every partition's count. *)
Definition print_full_progress (readers : list reader_entry) (c : cstate) : cstate :=
  foldl (λ c e, set_db c (sqlite_count_blocks (cs_db c) (re_devno e) 1).2) c readers.

(** [while (queue_should_backpressure(&ctx->queue) && g_running)]: every turn
    takes at least one entry. *)
Fixpoint bp_wait (fuel : nat) (c : cstate) : cstate :=
  match fuel with
  | O => c
  | S fuel' =>
      if negb (queue_should_backpressure (cs_queue c) =? 0) then
        let '(run, c) := is_running running c in
        if run then bp_wait fuel' (drain_queue clock wall cfg (process_ack cfg c)) else c
      else c
  end.

Definition backpressure_wait (c : cstate) : cstate := bp_wait (Z.to_nat (q_count (cs_queue c))) c.

(** The timer loop: the events that are due, one after the other, until none is
    or [stop] holds. *)
Fixpoint timer_loop (fuel : nat) (handle : timer_event_t → mstate → option mstate) (stop : cstate → bool)
    (now : Z) (m : mstate) : option mstate :=
  match fuel with
  | O => None
  | S fuel' =>
      match timer_check (ms_timer m) now with
      | TIMER_NONE => Some m
      | ev =>
          m ← handle ev m;
          let '(t, c) := timer_now clock (ms_c m) in
          let m := with_timer (with_c m c) (timer_reset t (ms_timer m) ev) in
          if stop (ms_c m) then Some m
          else
            let '(now, c) := timer_now clock (ms_c m) in
            timer_loop fuel' handle stop now (with_c m c)
      end
  end.

(** The events during the full transfer. *)
Definition full_event (fuel : nat) (readers : list reader_entry) (ev : timer_event_t) (m : mstate)
    : option mstate :=
  let c := ms_c m in
  match ev with
  | TIMER_INCREMENTAL =>
      if cf_tail_send cfg then
        let c := set_inc c (cs_inc_round c + 1) (cs_inc_version c) in
        let '(_, c) := do_incremental_round realloc_ok malloc_ok clock wall running cfg
                         (rand_at (cs_tick c)) readers readers 0 c in
        Some (with_c m c)
      else Some m
  | TIMER_RETRANSMIT =>
      Some (with_c m (do_retransmit realloc_ok malloc_ok clock wall running cfg c readers))
  | TIMER_RECONNECT =>
      if cf_dry_run cfg then Some m else with_c m <$> do_reconnect wall fuel c
  | TIMER_ACTION => Some (with_c m (print_full_progress readers c))
  | TIMER_NONE => Some m
  end.

(** Sending, then [while (flush_one(ctx) > 0) { } process_ack(ctx);] *)
Definition send_and_flush (m : mstate) (reader : block_reader) (devno disk_offset reader_offset : Z) : mstate :=
  let '(rc, c) := send_block realloc_ok malloc_ok clock wall running cfg (ms_c m) reader
                    devno disk_offset reader_offset in
  let m := with_c m c in
  let m := if rc =? 0 then count_sent m else m in
  with_c m (process_ack cfg (drain_queue clock wall cfg (ms_c m))).

(** The absolute offset of a block, and where its reader finds it. *)
Definition block_offsets (e : reader_entry) (blk : Z) : Z * Z :=
  let disk_offset := u64 (re_partition_offset e + blk * BLOCK_SIZE) in
  (disk_offset, if re_is_vss e then blk * BLOCK_SIZE else disk_offset).

(** [for (uint64_t blk = 0; blk < n_blocks && g_running; blk++)], from [blk],
    [n] blocks to go. *)
Fixpoint block_loop (fuel : nat) (readers : list reader_entry) (e : reader_entry) (n : nat) (blk : Z)
    (m : mstate) : option mstate :=
  match n with
  | O => Some m
  | S n' =>
      let '(run, c) := is_running running (ms_c m) in
      let m := with_c m c in
      if negb run then Some m
      else
        let '(disk_offset, reader_offset) := block_offsets e blk in
        let m := with_c m (backpressure_wait (ms_c m)) in
        let m := send_and_flush m (re_reader e) (re_devno e) disk_offset reader_offset in
        let '(now, c) := timer_now clock (ms_c m) in
        m ← timer_loop fuel (full_event fuel readers) (λ _, false) now (with_c m c);
        block_loop fuel readers e n' (blk + 1) m
  end.

(** [for (int d = 0; d < reader_count && g_running; d++)] *)
Fixpoint full_transfer (fuel : nat) (readers todo : list reader_entry) (m : mstate) : option mstate :=
  match todo with
  | [] => Some m
  | e :: r =>
      let '(run, c) := is_running running (ms_c m) in
      let m := with_c m c in
      if negb run then Some m
      else
        m ← block_loop fuel readers e (Z.to_nat (n_blocks e)) 0 (add_total m (n_blocks e));
        full_transfer fuel readers r m
  end.

(** ** Partition tables *)

Definition physical_drive (devno : Z) : list Z := string_bytes "\\.\PhysicalDrive" ++ print_int devno.

(** The last two whole megabytes: [for (int t = 2; t >= 1 && g_running; t--)]. *)
Fixpoint gpt_footer (t : nat) (disk : block_reader) (devno aligned_end : Z) (m : mstate) : mstate :=
  match t with
  | O => m
  | S t' =>
      let '(run, c) := is_running running (ms_c m) in
      let m := with_c m c in
      if negb run then m
      else
        let off := aligned_end - Z.of_nat t * BLOCK_SIZE in
        gpt_footer t' disk devno aligned_end (send_and_flush m disk devno off off)
  end.

Definition gpt_disk (disk : block_reader) (devno : Z) (m : mstate) : mstate :=
  let aligned_end := block_reader_size disk / BLOCK_SIZE * BLOCK_SIZE in
  let m := send_and_flush m disk devno 0 0 in
  if 2 * BLOCK_SIZE <=? aligned_end then gpt_footer 2 disk devno aligned_end m else m.

(** Once for every disk; [seen] are the disks done. *)
Fixpoint gpt_backup (seen : list Z) (todo : list reader_entry) (m : mstate) : mstate :=
  match todo with
  | [] => m
  | e :: r =>
      let '(run, c) := is_running running (ms_c m) in
      let m := with_c m c in
      if negb run then m
      else if bool_decide (re_devno e ∈ seen) then gpt_backup seen r m
      else
        let disk := if re_is_vss e then open_reader (physical_drive (re_devno e)) else Some (re_reader e) in
        match disk with
        | None => gpt_backup (re_devno e :: seen) r m
        | Some disk => gpt_backup (re_devno e :: seen) r (gpt_disk disk (re_devno e) m)
        end
  end.

(** ** Draining *)

(** [while (queue_count(&ctx->queue) > 0 && drain_attempts < 300)] *)
Fixpoint final_drain (attempts : nat) (c : cstate) : cstate :=
  match attempts with
  | O => c
  | S attempts' =>
      if 0 <? queue_count (cs_queue c) then
        final_drain attempts' (process_ack cfg (drain_queue clock wall cfg c))
      else c
  end.

(** ** The incremental rounds *)

Definition now_sec_ms (c : cstate) : Z * cstate :=
  let '(t, c) := time_now wall c in (t * 1000, c).

(** A version begins. *)
Definition begin_version (version : Z) (c : cstate) : cstate :=
  let '(t, c) := now_sec_ms c in
  set_db c (sqlite_version_start (cs_db c) version (Some (make_remote_id cfg)) t).2.

Definition inc_event_round (readers : list reader_entry) (m : mstate) : mstate :=
  let c := ms_c m in
  let rid := Some (make_remote_id cfg) in
  let c := set_inc c (cs_inc_round c + 1) (cs_inc_version c) in
  let '(requeued, c) := do_incremental_round realloc_ok malloc_ok clock wall running cfg
                          (rand_at (cs_tick c)) readers readers (cs_inc_version c) c in
  let c := set_db c (sqlite_count_unacked_v (cs_db c) rid (cs_inc_version c + 1)).2 in
  let '(t, c) := now_sec_ms c in
  let c := set_db c (sqlite_version_end (cs_db c) (cs_inc_version c) rid t 0 requeued).2 in
  let '(fin, c) := should_finish cfg requeued (cs_inc_version c) c in
  if negb (fin =? 0) then with_c m (timer_cb_real clock wall running cfg c).2
  else
    let c := set_inc c (cs_inc_round c) (cs_inc_version c + 1) in
    with_c m (begin_version (cs_inc_version c) c).

Definition inc_event (fuel : nat) (readers : list reader_entry) (ev : timer_event_t) (m : mstate)
    : option mstate :=
  let c := ms_c m in
  match ev with
  | TIMER_INCREMENTAL => Some (inc_event_round readers m)
  | TIMER_RETRANSMIT =>
      Some (with_c m (do_retransmit realloc_ok malloc_ok clock wall running cfg c readers))
  | TIMER_RECONNECT =>
      if cf_dry_run cfg then Some m else with_c m <$> do_reconnect wall fuel c
  | TIMER_ACTION =>
      let c := print_full_progress readers c in
      Some (with_c m (set_db c (sqlite_count_unacked (cs_db c) (Some (make_remote_id cfg))).2))
  | TIMER_NONE => Some m
  end.

Definition all_done (c : cstate) : bool := negb (cs_all_done c =? 0).

(** [while (g_running && !ctx->all_done)], at most [turns] turns. *)
Fixpoint inc_loop (turns fuel : nat) (readers : list reader_entry) (m : mstate) : option mstate :=
  match turns with
  | O => None
  | S turns' =>
      let '(run, c) := is_running running (ms_c m) in
      let m := with_c m c in
      if negb run || all_done (ms_c m) then Some m
      else
        let c := process_ack cfg (drain_queue clock wall cfg (ms_c m)) in
        c ← do_reconnect wall fuel c;
        let '(now, c) := timer_now clock c in
        m ← timer_loop fuel (inc_event fuel readers) all_done now (with_c m c);
        if all_done (ms_c m) then Some m else inc_loop turns' fuel readers m
  end.

Definition start_incremental (m : mstate) : mstate :=
  let c := set_zero_rounds (ms_c m) 0 in
  let '(v, db) := sqlite_get_next_version (cs_db c) (Some (make_remote_id cfg)) in
  let c := set_inc (set_db c db) (cs_inc_round c) (if v <? 1 then 1 else v) in
  with_c m (begin_version (cs_inc_version c) c).

(** ** The end *)

(** A control frame on some connection; the flag is false when there is none. *)
Definition send_control (str : list Z) (n : Z) (touch : bool) (c : cstate) : bool * cstate :=
  let '(now, c) := time_now wall c in
  match pool_acquire now (cs_pool c) with
  | (Some i, p) =>
      let fd := c_fd (conn_at p i) in
      let '(_, k) := wire_send_control (csock c fd) str n in
      let c := set_sock c fd k in
      if touch then
        let '(now, c) := time_now wall c in
        (true, set_pool c (pool_release (pool_touch now p i) i))
      else (true, set_pool c (pool_release p i))
  | (None, p) => (false, set_pool c p)
  end.

(** Without incremental rounds: the end is announced and 300 polls follow. *)
Definition finish_full (m : mstate) : mstate :=
  if cf_dry_run cfg then m
  else
    let '(sent, c) := send_control CTL_END_INCREMENTAL CTL_END_INCREMENTAL_LEN true (ms_c m) in
    if sent then with_c m (Nat.iter 300 (process_ack cfg) c) else with_c m c.

(** ** do_migrate *)

(** From the readers on.  [fuel] bounds every unbounded loop. *)
Definition transfer (fuel : nat) (readers : list reader_entry) (m : mstate) : option mstate :=
  let m := if cf_tail_send cfg && negb (cf_dry_run cfg)
           then with_c m (send_control CTL_INCREMENTAL CTL_INCREMENTAL_LEN false (ms_c m)).2 else m in
  let m := with_c m (print_full_progress readers (ms_c m)) in
  let m := mk_ms (ms_c m) (ms_timer m) 0 0 0 in
  m ← full_transfer fuel readers readers m;
  let m := gpt_backup [] readers m in
  let m := with_c m (final_drain 300 (ms_c m)) in
  if cf_tail_send cfg then inc_loop fuel fuel readers (start_incremental m)
  else Some (finish_full m).

(** What precedes: the tracker ([None]: it cannot be opened), the block buffer,
    VSS ([vss_ok]: it could be initialised; [snaps]: the snapshots, [None] or
    an empty list for a failure). *)
Definition do_migrate (fuel : nat) (db : option sqlite_db) (buf_ok vss_ok : bool)
    (snaps : option (list vss_snapshot)) (skip_disks : list Z) (vols : list volume_info) (m : mstate)
    : option (Z * mstate) :=
  match db with
  | None => Some (-1, m)
  | Some db =>
      let m := with_c m (set_db (ms_c m) (sqlite_set_remote_id db (make_remote_id cfg))) in
      if negb buf_ok then Some (-1, m)
      else if negb (vss_ok && bool_decide (vss_vol_indices vols ≠ [])) then Some (-1, m)
      else
        match snaps with
        | None | Some [] => Some (-1, m)
        | Some snaps =>
            match open_readers open_reader (cf_tail_send cfg) skip_disks (match_snapshots snaps vols) with
            | ([], _) => Some (-1, m)
            | (readers, _) => (λ m, (0, m)) <$> transfer fuel readers m
            end
        end
  end.

End Run.

(** ** Lemmas *)

Lemma n_blocks_range e :
  0 ≤ re_partition_offset e → 0 ≤ re_block_count e →
  let n := n_blocks e in
  let size := block_reader_size (re_reader e) in
  0 ≤ n ≤ re_block_count e ∧ n * BLOCK_SIZE ≤ Z.max 0 (size - re_partition_offset e) ∧
  (n = re_block_count e ∨ size - re_partition_offset e < (n + 1) * BLOCK_SIZE).
Proof.
  intros Hb Hc. cbv zeta. unfold n_blocks. set (size := block_reader_size (re_reader e)).
  unfold BLOCK_SIZE. destruct (Z.ltb_spec (re_partition_offset e) size) as [Hlt|Hge]; [|lia].
  pose proof (Z.div_mod (size - re_partition_offset e) 0x100000 ltac:(lia)) as Hdm.
  pose proof (Z.mod_pos_bound (size - re_partition_offset e) 0x100000 ltac:(lia)) as Hm.
  set (q := (size - re_partition_offset e) / 0x100000) in *.
  destruct (Z.ltb_spec q (re_block_count e)); lia.
Qed.

Lemma open_readers_elem op tail skip vols e :
  e ∈ (open_readers op tail skip vols).1 →
  ∃ v r u, v ∈ vols ∧ (vi_devno v ∉ skip) ∧ open_volume op v = Some (r, u) ∧ e = reader_of op tail v r u.
Proof.
  induction vols as [|v vols IH]; cbn [open_readers]; intros He; [by apply elem_of_nil in He|].
  destruct (open_readers op tail skip vols) as [es vs]. cbn [fst] in *.
  assert (Hrest : e ∈ es → ∃ v' r u, v' ∈ v :: vols ∧ (vi_devno v' ∉ skip) ∧
                   open_volume op v' = Some (r, u) ∧ e = reader_of op tail v' r u).
  { intros Hin. destruct (IH Hin) as (v' & r & u & Hv & Hx). exists v', r, u. split; [by right|done]. }
  case_bool_decide as Hs; [by apply Hrest|].
  destruct (open_volume op v) as [[r u]|] eqn:Eo; [|by apply Hrest].
  cbn [fst] in He. apply elem_of_cons in He as [->|He]; [|by apply Hrest].
  exists v, r, u. split; [left|done].
Qed.

Section RunLemmas.
Context `{Zstd} (clock wall : nat → Z) (running : nat → bool) (cfg : config).

(** A drain and a round of acknowledgements. *)
Lemma drain_ack_queue c :
  queue_ok (cs_queue c) →
  let c' := process_ack cfg (drain_queue clock wall cfg c) in
  queue_ok (cs_queue c') ∧ q_count (cs_queue c') ≤ Z.max 0 (q_count (cs_queue c) - 1).
Proof.
  intros Hq. cbv zeta.
  destruct (drain_queue_ok clock wall cfg (S (Z.to_nat (q_count (cs_queue c)))) c Hq) as (H1 & _ & H2).
  fold (drain_queue clock wall cfg c) in *.
  destruct (process_ack_queue cfg (drain_queue clock wall cfg c) H1) as (H3 & H4 & _).
  split; [done|]. rewrite H4. exact H2.
Qed.

Lemma final_drain_ok n : ∀ c,
  queue_ok (cs_queue c) → q_count (cs_queue c) ≤ Z.of_nat n →
  queue_ok (cs_queue (final_drain clock wall cfg n c)) ∧
  q_count (cs_queue (final_drain clock wall cfg n c)) = 0.
Proof.
  induction n as [|n IH]; intros c Hq Hn; cbn [final_drain]; pose proof Hq as [_ _ Hc _ _]; [split; [done|lia]|].
  unfold queue_count. case_test; [|split; [done|lia]].
  destruct (drain_ack_queue c Hq) as [H1 H2]. apply IH; [done|lia].
Qed.

Lemma bp_wait_ok n : ∀ c,
  queue_ok (cs_queue c) → q_count (cs_queue c) ≤ Z.of_nat n →
  let c' := bp_wait clock wall running cfg n c in
  queue_ok (cs_queue c') ∧ (q_count (cs_queue c') < BACKPRESSURE_QUEUE_DEPTH ∨ ∃ t, running t = false).
Proof.
  unfold BACKPRESSURE_QUEUE_DEPTH.
  induction n as [|n IH]; intros c Hq Hn; cbn [bp_wait]; pose proof Hq as [_ _ Hc _ _].
  { split; [done|]. left. lia. }
  unfold queue_should_backpressure, BACKPRESSURE_QUEUE_DEPTH.
  destruct (Z.leb_spec 40 (q_count (cs_queue c))); cbn [Z.eqb negb]; [|split; [done|]; left; lia].
  unfold is_running. destruct (running (cs_tick c)) eqn:Er; [|split; [done|]; right; by eexists].
  destruct (process_ack_queue cfg (tick c) Hq) as (H1 & H2 & _).
  destruct (drain_queue_ok clock wall cfg (S (Z.to_nat (q_count (cs_queue (process_ack cfg (tick c))))))
              (process_ack cfg (tick c)) H1) as (H3 & _ & H4).
  fold (drain_queue clock wall cfg (process_ack cfg (tick c))) in *. cbn [Nat.eqb] in H4.
  apply IH; [done|]. rewrite H2 in H4. cbn in H4 |- *. lia.
Qed.

End RunLemmas.

(** ** Properties *)

(** C26 (full_transfer_in_bounds): the blocks the full transfer asks of a reader
    of the physical disk.  There are at most as many as the partition table says,
    each lies entirely on the disk, is read where it is stored, and the offset
    sent with it is that of its bytes; there are as many as fit: what is left out
    is at most a last incomplete megabyte. *)
Theorem full_transfer_in_bounds e :
  re_is_vss e = false → 0 ≤ re_partition_offset e → 0 ≤ re_block_count e →
  let size := block_reader_size (re_reader e) in
  size < 2 ^ 64 →
  0 ≤ n_blocks e ≤ re_block_count e ∧
  (∀ blk, 0 ≤ blk < n_blocks e →
     let '(disk_offset, reader_offset) := block_offsets e blk in
     disk_offset = re_partition_offset e + blk * BLOCK_SIZE ∧ reader_offset = disk_offset ∧
     disk_offset + BLOCK_SIZE ≤ size) ∧
  (n_blocks e < re_block_count e → size - (re_partition_offset e + n_blocks e * BLOCK_SIZE) < BLOCK_SIZE).
Proof.
  intros Hv Hb Hc size Hs. destruct (n_blocks_range e Hb Hc) as (H1 & H2 & H3). fold size in H2, H3.
  split; [done|]. unfold BLOCK_SIZE in *. split; [|lia].
  intros blk Hblk. unfold block_offsets. rewrite Hv. unfold BLOCK_SIZE.
  assert (Hu : u64 (re_partition_offset e + blk * 0x100000) = re_partition_offset e + blk * 0x100000)
    by (apply (wrapU_id 64); unfold in_u; lia).
  rewrite Hu. lia.
Qed.

(** A partition of one and a half megabytes that begins at 4096. *)
Lemma full_transfer_in_bounds_witness :
  let e := mk_rentry (mk_reader (4096 + 0x180000) (λ _ _, None)) None 0 4096 false 2 in
  n_blocks e = 1 ∧ let '(d, r) := block_offsets e 0 in d = 4096 ∧ r = 4096 ∧ d + BLOCK_SIZE ≤ 4096 + 0x180000.
Proof.
  intros e. split; [reflexivity|].
  destruct (full_transfer_in_bounds e eq_refl ltac:(cbn; lia) ltac:(cbn; lia) ltac:(vm_compute; reflexivity))
    as (_ & Hb & _).
  specialize (Hb 0 ltac:(vm_compute; split; congruence)).
  destruct (block_offsets e 0) as [d r]. destruct Hb as (H1 & H2 & H3).
  split; [exact H1|]. split; [by rewrite H2, H1|exact H3].
Defined.

(** C36 (snapshot_tail_not_sent): a snapshot is a volume of its own, read from its
    own beginning, but the transfer subtracts the partition's offset on the disk
    from the snapshot's size to bound the number of blocks.  The blocks it asks for
    end [re_partition_offset] bytes before the end of the snapshot: that many
    bytes at the end of every snapshot partition are not transferred, and a
    partition that begins at or after its own size is not transferred at all. *)
Theorem snapshot_tail_not_sent e :
  re_is_vss e = true → 0 < re_partition_offset e →
  re_block_count e = volume_block_count (block_reader_size (re_reader e)) BLOCK_SIZE →
  let size := block_reader_size (re_reader e) in
  0 < size < 2 ^ 63 → re_partition_offset e < 2 ^ 63 →
  (∀ blk, 0 ≤ blk < n_blocks e →
     (block_offsets e blk).2 = blk * BLOCK_SIZE ∧
     (block_offsets e blk).2 + BLOCK_SIZE ≤ size - re_partition_offset e) ∧
  n_blocks e < re_block_count e ∧ (size ≤ re_partition_offset e → n_blocks e = 0).
Proof.
  intros Hv Hb Hcnt size Hs Hb2.
  destruct (ceil_blocks size BLOCK_SIZE) as (Hc0 & Hc1 & _ & _); [lia|done|].
  fold size in Hcnt. rewrite <- Hcnt in Hc0, Hc1.
  destruct (n_blocks_range e) as (H1 & H2 & H3); [lia|done|]. fold size in H2, H3.
  unfold BLOCK_SIZE in *. split; [|split; [lia|lia]].
  intros blk Hblk. unfold block_offsets. rewrite Hv. unfold BLOCK_SIZE. cbn [snd]. lia.
Qed.

(** Two partitions of four megabytes, one after the other: of the first the last
    megabyte is lost, of the second everything. *)
Lemma snapshot_tail_not_sent_witness :
  let r := mk_reader 0x400000 (λ _ _, None) in
  let c := mk_rentry r None 0 0x100000 true 4 in
  let d := mk_rentry r None 0 0x500000 true 4 in
  n_blocks c = 3 ∧ n_blocks c < 4 ∧ n_blocks d = 0.
Proof.
  intros r c d. split; [reflexivity|]. split.
  - apply (snapshot_tail_not_sent c); [reflexivity|cbn; lia|reflexivity|cbn; lia|cbn; lia].
  - apply (snapshot_tail_not_sent d); [reflexivity|cbn; lia|reflexivity|cbn; lia|cbn; lia|cbn; lia].
Defined.

(** [queue_drained]: the loops that empty the queue end with what they are for.
    The backpressure wait returns with the queue below the backpressure depth (or
    because the program is being stopped); the 300 attempts of the final drain are
    enough to empty the queue, whatever the connections do. *)
Theorem queue_drained `{Zstd} clock wall running cfg c :
  queue_ok (cs_queue c) →
  (let c' := backpressure_wait clock wall running cfg c in
   queue_ok (cs_queue c') ∧ (q_count (cs_queue c') < BACKPRESSURE_QUEUE_DEPTH ∨ ∃ t, running t = false)) ∧
  (let c' := final_drain clock wall cfg 300 c in
   queue_ok (cs_queue c') ∧ fifo (cs_queue c') = []).
Proof.
  intros Hq. pose proof Hq as [_ _ Hc _ _]. unfold QUEUE_CAPACITY in Hc. split.
  - apply bp_wait_ok; [done|lia].
  - destruct (final_drain_ok clock wall cfg 300 c Hq) as [H1 H2]; [lia|]. split; [done|].
    unfold fifo. by rewrite H2.
Qed.

(** No connection can be had: the final drain still ends, the blocks are gone. *)
Lemma queue_drained_witness :
  let c := set_pool demo_full (mk_pool (replicate POOL_SLOTS (demo_conn 5 1 0)) 7 0 [] []) in
  q_count (cs_queue c) = 39 ∧
  fifo (cs_queue (final_drain (H := stored_zstd) midnight midnight demo_cfg 300 c)) = [].
Proof.
  intros c. split; [reflexivity|].
  apply (queue_drained (H := stored_zstd) midnight midnight always demo_cfg c).
  constructor; vm_compute; try reflexivity; split; congruence.
Defined.

(** [open_readers_sound]: every reader of the run belongs to a volume whose disk
    is not in the skip list, carries that volume's device, offset and block count,
    reads the snapshot only if the volume has one that could be opened, and in tail
    mode has a live reader.  The count is the volume's own: the adjustment to the
    reader's size changes the volume, not the entry. *)
Theorem open_readers_sound open_reader tail skip vols e :
  e ∈ (open_readers open_reader tail skip vols).1 →
  (re_devno e ∉ skip) ∧
  (tail = true → is_Some (re_live_reader e)) ∧
  ∃ v, v ∈ vols ∧ re_devno e = vi_devno v ∧ re_partition_offset e = vi_partition_offset v ∧
       re_block_count e = vi_block_count v ∧
       if re_is_vss e then vi_has_vss v = true ∧ open_reader (vi_vss_path v) = Some (re_reader e)
       else open_reader (vi_disk_path v) = Some (re_reader e).
Proof.
  intros He. apply open_readers_elem in He as (v & r & u & Hv & Hs & Ho & ->). split; [done|].
  split; [intros ->; by eexists|]. exists v. split; [done|]. split; [done|]. split; [done|]. split; [done|].
  cbn [re_is_vss re_reader reader_of]. unfold open_volume in Ho.
  destruct (vi_has_vss v); [destruct (open_reader (vi_vss_path v)) eqn:E1|];
    try (by injection Ho as <- <-); destruct (open_reader (vi_disk_path v)); by simplify_eq/=.
Qed.

Definition demo_vol (devno : Z) (disk vss name : list Z) (off blocks : Z) (has_vss : bool) (part : Z) : volume_info :=
  mk_vol devno disk vss name off (blocks * BLOCK_SIZE) (blocks * 2048) blocks 0 has_vss part.

(** Two disks, the second skipped; the snapshot of the first cannot be opened. *)
Lemma open_readers_sound_witness :
  let vols := [demo_vol 0 [1] [2] [] 4096 9 true 1; demo_vol 1 [1] [] [] 0 9 false 1] in
  let op (p : list Z) := if bool_decide (p = [1]) then Some (mk_reader 0x100000 (λ _ _, None)) else None in
  let es := (open_readers op true [1] vols).1 in
  ∃ e, es = [e] ∧ (re_devno e ∉ [1]) ∧ re_is_vss e = false ∧ re_block_count e = 9.
Proof.
  intros vols op es.
  set (e := mk_rentry (mk_reader 0x100000 (λ _ _, None)) (Some (mk_reader 0x100000 (λ _ _, None))) 0 4096 false 9).
  assert (He : es = [e]) by reflexivity. exists e. split; [exact He|].
  destruct (open_readers_sound op true [1] vols e) as (H1 & _ & _).
  - fold es. rewrite He. left.
  - split; [exact H1|]. split; reflexivity.
Defined.

(** ** A dry run *)

(** Two volumes of the same disk with snapshots, at 0 and at 2 MB; every read
    returns the three bytes [1; 2; 3]. *)
Definition demo_volumes : list volume_info :=
  [demo_vol 0 [1] [] [67; CH_COLON] 0 2 false 1; demo_vol 0 [1] [] [68; CH_COLON] 0x200000 2 false 2].

Definition demo_snapshots : list vss_snapshot :=
  [mk_snap [67; CH_COLON; CH_BACKSLASH] [2] (mk_guid 1 0 0 []) true;
   mk_snap [68; CH_COLON; CH_BACKSLASH] [3] (mk_guid 2 0 0 []) true].

Definition demo_open (path : list Z) : option block_reader :=
  Some (mk_reader (if bool_decide (path = [2]) || bool_decide (path = [3]) then 0x200000 else 0x400000)
          (λ _ _, Some [1; 2; 3])).

Definition demo_run : option (Z * mstate) :=
  do_migrate (H := stored_zstd) alloc_always always midnight midnight always
    (mk_cfg [CH_COLON] 1 3 false true 0) (λ _ _, 0) demo_open 10 (Some (demo_db [])) true true
    (Some demo_snapshots) [] demo_volumes
    (mk_ms (demo_cs [] []) (timer_init 0) 0 0 0).

(** [dry_run_migrates]: a dry run of the whole migration on a small machine.  It
    returns 0; the blocks of the first volume and the partition table blocks have
    rows, all acknowledged; the second volume, which begins at its own size, has
    rows only where the partition table's copy happens to lie. *)
Theorem dry_run_migrates :
  match demo_run with
  | Some (rc, m) =>
      rc = 0 ∧ fifo (cs_queue (ms_c m)) = [] ∧ ms_sent_blocks m = 5 ∧
      map_to_list (r_ack <$> t_block (cs_db (ms_c m))) ≡ₚ
        [((0, 0), 1); ((0, 0x100000), 1); ((0, 0x200000), 1); ((0, 0x300000), 1)]
  | None => False
  end.
Proof. vm_compute. do 3 (split; [done|]). apply Permutation_rev. Qed.

(** ** Volumes of one name *)

Lemma letter_volumes_split vols : ∀ k i v,
  vols !! i = Some v → has_letter v = true →
  ∃ pre post, letter_volumes k vols = pre ++ (k + i)%nat :: post ∧ (length pre ≤ i)%nat ∧
              Forall (λ x, k ≤ x < k + i)%nat pre.
Proof.
  induction vols as [|u vols IH]; intros k i v Hi Hl; [done|].
  destruct i as [|i]; cbn [lookup list_lookup] in Hi; cbn [letter_volumes].
  - injection Hi as ->. rewrite Hl. exists [], (letter_volumes (S k) vols).
    rewrite Nat.add_0_r. split; [done|]. split; [done|constructor].
  - destruct (IH (S k) i v Hi Hl) as (pre & post & E & Hlen & HF). rewrite E.
    replace (S k + i)%nat with (k + S i)%nat by lia.
    destruct (has_letter u).
    + exists (k :: pre), post. cbn. split; [done|]. split; [lia|]. constructor; [lia|].
      eapply Forall_impl; [exact HF|]. cbn. lia.
    + exists pre, post. split; [done|]. split; [lia|]. eapply Forall_impl; [exact HF|]. cbn. lia.
Qed.

Lemma assign_snapshot_skip pre post orig path vols :
  Forall (λ x, ∀ v, vols !! x = Some v → vi_name v ≠ orig) pre →
  assign_snapshot (pre ++ post) orig path vols = assign_snapshot post orig path vols.
Proof.
  induction 1 as [|x pre Hx _ IH]; [done|]. cbn [app assign_snapshot].
  destruct (vols !! x) as [v|]; [|done]. rewrite bool_decide_false by by apply Hx. done.
Qed.

(** [duplicate_name_takes_snapshot]: when two entries have the same drive name
    (a volume mounted in a folder of the drive is given the drive's letter), the
    drive's snapshot is assigned to the one listed first and the other gets none:
    the first partition's blocks are then read from the snapshot of the second. *)
Theorem duplicate_name_takes_snapshot vols i j v1 v2 letter path id :
  (i < 16)%nat → i ≠ j → vols !! i = Some v1 → vols !! j = Some v2 →
  vi_name v1 = [letter; CH_COLON] →
  (∀ k v, (k < i)%nat → vols !! k = Some v → vi_name v ≠ [letter; CH_COLON]) →
  let vols' := match_snapshots [mk_snap [letter; CH_COLON; CH_BACKSLASH] path id true] vols in
  vols' !! i = Some (with_vss v1 path) ∧ vols' !! j = Some v2.
Proof.
  intros Hi Hij H1 H2 Hn Hfirst. cbv zeta. unfold match_snapshots, vss_vol_indices. cbn [foldl sn_valid sn_original_volume sn_snapshot_path].
  change (strip_backslash [letter; CH_COLON; CH_BACKSLASH]) with [letter; CH_COLON].
  destruct (letter_volumes_split vols 0 i v1 H1) as (pre & post & -> & Hlen & HF).
  { unfold has_letter. by rewrite Hn. }
  change (Z.to_nat VSS_MAX_VOLUMES) with 16%nat. rewrite take_app, take_ge by lia.
  replace (16 - length pre)%nat with (S (15 - length pre)) by lia. cbn [take Nat.add].
  rewrite assign_snapshot_skip.
  2:{ eapply Forall_impl; [exact HF|]. intros x Hx v Hv. cbn in Hx. apply (Hfirst x); [lia|done]. }
  cbn [assign_snapshot]. rewrite H1, bool_decide_true by done. split.
  - apply list_lookup_insert_eq. by eapply lookup_lt_Some.
  - by rewrite list_lookup_insert_ne by lia.
Qed.

(** Partition 1 of the disk is mounted at D:\data\, partition 2 is D:. *)
Definition mount_drives (n : Z) : option drive :=
  if n =? 0 then
    Some (mk_drive (Some (FixedMedia, 512)) (Some 0) true
            (Some [mk_part 0x100000 0x200000; mk_part 0x300000 0x200000]))
  else None.

Definition mount_letters : list win_volume :=
  [mk_wvol (Some (string_bytes "D:\data\")) true true (Some [(0, 0x100000)]);
   mk_wvol (Some (string_bytes "D:\")) true true (Some [(0, 0x300000)])].

Lemma duplicate_name_takes_snapshot_witness :
  let vols := (volume_enumerate mount_drives mount_letters).1 in
  (vi_has_vss <$> match_snapshots [mk_snap (string_bytes "D:\") [1] (mk_guid 1 0 0 []) true] vols !! 0%nat = Some true) ∧
  (vi_has_vss <$> match_snapshots [mk_snap (string_bytes "D:\") [1] (mk_guid 1 0 0 []) true] vols !! 1%nat = Some false).
Proof.
  destruct (duplicate_name_takes_snapshot (volume_enumerate mount_drives mount_letters).1 0 1
              _ _ 68 [1] (mk_guid 1 0 0 []) ltac:(lia) ltac:(lia) eq_refl eq_refl eq_refl) as [H1 H2]; [intros; lia|].
  change (string_bytes "D:\") with [68; CH_COLON; CH_BACKSLASH]. cbv zeta. by rewrite H1, H2.
Defined.
