(* ===== verification/Prog.v ===== *)
(** * The full migration as a program of single operations

    The functions of Client.v and Migrate.v run a loop from one state of the
    client to another, as if nothing else moved meanwhile.  Here the same loops
    are trees of the operations between which the receiver and the network do
    move: a flush of one entry, a reading of the answers, a push, a statement of
    the tracker, a reading of the clock or of [g_running].  [does_transfer]
    shows that a tree run without interruption is the function of Migrate.v. *)

From S2P Require Import Prelude Protocol Hash Net Zstd Msgpack Wire Queue Timer Pool Tracker BlockIO Client Incremental Migrate.

(** ** Programs *)

(** [Stuck]: the fuel of an unbounded loop has run out. *)
Inductive prog (A : Type) : Type :=
  | Ret (a : A)
  | Stuck
  | Op (B : Type) (f : mstate → B * mstate) (k : B → prog A).

Arguments Ret {A} a.
Arguments Stuck {A}.
Arguments Op {A B} f k.

#[export] Instance prog_ret : MRet prog := @Ret.

#[export] Instance prog_bind : MBind prog :=
  λ A B k, fix bind p :=
    match p with
    | Ret a => k a
    | Stuck => Stuck
    | Op f k' => Op f (λ b, bind (k' b))
    end.

(** An operation of the engine; one that only looks. *)
Definition eng {B} (f : cstate → B * cstate) : prog B :=
  Op (λ m, let '(b, c) := f (ms_c m) in (b, with_c m c)) Ret.

Definition act (f : cstate → cstate) : prog unit := eng (λ c, (tt, f c)).
Definition look {B} (f : cstate → B) : prog B := eng (λ c, (f c, c)).

(** One on the run's own state. *)
Definition upd (f : mstate → mstate) : prog unit := Op (λ m, (tt, f m)) Ret.
Definition peek {B} (f : mstate → B) : prog B := Op (λ m, (f m, m)) Ret.

(** Without interruption. *)
Fixpoint run {A} (p : prog A) (m : mstate) : option (A * mstate) :=
  match p with
  | Ret a => Some (a, m)
  | Stuck => None
  | Op f k => let '(b, m) := f m in run (k b) m
  end.

Lemma run_bind {A B} (p : prog A) (k : A → prog B) m :
  run (p ≫= k) m = run p m ≫= λ '(a, m), run (k a) m.
Proof.
  revert m. induction p as [a| |C f k' IH]; intros m; [done..|]. cbn. destruct (f m) as [b m']. apply IH.
Qed.

(** ** The engine *)

Section Engine.
Context `{Zstd} (realloc_ok : Z → bool) (malloc_ok : nat → bool).
Context (clock wall : nat → Z) (running : nat → bool) (cfg : config).

Definition ask_running : prog bool := eng (is_running running).

Fixpoint drain_prog (fuel : nat) : prog unit :=
  match fuel with
  | O => Ret tt
  | S fuel' => rc ← eng (flush_one clock wall cfg); if 0 <? rc then drain_prog fuel' else Ret tt
  end.

Definition drain_queue_prog : prog unit :=
  n ← look (λ c, S (Z.to_nat (q_count (cs_queue c)))); drain_prog n.

Definition ack_prog : prog unit := act (process_ack cfg).

Fixpoint force_drain_prog (fuel : nat) : prog unit :=
  match fuel with
  | O => Ret tt
  | S fuel' =>
      more ← look (λ c, 0 <? queue_count (cs_queue c));
      if (more : bool) then
        go ← ask_running;
        if (go : bool) then drain_queue_prog;; ack_prog;; force_drain_prog fuel' else Ret tt
      else Ret tt
  end.

Definition drain_all_prog : prog unit :=
  n ← look (λ c, Z.to_nat (q_count (cs_queue c))); force_drain_prog n.

Fixpoint push_retry_prog (fuel : nat) (retry : Z) (devno offset h : Z) (payload : list Z) : prog bool :=
  match fuel with
  | O => Ret false
  | S fuel' =>
      rc ← eng (λ c, let '(rc, q) := queue_push (malloc_ok (cs_tick c)) (cs_queue c) devno offset h payload in
                     (rc, set_queue c q));
      if rc =? 0 then Ret true
      else
        go ← ask_running;
        if negb go then Ret false
        else
          drain_queue_prog;; ack_prog;;
          if BACKPRESSURE_RETRIES <? retry + 1 then drain_all_prog;; push_retry_prog fuel' 0 devno offset h payload
          else push_retry_prog fuel' (retry + 1) devno offset h payload
  end.

(** The encoder leaves the payload in its buffer; [None]: no memory. *)
Definition encode_op (devno offset : Z) (data : list Z) (c : cstate) : option (list Z) * cstate :=
  match msgpack_encode_block realloc_ok (cs_writer c) devno offset data with
  | None => (None, c)
  | Some w => (Some (wr_data w), set_writer c w)
  end.

Definition send_block_prog (reader : block_reader) (devno disk_offset reader_offset : Z) : prog Z :=
  match block_reader_read reader reader_offset BLOCK_SIZE with
  | None => Ret (-1)
  | Some data =>
      if len data =? 0 then Ret 0
      else
        acked ← eng (λ c, let '(acked, db) := sqlite_block_acked (cs_db c) devno (s64 disk_offset) in
                          (acked, set_db c db));
        if acked =? 1 then Ret 0
        else
          let h := hash_block data (Z.land disk_offset 0xFFFFFFFF) in
          same ← (if cf_tail_send cfg then
                    eng (λ c, let '(rc, stored, db) := sqlite_block_lookup (cs_db c) devno (s64 disk_offset) in
                              (bool_decide (rc = 0 ∧ stored = Some h), set_db c db))
                  else Ret false);
          if (same : bool) then Ret 0
          else
            payload ← eng (encode_op devno (s64 disk_offset) data);
            match payload with
            | None => Ret (-1)
            | Some payload =>
                ok ← push_retry_prog PUSH_FUEL 0 devno (s64 disk_offset) h payload;
                if (ok : bool) then
                  act (λ c, set_db c (sqlite_block_upsert_v (cs_db c) devno (s64 disk_offset)
                                        (len data) h 0 (cs_inc_version c)).2);;
                  Ret 0
                else Ret (-1)
            end
  end.

Fixpoint retransmit_prog (blocks : list (Z * Z)) (readers : list reader_entry) : prog unit :=
  match blocks with
  | [] => Ret tt
  | (devno, offset) :: r =>
      go ← ask_running;
      if negb go then Ret tt
      else
        match find_reader readers devno (u64 offset) with
        | None => retransmit_prog r readers
        | Some (e, reader_offset) =>
            send_block_prog (re_reader e) devno (u64 offset) reader_offset;; retransmit_prog r readers
        end
  end.

Definition do_retransmit_prog (readers : list reader_entry) : prog unit :=
  blocks ← eng (λ c, let '(_, blocks, db) := sqlite_get_unacked (cs_db c) 256 (Some []) in (blocks, set_db c db));
  retransmit_prog blocks readers.

(** A connection is acquired and released again. *)
Definition reconnect_turn (c : cstate) : bool * cstate :=
  let '(now, c) := time_now wall c in
  match pool_acquire now (cs_pool c) with
  | (Some i, p) => (true, set_pool c (pool_release p i))
  | (None, p) => (false, set_pool c p)
  end.

Fixpoint reconnect_prog (fuel : nat) : prog unit :=
  match fuel with
  | O => Stuck
  | S fuel' =>
      few ← look (λ c, pool_count (cs_pool c) <? SOCKET_POOL_TARGET);
      if (few : bool) then
        got ← eng reconnect_turn;
        if (got : bool) then reconnect_prog fuel' else Ret tt
      else Ret tt
  end.

Definition do_reconnect_prog (fuel : nat) : prog unit :=
  act (λ c, let '(now, c) := time_now wall c in
            let '(_, p) := pool_reap_stale now (cs_pool c) in set_pool c p);;
  reconnect_prog fuel.

(** ** Uninterrupted, they are the functions of Client.v *)

Lemma run_eng {A B} (f : cstate → B * cstate) (k : B → prog A) m :
  run (eng f ≫= k) m = let '(b, c) := f (ms_c m) in run (k b) (with_c m c).
Proof. cbn. by destruct (f (ms_c m)). Qed.

Lemma with_c_twice m c c' : with_c (with_c m c) c' = with_c m c'.
Proof. done. Qed.

Lemma with_c_same m : with_c m (ms_c m) = m.
Proof. by destruct m. Qed.

Lemma run_drain fuel : ∀ m, run (drain_prog fuel) m = Some (tt, with_c m (drain clock wall cfg fuel (ms_c m))).
Proof.
  induction fuel as [|fuel IH]; intros m; cbn [drain_prog drain]; [cbn; by rewrite with_c_same|].
  rewrite run_eng. destruct (flush_one clock wall cfg (ms_c m)) as [rc c]. case_test; [by rewrite IH|done].
Qed.

Lemma run_drain_queue m : run drain_queue_prog m = Some (tt, with_c m (drain_queue clock wall cfg (ms_c m))).
Proof. unfold drain_queue_prog, look. rewrite run_eng. by rewrite with_c_same, run_drain. Qed.

Lemma run_force_drain fuel : ∀ m,
  run (force_drain_prog fuel) m = Some (tt, with_c m (force_drain clock wall running cfg fuel (ms_c m))).
Proof.
  induction fuel as [|fuel IH]; intros m; cbn [force_drain_prog force_drain]; [cbn; by rewrite with_c_same|].
  unfold look. rewrite run_eng, with_c_same. case_test; [|cbn; by rewrite with_c_same].
  unfold ask_running. rewrite run_eng. destruct (is_running running (ms_c m)) as [[|] c]; [|done].
  rewrite run_bind, run_drain_queue. cbn [mbind option_bind]. unfold ack_prog, act. rewrite run_eng. apply IH.
Qed.

Lemma run_drain_all m : run drain_all_prog m = Some (tt, with_c m (drain_all clock wall running cfg (ms_c m))).
Proof. unfold drain_all_prog, look. rewrite run_eng. by rewrite with_c_same, run_force_drain. Qed.

Lemma run_push_retry fuel devno offset h payload : ∀ retry m,
  run (push_retry_prog fuel retry devno offset h payload) m =
  let '(ok, c) := push_retry malloc_ok clock wall running cfg fuel retry (ms_c m) devno offset h payload in
  Some (ok, with_c m c).
Proof.
  induction fuel as [|fuel IH]; intros retry m; cbn [push_retry_prog push_retry]; [cbn; by rewrite with_c_same|].
  rewrite run_eng. destruct (queue_push _ _ _ _ _ _) as [rc q]. case_test; [done|].
  unfold ask_running. rewrite run_eng. cbn [ms_c with_c].
  destruct (is_running running (set_queue (ms_c m) q)) as [[|] c]; cbn [negb]; [|done].
  rewrite run_bind, run_drain_queue. cbn [mbind option_bind]. unfold ack_prog, act. rewrite run_eng.
  case_test; [|by rewrite IH]. rewrite run_bind, run_drain_all. cbn [mbind option_bind]. by rewrite IH.
Qed.

Lemma run_send_block reader devno disk_offset reader_offset m :
  run (send_block_prog reader devno disk_offset reader_offset) m =
  let '(rc, c) := send_block realloc_ok malloc_ok clock wall running cfg (ms_c m) reader devno disk_offset reader_offset in
  Some (rc, with_c m c).
Proof.
  unfold send_block_prog, send_block. destruct (block_reader_read _ _ _) as [data|]; [|cbn; by rewrite with_c_same].
  case_test; [cbn; by rewrite with_c_same|]. rewrite run_eng.
  destruct (sqlite_block_acked (cs_db (ms_c m)) devno (s64 disk_offset)) as [acked db]. case_test; [done|].
  set (h := hash_block _ _). rewrite run_bind.
  assert (Hsame : ∀ c, run (if cf_tail_send cfg then
                    eng (λ c, let '(rc, stored, db) := sqlite_block_lookup (cs_db c) devno (s64 disk_offset) in
                              (bool_decide (rc = 0 ∧ stored = Some h), set_db c db))
                  else Ret false) (with_c m c) =
     let '(same, c) := if cf_tail_send cfg then
              let '(rc, stored, db) := sqlite_block_lookup (cs_db c) devno (s64 disk_offset) in
              (bool_decide (rc = 0 ∧ stored = Some h), set_db c db)
            else (false, c) in Some (same, with_c m c)).
  { intros c. destruct (cf_tail_send cfg); [|done]. cbn. by destruct (sqlite_block_lookup _ _ _) as [[rc stored] db']. }
  rewrite Hsame. clear Hsame.
  match goal with |- context [let '(_, _) := ?x in Some (_, _)] => destruct x as [same c] end. cbn [mbind option_bind].
  destruct same; [done|]. rewrite run_eng. cbn [ms_c with_c]. unfold encode_op.
  destruct (msgpack_encode_block _ _ _ _ _) as [w|]; [|done]. rewrite run_bind, run_push_retry. cbn [ms_c with_c].
  destruct (push_retry _ _ _ _ _ _ _ _ _ _ _ _) as [ok c']. cbn [mbind option_bind]. destruct ok; [|done].
  unfold act. by rewrite run_eng.
Qed.

Lemma run_retransmit readers blocks : ∀ m,
  run (retransmit_prog blocks readers) m =
  Some (tt, with_c m (retransmit_loop realloc_ok malloc_ok clock wall running cfg blocks readers (ms_c m))).
Proof.
  induction blocks as [|[d o] blocks IH]; intros m; cbn [retransmit_prog retransmit_loop]; [cbn; by rewrite with_c_same|].
  unfold ask_running. rewrite run_eng. destruct (is_running running (ms_c m)) as [[|] c]; cbn [negb]; [|done].
  destruct (find_reader readers d (u64 o)) as [[e ro]|]; [|by rewrite IH].
  rewrite run_bind, run_send_block. cbn [ms_c with_c].
  destruct (send_block _ _ _ _ _ _ _ _ _ _ _) as [rc c']. cbn [mbind option_bind snd]. by rewrite IH.
Qed.

Lemma run_do_retransmit readers m :
  run (do_retransmit_prog readers) m =
  Some (tt, with_c m (do_retransmit realloc_ok malloc_ok clock wall running cfg (ms_c m) readers)).
Proof.
  unfold do_retransmit_prog, do_retransmit. rewrite run_eng.
  destruct (sqlite_get_unacked _ _ _) as [[n blocks] db]. by rewrite run_retransmit.
Qed.

Lemma run_reconnect fuel : ∀ m,
  run (reconnect_prog fuel) m = (λ c, (tt, with_c m c)) <$> reconnect_loop wall fuel (ms_c m).
Proof.
  induction fuel as [|fuel IH]; intros m; cbn [reconnect_prog reconnect_loop]; [done|].
  unfold look. rewrite run_eng, with_c_same. case_test; [|cbn; by rewrite with_c_same].
  rewrite run_eng. unfold reconnect_turn. destruct (time_now wall (ms_c m)) as [now c].
  destruct (pool_acquire now (cs_pool c)) as [[i|] p]; [by rewrite IH|done].
Qed.

Lemma run_do_reconnect fuel m :
  run (do_reconnect_prog fuel) m = (λ c, (tt, with_c m c)) <$> do_reconnect wall fuel (ms_c m).
Proof.
  unfold do_reconnect_prog, do_reconnect, act. rewrite run_eng. destruct (time_now wall (ms_c m)) as [now c].
  destruct (pool_reap_stale now (cs_pool c)) as [n p]. by rewrite run_reconnect.
Qed.

End Engine.

(** ** The full transfer *)

Section Transfer.
Context `{Zstd} (realloc_ok : Z → bool) (malloc_ok : nat → bool).
Context (clock wall : nat → Z) (running : nat → bool) (cfg : config).
Context (open_reader : list Z → option block_reader).

Notation ask := (ask_running running).
Notation drain := (drain_queue_prog clock wall cfg).
Notation ack := (ack_prog cfg).

(** One query for every partition. *)
Fixpoint progress_prog (readers : list reader_entry) : prog unit :=
  match readers with
  | [] => Ret tt
  | e :: r => act (λ c, set_db c (sqlite_count_blocks (cs_db c) (re_devno e) 1).2);; progress_prog r
  end.

Fixpoint bp_wait_prog (fuel : nat) : prog unit :=
  match fuel with
  | O => Ret tt
  | S fuel' =>
      full ← look (λ c, negb (queue_should_backpressure (cs_queue c) =? 0));
      if (full : bool) then
        go ← ask; if (go : bool) then ack;; drain;; bp_wait_prog fuel' else Ret tt
      else Ret tt
  end.

Definition backpressure_prog : prog unit :=
  n ← look (λ c, Z.to_nat (q_count (cs_queue c))); bp_wait_prog n.

Definition now_prog : prog Z := eng (timer_now clock).

(** The events of the full transfer, without TailSend. *)
Definition event_prog (fuel : nat) (readers : list reader_entry) (ev : timer_event_t) : prog unit :=
  match ev with
  | TIMER_RETRANSMIT => do_retransmit_prog realloc_ok malloc_ok clock wall running cfg readers
  | TIMER_RECONNECT => if cf_dry_run cfg then Ret tt else do_reconnect_prog wall fuel
  | TIMER_ACTION => progress_prog readers
  | TIMER_INCREMENTAL | TIMER_NONE => Ret tt
  end.

Fixpoint timers_prog (n fuel : nat) (readers : list reader_entry) (now : Z) : prog unit :=
  match n with
  | O => Stuck
  | S n' =>
      ev ← peek (λ m, timer_check (ms_timer m) now);
      match ev with
      | TIMER_NONE => Ret tt
      | ev =>
          event_prog fuel readers ev;;
          t ← now_prog;
          upd (λ m, with_timer m (timer_reset t (ms_timer m) ev));;
          now ← now_prog;
          timers_prog n' fuel readers now
      end
  end.

Definition send_and_flush_prog (reader : block_reader) (devno disk_offset reader_offset : Z) : prog unit :=
  rc ← send_block_prog realloc_ok malloc_ok clock wall running cfg reader devno disk_offset reader_offset;
  upd (λ m, if rc =? 0 then count_sent m else m);;
  drain;; ack.

Fixpoint block_prog (fuel : nat) (readers : list reader_entry) (e : reader_entry) (n : nat) (blk : Z) : prog unit :=
  match n with
  | O => Ret tt
  | S n' =>
      go ← ask;
      if negb go then Ret tt
      else
        backpressure_prog;;
        send_and_flush_prog (re_reader e) (re_devno e) (block_offsets e blk).1 (block_offsets e blk).2;;
        now ← now_prog;
        timers_prog fuel fuel readers now;;
        block_prog fuel readers e n' (blk + 1)
  end.

Fixpoint full_prog (fuel : nat) (readers todo : list reader_entry) : prog unit :=
  match todo with
  | [] => Ret tt
  | e :: r =>
      go ← ask;
      if negb go then Ret tt
      else
        upd (λ m, add_total m (n_blocks e));;
        block_prog fuel readers e (Z.to_nat (n_blocks e)) 0;;
        full_prog fuel readers r
  end.

Fixpoint footer_prog (t : nat) (disk : block_reader) (devno aligned_end : Z) : prog unit :=
  match t with
  | O => Ret tt
  | S t' =>
      go ← ask;
      if negb go then Ret tt
      else
        let off := aligned_end - Z.of_nat t * BLOCK_SIZE in
        send_and_flush_prog disk devno off off;; footer_prog t' disk devno aligned_end
  end.

Definition gpt_prog (disk : block_reader) (devno : Z) : prog unit :=
  let aligned_end := block_reader_size disk / BLOCK_SIZE * BLOCK_SIZE in
  send_and_flush_prog disk devno 0 0;;
  if 2 * BLOCK_SIZE <=? aligned_end then footer_prog 2 disk devno aligned_end else Ret tt.

Fixpoint backup_prog (seen : list Z) (todo : list reader_entry) : prog unit :=
  match todo with
  | [] => Ret tt
  | e :: r =>
      go ← ask;
      if negb go then Ret tt
      else if bool_decide (re_devno e ∈ seen) then backup_prog seen r
      else
        match (if re_is_vss e then open_reader (physical_drive (re_devno e)) else Some (re_reader e)) with
        | None => backup_prog (re_devno e :: seen) r
        | Some disk => gpt_prog disk (re_devno e);; backup_prog (re_devno e :: seen) r
        end
  end.

Fixpoint final_drain_prog (attempts : nat) : prog unit :=
  match attempts with
  | O => Ret tt
  | S attempts' =>
      more ← look (λ c, 0 <? queue_count (cs_queue c));
      if (more : bool) then drain;; ack;; final_drain_prog attempts' else Ret tt
  end.

(** A connection for a control frame; the frame; the connection given back. *)
Definition control_acquire (c : cstate) : option Z * cstate :=
  let '(now, c) := time_now wall c in
  let '(i, p) := pool_acquire now (cs_pool c) in (i, set_pool c p).

Definition control_send (i : Z) (str : list Z) (n : Z) (c : cstate) : cstate :=
  let fd := c_fd (conn_at (cs_pool c) i) in set_sock c fd (wire_send_control (csock c fd) str n).2.

Definition control_release (i : Z) (c : cstate) : cstate :=
  let '(now, c) := time_now wall c in set_pool c (pool_release (pool_touch now (cs_pool c) i) i).

Definition finish_prog : prog unit :=
  if cf_dry_run cfg then Ret tt
  else
    conn ← eng control_acquire;
    match conn with
    | Some i =>
        act (control_send i CTL_END_INCREMENTAL CTL_END_INCREMENTAL_LEN);; act (control_release i);;
        Nat.iter 300 (λ p, ack;; p) (Ret tt)
    | None => Ret tt
    end.

(** What follows the blocks. *)
Definition tail_prog (readers : list reader_entry) : prog unit :=
  backup_prog [] readers;;
  final_drain_prog 300;;
  finish_prog.

(** From the readers on, without TailSend. *)
Definition transfer_prog (fuel : nat) (readers : list reader_entry) : prog unit :=
  progress_prog readers;;
  upd (λ m, mk_ms (ms_c m) (ms_timer m) 0 0 0);;
  full_prog fuel readers readers;;
  tail_prog readers.

(** ** Uninterrupted, they are the functions of Migrate.v *)

Context (rand_at : nat → nat → Z) (full : cf_tail_send cfg = false).

(** A program that is the function [f] of the run. *)
Definition does (p : prog unit) (f : mstate → option mstate) : Prop := ∀ m, run p m = (λ m, (tt, m)) <$> f m.

Lemma run_drain_ack (k : prog unit) m :
  run (drain;; ack;; k) m = run k (with_c m (process_ack cfg (drain_queue clock wall cfg (ms_c m)))).
Proof. rewrite run_bind, run_drain_queue. cbn [mbind option_bind]. unfold ack_prog, act. by rewrite run_eng. Qed.

Lemma does_progress readers : does (progress_prog readers) (λ m, Some (with_c m (print_full_progress readers (ms_c m)))).
Proof.
  induction readers as [|e readers IH]; intros m; cbn [progress_prog]; [cbn; by rewrite with_c_same|].
  unfold act. rewrite run_eng, IH. done.
Qed.

Lemma run_bp_wait fuel : ∀ m,
  run (bp_wait_prog fuel) m = Some (tt, with_c m (bp_wait clock wall running cfg fuel (ms_c m))).
Proof.
  induction fuel as [|fuel IH]; intros m; cbn [bp_wait_prog bp_wait]; [cbn; by rewrite with_c_same|].
  unfold look. rewrite run_eng, with_c_same. case_test; [|cbn; by rewrite with_c_same].
  unfold ask_running. rewrite run_eng. destruct (is_running running (ms_c m)) as [[|] c]; [|done].
  unfold ack_prog, act. rewrite run_eng, run_bind, run_drain_queue. cbn [mbind option_bind]. by rewrite IH.
Qed.

Lemma run_backpressure m :
  run backpressure_prog m = Some (tt, with_c m (backpressure_wait clock wall running cfg (ms_c m))).
Proof. unfold backpressure_prog, look. by rewrite run_eng, with_c_same, run_bp_wait. Qed.

Lemma does_event fuel readers ev :
  does (event_prog fuel readers ev) (full_event realloc_ok malloc_ok clock wall running cfg rand_at fuel readers ev).
Proof using full.
  intros m. unfold event_prog, full_event. rewrite full. destruct ev.
  - done.
  - by rewrite run_do_retransmit.
  - destruct (cf_dry_run cfg); [done|]. rewrite run_do_reconnect. by destruct (do_reconnect wall fuel (ms_c m)).
  - apply does_progress.
  - done.
Qed.

Lemma does_timers n fuel readers : ∀ now,
  does (timers_prog n fuel readers now)
    (timer_loop clock n (full_event realloc_ok malloc_ok clock wall running cfg rand_at fuel readers) (λ _, false) now).
Proof using full.
  induction n as [|n IH]; intros now m; cbn [timers_prog timer_loop]; [done|].
  unfold peek. cbn [mbind prog_bind run].
  assert (Hev : ∀ ev,
    run (event_prog fuel readers ev;; t ← now_prog; upd (λ m, with_timer m (timer_reset t (ms_timer m) ev));;
         now ← now_prog; timers_prog n fuel readers now) m =
    (λ m, (tt, m)) <$>
      (m ← full_event realloc_ok malloc_ok clock wall running cfg rand_at fuel readers ev m;
       let '(t, c) := timer_now clock (ms_c m) in
       let m := with_timer (with_c m c) (timer_reset t (ms_timer m) ev) in
       let '(now, c) := timer_now clock (ms_c m) in
       timer_loop clock n (full_event realloc_ok malloc_ok clock wall running cfg rand_at fuel readers) (λ _, false) now
         (with_c m c))).
  { intros ev. rewrite run_bind, does_event. destruct (full_event _ _ _ _ _ _ _ _ _ ev m) as [m1|]; [|done].
    apply IH. }
  destruct (timer_check (ms_timer m) now); [done|apply Hev..].
Qed.

Lemma run_send_and_flush reader devno disk_offset reader_offset (k : prog unit) m :
  run (send_and_flush_prog reader devno disk_offset reader_offset;; k) m =
  run k (send_and_flush realloc_ok malloc_ok clock wall running cfg m reader devno disk_offset reader_offset).
Proof.
  unfold send_and_flush_prog, send_and_flush. rewrite run_bind, run_bind, run_send_block.
  destruct (send_block _ _ _ _ _ _ _ _ _ _ _) as [rc c]. cbn [mbind option_bind]. rewrite run_bind. cbn [upd run mbind option_bind].
  rewrite run_bind, run_drain_queue. cbn [mbind option_bind run ack_prog act eng]. done.
Qed.

Lemma run_ask {A} (k : bool → prog A) m :
  run (ask ≫= k) m = run (k (running (cs_tick (ms_c m)))) (with_c m (tick (ms_c m))).
Proof. unfold ask_running. by rewrite run_eng. Qed.

Lemma does_block fuel readers e n : ∀ blk,
  does (block_prog fuel readers e n blk)
    (block_loop realloc_ok malloc_ok clock wall running cfg rand_at fuel readers e n blk).
Proof using full.
  induction n as [|n IH]; intros blk m; cbn [block_prog block_loop]; [done|]. rewrite run_ask. unfold is_running.
  destruct (running (cs_tick (ms_c m))); cbn [negb]; [|done].
  rewrite run_bind, run_backpressure. cbn [mbind option_bind]. rewrite run_send_and_flush.
  destruct (block_offsets e blk) as [disk_offset reader_offset]. cbn [fst snd].
  unfold now_prog. rewrite run_eng. destruct (timer_now clock _) as [now c]. rewrite run_bind, does_timers.
  by destruct (timer_loop _ _ _ _ _ _) as [m'|]; [apply IH|].
Qed.

Lemma does_full fuel readers todo :
  does (full_prog fuel readers todo)
    (full_transfer realloc_ok malloc_ok clock wall running cfg rand_at fuel readers todo).
Proof using full.
  induction todo as [|e todo IH]; intros m; cbn [full_prog full_transfer]; [done|]. rewrite run_ask. unfold is_running.
  destruct (running (cs_tick (ms_c m))); cbn [negb]; [|done].
  rewrite run_bind. cbn [upd run mbind option_bind]. rewrite run_bind, does_block.
  by destruct (block_loop _ _ _ _ _ _ _ _ _ _ _ _ _) as [m'|]; [apply IH|].
Qed.

Lemma does_footer t disk devno aligned_end :
  does (footer_prog t disk devno aligned_end)
    (λ m, Some (gpt_footer realloc_ok malloc_ok clock wall running cfg t disk devno aligned_end m)).
Proof.
  induction t as [|t IH]; intros m; cbn [footer_prog gpt_footer]; [done|]. rewrite run_ask. unfold is_running.
  destruct (running (cs_tick (ms_c m))); cbn [negb]; [|done]. by rewrite run_send_and_flush, IH.
Qed.

Lemma run_gpt disk devno (k : prog unit) m :
  run (gpt_prog disk devno;; k) m =
  run k (gpt_disk realloc_ok malloc_ok clock wall running cfg disk devno m).
Proof.
  unfold gpt_prog, gpt_disk. rewrite run_bind, run_send_and_flush. case_test; [|done]. by rewrite does_footer.
Qed.

Lemma does_backup todo : ∀ seen,
  does (backup_prog seen todo)
    (λ m, Some (gpt_backup realloc_ok malloc_ok clock wall running cfg open_reader seen todo m)).
Proof.
  induction todo as [|e todo IH]; intros seen m; cbn [backup_prog gpt_backup]; [done|]. rewrite run_ask. unfold is_running.
  destruct (running (cs_tick (ms_c m))); cbn [negb]; [|done]. case_bool_decide; [apply IH|].
  destruct (if re_is_vss e then _ else _) as [disk|]; [|apply IH]. rewrite run_gpt. apply IH.
Qed.

Lemma does_final_drain n :
  does (final_drain_prog n) (λ m, Some (with_c m (final_drain clock wall cfg n (ms_c m)))).
Proof.
  induction n as [|n IH]; intros m; cbn [final_drain_prog final_drain]; [cbn; by rewrite with_c_same|].
  unfold look. rewrite run_eng, with_c_same. case_test; [|cbn; by rewrite with_c_same]. by rewrite run_drain_ack, IH.
Qed.

Lemma run_polls n : ∀ m,
  run (Nat.iter n (λ p, ack;; p) (Ret tt)) m = Some (tt, with_c m (Nat.iter n (process_ack cfg) (ms_c m))).
Proof.
  induction n as [|n IH]; intros m; [cbn; by rewrite with_c_same|]. rewrite Nat.iter_succ.
  change (run (eng (λ c, (tt, process_ack cfg c)) ≫= λ _, Nat.iter n (λ p, ack;; p) (Ret tt)) m =
          Some (tt, with_c m (Nat.iter (S n) (process_ack cfg) (ms_c m)))).
  by rewrite run_eng, IH, Nat.iter_succ_r.
Qed.

Lemma does_finish : does finish_prog (λ m, Some (finish_full wall cfg m)).
Proof.
  intros m. unfold finish_prog, finish_full, send_control. destruct (cf_dry_run cfg); [done|]. rewrite run_eng.
  unfold control_acquire. destruct (time_now wall (ms_c m)) as [now c].
  destruct (pool_acquire now (cs_pool c)) as [[i|] p]; [|done].
  unfold act. rewrite run_eng. unfold control_send. cbn [ms_c with_c cs_pool set_pool].
  destruct (wire_send_control _ _ _) as [rc k]. cbn [snd]. rewrite run_eng. unfold control_release. cbn [ms_c with_c].
  destruct (time_now wall _) as [now' c'] eqn:E. rewrite run_polls. cbn [ms_c with_c].
  injection E as <- <-. done.
Qed.

(** The whole transfer, its fuel included: the same final state, or none. *)
Lemma does_transfer fuel readers :
  does (transfer_prog fuel readers)
    (transfer realloc_ok malloc_ok clock wall running cfg rand_at open_reader fuel readers).
Proof using full.
  intros m. unfold transfer_prog, transfer. rewrite full. cbn [andb].
  rewrite run_bind, does_progress. cbn [fmap option_fmap option_map mbind option_bind]. rewrite run_bind.
  cbn [upd run mbind option_bind]. rewrite run_bind, does_full.
  destruct (full_transfer _ _ _ _ _ _ _ _ _ _ _) as [m1|]; [|done]. cbn [fmap option_fmap option_map mbind option_bind].
  unfold tail_prog. rewrite run_bind, does_backup. cbn [fmap option_fmap option_map mbind option_bind].
  rewrite run_bind, does_final_drain. cbn [fmap option_fmap option_map mbind option_bind].
  apply does_finish.
Qed.

End Transfer.
