(* ===== verification/Config.v ===== *)
(** * The client's command line and configuration (client/main.c, the argument
      and configuration parts of [main], [cmd_dryrun] and [cmd_incsync])

    A configuration file is its text, [None] when it cannot be read.  The log
    settings are part of the configuration records; what the log module does
    with them is Log.v. *)

From stdpp Require Import strings.
From S2P Require Import Prelude Protocol Json Log Client.

Definition DEFAULT_PORT : Z := 3389.

Definition CH_BRACKET : Z := 91.
Definition CH_BRACKET_END : Z := 93.

(** ** [<ip:port>] *)

(** As [cmd_incsync] reads it. *)
Definition parse_target (target : list Z) : list Z * Z :=
  match strchr target CH_COLON with
  | Some colon => (ztake (Z.min (len target - len colon) 63) target, u16 (atoi (zdrop 1 colon)))
  | None => (ztake 63 target, DEFAULT_PORT)
  end.

(** As [main] reads it: port 0 is the default port. *)
Definition main_target (target : list Z) : list Z * Z :=
  let '(ip, port) := parse_target target in (ip, if port =? 0 then DEFAULT_PORT else port).

(** ** The skip list of disks *)

(** [*sd == ' ' || *sd == ','] *)
Definition disk_sep (c : Z) : bool := (c =? CH_SPACE) || (c =? CH_COMMA).

(** The loop of at most sixteen numbers *)
Fixpoint skip_disks_loop (fuel : nat) (sd : list Z) (acc : list Z) : list Z :=
  match fuel with
  | O => acc
  | S fuel' =>
      if (0 <? len sd) && (len acc <? 16) then
        match skip_while disk_sep sd with
        | [] => acc
        | c :: r =>
            if c =? CH_BRACKET_END then acc
            else if negb (is_digit c) then acc
            else skip_disks_loop fuel' (skip_while is_digit (c :: r)) (acc ++ [atoi (c :: r)])
        end
      else acc
  end.

(** Only without a ["Disks"] section. *)
Definition parse_skip_disks (json : list Z) : list Z :=
  match Sender.json_nav json (string_bytes "Disks") with
  | Some _ => []
  | None =>
      match strstr json (CH_QUOTE :: string_bytes "SkipDisks" ++ [CH_QUOTE]) with
      | None => []
      | Some sd =>
          match strchr sd CH_BRACKET with
          | None => []
          | Some sd => skip_disks_loop (S (length sd)) (zdrop 1 sd) []
          end
      end
  end.

(** ** The configurations *)

(** The level and the path of the log. *)
Definition parse_log (json : list Z) : Z * list Z :=
  match Sender.json_nav json (string_bytes "Log") with
  | None => (LOG_LEVEL_INFO, [])
  | Some log_section =>
      (json_read_int log_section (string_bytes "Level") LOG_LEVEL_INFO,
       default [] (json_read_str log_section (string_bytes "Path") 256))
  end.

Definition parse_db_path (json : list Z) : list Z :=
  default (string_bytes "tracker.db") (json_read_str json (string_bytes "DbPath") 512).

Record incsync_conf := mk_iconf {
  ic_tail_send : Z;
  ic_rate_limit_mb : Z;
  ic_db_path : list Z;
  ic_skip_disks : list Z;
  ic_skip_part_str : list Z;
  ic_log : Z * list Z;
}.

Definition incsync_config (json : option (list Z)) : incsync_conf :=
  match json with
  | None => mk_iconf 0 100 (string_bytes "tracker.db") [] [] (LOG_LEVEL_INFO, [])
  | Some json =>
      mk_iconf (json_read_int json (string_bytes "TailSend") 0)
        (json_read_int json (string_bytes "RateLimitMB") 100)
        (parse_db_path json) (parse_skip_disks json)
        (default [] (json_read_str json (string_bytes "SkipPartitions") 512))
        (parse_log json)
  end.

(** The context [cmd_incsync] runs the engine with: never in tail mode. *)
Definition incsync_cfg (target : list Z) (c : incsync_conf) : config :=
  let '(server_ip, server_port) := parse_target target in
  mk_cfg (ztake 63 server_ip) server_port (if ic_tail_send c =? 0 then 7 else 1) false false
    (ic_rate_limit_mb c).

(** What [main] and [cmd_dryrun] set up: the context, the database path and the
    log.  The skip list stays empty. *)
Definition migrate_config (server_ip : list Z) (server_port : Z) (dry_run : bool) (json : option (list Z))
    : config * list Z * (Z * list Z) :=
  match json with
  | None =>
      (mk_cfg (ztake 63 server_ip) server_port ZSTD_COMPRESS_LEVEL_MAX false dry_run 100,
       string_bytes "tracker.db", (LOG_LEVEL_INFO, []))
  | Some json =>
      let tail_send := negb (json_read_int json (string_bytes "TailSend") 0 =? 0) in
      (mk_cfg (ztake 63 server_ip) server_port
         (if tail_send then ZSTD_COMPRESS_LEVEL_MIN else ZSTD_COMPRESS_LEVEL_MAX) tail_send dry_run
         (json_read_int json (string_bytes "RateLimitMB") 100),
       parse_db_path json, parse_log json)
  end.

Definition main_config (target : list Z) (json : option (list Z)) : config * list Z * (Z * list Z) :=
  let '(ip, port) := main_target target in migrate_config ip port false json.

Definition dryrun_config (json : option (list Z)) : config * list Z * (Z * list Z) :=
  migrate_config [] 0 true json.

(** ** Lemmas *)

(** A list of disks as JSON: the numbers with [seps] between them, the
    closing bracket, and what follows in the file. *)
Fixpoint disks_text (seps : list Z) (l post : list Z) : list Z :=
  match l with
  | [] => CH_BRACKET_END :: post
  | [x] => print_int x ++ CH_BRACKET_END :: post
  | x :: r => print_int x ++ seps ++ disks_text seps r post
  end.

Lemma print_nat_digits x : 0 ≤ x < 2 ^ 31 → Forall (λ c, is_digit c = true) (print_int x) ∧ print_int x ≠ [].
Proof.
  intros Hx. unfold print_int. replace (x <? 0) with false by lia.
  destruct (dec_digits_spec 20 x ltac:(lia) ltac:(lia)) as (HF & _ & Hne & _). done.
Qed.

Lemma sep_not_digit c : disk_sep c = true → is_digit c = false.
Proof. unfold disk_sep, is_digit, CH_SPACE, CH_COMMA. lia. Qed.

Lemma digit_not_sep c : is_digit c = true → disk_sep c = false ∧ (c =? CH_BRACKET_END) = false.
Proof. unfold disk_sep, is_digit, CH_SPACE, CH_COMMA, CH_BRACKET_END. lia. Qed.

(** One number of the list is read, and the text after it is next. *)
Lemma skip_disks_step fuel seps x rest acc :
  0 ≤ x < 2 ^ 31 → Forall (λ c, disk_sep c = true) seps → ends_number rest → len acc < 16 →
  skip_disks_loop (S fuel) (seps ++ print_int x ++ rest) acc = skip_disks_loop fuel rest (acc ++ [x]).
Proof.
  intros Hx Hs He Ha. cbn [skip_disks_loop].
  destruct (print_nat_digits x Hx) as [HF Hne].
  destruct (print_int x) as [|c r] eqn:Ep; [done|]. apply Forall_cons in HF as [Hc HF].
  replace (0 <? len (seps ++ (c :: r) ++ rest)) with true
    by (len_norm; pose proof (len_nonneg seps); pose proof (len_nonneg r); pose proof (len_nonneg rest); lia).
  replace (len acc <? 16) with true by lia. cbn [andb].
  destruct (digit_not_sep c Hc) as [Hsep Hb].
  rewrite skip_while_app by (done || (intros c' s' [= <- <-]; done)). cbn [app].
  rewrite Hb, Hc. cbn [negb]. f_equal.
  - change (c :: r ++ rest) with ((c :: r) ++ rest). apply skip_while_app; [by constructor|exact He].
  - change (c :: r ++ rest) with ((c :: r) ++ rest). rewrite <- Ep, atoi_print; [done| |done].
    unfold in_s. lia.
Qed.

Lemma disks_text_ends seps l post : seps ≠ [] → Forall (λ c, disk_sep c = true) seps → l ≠ [] →
  ∃ x rest, disks_text seps l post = print_int x ++ rest ∧ x = default 0 (head l) ∧ ends_number rest ∧
            rest = match tail l with [] => CH_BRACKET_END :: post | r => seps ++ disks_text seps r post end.
Proof.
  intros Hne Hs Hl. destruct l as [|x [|y r]]; [done| |]; cbn [disks_text head tail].
  - exists x, (CH_BRACKET_END :: post). split; [done|]. split; [done|]. split; [|done].
    by intros c s [= <- <-].
  - exists x, (seps ++ disks_text seps (y :: r) post). split; [done|]. split; [done|]. split; [|done].
    destruct seps as [|c seps]; [done|]. apply Forall_cons in Hs as [Hc _].
    intros c' s' [= <- _]. by apply sep_not_digit.
Qed.

Lemma skip_disks_text seps l post :
  seps ≠ [] → Forall (λ c, disk_sep c = true) seps → Forall (λ x, 0 ≤ x < 2 ^ 31) l →
  ∀ fuel pre acc, (length l < fuel)%nat → len acc ≤ 16 → Forall (λ c, disk_sep c = true) pre →
  skip_disks_loop fuel (pre ++ disks_text seps l post) acc = ztake 16 (acc ++ l).
Proof.
  intros Hne Hs. induction l as [|x l IH]; intros Hl fuel pre acc Hf Ha Hp.
  - destruct fuel as [|fuel]; [lia|]. cbn [disks_text]. rewrite app_nil_r, ztake_ge by lia.
    cbn [skip_disks_loop]. case_test; [|done].
    rewrite skip_while_app by (done || (intros c s' [= <- <-]; done)). done.
  - apply Forall_cons in Hl as [Hx Hl].
    destruct (disks_text_ends seps (x :: l) post Hne Hs ltac:(done)) as (x' & rest & -> & -> & He & Hr).
    cbn [head default tail] in *. destruct (Z.lt_ge_cases (len acc) 16) as [Hlt|Hge].
    + destruct fuel as [|fuel]; [cbn in Hf; lia|].
      change (default 0 (Some x)) with x. rewrite skip_disks_step by done.
      replace (acc ++ x :: l) with ((acc ++ [x]) ++ l) by (by rewrite <- app_assoc).
      destruct l as [|y l]; subst rest; [|apply IH; [done|cbn in *; lia|len_norm; lia|done]].
      apply (IH Hl fuel []); [cbn in *; lia|len_norm; lia|constructor].
    + destruct fuel as [|fuel]; [cbn in Hf; lia|]. cbn [skip_disks_loop].
      replace (len acc <? 16) with false by lia. rewrite andb_false_r.
      symmetry. apply ztake_app_exact. lia.
Qed.

Lemma disks_text_len seps l post :
  Forall (λ x, 0 ≤ x < 2 ^ 31) l → (length l < length (disks_text seps l post))%nat.
Proof.
  induction l as [|x l IH]; intros HF; cbn [disks_text]; [cbn; lia|].
  apply Forall_cons in HF as [Hx HF]. destruct (print_nat_digits x Hx) as [_ Hne].
  specialize (IH HF). destruct (print_int x); [done|]. destruct l; cbn in *; rewrite ?length_app in *; cbn in *; lia.
Qed.

(** ** Properties *)

(** [target_roundtrip]: an address ["<ip>:<port>"] with an ip of at most 63
    characters and a port from 0 to 65535 is read back exactly by both commands,
    except that the migration command reads port 0 as 3389; without a colon the
    port is 3389. *)
Theorem target_roundtrip ip port :
  CH_COLON ∉ ip → len ip ≤ 63 → 0 ≤ port < 65536 →
  parse_target (ip ++ CH_COLON :: print_int port) = (ip, port) ∧
  main_target (ip ++ CH_COLON :: print_int port) = (ip, if port =? 0 then DEFAULT_PORT else port) ∧
  parse_target ip = (ip, DEFAULT_PORT).
Proof.
  intros Hc Hl Hp.
  assert (Hparse : parse_target (ip ++ CH_COLON :: print_int port) = (ip, port)).
  { unfold parse_target. rewrite strchr_app by done. f_equal.
    - rewrite len_app. replace (len ip + len (CH_COLON :: print_int port) - len (CH_COLON :: print_int port)) with (len ip) by lia.
      rewrite Z.min_l by lia. by apply ztake_app_exact.
    - change (zdrop 1 (CH_COLON :: print_int port)) with (print_int port).
      rewrite <- (app_nil_r (print_int port)), atoi_print; [|unfold in_s; lia|done].
      apply (wrapU_id 16). unfold in_u. lia. }
  split; [done|]. split; [unfold main_target; by rewrite Hparse|].
  unfold parse_target. replace (strchr ip CH_COLON) with (@None (list Z)); [f_equal; apply ztake_ge; lia|].
  clear -Hc. induction ip as [|c ip IH]; [done|]. apply not_elem_of_cons in Hc as [Hx Hc]. cbn.
  replace (c =? CH_COLON) with false by lia. by apply IH.
Qed.

Lemma target_roundtrip_witness :
  parse_target (string_bytes "10.0.0.7:8443") = (string_bytes "10.0.0.7", 8443).
Proof.
  apply (target_roundtrip (string_bytes "10.0.0.7") 8443); [|vm_compute; congruence|lia].
  apply (bool_decide_unpack (_ ∉ _)). vm_compute. exact I.
Defined.

(** [skip_disks_read]: the array of the skip list, its numbers separated by
    blanks and commas, is read back up to sixteen numbers, whatever follows it; but
    a configuration that also has a section ["Disks"] has no skip list. *)
Theorem skip_disks_read pre seps l post :
  CH_QUOTE ∉ pre → seps ≠ [] → Forall (λ c, disk_sep c = true) seps → Forall (λ x, 0 ≤ x < 2 ^ 31) l →
  let json := pre ++ (CH_QUOTE :: string_bytes "SkipDisks" ++ [CH_QUOTE]) ++ CH_COLON :: CH_SPACE :: CH_BRACKET ::
              disks_text seps l post in
  parse_skip_disks json =
    if bool_decide (is_Some (Sender.json_nav json (string_bytes "Disks"))) then [] else ztake 16 l.
Proof.
  intros Hq Hne Hs Hl json. unfold parse_skip_disks.
  destruct (Sender.json_nav json (string_bytes "Disks")) as [p|]; [done|].
  rewrite bool_decide_false by (by intros [? [=]]).
  unfold json. change (CH_QUOTE :: string_bytes "SkipDisks" ++ [CH_QUOTE]) with
    (CH_QUOTE :: (string_bytes "SkipDisks" ++ [CH_QUOTE])).
  rewrite strstr_skip by done.
  replace ((CH_QUOTE :: (string_bytes "SkipDisks" ++ [CH_QUOTE])) ++ CH_COLON :: CH_SPACE :: CH_BRACKET :: disks_text seps l post)
    with ((CH_QUOTE :: string_bytes "SkipDisks" ++ [CH_QUOTE; CH_COLON; CH_SPACE]) ++ CH_BRACKET :: disks_text seps l post)
    by done.
  rewrite strchr_app by (apply (bool_decide_unpack (_ ∉ _)); vm_compute; exact I).
  change (zdrop 1 (CH_BRACKET :: disks_text seps l post)) with (disks_text seps l post).
  apply (skip_disks_text seps l post Hne Hs Hl _ [] []); [|done|done].
  pose proof (disks_text_len seps l post Hl). cbn. lia.
Qed.

Lemma skip_disks_read_witness :
  parse_skip_disks (string_bytes "{ " ++ (CH_QUOTE :: string_bytes "SkipDisks" ++ [CH_QUOTE]) ++
    CH_COLON :: CH_SPACE :: CH_BRACKET :: disks_text [CH_COMMA; CH_SPACE] [3; 14] [125]) = [3; 14].
Proof.
  rewrite (skip_disks_read (string_bytes "{ ") [CH_COMMA; CH_SPACE] [3; 14] [125]).
  - reflexivity.
  - apply (bool_decide_unpack (_ ∉ _)). vm_compute. exact I.
  - discriminate.
  - repeat constructor.
  - repeat constructor; lia.
Defined.
