(* ===== verification/MainRun.v ===== *)
(** * The migration entries (client/main.c: the migration part of [main] and
      [cmd_dryrun])

    The configuration is read, the volumes are enumerated, the modules are
    initialised, [do_migrate] runs, the modules are freed.  [open_db] opens the
    tracker by its path, the network is [connects] and [socks].  An outcome is
    the exit code and, when the modules were reached, the state at the end. *)

From stdpp Require Import strings.
From S2P Require Import Prelude Protocol Net Zstd Msgpack Wire Queue Timer Pool Tracker BlockIO Json Volume Vss.
From S2P Require Import Client Incremental Migrate Config.

Section Main.
Context `{Zstd} (realloc_ok : Z → bool) (malloc_ok : nat → bool).
Context (clock wall : nat → Z) (running : nat → bool) (rand_at : nat → nat → Z).
Context (open_reader : list Z → option block_reader) (open_db : list Z → option sqlite_db).

(** The tracker before it is opened: a null pointer. *)
Definition no_db : sqlite_db := mk_db ∅ [] [] [].

(** The zeroed context with the modules set up. *)
Definition engine_start (queue_ok : bool) (p : socket_pool) (socks : gmap Z sock) : mstate :=
  mk_ms (mk_cs (queue_init queue_ok).2 no_db p socks (msgpack_writer_init realloc_ok) 0 0 0 0 0 0 0 0 0 false)
    (timer_init (clock 0)) 0 0 0.

Definition free_modules (c : cstate) : cstate :=
  set_writer (set_queue c (queue_destroy (cs_queue c))) (msgpack_writer_free (cs_writer c)).

Definition main_migrate (fuel : nat) (target : list Z) (json : option (list Z)) (enum : list volume_info * Z)
    (buf_ok queue_ok mutex_ok : bool) (slot_ok : Z → bool) (connects : list (option Z)) (socks : gmap Z sock)
    (vss_ok : bool) (snaps : option (list vss_snapshot)) : option (Z * option mstate) :=
  let '(cfg, db_path, _) := main_config target json in
  let '(vols, rc) := enum in
  if negb (rc =? 0) then Some (1, None)
  else
    let '(prc, p) := pool_init slot_ok (wall 0) mutex_ok (cf_server_ip cfg) (cf_server_port cfg) connects in
    if negb (prc =? 0) then Some (1, None)
    else
      '(rc, m) ← do_migrate realloc_ok malloc_ok clock wall running cfg rand_at open_reader fuel
                   (open_db (ztake 511 db_path)) buf_ok vss_ok snaps [] vols (engine_start queue_ok p socks);
      Some (rc, Some (with_c m (free_modules (set_pool (ms_c m) (pool_destroy (cs_pool (ms_c m))))))).

(** The pool of a dry run: [memset], never initialised. *)
Definition zero_pool (connects : list (option Z)) : socket_pool :=
  mk_pool (replicate POOL_SLOTS zero_conn) 0 0 connects [].

Definition cmd_dryrun (fuel : nat) (json : option (list Z)) (enum : list volume_info * Z)
    (buf_ok queue_ok : bool) (connects : list (option Z)) (socks : gmap Z sock)
    (vss_ok : bool) (snaps : option (list vss_snapshot)) : option (Z * option mstate) :=
  let '(cfg, db_path, _) := dryrun_config json in
  let '(vols, rc) := enum in
  if negb (rc =? 0) then Some (1, None)
  else
    '(rc, m) ← do_migrate realloc_ok malloc_ok clock wall running cfg rand_at open_reader fuel
                 (open_db (ztake 511 db_path)) buf_ok vss_ok snaps [] vols
                 (engine_start queue_ok (zero_pool connects) socks);
    Some (rc, Some (with_c m (free_modules (ms_c m)))).

End Main.

(** ** A dry run stays off the network *)

(** Neither the sockets nor the pool have changed. *)
Definition offline (c c' : cstate) : Prop := cs_socks c' = cs_socks c ∧ cs_pool c' = cs_pool c.

#[export] Instance offline_preorder : PreOrder offline.
Proof. split; unfold offline; [done|]. intros ??? [] []. split; congruence. Qed.

Section Offline.
Context `{Zstd} (realloc_ok : Z → bool) (malloc_ok : nat → bool).
Context (clock wall : nat → Z) (running : nat → bool) (cfg : config) (rand_at : nat → nat → Z).
Context (open_reader : list Z → option block_reader).
Context (dry : cf_dry_run cfg = true) (full : cf_tail_send cfg = false).

Lemma ack_block_offline c d o : offline c (ack_block cfg c d o).
Proof using full. unfold ack_block. by rewrite full. Qed.

Lemma process_ack_offline c : offline c (process_ack cfg c).
Proof using dry full.
  unfold process_ack. rewrite dry. generalize (queue_get_pending (cs_queue c) 256). intros l. revert c.
  induction l as [|[d o] l IH]; intros c; [done|]. etransitivity; [apply (ack_block_offline c d o)|apply IH].
Qed.

Lemma flush_one_offline c : offline c (flush_one clock wall cfg c).2.
Proof using dry full.
  unfold flush_one. destruct (queue_pop (cs_queue c)) as [[entry|] q]; [|done]. rewrite dry. cbn [snd].
  etransitivity; [|apply ack_block_offline]. done.
Qed.

Lemma drain_offline fuel : ∀ c, offline c (drain clock wall cfg fuel c).
Proof using dry full.
  induction fuel as [|fuel IH]; intros c; cbn [drain]; [done|]. pose proof (flush_one_offline c) as Hf.
  destruct (flush_one clock wall cfg c) as [rc c1]. case_test; [|done]. etransitivity; [exact Hf|apply IH].
Qed.

Lemma flush_ack_offline c : offline c (process_ack cfg (drain_queue clock wall cfg c)).
Proof using dry full. etransitivity; [apply drain_offline|apply process_ack_offline]. Qed.

Lemma force_drain_offline fuel : ∀ c, offline c (force_drain clock wall running cfg fuel c).
Proof using dry full.
  induction fuel as [|fuel IH]; intros c; cbn [force_drain]; [done|]. case_test; [|done]. unfold is_running.
  destruct (running (cs_tick c)); [|done]. etransitivity; [|apply IH]. etransitivity; [|apply flush_ack_offline]. done.
Qed.

Lemma push_retry_offline fuel : ∀ retry c d o h payload,
  offline c (push_retry malloc_ok clock wall running cfg fuel retry c d o h payload).2.
Proof using dry full.
  induction fuel as [|fuel IH]; intros retry c d o h payload; cbn [push_retry]; [done|].
  destruct (queue_push _ _ _ _ _ _) as [rc q]. case_test; [done|]. unfold is_running. case_test; [done|].
  assert (Hs : offline c (process_ack cfg (drain_queue clock wall cfg (tick (set_queue c q)))))
    by (etransitivity; [|apply flush_ack_offline]; done).
  case_test; (etransitivity; [|apply IH]); [|exact Hs]. etransitivity; [exact Hs|apply force_drain_offline].
Qed.

Lemma send_block_offline c reader d o ro :
  offline c (send_block realloc_ok malloc_ok clock wall running cfg c reader d o ro).2.
Proof using dry full.
  unfold send_block. destruct (block_reader_read reader ro BLOCK_SIZE) as [data|]; [|done]. case_test; [done|].
  destruct (sqlite_block_acked (cs_db c) d (s64 o)) as [acked db]. case_test; [done|]. rewrite full. cbn match.
  destruct (msgpack_encode_block _ _ _ _ _) as [w|]; [|done].
  match goal with |- context [push_retry _ _ _ _ _ ?f ?r ?s ?a ?b ?h ?p] =>
    pose proof (push_retry_offline f r s a b h p) as Hp; destruct (push_retry _ _ _ _ _ f r s a b h p) as [ok s'] end.
  by destruct ok.
Qed.

Lemma retransmit_offline readers : ∀ blocks c,
  offline c (retransmit_loop realloc_ok malloc_ok clock wall running cfg blocks readers c).
Proof using dry full.
  induction blocks as [|[d o] blocks IH]; intros c; cbn [retransmit_loop]; [done|]. unfold is_running. case_test; [done|].
  destruct (find_reader readers d (u64 o)) as [[e ro]|]; [|etransitivity; [|apply IH]; done].
  etransitivity; [|apply IH]. etransitivity; [|apply send_block_offline]. done.
Qed.

Lemma do_retransmit_offline c readers :
  offline c (do_retransmit realloc_ok malloc_ok clock wall running cfg c readers).
Proof using dry full.
  unfold do_retransmit. destruct (sqlite_get_unacked (cs_db c) 256 (Some [])) as [[n l] db].
  etransitivity; [|apply retransmit_offline]. done.
Qed.

Lemma progress_offline readers : ∀ c, offline c (print_full_progress readers c).
Proof using.
  induction readers as [|e readers IH]; intros c; [done|].
  etransitivity; [|apply (IH (set_db c (sqlite_count_blocks (cs_db c) (re_devno e) 1).2))]. done.
Qed.

Lemma bp_wait_offline fuel : ∀ c, offline c (bp_wait clock wall running cfg fuel c).
Proof using dry full.
  induction fuel as [|fuel IH]; intros c; cbn [bp_wait]; [done|]. case_test; [|done]. unfold is_running.
  destruct (running (cs_tick c)); [|done]. etransitivity; [|apply IH].
  etransitivity; [|apply drain_offline]. etransitivity; [|apply process_ack_offline]. done.
Qed.

(** The same for the run's state. *)
Definition moffline (m m' : mstate) : Prop := offline (ms_c m) (ms_c m').

Lemma full_event_offline fuel readers ev m m' :
  full_event realloc_ok malloc_ok clock wall running cfg rand_at fuel readers ev m = Some m' → moffline m m'.
Proof using dry full.
  unfold full_event, moffline. rewrite dry, full.
  destruct ev; intros [= <-]; cbn; try done; [apply do_retransmit_offline|apply progress_offline].
Qed.

Lemma timer_loop_offline (handle : timer_event_t → mstate → option mstate) stop :
  (∀ ev m m', handle ev m = Some m' → moffline m m') → ∀ fuel now m m',
  timer_loop clock fuel handle stop now m = Some m' → moffline m m'.
Proof using.
  intros Hh fuel. induction fuel as [|fuel IH]; intros now m m' Hl; cbn [timer_loop] in Hl; [done|].
  destruct (timer_check (ms_timer m) now) eqn:Ec; [by injection Hl as <-|..];
    (destruct (handle _ m) as [m1|] eqn:Eh; cbn [mbind option_bind] in Hl; [|done]; apply Hh in Eh;
     unfold timer_now in Hl; cbn in Hl; destruct (stop _);
     [injection Hl as <-; exact Eh|apply IH in Hl; unfold moffline in *; etransitivity; [exact Eh|exact Hl]]).
Qed.

Lemma send_and_flush_offline m reader d o ro :
  moffline m (send_and_flush realloc_ok malloc_ok clock wall running cfg m reader d o ro).
Proof using dry full.
  unfold send_and_flush, moffline. pose proof (send_block_offline (ms_c m) reader d o ro) as Hs.
  destruct (send_block _ _ _ _ _ _ (ms_c m) reader d o ro) as [rc c]. cbn [snd] in Hs.
  destruct (rc =? 0); cbn [with_c ms_c count_sent]; (etransitivity; [exact Hs|apply flush_ack_offline]).
Qed.

Lemma block_loop_offline fuel readers e n : ∀ blk m m',
  block_loop realloc_ok malloc_ok clock wall running cfg rand_at fuel readers e n blk m = Some m' → moffline m m'.
Proof using dry full.
  induction n as [|n IH]; intros blk m m' Hl; cbn [block_loop] in Hl; [by injection Hl as <-|].
  unfold is_running in Hl. destruct (negb (running (cs_tick (ms_c m)))); [by injection Hl as <-|].
  destruct (block_offsets e blk) as [o ro]. unfold timer_now in Hl.
  match type of Hl with context [send_and_flush _ _ _ _ _ _ ?x ?r ?d ?o ?ro] =>
    pose proof (send_and_flush_offline x r d o ro) as Hs; set (m1 := send_and_flush _ _ _ _ _ _ x r d o ro) in * end.
  destruct (timer_loop _ _ _ _ _ _) as [m2|] eqn:Et; cbn [mbind option_bind] in Hl; [|done].
  apply (timer_loop_offline _ _ (full_event_offline fuel readers)) in Et. apply IH in Hl. unfold moffline in *.
  etransitivity; [|exact Hl]. etransitivity; [|exact Et]. etransitivity; [|exact Hs]. cbn [with_c ms_c].
  etransitivity; [|apply bp_wait_offline]. done.
Qed.

Lemma full_transfer_offline fuel readers : ∀ todo m m',
  full_transfer realloc_ok malloc_ok clock wall running cfg rand_at fuel readers todo m = Some m' → moffline m m'.
Proof using dry full.
  induction todo as [|e todo IH]; intros m m' Hl; cbn [full_transfer] in Hl; [by injection Hl as <-|].
  unfold is_running in Hl. destruct (negb (running (cs_tick (ms_c m)))); [by injection Hl as <-|].
  destruct (block_loop _ _ _ _ _ _ _ _ _ _ _ _ _) as [m1|] eqn:Eb; cbn [mbind option_bind] in Hl; [|done].
  apply block_loop_offline in Eb. apply IH in Hl. unfold moffline in *. etransitivity; [|exact Hl]. exact Eb.
Qed.

Lemma gpt_footer_offline t disk d e : ∀ m, moffline m (gpt_footer realloc_ok malloc_ok clock wall running cfg t disk d e m).
Proof using dry full.
  induction t as [|t IH]; intros m; cbn [gpt_footer]; [done|]. unfold is_running. case_test; [done|].
  unfold moffline in *. etransitivity; [|apply IH]. etransitivity; [|apply send_and_flush_offline]. done.
Qed.

Lemma gpt_backup_offline todo : ∀ seen m,
  moffline m (gpt_backup realloc_ok malloc_ok clock wall running cfg open_reader seen todo m).
Proof using dry full.
  induction todo as [|e todo IH]; intros seen m; cbn [gpt_backup]; [done|]. unfold is_running. case_test; [done|].
  unfold moffline in *. case_test; [etransitivity; [|apply IH]; done|].
  destruct (if re_is_vss e then _ else _) as [disk|]; [|etransitivity; [|apply IH]; done].
  etransitivity; [|apply IH]. unfold gpt_disk.
  assert (Hs : moffline m (send_and_flush realloc_ok malloc_ok clock wall running cfg (with_c m (tick (ms_c m))) disk (re_devno e) 0 0))
    by (unfold moffline; etransitivity; [|apply send_and_flush_offline]; done).
  case_test; [|exact Hs]. etransitivity; [exact Hs|apply gpt_footer_offline].
Qed.

Lemma final_drain_offline n : ∀ c, offline c (final_drain clock wall cfg n c).
Proof using dry full.
  induction n as [|n IH]; intros c; cbn [final_drain]; [done|]. case_test; [|done].
  etransitivity; [apply flush_ack_offline|apply IH].
Qed.

Lemma transfer_offline fuel readers m m' :
  transfer realloc_ok malloc_ok clock wall running cfg rand_at open_reader fuel readers m = Some m' → moffline m m'.
Proof using dry full.
  unfold transfer. rewrite dry, full. cbn [andb negb]. generalize 300%nat. intros attempts Hl.
  destruct (full_transfer _ _ _ _ _ _ _ _ _ _ _) as [m1|] eqn:Ef; cbn [mbind option_bind] in Hl; [|done].
  apply full_transfer_offline in Ef. injection Hl as <-. unfold finish_full. rewrite dry. unfold moffline in *. cbn [with_c ms_c] in *.
  etransitivity; [apply progress_offline|]. etransitivity; [exact Ef|].
  etransitivity; [apply gpt_backup_offline|apply final_drain_offline].
Qed.

Lemma do_migrate_offline fuel db buf_ok vss_ok snaps skip vols m rc m' :
  do_migrate realloc_ok malloc_ok clock wall running cfg rand_at open_reader fuel db buf_ok vss_ok snaps skip vols m =
    Some (rc, m') → moffline m m'.
Proof using dry full.
  unfold do_migrate. destruct db as [db|]; [|by intros [= _ <-]].
  case_test; [by intros [= _ <-]|]. case_test; [by intros [= _ <-]|].
  destruct snaps as [[|sn snaps]|]; [by intros [= _ <-]| |by intros [= _ <-]].
  destruct (open_readers _ _ _ _) as [[|e es] vs]; [by intros [= _ <-]|].
  destruct (transfer _ _ _ _ _ _ _ _ _ _ _) as [m1|] eqn:Et; [|done]. intros [= _ <-]. by apply transfer_offline in Et.
Qed.

End Offline.

(** ** Properties *)

(** C29 (dry_run_offline): a dry run of a full migration, whatever the disks, the
    configuration without TailSend, the snapshots and the timers, does no network
    I/O: it ends with every socket as it was and the pool untouched, with nothing
    connected, sent, received or closed. *)
Theorem dry_run_offline `{Zstd} realloc_ok malloc_ok clock wall running rand_at open_reader open_db fuel json enum
    buf_ok queue_ok connects socks vss_ok snaps rc m :
  (∀ text, json = Some text → json_read_int text (string_bytes "TailSend") 0 = 0) →
  cmd_dryrun realloc_ok malloc_ok clock wall running rand_at open_reader open_db fuel json enum buf_ok queue_ok
    connects socks vss_ok snaps = Some (rc, Some m) →
  cs_socks (ms_c m) = socks ∧ cs_pool (ms_c m) = zero_pool connects.
Proof.
  intros Hj Hr. unfold cmd_dryrun in Hr.
  destruct (dryrun_config json) as [[cfg db_path] lg] eqn:Ec. destruct enum as [vols erc].
  destruct (negb (erc =? 0)); [done|].
  assert (Hcfg : cf_dry_run cfg = true ∧ cf_tail_send cfg = false).
  { replace cfg with (dryrun_config json).1.1 by (by rewrite Ec). clear -Hj. unfold dryrun_config, migrate_config.
    destruct json as [text|]; [|done]. cbn [fst cf_dry_run cf_tail_send]. by rewrite (Hj text eq_refl). }
  destruct Hcfg as [Hd Ht].
  destruct (do_migrate _ _ _ _ _ _ _ _ _ _ _ _ _ _ _ _) as [[rc' m']|] eqn:Em; cbn [mbind option_bind] in Hr; [|done].
  injection Hr as <- <-. apply do_migrate_offline in Em; [|done|done]. destruct Em as [H1 H2]. by split.
Qed.

(** The dry run of Migrate.v, from the command. *)
#[local] Abbreviation demo_dryrun json :=
  (cmd_dryrun (H := stored_zstd) alloc_always always midnight midnight always (λ _ _, 0) demo_open
    (λ _, Some (demo_db [])) 10 json (demo_volumes, 0) true true [] ∅ true (Some demo_snapshots)).

Lemma demo_dryrun_ends : ∃ m, demo_dryrun None = Some (0, Some m) ∧ ms_sent_blocks m = 5.
Proof. vm_compute. eexists. split; reflexivity. Qed.

Lemma dry_run_offline_witness :
  match demo_dryrun None with
  | Some (rc, Some m) => rc = 0 ∧ cs_pool (ms_c m) = zero_pool [] ∧ ms_sent_blocks m = 5
  | _ => False
  end.
Proof.
  destruct demo_dryrun_ends as (m & E & Hm). rewrite E. split; [reflexivity|]. split; [|exact Hm].
  eapply dry_run_offline in E; [exact (proj2 E)|]. intros t. discriminate.
Defined.

(** [dry_run_reconnects]: with TailSend the dry run is not offline.  Its
    incremental loop calls [do_reconnect] on the pool no one initialised: from the
    zeroed pool it closes descriptor 0 seven times and leaves a count of minus
    seven, whenever the clock is past the stale time-out. *)
Theorem dry_run_reconnects wall fuel c connects :
  STALE_SOCKET_TIMEOUT_SEC < wall (cs_tick c) → cs_pool c = zero_pool connects →
  ∃ c', do_reconnect wall (S fuel) c = Some c' ∧ pl_closed (cs_pool c') = [0; 0; 0; 0; 0; 0; 0] ∧
        pl_count (cs_pool c') = -7.
Proof.
  intros Hw Hp. unfold do_reconnect, time_now. cbn [cs_pool tick]. rewrite Hp.
  assert (Hs : conn_stale (wall (cs_tick c)) zero_conn = true).
  { unfold conn_stale, conn_free. cbn [c_fd c_in_use c_last_active zero_conn]. rewrite Z.sub_0_r. cbn. lia. }
  unfold pool_reap_stale, zero_pool. cbn [pl_conns pl_count pl_next_index pl_connects pl_closed].
  change POOL_SLOTS with 7%nat. cbn [replicate fmap list_fmap]. rewrite Hs.
  rewrite filter_all by (by repeat constructor). eexists. split; [reflexivity|]. done.
Qed.

Lemma dry_run_reconnects_witness :
  ∃ c', do_reconnect (λ _, 1000) 1 (ms_c (engine_start alloc_always (λ _, 0) true (zero_pool []) ∅)) = Some c' ∧
        pl_closed (cs_pool c') = [0; 0; 0; 0; 0; 0; 0].
Proof.
  destruct (dry_run_reconnects (λ _, 1000) 0 (ms_c (engine_start alloc_always (λ _, 0) true (zero_pool []) ∅)) []
    ltac:(reflexivity) eq_refl) as (c' & H1 & H2 & _). by exists c'.
Defined.
