(* ===== verification/Commands.v ===== *)
(** * The client's commands (client/main.c: [main] and the [cmd_] functions other
      than [cmd_incsync] and [cmd_dryrun])

    What a command prints is a structured value: the numbers and names of the
    lines, not their layout.  A file is its content, [None] when it cannot be
    opened; the tracker is the opened database. *)

From stdpp Require Import strings sorting.
From S2P Require Import Prelude Protocol Hash Json BlockIO Volume Vss Driver Syschk Tracker.

#[local] Abbreviation text := string_bytes.

(** [read_file_all]: the text up to its first NUL, as the parsers see it. *)
Definition read_file_all (file : option (list Z)) (malloc_ok : bool) : option (list Z) :=
  content ← file; if malloc_ok then Some (take_until (λ c, c =? 0) content) else None.

(** ** Disks and files *)

(** The rows of the table: devno, total_bytes, block_count, name, disk_path. *)
Definition cmd_info (enum : list volume_info * Z) : Z * list (Z * Z * Z * list Z * list Z) :=
  let '(vols, rc) := enum in
  if negb (rc =? 0) then (1, [])
  else (0, (λ v, (vi_devno v, vi_total_bytes v, vi_block_count v, vi_name v, vi_disk_path v)) <$> vols).

(** The hash and the size printed. *)
Definition cmd_hash (file : option (list Z)) (malloc_ok : bool) : Z * option (Z * Z) :=
  match file with
  | None => (1, None)
  | Some content =>
      let size := len content in
      if size <=? 0 then (1, None)
      else if negb malloc_ok then (1, None)
      else (0, Some (hash_block content 0, size))
  end.

(** The size and the number of blocks; then the first block's length and hash,
    [None] for a read error ([Some None]) or without a buffer ([None]). *)
Definition cmd_check (r : option block_reader) (malloc_ok : bool)
    : Z * option (Z * Z * option (option (Z * Z))) :=
  match r with
  | None => (1, None)
  | Some r =>
      let first := if malloc_ok then
                     Some ((λ data, (len data, hash_block data 0)) <$> block_reader_read r 0 BLOCK_SIZE)
                   else None in
      (0, Some (block_reader_size r, block_reader_block_count r BLOCK_SIZE, first))
  end.

(** ** The tracker *)

Definition cmd_end_session (db : option sqlite_db) : Z * option sqlite_db :=
  match db with
  | None => (1, None)
  | Some db => let '(rc, db) := sqlite_clear_all_blocks db in (if rc =? 0 then 0 else 1, Some db)
  end.

(** The exit code and the number printed. *)
Definition cmd_sentbytes (db : option sqlite_db) : Z * Z :=
  match db with
  | None => (1, 0)
  | Some db => let total := (sqlite_total_acked_bytes db).1 in (0, if total <? 0 then 0 else total)
  end.

Record bi_args := mk_bi {
  ba_db_path : list Z;
  ba_devno : Z;
  ba_offset : option Z;
  ba_ack : Z;
  ba_version : Z;
  ba_history : bool;
}.

(** The flags, while an argument begins with a hyphen. *)
Fixpoint bi_flags (args : list (list Z)) (a : bi_args) : list (list Z) * bi_args :=
  match args with
  | (45 :: f) :: r =>
      let flag := 45 :: f in
      let set ack version history := mk_bi (ba_db_path a) (ba_devno a) (ba_offset a) ack version history in
      bi_flags r
        (if bool_decide (flag = text "--pending") then set 0 (ba_version a) (ba_history a)
         else if bool_decide (flag = text "--acked") then set 1 (ba_version a) (ba_history a)
         else if bool_decide (flag = text "--all") then set (-1) (ba_version a) (ba_history a)
         else if bool_decide (flag = text "--history") then set (ba_ack a) (ba_version a) true
         else if starts_with (text "--version=") flag then set (ba_ack a) (atoi (zdrop 10 flag)) (ba_history a)
         else a)
  | _ => (args, a)
  end.

(** The arguments after the command's name: a path is one with a dot in it. *)
Definition bi_parse (args : list (list Z)) : bi_args :=
  let '(args, a) := bi_flags args (mk_bi (text "tracker.db") (-1) None (-1) (-1) false) in
  let '(args, path) := match args with
                       | p :: r => if strchr p 46 then (r, p) else (args, ba_db_path a)
                       | [] => (args, ba_db_path a)
                       end in
  let '(args, devno) := match args with d :: r => (r, atoi d) | [] => (args, -1) end in
  let offset := match args with o :: _ => Some (strtoll o) | [] => None end in
  mk_bi path devno offset (ba_ack a) (ba_version a) (ba_history a).

(** [print_block_detail]: the index of a block at a multiple of the block size, the
    size, the round it was sent in (0: the full transfer), the confirmation. *)
Definition print_block_detail (b : block_info) : Z * Z * option Z * Z * Z * Z * bool * Z * list Z :=
  let '(devno, offset, r) := b in
  (devno, offset, if Z.rem offset BLOCK_SIZE =? 0 then Some (Z.quot offset BLOCK_SIZE) else None,
   r_size r, u64 (r_hash r), r_version r, negb (r_ack r =? 0), r_last_sent r, r_remote_id r).

Inductive bi_report :=
  | BiNoDatabase
  | BiBlock (d : Z * Z * option Z * Z * Z * Z * bool * Z * list Z)
  | BiNotFound (devno offset : Z)
  | BiDatabaseError
  | BiDisk (devno shown acked pending : Z) (rows : list block_info)
  | BiSummary (total acked pending acked_bytes : Z) (history : option (list (version_row * Z)))
      (disks : list (Z * Z * Z * Z)) (versions : list (Z * Z)).

(** One disk *)
Definition bi_disk (a : bi_args) (calloc_ok : bool) (db : sqlite_db) : bi_report :=
  let devno := ba_devno a in
  let '(total, db) := sqlite_count_blocks db devno (-1) in
  let '(acked, db) := sqlite_count_blocks db devno 1 in
  let '(pending, db) := sqlite_count_blocks db devno 0 in
  let cap := if ba_ack a =? 0 then pending else if ba_ack a =? 1 then acked else total in
  let rows :=
    if (0 <? total) && (0 <? cap) && calloc_ok then
      let '(n, list, _) := sqlite_list_blocks db devno total in
      filter (λ b, (ba_ack a < 0 ∨ r_ack b.2 = ba_ack a) ∧ (ba_version a < 0 ∨ r_version b.2 = ba_version a))
        (ztake n list)
    else [] in
  BiDisk devno cap acked pending rows.

(** The disks 0 to 15 that have blocks *)
Fixpoint bi_disks (n : nat) (d : Z) (db : sqlite_db) : list (Z * Z * Z * Z) * sqlite_db :=
  match n with
  | O => ([], db)
  | S n' =>
      let '(dt, db) := sqlite_count_blocks db d (-1) in
      if dt =? 0 then bi_disks n' (d + 1) db
      else
        let '(da, db) := sqlite_count_blocks db d 1 in
        let '(dp, db) := sqlite_count_blocks db d 0 in
        let '(l, db) := bi_disks n' (d + 1) db in ((d, dt, da, dp) :: l, db)
  end.

Fixpoint bi_versions (vs : list version_row) (db : sqlite_db) : list (Z * Z) * sqlite_db :=
  match vs with
  | [] => ([], db)
  | v :: r =>
      let '(bc, db) := sqlite_count_blocks_by_version db (v_version v) None in
      let '(l, db) := bi_versions r db in ((v_version v, bc) :: l, db)
  end.

(** The duration of a round in seconds *)
Definition duration (v : version_row) : Z :=
  if v_start_time v <? v_end_time v then Z.quot (v_end_time v - v_start_time v) 1000 else 0.

Definition bi_summary (a : bi_args) (db : sqlite_db) : bi_report :=
  let '(total, db) := sqlite_count_blocks db (-1) (-1) in
  let '(acked, db) := sqlite_count_blocks db (-1) 1 in
  let '(pending, db) := sqlite_count_blocks db (-1) 0 in
  let '(acked_bytes, db) := sqlite_total_acked_bytes db in
  let '(history, db) :=
    if ba_history a then
      let '(vn, vinfos, db) := sqlite_get_version_history db None 64 in
      (Some ((λ v, (v, duration v)) <$> ztake vn vinfos), db)
    else (None, db) in
  let '(disks, db) := if 0 <? total then bi_disks 16 0 db else ([], db) in
  let versions :=
    if (0 <? total) && negb (ba_history a) then
      let '(vn, vinfos, db) := sqlite_get_version_history db None 64 in
      (bi_versions (ztake vn vinfos) db).1
    else [] in
  BiSummary total acked pending acked_bytes history disks versions.

(** [open_db]: opening a tracker by its path *)
Definition cmd_blockinfo (open_db : list Z → option sqlite_db) (calloc_ok : bool) (args : list (list Z)) : Z * bi_report :=
  let a := bi_parse args in
  match open_db (ba_db_path a) with
  | None => (1, BiNoDatabase)
  | Some db =>
      (0,
       match ba_offset a with
       | Some offset =>
           let '(rc, info, _) := sqlite_get_block_info db (ba_devno a) offset in
           match info with
           | Some b => if rc =? 0 then BiBlock (print_block_detail b) else BiDatabaseError
           | None => if rc =? -1 then BiNotFound (ba_devno a) offset else BiDatabaseError
           end
       | None => if 0 <=? ba_devno a then bi_disk a calloc_ok db else bi_summary a db
       end)
  end.

(** ** Snapshots *)

Section VssCommands.
Context (ans : nat → Z) (async : nat → bool) (prop : nat → list Z * list Z) (ident : nat → guid).

(** The path printed *)
Definition cmd_test_vss (s : vlog) : Z * option (list Z) * vlog :=
  match vss_init_ex ans VSS_CTX_CLIENT_ACCESSIBLE s with
  | (None, s) => (1, None, s)
  | (Some x, s) =>
      let '(snaps, x, s) := vss_create_snapshots ans async prop ident (Some x) [text "C:\"] s in
      match snaps with
      | Some (sn :: _) =>
          let s := (vss_backup_complete ans async x s).2 in
          (0, Some (sn_snapshot_path sn), vss_cleanup ans x s)
      | _ => (1, None, vss_cleanup ans x s)
      end
  end.

Definition cmd_vss_query (systime : nat → option (Z * Z * Z * Z * Z * Z)) (s : vlog) : Z * list vss_snapshot_info * vlog :=
  match vss_query_snapshots ans async prop ident systime 64 s with
  | (None, s) => (1, [], s)
  | (Some l, s) => (0, l, s)
  end.

(** The number of snapshots deleted *)
Definition cmd_vss_delete (clsid : list Z → option guid) (deleted : nat → Z) (args : list (list Z)) (s : vlog)
    : Z * option Z * vlog :=
  match args with
  | [] => (1, None, s)
  | a :: _ =>
      let '(n, s) := if bool_decide (a = text "--all") then vss_delete_all_snapshots ans deleted s
                     else vss_delete_snapshot ans clsid deleted a s in
      if n <? 0 then (1, None, s) else (0, Some n, s)
  end.

End VssCommands.

(** ** Firmware, drivers, environment *)

Definition ERROR_INVALID_FUNCTION : Z := 1.

(** [gft]: GetFirmwareType's answer; [variable]: the result and the error of
    GetFirmwareEnvironmentVariableA.  The answer is true for UEFI. *)
Definition cmd_isbios (k32 has_gft : bool) (gft : option Z) (variable : Z * Z) : Z * bool :=
  let ft := if k32 && has_gft then default 0 gft else 0 in
  let is_uefi := ft =? FirmwareTypeUefi in
  let is_uefi := if ft =? 0 then
                   if variable.1 =? 0 then negb (variable.2 =? ERROR_INVALID_FUNCTION) else true
                 else is_uefi in
  (0, is_uefi).

Definition cmd_isbios_linux (efi : bool) : Z * bool := if efi then (1, true) else (0, false).

Definition cmd_begin_session : Z := 0.

(** [argc >= 3 && argv[2][0] != '\0'] *)
Definition driver_dir_arg (args : list (list Z)) : list Z :=
  match args with
  | (c :: d) :: _ => c :: d
  | _ => text "drivers"
  end.

Inductive driver_line := AlreadyInstalled | InstalledNow | Failed (error : list Z).

Definition driver_line_of (r : driver_result) : driver_line :=
  if negb (dr_installed r =? 0) then AlreadyInstalled
  else if dr_just_installed r then InstalledNow
  else Failed (dr_error r).

Definition cmd_inject_driver {W} (E : denv W) (args : list (list Z)) (w : W) : W * Z * list (list Z * driver_line) :=
  let '(w, rc, results) := driver_inject_virtio E (driver_dir_arg args) w in
  (w, if rc =? 0 then 0 else 1, (λ r, (dr_name r, driver_line_of r)) <$> results).

(** The lines ([None]: installed, else the reason), and the number installed. *)
Definition cmd_check_drivers {W} (E : denv W) (w : W) : W * Z * list (list Z * option (list Z)) * Z :=
  let '(w, rc, results) := driver_check_virtio E w in
  let reason r := match dr_error r with [] => text "driver not in store" | e => e end in
  (w, rc, (λ r, (dr_name r, if negb (dr_installed r =? 0) then None else Some (reason r))) <$> results,
   len (filter (λ r, dr_installed r ≠ 0) results)).

(** The exit code and the text printed *)
Definition cmd_checkenv {W} (E : denv W) (S : sysenv) (args : list (list Z)) (w : W) : cres (W * Z * list Z) :=
  '(w, rc, result) ← system_check_run E S (Some (driver_dir_arg args)) w;
  Ret (w, rc, system_check_print result).

(** ** The dispatch of [main] *)

Inductive command :=
  | Help | Info | HashFile (file : list Z) | CheckDisk (disk : list Z)
  | BeginSession | IsBios | EndSession (db : list Z) | SentBytes (db : list Z)
  | TestVss | VssQuery | VssDelete (args : list (list Z)) | BlockInfo (args : list (list Z))
  | DryRun (config : list Z) | IncSync (args : list (list Z))
  | InjectDriver (args : list (list Z)) | CheckDrivers (args : list (list Z)) | CheckEnv (args : list (list Z))
  | Migration (target config : list Z).

Definition config_arg (args : list (list Z)) : list Z := default (text "user.json") (head args).

(** [argv] without the program's name *)
Definition dispatch (argv : list (list Z)) : command :=
  match argv with
  | [] => Help
  | cmd :: args =>
      let named s := bool_decide (cmd = text s) in
      if named "--help"%string || named "-h"%string then Help
      else if named "info"%string then Info
      else if named "hash"%string && (1 <=? len args) then HashFile (default [] (head args))
      else if named "check"%string && (1 <=? len args) then CheckDisk (default [] (head args))
      else if named "begin_session"%string then BeginSession
      else if named "isbios"%string then IsBios
      else if named "end_session"%string then EndSession (text "tracker.db")
      else if named "sentbytes"%string then SentBytes (text "tracker.db")
      else if named "test_vss"%string then TestVss
      else if named "vss_query"%string then VssQuery
      else if named "vss_delete"%string then VssDelete args
      else if named "blockinfo"%string then BlockInfo args
      else if named "dryrun"%string then DryRun (config_arg args)
      else if named "incsync"%string then IncSync args
      else if named "inject_driver"%string then InjectDriver args
      else if named "check_drivers"%string then CheckDrivers args
      else if named "checkenv"%string then CheckEnv args
      else Migration cmd (config_arg args)
  end.

(** ** Lemmas *)

Lemma StronglySorted_filter {A} (R : relation A) (P : A → Prop) `{∀ x, Decision (P x)} l :
  StronglySorted R l → StronglySorted R (filter P l).
Proof.
  induction 1 as [|x l Hs IH Hf]; [constructor|]. rewrite filter_cons. case_decide; [|done].
  constructor; [done|]. apply Forall_forall. intros y [_ Hy]%list_elem_of_filter. by apply (proj1 (Forall_forall _ _) Hf).
Qed.

#[local] Instance key_before_trans : Transitive key_before.
Proof. intros [[d1 o1] r1] [[d2 o2] r2] [[d3 o3] r3]. unfold key_before. cbn. lia. Qed.

#[local] Instance key_before_total : Total key_before.
Proof. intros [[d1 o1] r1] [[d2 o2] r2]. unfold key_before. cbn. lia. Qed.

(** The number of blocks of a disk ([-1]: of all) with a confirmation ([-1]: any). *)
Definition rows_with (devno ack : Z) (db : sqlite_db) : Z :=
  Z.of_nat (size (filter (λ kr, (devno < 0 ∨ kr.1.1 = devno) ∧ (ack < 0 ∨ r_ack kr.2 = ack)) (t_block db))).

Lemma count_blocks_value db devno ack :
  db_events db = [] → Z.of_nat (size (t_block db)) < 2 ^ 31 →
  sqlite_count_blocks db devno ack = (rows_with devno ack db, db).
Proof.
  intros He Hsz. unfold sqlite_count_blocks, rows_with. rewrite db_query_ok by done. f_equal.
  set (P := λ kr : Z * Z * block_row, (devno < 0 ∨ kr.1.1 = devno) ∧ (ack < 0 ∨ r_ack kr.2 = ack)).
  assert (Hle : (size (filter P (t_block db)) ≤ size (t_block db))%nat).
  { rewrite <- !length_map_to_list. apply submseteq_length, map_to_list_submseteq, map_filter_subseteq. }
  apply (wrapS_id 32); [lia|unfold in_s; lia].
Qed.

Lemma rows_with_pos db devno ack k r :
  t_block db !! k = Some r → devno < 0 ∨ k.1 = devno → ack < 0 ∨ r_ack r = ack → 0 < rows_with devno ack db.
Proof.
  intros Hk Hd Ha. unfold rows_with.
  set (M := filter _ _). assert (Hf : M !! k = Some r) by (by apply map_lookup_filter_Some).
  enough (size M ≠ 0)%nat by lia. intros H0. apply map_size_empty_iff in H0. by rewrite H0 in Hf.
Qed.

(** A duplicate-free list of exactly these blocks has that length. *)
Lemma rows_with_len db devno ack (l : list block_info) :
  NoDup l →
  (∀ k r, (k, r) ∈ l ↔ t_block db !! k = Some r ∧ (devno < 0 ∨ k.1 = devno) ∧ (ack < 0 ∨ r_ack r = ack)) →
  rows_with devno ack db = len l.
Proof.
  intros Hnd Hl. unfold rows_with, len. rewrite <- length_map_to_list. f_equal. apply Permutation_length.
  apply NoDup_Permutation; [apply NoDup_map_to_list|done|]. intros [k r].
  rewrite Hl. etransitivity; [apply elem_of_map_to_list|]. by rewrite map_lookup_filter_Some.
Qed.

Lemma list_blocks_all db devno :
  db_events db = [] → Z.of_nat (size (t_block db)) < 2 ^ 31 →
  ∃ n rows, sqlite_list_blocks db devno (sqlite_count_blocks db devno (-1)).1 = (n, rows, db) ∧ n = len rows ∧
    StronglySorted key_before rows ∧ NoDup rows ∧
    (∀ k r, (k, r) ∈ rows ↔ t_block db !! k = Some r ∧ (devno < 0 ∨ k.1 = devno)).
Proof.
  intros He Hsz. unfold sqlite_list_blocks. rewrite db_rows_ok by done. eexists _, _. split; [reflexivity|].
  rewrite count_blocks_value by done. cbn [fst]. unfold rows_with.
  set (M := filter (λ kr, devno < 0 ∨ kr.1.1 = devno) (t_block db)).
  set (l := merge_sort key_before (map_to_list M)).
  assert (Hl : l ≡ₚ map_to_list M) by apply merge_sort_Permutation.
  assert (Hsame : filter (λ kr : Z * Z * block_row, (devno < 0 ∨ kr.1.1 = devno) ∧ (-1 < 0 ∨ r_ack kr.2 = -1)) (t_block db) = M).
  { apply map_filter_ext. intros k x _. cbn. intuition lia. }
  rewrite Hsame, ztake_ge.
  2:{ unfold len. rewrite (Permutation_length Hl), length_map_to_list. lia. }
  split; [done|]. split; [apply StronglySorted_merge_sort; apply _|]. split.
  - rewrite Hl. apply NoDup_map_to_list.
  - intros k r. rewrite Hl, elem_of_map_to_list. unfold M. rewrite map_lookup_filter_Some. done.
Qed.

(** ** Properties *)

(** [blockinfo_lists_disk]: what [blockinfo] lists of a disk are the blocks the
    tracker has of that disk with the confirmation and the round asked for, each
    once, in the order of their offsets.  The number it announces is theirs, when no
    round is asked for, and the other two are the numbers of the disk's confirmed
    and unconfirmed blocks. *)
Theorem blockinfo_lists_disk a db :
  db_events db = [] → Z.of_nat (size (t_block db)) < 2 ^ 31 → 0 ≤ ba_devno a → -1 ≤ ba_ack a ≤ 1 →
  ∃ shown rows,
    bi_disk a true db = BiDisk (ba_devno a) shown (rows_with (ba_devno a) 1 db) (rows_with (ba_devno a) 0 db) rows ∧
    StronglySorted key_before rows ∧ NoDup rows ∧
    (∀ k r, (k, r) ∈ rows ↔ t_block db !! k = Some r ∧ k.1 = ba_devno a ∧
       (ba_ack a < 0 ∨ r_ack r = ba_ack a) ∧ (ba_version a < 0 ∨ r_version r = ba_version a)) ∧
    (ba_version a < 0 → shown = len rows).
Proof.
  intros He Hsz Hd Ha. unfold bi_disk.
  destruct (list_blocks_all db (ba_devno a) He Hsz) as (n & rows & Hlist & -> & Hsort & Hnd & Hin).
  rewrite (count_blocks_value db (ba_devno a) (-1)) in Hlist |- * by done.
  rewrite !count_blocks_value by done. cbn [fst] in Hlist. rewrite andb_true_r, Hlist, ztake_ge by lia.
  eexists _, _. split; [reflexivity|].
  replace (if ba_ack a =? 0 then _ else _) with (rows_with (ba_devno a) (ba_ack a) db).
  2:{ destruct (Z.eqb_spec (ba_ack a) 0) as [->|]; [done|]. destruct (Z.eqb_spec (ba_ack a) 1) as [->|]; [done|].
      by replace (ba_ack a) with (-1) by lia. }
  assert (Hkeys : ∀ l : list block_info, (∀ k r, (k, r) ∈ l ↔ t_block db !! k = Some r ∧ k.1 = ba_devno a ∧
       (ba_ack a < 0 ∨ r_ack r = ba_ack a) ∧ (ba_version a < 0 ∨ r_version r = ba_version a)) → NoDup l →
       ba_version a < 0 → rows_with (ba_devno a) (ba_ack a) db = len l).
  { intros l Hl Hndl Hv. apply rows_with_len; [done|]. intros k r. rewrite Hl. intuition lia. }
  case_test.
  - split; [by apply StronglySorted_filter|]. split; [by apply NoDup_filter|].
    match goal with |- ?G ∧ _ => assert (Hr : G) by (intros k r; rewrite list_elem_of_filter, Hin; cbn; intuition lia) end.
    split; [exact Hr|]. apply Hkeys; [exact Hr|by apply NoDup_filter].
  - assert (Hr : ∀ k r, t_block db !! k = Some r → k.1 = ba_devno a → ba_ack a < 0 ∨ r_ack r = ba_ack a → False).
    { intros k r Hk Hdk Hak.
      pose proof (rows_with_pos db (ba_devno a) (ba_ack a) k r Hk (or_intror Hdk) Hak).
      pose proof (rows_with_pos db (ba_devno a) (-1) k r Hk (or_intror Hdk) ltac:(lia)). lia. }
    split; [constructor|]. split; [constructor|].
    match goal with |- ?G ∧ _ => assert (Hr' : G) end.
    { intros k r. split; [by intros ?%not_elem_of_nil|]. intros (? & ? & ? & _). by destruct (Hr k r). }
    split; [exact Hr'|]. apply Hkeys; [exact Hr'|constructor].
Qed.

Definition demo_rows : list (Z * Z * block_row) :=
  [((0, 0x200000), mk_row 3 7 1 0 0 []); ((0, 0), mk_row 3 5 0 0 0 []); ((1, 0), mk_row 3 6 1 0 2 [])].

Definition demo_tracker : sqlite_db := mk_db (list_to_map demo_rows) [] [] [].

Lemma blockinfo_args : bi_parse [text "--acked"; text "0"] = mk_bi (text "tracker.db") 0 None 1 (-1) false.
Proof. reflexivity. Qed.

(** The order of the README, the tracker's path last: the default path is read. *)
Lemma blockinfo_path_last :
  bi_parse [text "0"; text "1048576"; text "client/tracker.db"] =
    mk_bi (text "tracker.db") 0 (Some 1048576) (-1) (-1) false.
Proof. reflexivity. Qed.

Lemma blockinfo_lists_disk_witness :
  let a := mk_bi (text "tracker.db") 0 None 1 (-1) false in
  ∃ shown rows, bi_disk a true demo_tracker = BiDisk 0 shown 1 1 rows ∧ StronglySorted key_before rows ∧
    shown = len rows.
Proof.
  destruct (blockinfo_lists_disk (mk_bi (text "tracker.db") 0 None 1 (-1) false) demo_tracker eq_refl
    ltac:(vm_compute; reflexivity) ltac:(cbn; lia) ltac:(cbn; lia)) as (s & rows & H1 & H2 & _ & _ & H3).
  exists s, rows. split; [exact H1|]. split; [exact H2|]. apply H3. cbn. lia.
Defined.

(** [session_progress]: [sentbytes] prints the number of bytes of the confirmed
    blocks, and after [end_session] it prints 0; the versions stay. *)
Theorem session_progress db :
  db_events db = [] →
  cmd_sentbytes (Some db) = (0, Z.max 0 (sum_sizes (filter (λ kr, r_ack kr.2 = 1) (t_block db)))) ∧
  ∃ db', cmd_end_session (Some db) = (0, Some db') ∧ cmd_sentbytes (Some db') = (0, 0) ∧ t_version db' = t_version db.
Proof.
  intros He. unfold cmd_sentbytes, cmd_end_session, sqlite_total_acked_bytes, sqlite_clear_all_blocks.
  rewrite db_query_ok, db_update_ok by done. cbn [fst]. split; [case_test; f_equal; lia|].
  eexists. split; [reflexivity|]. rewrite db_query_ok by done. cbn [fst t_block with_blocks].
  by rewrite map_filter_empty.
Qed.

Lemma session_progress_witness : cmd_sentbytes (Some demo_tracker) = (0, 6).
Proof. rewrite (proj1 (session_progress demo_tracker eq_refl)). vm_compute. reflexivity. Defined.

(** The words of the commands *)
Definition command_words : list string :=
  ["--help"; "-h"; "info"; "begin_session"; "isbios"; "end_session"; "sentbytes"; "test_vss"; "vss_query";
   "vss_delete"; "blockinfo"; "dryrun"; "incsync"; "inject_driver"; "check_drivers"; "checkenv"]%string.

(** [dispatch_migrates]: the client runs a migration exactly when its first
    argument is not the word of a command; [hash] and [check] are such words only
    with an argument, without one they are taken for the address of the target. *)
Theorem dispatch_migrates argv :
  (∃ target config, dispatch argv = Migration target config) ↔
  ∃ cmd args, argv = cmd :: args ∧ cmd ∉ text <$> command_words ∧
    (cmd = text "hash" ∨ cmd = text "check" → args = []).
Proof.
  unfold dispatch. destruct argv as [|cmd args].
  { split; [by intros (? & ? & ?)|by intros (? & ? & ? & _)]. }
  assert (Hargs : (1 <=? len args) = true ↔ args ≠ []).
  { destruct args; [done|]. len_norm. pose proof (len_nonneg args). split; [done|lia]. }
  split.
  - intros (target & config & Hd). exists cmd, args. split; [done|].
    destruct (decide (cmd ∈ text <$> command_words)) as [Hin|Hn].
    + exfalso. unfold command_words in Hin. cbn [fmap list_fmap] in Hin. rewrite !elem_of_cons in Hin.
      destruct_or! Hin; [subst cmd; vm_compute in Hd; discriminate..|by apply not_elem_of_nil in Hin].
    + split; [done|]. destruct args as [|x args]; [done|]. rewrite (proj2 Hargs) in Hd by done.
      intros [->| ->]; vm_compute in Hd; discriminate.
  - intros (cmd' & args' & [= <- <-] & Hw & Hhc). unfold command_words in Hw. cbn [fmap list_fmap] in Hw.
    rewrite !not_elem_of_cons in Hw. destruct_and!.
    assert (Hno : ∀ s, (s = "hash" ∨ s = "check")%string → (bool_decide (cmd = text s) && (1 <=? len args)) = false).
    { intros s Hs. case_bool_decide as Hc; [|done]. rewrite Hhc; [done|]. destruct Hs as [-> | ->]; auto. }
    rewrite (Hno "hash"%string), (Hno "check"%string) by auto. rewrite !bool_decide_false by done. by eexists _, _.
Qed.

(** The reader of the help runs [hash] without a file. *)
Lemma hash_without_file : dispatch [text "hash"] = Migration (text "hash") (text "user.json").
Proof. reflexivity. Qed.

(** A driver installed by this run and found again afterwards is printed as already
    installed, one that could not be found again as installed now. *)
Lemma inject_lines :
  let E answer := mk_denv (W := nat) None (λ _, true) (λ p, Some p) None
             (λ _, Some [(text "w10", true)]) (λ _, Some (text "x.inf")) (λ _, true)
             (λ w cmd, (S w, Some (if contains cmd " find " then [if (2 <=? w)%nat then answer else []] else [], 0))) in
  head (cmd_inject_driver (E [80]) [] 0%nat).2 = Some (text "viostor", AlreadyInstalled) ∧
  head (cmd_inject_driver (E []) [] 0%nat).2 = Some (text "viostor", InstalledNow).
Proof. vm_compute. done. Qed.
