(* ===== verification/IncSync.v ===== *)
(** * The one-shot incremental command (client/main.c, [cmd_incsync])

    One pass over the live partitions: every block is read, its hash compared
    with the tracker's, and sent when it differs.  The state is the engine's
    with the counters of the pass; the environment is that of Client.v.  The
    push loop has no bound in the source: it takes a fuel and the functions
    answer [None] when it has run out.  The console table and its counters per
    partition are left out. *)

From stdpp Require Import strings.
From S2P Require Import Prelude Protocol Hash Net Zstd Msgpack Wire Queue Pool Tracker BlockIO Json Volume Vss.
From S2P Require Import Client Incremental Migrate Config.

Record istate := mk_is {
  is_c : cstate;
  is_scanned : Z;
  is_changed : Z;
  is_skipped : Z;
  is_bytes_sent : Z;
}.

Definition with_engine (m : istate) (c : cstate) : istate :=
  mk_is c (is_scanned m) (is_changed m) (is_skipped m) (is_bytes_sent m).

Definition count_scanned (m : istate) : istate :=
  mk_is (is_c m) (u64 (is_scanned m + 1)) (is_changed m) (is_skipped m) (is_bytes_sent m).

Definition count_skipped (m : istate) : istate :=
  mk_is (is_c m) (is_scanned m) (is_changed m) (u64 (is_skipped m + 1)) (is_bytes_sent m).

Definition count_changed (m : istate) (n : Z) : istate :=
  mk_is (is_c m) (is_scanned m) (u64 (is_changed m + 1)) (is_skipped m) (u64 (is_bytes_sent m + n)).

(** ** The partitions to scan *)

Definition volume_skipped (conf : incsync_conf) (v : volume_info) : bool :=
  bool_decide (vi_devno v ∈ ic_skip_disks conf) ||
  negb (Sender.partition_is_skipped (ic_skip_part_str conf) (vi_devno v) (vi_part_index v) =? 0).

(** [active_idx] *)
Fixpoint active_indices (conf : incsync_conf) (i : nat) (vols : list volume_info) : list nat :=
  match vols with
  | [] => []
  | v :: r => if volume_skipped conf v then active_indices conf (S i) r
              else i :: active_indices conf (S i) r
  end.

(** The snapshots mapped to the volumes; without VSS, a lettered volume or a
    snapshot the volumes stay as they are. *)
Definition map_snapshots (vss_ok : bool) (snaps : option (list vss_snapshot)) (vols : list volume_info)
    : list volume_info :=
  if vss_ok && bool_decide (vss_vol_indices vols ≠ []) then match_snapshots (default [] snaps) vols else vols.

Section IncSync.
Context `{Zstd} (realloc_ok : Z → bool) (malloc_ok : nat → bool).
Context (clock wall : nat → Z) (running : nat → bool).
Context (cfg : config).
Context (open_reader : list Z → option block_reader).

(** [while (flush_one(&ctx) > 0) { } process_ack(&ctx);] *)
Definition flush_and_ack (c : cstate) : cstate := process_ack cfg (drain_queue clock wall cfg c).

(** [while ((rc = queue_push(...)) != 0)]; the sleep lets time pass. *)
Fixpoint sync_push (fuel : nat) (c : cstate) (devno offset h : Z) (payload : list Z) : option cstate :=
  match fuel with
  | O => None
  | S fuel' =>
      let '(rc, q) := queue_push (malloc_ok (cs_tick c)) (cs_queue c) devno offset h payload in
      let c := set_queue c q in
      if rc =? 0 then Some c
      else sync_push fuel' (tick (flush_and_ack c)) devno offset h payload
  end.

(** After every 1024th block that was read: flush and collect responses. *)
Definition periodic (m : istate) : istate :=
  if Z.land (is_scanned m) 1023 =? 0 then with_engine m (flush_and_ack (is_c m)) else m.

(** A block that could be read: unchanged, or encoded, queued and recorded.  A
    failing encoder skips the rest of the turn. *)
Definition sync_data (fuel : nat) (devno disk_offset now_ms version : Z) (data : list Z) (m : istate)
    : option istate :=
  let m := count_scanned m in
  let off := s64 disk_offset in
  let new_hash := hash_block data (Z.land disk_offset 0xFFFFFFFF) in
  let '(rc, stored, db) := sqlite_block_lookup (cs_db (is_c m)) devno off in
  let c := set_db (is_c m) db in
  if bool_decide (rc = 0 ∧ stored = Some new_hash) then
    let m := count_skipped m in
    let c := set_db c (sqlite_update_last_sent (cs_db c) devno off now_ms).2 in
    let c := set_db c (sqlite_block_mark_verified (cs_db c) devno off version).2 in
    Some (periodic (with_engine m c))
  else
    match msgpack_encode_block realloc_ok (cs_writer c) devno off data with
    | None => Some (with_engine m c)
    | Some w =>
        c ← sync_push fuel (set_writer c w) devno off new_hash (wr_data w);
        let c := set_db c (sqlite_block_upsert_v (cs_db c) devno off (len data) new_hash 0 version).2 in
        Some (periodic (count_changed (with_engine m c) (len data)))
    end.

Definition sync_block (fuel : nat) (reader : block_reader) (devno disk_offset reader_offset now_ms version : Z)
    (m : istate) : option istate :=
  match block_reader_read reader reader_offset BLOCK_SIZE with
  | None => Some m
  | Some data =>
      if len data =? 0 then Some m else sync_data fuel devno disk_offset now_ms version data m
  end.

(** [for (uint64_t blk = 0; blk < n_blocks && g_running; blk++)], [n] blocks to go. *)
Fixpoint sync_blocks (fuel : nat) (reader : block_reader) (has_vss : bool) (devno part_base now_ms version : Z)
    (n : nat) (blk : Z) (m : istate) : option istate :=
  match n with
  | O => Some m
  | S n' =>
      let '(run, c) := is_running running (is_c m) in
      let m := with_engine m c in
      if negb run then Some m
      else
        let disk_offset := u64 (part_base + blk * BLOCK_SIZE) in
        let reader_offset := if has_vss then u64 (blk * BLOCK_SIZE) else disk_offset in
        m ← sync_block fuel reader devno disk_offset reader_offset now_ms version m;
        sync_blocks fuel reader has_vss devno part_base now_ms version n' (blk + 1) m
  end.

(** A partition: the snapshot if there is one that opens, else the disk; skipped
    when neither opens. *)
Definition sync_volume (fuel : nat) (v : volume_info) (now_ms version : Z) (m : istate) : option istate :=
  match open_volume open_reader v with
  | None => Some m
  | Some (reader, use_vss) =>
      sync_blocks fuel reader use_vss (vi_devno v) (vi_partition_offset v) now_ms version
        (Z.to_nat (vi_block_count v)) 0 m
  end.

(** [for (int ai = 0; ai < active_count && g_running; ai++)] *)
Fixpoint sync_volumes (fuel : nat) (vols : list volume_info) (now_ms version : Z) (m : istate) : option istate :=
  match vols with
  | [] => Some m
  | v :: r =>
      let '(run, c) := is_running running (is_c m) in
      let m := with_engine m c in
      if negb run then Some m
      else m ← sync_volume fuel v now_ms version m; sync_volumes fuel r now_ms version m
  end.

(** [for (int drain = 0; drain < 300; drain++)] *)
Fixpoint sync_drain (n : nat) (c : cstate) : cstate :=
  match n with
  | O => c
  | S n' =>
      let c := flush_and_ack c in
      if queue_count (cs_queue c) =? 0 then c else sync_drain n' c
  end.

(** The version of the pass. *)
Definition sync_version (c : cstate) : Z * cstate :=
  let '(v, db) := sqlite_get_next_version (cs_db c) (Some (make_remote_id cfg)) in
  let c := set_db c db in
  let current_version := if v <? 1 then 1 else v in
  (current_version, begin_version wall cfg current_version c).

(** From the announcement to the end of the version.  [vols] are the partitions
    to scan, their snapshots mapped. *)
Definition sync_pass (fuel : nat) (vols : list volume_info) (c : cstate) : option (Z * istate) :=
  let c := (send_control wall CTL_INCREMENTAL CTL_INCREMENTAL_LEN false c).2 in
  let '(version, c) := sync_version c in
  let '(now, c) := timer_now clock c in
  m ← sync_volumes fuel vols (s64 now) version (mk_is c 0 0 0 0);
  let c := sync_drain 300 (is_c m) in
  let c := (send_control wall CTL_END_INCREMENTAL CTL_END_INCREMENTAL_LEN false c).2 in
  let c := Nat.iter 300 (process_ack cfg) c in
  let '(round_end, c) := now_sec_ms wall c in
  let c := set_db c (sqlite_version_end (cs_db c) version (Some (make_remote_id cfg)) round_end
                       (s32 (is_scanned m)) (s32 (is_changed m))).2 in
  Some (version, with_engine m c).

(** [queue_destroy], [msgpack_writer_free], [pool_destroy] *)
Definition cleanup (c : cstate) : cstate :=
  set_pool (set_writer (set_queue c (queue_destroy (cs_queue c))) (msgpack_writer_free (cs_writer c)))
    (pool_destroy (cs_pool c)).

(** What precedes it: the outcome is the exit code with, after a pass, its
    version and counters.  [enum] is what [volume_enumerate] answers, [db] the
    opened tracker, [connects] and [socks] the network, [vss_ok] and [snaps] VSS. *)
Definition cmd_incsync (fuel : nat) (conf : incsync_conf) (enum : list volume_info * Z)
    (db : option sqlite_db) (buf_ok queue_ok mutex_ok : bool) (slot_ok : Z → bool)
    (connects : list (option Z)) (socks : gmap Z sock)
    (vss_ok : bool) (snaps : option (list vss_snapshot)) : option (Z * option (Z * istate)) :=
  let '(vols, rc) := enum in
  if negb (rc =? 0) then Some (1, None)
  else
    let active := active_indices conf 0 vols in
    if bool_decide (active = []) then Some (1, None)
    else
      match db with
      | None => Some (1, None)
      | Some db =>
          let db := sqlite_set_remote_id db (make_remote_id cfg) in
          if negb buf_ok then Some (1, None)
          else
            let '(prc, p) := pool_init slot_ok (wall 0) mutex_ok (cf_server_ip cfg) (cf_server_port cfg) connects in
            if prc <? 0 then Some (1, None)
            else
              let c := mk_cs (queue_init queue_ok).2 db p socks (msgpack_writer_init realloc_ok)
                         0 0 0 0 0 0 0 0 0 false in
              let vols := map_snapshots vss_ok snaps vols in
              '(version, m) ← sync_pass fuel (omap (λ i, vols !! i) active) c;
              Some (0, Some (version, with_engine m (cleanup (is_c m))))
      end.

End IncSync.

(** ** The push loop *)

Lemma queue_push_ok b q d o h payload rc q' :
  queue_ok q → queue_push b q d o h payload = (rc, q') → queue_ok q' ∧ q_count q ≤ q_count q' ≤ q_count q + 1.
Proof.
  intros Hq E. unfold queue_push in E.
  destruct (QUEUE_ENTRY_MAX_PAYLOAD <? len payload) eqn:E1; [injection E as <- <-; split; [done|lia]|].
  destruct (QUEUE_CAPACITY <=? q_count q) eqn:E2; [injection E as <- <-; split; [done|lia]|].
  destruct b; [|injection E as <- <-; split; [done|lia]]. bool_to_prop.
  destruct (queue_push true q d o h payload) as [rc' q''] eqn:E'.
  destruct (push_fifo _ _ _ _ _ _ _ Hq E1 E2 E') as (Hok & _).
  unfold queue_push in E'. replace (_ <? len payload) with false in E' by lia.
  replace (QUEUE_CAPACITY <=? q_count q) with false in E' by lia. rewrite E' in E. injection E as <- <-.
  split; [done|]. injection E' as _ <-. cbn. lia.
Qed.

Section Push.
Context `{Zstd} (malloc_ok : nat → bool) (clock wall : nat → Z) (cfg : config).

Lemma flush_and_ack_queue c :
  queue_ok (cs_queue c) →
  queue_ok (cs_queue (flush_and_ack clock wall cfg c)) ∧
  q_count (cs_queue (flush_and_ack clock wall cfg c)) ≤ Z.max 0 (q_count (cs_queue c) - 1).
Proof.
  intros Hq. unfold flush_and_ack, drain_queue.
  destruct (drain_queue_ok clock wall cfg (S (Z.to_nat (q_count (cs_queue c)))) c Hq) as (H1 & _ & H2).
  destruct (process_ack_queue cfg _ H1) as (H3 & H4 & _). split; [done|]. rewrite H4. exact H2.
Qed.

Lemma flush_and_ack_frame R `{!EngineFrame R} c : R c (flush_and_ack clock wall cfg c).
Proof.
  unfold flush_and_ack, drain_queue. transitivity (drain clock wall cfg (S (Z.to_nat (q_count (cs_queue c)))) c);
    [apply (drain_frame clock wall cfg R)|apply (process_ack_frame cfg R)].
Qed.

Lemma sync_push_queue fuel d o h payload : ∀ c c',
  queue_ok (cs_queue c) → sync_push malloc_ok clock wall cfg fuel c d o h payload = Some c' →
  queue_ok (cs_queue c').
Proof.
  induction fuel as [|fuel IH]; intros c c' Hq E; [done|]. cbn [sync_push] in E.
  destruct (queue_push _ _ _ _ _ _) as [rc q] eqn:Ep. apply queue_push_ok in Ep as [Hq' _]; [|done].
  case_test_in E; [by injection E as <-|]. apply IH in E; [done|]. by apply flush_and_ack_queue.
Qed.

Lemma sync_push_frame R `{!EngineFrame R} fuel d o h payload : ∀ c c',
  sync_push malloc_ok clock wall cfg fuel c d o h payload = Some c' → R c c'.
Proof.
  induction fuel as [|fuel IH]; intros c c' E; [done|]. cbn [sync_push] in E.
  destruct (queue_push _ _ _ _ _ _) as [rc q]. case_test_in E; [injection E as <-; apply ef_queue|].
  apply IH in E. etransitivity; [|exact E]. etransitivity; [|apply ef_tick].
  etransitivity; [|apply (flush_and_ack_frame R)]. apply ef_queue.
Qed.

(** With room below the backpressure depth the first push succeeds. *)
Lemma sync_push_short fuel c d o h payload :
  malloc_ok (cs_tick c) = true → queue_ok (cs_queue c) → q_count (cs_queue c) + 1 < BACKPRESSURE_QUEUE_DEPTH →
  len payload ≤ QUEUE_ENTRY_MAX_PAYLOAD →
  ∃ q, sync_push malloc_ok clock wall cfg (S fuel) c d o h payload = Some (set_queue c q) ∧ queue_ok q ∧
       fifo q = fifo (cs_queue c) ++ [mk_entry d o h (Some payload) (len payload) 1].
Proof.
  intros Hm Hq Hc Hl. cbn [sync_push]. rewrite Hm.
  destruct (queue_push true (cs_queue c) d o h payload) as [rc q] eqn:E.
  unfold BACKPRESSURE_QUEUE_DEPTH in Hc.
  apply push_fifo in E as (H1 & H2 & ->); [|done|done|unfold QUEUE_CAPACITY; lia].
  unfold BACKPRESSURE_QUEUE_DEPTH. replace (40 <=? _) with false by lia. cbn [Z.eqb]. eauto.
Qed.

(** ** Dead connections *)

(** Every [send] on every descriptor fails. *)
Definition dead (c : cstate) : Prop := ∀ fd, sk_send (csock c fd) = [].

Lemma dead_set_sock c fd k : dead c → sk_send k = [] → dead (set_sock c fd k).
Proof.
  intros Hd Hk fd'. destruct (decide (fd = fd')) as [<-|Hne]; [by rewrite csock_set|].
  by rewrite csock_set_ne.
Qed.

Lemma recv_ack_sends k r k' : pool_recv_ack k = (r, k') → sk_send k' = sk_send k.
Proof. unfold pool_recv_ack. destruct (recv_ack_loop _ _ _). by intros [= <- <-]. Qed.

Lemma handle_response_socks s r : cs_socks (handle_response cfg s r) = cs_socks s.
Proof. unfold handle_response, ack_block. repeat case_test; done. Qed.

Lemma dead_ack_conn fuel fd : ∀ c, dead c → dead (ack_conn cfg fuel fd c).
Proof.
  induction fuel as [|fuel IH]; intros c Hd; cbn [ack_conn]; [done|].
  destruct (pool_recv_ack (csock c fd)) as [r k] eqn:E. apply recv_ack_sends in E.
  assert (Hd' : dead (set_sock c fd k)) by (apply dead_set_sock; [done|by rewrite E]).
  destruct r; [done|done|]. apply IH. intros fd'. unfold csock. rewrite handle_response_socks. apply Hd'.
Qed.

Lemma dead_process_ack c : cf_dry_run cfg = false → dead c → dead (process_ack cfg c).
Proof.
  intros Hdry. unfold process_ack. rewrite Hdry. generalize (pl_conns (cs_pool c)). intros cs. revert c.
  induction cs as [|x cs IH]; intros c Hd; cbn [ack_conns]; [done|].
  case_test; apply IH; [done|]. by apply dead_ack_conn.
Qed.

Lemma wire_send_dead k payload level cap :
  sk_send k = [] → wire_send k payload level cap = (-1, k).
Proof.
  intros Hk. unfold wire_send. case_test; [done|]. destruct (ZSTD_compress _ _ _); [|done].
  unfold send_all. rewrite Hk. unfold host_to_be32.
  destruct (be_bytes 4 _) as [|b bs] eqn:Eb; [apply (f_equal length) in Eb; by rewrite length_be_bytes in Eb|].
  cbn. destruct k; cbn in *. by subst.
Qed.

(** A flush on dead connections takes one entry and stops. *)
Lemma drain_dead c :
  cf_dry_run cfg = false → dead c → queue_ok (cs_queue c) → 0 < q_count (cs_queue c) →
  let c' := drain_queue clock wall cfg c in
  dead c' ∧ queue_ok (cs_queue c') ∧ q_count (cs_queue c') = q_count (cs_queue c) - 1.
Proof.
  intros Hdry Hd Hq Hpos. cbv zeta. unfold drain_queue. cbn [drain].
  destruct (flush_one clock wall cfg c) as [rc c1] eqn:E.
  pose proof (flush_one_queue _ _ _ _ _ _ Hq E) as (H1 & _ & [(H2 & _)|(_ & _ & H3)]); [lia|].
  assert (Hr : rc = -1 ∧ dead c1).
  { unfold flush_one in E. destruct (queue_pop (cs_queue c)) as [[e|] q] eqn:Ep.
    2:{ injection E as <- <-. apply pop_fifo in Ep as [_ Ep]; [|done]. cbn in H3. exfalso.
        destruct (fifo (cs_queue c)) eqn:Ef; [|by destruct Ep].
        apply (f_equal length) in Ef. unfold fifo in Ef. rewrite length_fmap, length_seq in Ef. cbn in Ef. lia. }
    rewrite Hdry in E. unfold time_now in E. destruct (pool_acquire _ _) as [[i|] p]; [|by injection E as <- <-].
    destruct (qe_payload e) as [payload|]; [|by injection E as <- <-].
    rewrite wire_send_dead in E by apply Hd. cbn [negb Z.eqb] in E. injection E as <- <-.
    split; [done|]. intros fd. apply (dead_set_sock (set_pool (tick (set_queue c q)) p)); [exact Hd|apply Hd]. }
  destruct Hr as [-> Hd1]. done.
Qed.

Lemma sync_push_spins fuel d o h payload : ∀ c,
  (∀ t, malloc_ok t = true) → len payload ≤ QUEUE_ENTRY_MAX_PAYLOAD →
  cf_dry_run cfg = false → dead c → queue_ok (cs_queue c) → BACKPRESSURE_QUEUE_DEPTH - 1 ≤ q_count (cs_queue c) →
  sync_push malloc_ok clock wall cfg fuel c d o h payload = None.
Proof.
  induction fuel as [|fuel IH]; intros c Hm Hl Hdry Hd Hq Hc; [done|]. cbn [sync_push]. rewrite Hm.
  destruct (queue_push _ _ _ _ _ _) as [rc q] eqn:Ep.
  pose proof (queue_push_ok _ _ _ _ _ _ _ _ Hq Ep) as [Hq' _]. unfold BACKPRESSURE_QUEUE_DEPTH in *.
  assert (Hrc : rc ≠ 0 ∧ 40 ≤ q_count q).
  { unfold queue_push in Ep. replace (_ <? len payload) with false in Ep by lia.
    destruct (QUEUE_CAPACITY <=? q_count (cs_queue c)) eqn:Ecap; bool_to_prop.
    { injection Ep as <- <-. unfold QUEUE_CAPACITY in Ecap. lia. }
    unfold BACKPRESSURE_QUEUE_DEPTH in Ep. replace (40 <=? q_count (cs_queue c) + 1) with true in Ep by lia.
    injection Ep as <- <-. cbn. lia. }
  destruct Hrc as [Hrc Hq40]. replace (rc =? 0) with false by lia.
  destruct (drain_dead (set_queue c q) Hdry Hd Hq') as (H1 & H2 & H3); [cbn; lia|].
  destruct (process_ack_queue cfg _ H2) as (H4 & H5 & _).
  apply IH; try done.
  - intros fd. apply (dead_process_ack _ Hdry H1 fd).
  - change (BACKPRESSURE_QUEUE_DEPTH - 1) with 39. unfold flush_and_ack. cbn [cs_queue tick]. rewrite H5, H3. cbn. lia.
Qed.

End Push.

(** ** The rows during a pass *)

(** What identifies the content a row stands for. *)
Definition content (r : block_row) : Z * Z := (r_hash r, r_version r).

(** Flushing and acknowledging change no row's content, and not the encoder. *)
Definition rows_kept (c c' : cstate) : Prop :=
  (∀ k, content <$> t_block (cs_db c') !! k = content <$> t_block (cs_db c) !! k) ∧
  (db_events (cs_db c) = [] → db_events (cs_db c') = []) ∧ cs_writer c' = cs_writer c.

#[export] Instance rows_kept_frame : EngineFrame rows_kept.
Proof.
  constructor; try (intros; unfold rows_kept; done).
  - split; unfold rows_kept; [done|]. intros s1 s2 s3 (H1 & H2 & H3) (H4 & H5 & H6).
    split; [intros k; by rewrite H4|]. split; [auto|congruence].
  - intros s d o. unfold rows_kept, sqlite_block_mark_acked, db_update, db_next.
    destruct (db_events (cs_db s)) as [|[] ev] eqn:Ev; cbn; rewrite ?Ev; try done.
    + split; [|done]. intros k. rewrite lookup_alter. case_decide; subst; [|done].
      by destruct (t_block (cs_db s) !! (d, o)).
    + split; [|done]. intros k. rewrite lookup_alter. case_decide; subst; [|done].
      by destruct (t_block (cs_db s) !! (d, o)).
Qed.

(** A block of the pass: device, offset and the bytes read. *)
Abbreviation scanned_block := (Z * Z * list Z)%type.

Definition block_hash (b : scanned_block) : Z := hash_block b.2 (Z.land b.1.2 0xFFFFFFFF).

(** The tracker already has this content. *)
Definition recorded (t : gmap (Z * Z) block_row) (b : scanned_block) : bool :=
  bool_decide ((λ r, u64 (r_hash r)) <$> t !! b.1 = Some (block_hash b)).

Definition block_ok (b : scanned_block) : Prop := 0 ≤ b.1.2 < 2 ^ 63 ∧ 0 < len b.2 ≤ BLOCK_SIZE.

(** After the blocks of [l], starting from the rows [t0]. *)
Record pass_inv (version : Z) (t0 : gmap (Z * Z) block_row) (l : list scanned_block) (m : istate) : Prop := {
  pi_ok : round_ok (is_c m);
  pi_rest : ∀ k, k ∉ l.*1 → content <$> t_block (cs_db (is_c m)) !! k = content <$> t0 !! k;
  pi_done : ∀ b, b ∈ l → ∃ r, t_block (cs_db (is_c m)) !! b.1 = Some r ∧ u64 (r_hash r) = block_hash b ∧
                              r_version r = version;
  pi_scanned : is_scanned m = u64 (len l);
  pi_skipped : is_skipped m = u64 (len (filter (λ b, recorded t0 b = true) l));
  pi_changed : is_changed m = u64 (len (filter (λ b, recorded t0 b = false) l));
}.

Lemma u64_succ a : u64 (u64 a + 1) = u64 (a + 1).
Proof. unfold u64, wrapU. by rewrite Zplus_mod_idemp_l. Qed.

Lemma pass_inv_kept ver t0 l m c' :
  pass_inv ver t0 l m → rows_kept (is_c m) c' → queue_ok (cs_queue c') → pass_inv ver t0 l (with_engine m c').
Proof.
  intros [[_ Hw He] H2 H3 H4 H5 H6] (K1 & K2 & K3) Hq. constructor; cbn; try done.
  - constructor; [done|by rewrite K3|by apply K2].
  - intros k Hk. rewrite K1. by apply H2.
  - intros b Hb. destruct (H3 b Hb) as (r & Hr & Hh & Hv). specialize (K1 b.1). rewrite Hr in K1. cbn in K1.
    destruct (t_block (cs_db c') !! b.1) as [r'|]; [|done]. exists r'. cbn in K1.
    injection K1 as E1 E2. split; [done|]. split; [by rewrite E1|by rewrite E2].
Qed.

Section Pass.
Context `{Zstd} (realloc_ok : Z → bool) (malloc_ok : nat → bool).
Context (clock wall : nat → Z) (running : nat → bool) (cfg : config).
Context (open_reader : list Z → option block_reader).

Lemma pass_inv_periodic ver t0 l m :
  pass_inv ver t0 l m → pass_inv ver t0 l (periodic clock wall cfg m) ∧
  q_count (cs_queue (is_c (periodic clock wall cfg m))) ≤ q_count (cs_queue (is_c m)).
Proof.
  intros Hp. unfold periodic. case_test; [|by split].
  destruct (flush_and_ack_queue clock wall cfg (is_c m)) as [H1 H2]; [apply Hp|]. split.
  - apply pass_inv_kept; [done|by apply (flush_and_ack_frame clock wall cfg rows_kept)|done].
  - cbn. destruct Hp as [[[_ _ Hc _ _] _ _] _ _ _ _ _]. lia.
Qed.

(** The invariant when one more block gets its row. *)
Lemma pass_inv_step ver t0 l m b r m' :
  pass_inv ver t0 l m → b.1 ∉ l.*1 → round_ok (is_c m') →
  (∀ k, k ≠ b.1 → content <$> t_block (cs_db (is_c m')) !! k = content <$> t_block (cs_db (is_c m)) !! k) →
  t_block (cs_db (is_c m')) !! b.1 = Some r → u64 (r_hash r) = block_hash b → r_version r = ver →
  is_scanned m' = u64 (is_scanned m + 1) →
  is_skipped m' = (if recorded t0 b then u64 (is_skipped m + 1) else is_skipped m) →
  is_changed m' = (if recorded t0 b then is_changed m else u64 (is_changed m + 1)) →
  pass_inv ver t0 (l ++ [b]) m'.
Proof.
  intros [H1 H2 H3 H4 H5 H6] Hb Hok Hother Hr Hh Hv Hs Hsk Hch. constructor; [done| | | | |].
  - intros k Hk. rewrite fmap_app in Hk. apply not_elem_of_app in Hk as [Hk Hk'].
    rewrite Hother by set_solver. by apply H2.
  - intros x Hx. apply elem_of_app in Hx as [Hx|Hx].
    + destruct (H3 x Hx) as (rx & Hrx & Hhx & Hvx).
      assert (Hne : x.1 ≠ b.1).
      { intros Heq. apply Hb. rewrite <- Heq. by apply (list_elem_of_fmap_2 fst). }
      specialize (Hother x.1 Hne). rewrite Hrx in Hother. cbn in Hother.
      destruct (t_block (cs_db (is_c m')) !! x.1) as [r'|]; [|done]. cbn in Hother. injection Hother as E1 E2.
      exists r'. split; [done|]. split; [by rewrite E1|by rewrite E2].
    + apply list_elem_of_singleton in Hx as ->. eauto.
  - rewrite Hs, H4, len_app, u64_succ. by len_norm.
  - rewrite Hsk, H5, filter_app. destruct (recorded t0 b) eqn:E.
    + rewrite filter_cons_True, len_app, u64_succ by done. by len_norm.
    + by rewrite filter_cons_False, filter_nil, app_nil_r by (by rewrite E).
  - rewrite Hch, H6, filter_app. destruct (recorded t0 b) eqn:E.
    + by rewrite filter_cons_False, filter_nil, app_nil_r by (by rewrite E).
    + rewrite filter_cons_True, len_app, u64_succ by done. by len_norm.
Qed.

Lemma recorded_same ver t0 l m b :
  pass_inv ver t0 l m → b.1 ∉ l.*1 → recorded (t_block (cs_db (is_c m))) b = recorded t0 b.
Proof.
  intros Hp Hb. pose proof (pi_rest _ _ _ _ Hp _ Hb) as Hk. unfold recorded. f_equal.
  destruct (t_block (cs_db (is_c m)) !! b.1) as [r|], (t0 !! b.1) as [r0|]; try done.
  cbn in *. injection Hk as E _. by rewrite E.
Qed.

Lemma s64_small o : 0 ≤ o < 2 ^ 63 → s64 o = o.
Proof. intros Ho. apply (wrapS_id 64); [lia|]. unfold in_s. lia. Qed.

(** The lookup of a block's row, as [sync_data] tests it. *)
Lemma sync_data_eq fuel b now ver m :
  db_events (cs_db (is_c m)) = [] → block_ok b →
  sync_data realloc_ok malloc_ok clock wall cfg fuel b.1.1 b.1.2 now ver b.2 m =
  let m1 := count_scanned m in
  let c := is_c m in
  if recorded (t_block (cs_db c)) b then
    Some (periodic clock wall cfg (with_engine (count_skipped m1)
      (set_db c (with_blocks (cs_db c) (alter (λ r, mk_row (r_size r) (r_hash r) 1 now ver (r_remote_id r))
                                          b.1 (t_block (cs_db c)))))))
  else
    match msgpack_encode_block realloc_ok (cs_writer c) b.1.1 b.1.2 b.2 with
    | None => Some m1
    | Some w =>
        c ← sync_push malloc_ok clock wall cfg fuel (set_writer c w) b.1.1 b.1.2 (block_hash b) (wr_data w);
        Some (periodic clock wall cfg (count_changed (with_engine m1
          (set_db c (sqlite_block_upsert_v (cs_db c) b.1.1 b.1.2 (len b.2) (block_hash b) 0 ver).2)) (len b.2)))
    end.
Proof.
  intros He [Ho Hl]. unfold sync_data. rewrite s64_small by done. cbv zeta.
  change (is_c (count_scanned m)) with (is_c m). destruct b as [[d o] data]. cbn [fst snd] in *.
  change (hash_block data (Z.land o 0xFFFFFFFF)) with (block_hash (d, o, data)).
  unfold sqlite_block_lookup. rewrite db_query_ok by done. unfold recorded. cbn [fst snd].
  destruct (t_block (cs_db (is_c m)) !! (d, o)) as [r|] eqn:Er; cbn [fmap option_fmap option_map].
  - rewrite set_db_same. destruct (decide (u64 (r_hash r) = block_hash (d, o, data))) as [Hh|Hh].
    + rewrite Hh. rewrite (bool_decide_true (0 = 0 ∧ _)), (bool_decide_true (Some _ = Some _)) by (split; reflexivity || reflexivity).
      do 2 f_equal.
      unfold sqlite_update_last_sent. rewrite db_update_ok by done. cbn [snd cs_db set_db].
      unfold sqlite_block_mark_verified. rewrite db_update_ok by done. cbn [snd cs_db set_db].
      unfold with_engine, set_db, with_blocks. cbn. by rewrite alter_alter_eq.
    + rewrite (bool_decide_false (0 = 0 ∧ _)), (bool_decide_false (Some _ = Some _)) by naive_solver.
      destruct (msgpack_encode_block _ _ _ _ _); [done|]. by destruct m.
  - rewrite set_db_same. rewrite (bool_decide_false (_ ∧ _)), (bool_decide_false (None = Some _)) by naive_solver.
    destruct (msgpack_encode_block _ _ _ _ _); [done|]. by destruct m.
Qed.

Context (mem : ∀ n, realloc_ok n = true).

(** One block keeps the invariant. *)
Lemma sync_data_inv fuel now ver t0 l b m m' :
  pass_inv ver t0 l m → block_ok b → b.1 ∉ l.*1 →
  sync_data realloc_ok malloc_ok clock wall cfg fuel b.1.1 b.1.2 now ver b.2 m = Some m' →
  pass_inv ver t0 (l ++ [b]) m'.
Proof.
  intros Hp Hb Hn E. pose proof (pi_ok _ _ _ _ Hp) as [Hq Hw He].
  rewrite sync_data_eq in E by done. cbv zeta in E. rewrite (recorded_same _ _ _ _ _ Hp Hn) in E.
  destruct (recorded t0 b) eqn:Er.
  - injection E as <-. apply pass_inv_periodic.
    pose proof Er as Er'. rewrite <- (recorded_same _ _ _ _ _ Hp Hn) in Er'. unfold recorded in Er'. bool_to_prop.
    destruct (t_block (cs_db (is_c m)) !! b.1) as [r|] eqn:Erow; [|done]. cbn in Er'. injection Er' as Hh.
    eapply (pass_inv_step ver t0 l m b (mk_row (r_size r) (r_hash r) 1 now ver (r_remote_id r)));
      try done; cbn; rewrite ?Er; try done.
    + intros k Hk. by rewrite lookup_alter_ne.
    + by rewrite lookup_alter_eq, Erow.
  - destruct (encode_block_total realloc_ok (cs_writer (is_c m)) b.1.1 b.1.2 b.2 mem) as [w Ew]. rewrite Ew in E.
    destruct Hb as [Ho Hl]. unfold BLOCK_SIZE in Hl. destruct Hw as [Hw1 Hw2].
    assert (Hcap : 0 ≤ wr_capacity (cs_writer (is_c m))).
    { unfold wr_written in Hw1. pose proof (len_nonneg (wr_data (cs_writer (is_c m)))). lia. }
    apply encode_block_data in Ew as [_ Hwok]; [|done|done|lia].
    destruct (sync_push _ _ _ _ _ _ _ _ _ _) as [c|] eqn:Ep; [|done]. cbn [mbind option_bind] in E.
    injection E as <-. apply pass_inv_periodic.
    pose proof (sync_push_queue _ _ _ _ _ _ _ _ _ (set_writer (is_c m) w) c Hq Ep) as Hqc.
    pose proof (sync_push_frame _ _ _ _ rows_kept _ _ _ _ _ _ _ Ep) as (K1 & K2 & K3).
    specialize (K2 He). unfold sqlite_block_upsert_v. rewrite db_update_ok by done.
    eapply (pass_inv_step ver t0 l m b (mk_row (len b.2) (s64 (block_hash b)) 0 0 ver (db_remote_id (cs_db c))));
      try done; cbn; rewrite ?Er; try done.
    + constructor; cbn; [done| |done]. rewrite K3. exact Hwok.
    + intros k Hk. destruct b as [[d o] data]. cbn in *. rewrite lookup_insert_ne by congruence. apply K1.
    + destruct b as [[d o] data]. apply lookup_insert_eq.
    + apply u64_s64. apply hash_block_range.
Qed.

Lemma sync_data_total fuel now ver t0 l b m :
  (∀ t, malloc_ok t = true) → pass_inv ver t0 l m → block_ok b →
  q_count (cs_queue (is_c m)) + 1 < BACKPRESSURE_QUEUE_DEPTH →
  ∃ m', sync_data realloc_ok malloc_ok clock wall cfg (S fuel) b.1.1 b.1.2 now ver b.2 m = Some m' ∧
        q_count (cs_queue (is_c m')) ≤ q_count (cs_queue (is_c m)) + 1.
Proof.
  intros Ha Hp Hb Hc. pose proof (pi_ok _ _ _ _ Hp) as [Hq Hw He].
  assert (Hper : ∀ x, queue_ok (cs_queue (is_c x)) →
    q_count (cs_queue (is_c (periodic clock wall cfg x))) ≤ q_count (cs_queue (is_c x))).
  { intros x Hx. unfold periodic. case_test; [|done]. destruct (flush_and_ack_queue clock wall cfg (is_c x) Hx).
    cbn. pose proof Hx as [_ _ ? _ _]. lia. }
  rewrite sync_data_eq by done. cbv zeta. destruct (recorded _ b).
  { eexists. split; [done|]. etransitivity; [apply Hper; done|]. cbn. lia. }
  destruct (encode_block_total realloc_ok (cs_writer (is_c m)) b.1.1 b.1.2 b.2 mem) as [w Ew]. rewrite Ew.
  destruct Hb as [Ho Hl]. unfold BLOCK_SIZE in Hl. destruct Hw as [Hw1 Hw2].
  assert (Hcap : 0 ≤ wr_capacity (cs_writer (is_c m))).
  { unfold wr_written in Hw1. pose proof (len_nonneg (wr_data (cs_writer (is_c m)))). lia. }
  apply encode_block_data in Ew as [-> _]; [|done|done|lia].
  destruct (sync_push_short malloc_ok clock wall cfg fuel (set_writer (is_c m) w) b.1.1 b.1.2 (block_hash b)
              (block_encoding b.1.1 b.1.2 b.2)) as (q & -> & Hq' & Hf); [by apply Ha|done|done| |].
  { pose proof (len_block_encoding b.1.1 b.1.2 b.2). unfold QUEUE_ENTRY_MAX_PAYLOAD. lia. }
  cbn [mbind option_bind]. eexists. split; [done|]. etransitivity; [apply Hper; done|].
  cbn. rewrite <- (len_fifo q Hq'), Hf, <- (len_fifo (cs_queue (is_c m)) Hq). cbn. len_norm. lia.
Qed.

(** ** The blocks of a partition, of a list of partitions *)

Definition read_at (reader : block_reader) (has_vss : bool) (base blk : Z) : option (list Z) :=
  block_reader_read reader (if has_vss then u64 (blk * BLOCK_SIZE) else u64 (base + blk * BLOCK_SIZE)) BLOCK_SIZE.

(** The blocks that can be read and are not empty. *)
Definition scan_one (reader : block_reader) (has_vss : bool) (devno base blk : Z) : list scanned_block :=
  match read_at reader has_vss base blk with
  | Some (x :: data) => [(devno, base + blk * BLOCK_SIZE, x :: data)]
  | _ => []
  end.

Definition scan_volume (v : volume_info) : list scanned_block :=
  match open_volume open_reader v with
  | None => []
  | Some (reader, use_vss) =>
      seqZ 0 (vi_block_count v) ≫= scan_one reader use_vss (vi_devno v) (vi_partition_offset v)
  end.

Definition scan_list (vols : list volume_info) : list scanned_block := vols ≫= scan_volume.

Context (always_running : ∀ t, running t = true).

Lemma pass_inv_tick ver t0 l m : pass_inv ver t0 l m → pass_inv ver t0 l (with_engine m (tick (is_c m))).
Proof.
  intros Hp. apply pass_inv_kept; [done|apply ef_tick|]. by destruct Hp as [[? _ _] _ _ _ _ _].
Qed.

Lemma scan_one_cases reader has_vss devno base blk :
  honest reader → 0 ≤ base → 0 ≤ blk → base + (blk + 1) * BLOCK_SIZE ≤ 2 ^ 63 →
  (scan_one reader has_vss devno base blk = [] ∧
   ∀ fuel now ver m, sync_block realloc_ok malloc_ok clock wall cfg fuel reader devno (u64 (base + blk * BLOCK_SIZE))
     (if has_vss then u64 (blk * BLOCK_SIZE) else u64 (base + blk * BLOCK_SIZE)) now ver m = Some m) ∨
  ∃ b, scan_one reader has_vss devno base blk = [b] ∧ block_ok b ∧
   ∀ fuel now ver m, sync_block realloc_ok malloc_ok clock wall cfg fuel reader devno (u64 (base + blk * BLOCK_SIZE))
     (if has_vss then u64 (blk * BLOCK_SIZE) else u64 (base + blk * BLOCK_SIZE)) now ver m =
   sync_data realloc_ok malloc_ok clock wall cfg fuel b.1.1 b.1.2 now ver b.2 m.
Proof.
  intros Hh Hb Hk Hr. unfold BLOCK_SIZE in Hr. unfold scan_one, sync_block.
  change (block_reader_read reader _ BLOCK_SIZE) with (read_at reader has_vss base blk).
  destruct (read_at reader has_vss base blk) as [[|x data]|] eqn:E; [by left| |by left].
  right. eexists. split; [done|].
  assert (Hl : len (x :: data) ≤ BLOCK_SIZE) by (by eapply honest_read).
  split.
  - split; cbn [fst snd]; [unfold BLOCK_SIZE; lia|]. rewrite len_cons in *. pose proof (len_nonneg data). lia.
  - intros fuel now ver m. cbn [fst snd]. replace (len (x :: data) =? 0) with false
      by (rewrite len_cons; pose proof (len_nonneg data); lia).
    replace (u64 (base + blk * BLOCK_SIZE)) with (base + blk * BLOCK_SIZE); [done|].
    symmetry. apply (wrapU_id 64). unfold in_u, BLOCK_SIZE. lia.
Qed.

Lemma sync_blocks_inv fuel reader has_vss devno base now ver t0 n : ∀ blk l m m',
  honest reader → 0 ≤ base → 0 ≤ blk → base + (blk + Z.of_nat n) * BLOCK_SIZE ≤ 2 ^ 63 →
  let bs := seqZ blk (Z.of_nat n) ≫= scan_one reader has_vss devno base in
  pass_inv ver t0 l m → NoDup (l ++ bs).*1 →
  sync_blocks realloc_ok malloc_ok clock wall running cfg fuel reader has_vss devno base now ver n blk m = Some m' →
  pass_inv ver t0 (l ++ bs) m'.
Proof.
  induction n as [|n IH]; intros blk l m m' Hh Hb Hk Hr bs Hp Hnd E.
  { injection E as <-. unfold bs. cbn. by rewrite app_nil_r. }
  cbn [sync_blocks] in E. unfold is_running in E. rewrite always_running in E. cbn [negb] in E.
  assert (Hbs : bs = scan_one reader has_vss devno base blk ++ (seqZ (blk + 1) (Z.of_nat n) ≫= scan_one reader has_vss devno base)).
  { unfold bs. rewrite (seqZ_cons blk (Z.of_nat (S n))) by lia. rewrite bind_cons. do 3 f_equal; lia. }
  clearbody bs. subst bs. rewrite app_assoc in *.
  destruct (scan_one_cases reader has_vss devno base blk) as [[Es Hs]|(b & Es & Hok & Hs)];
    [done|done|done|unfold BLOCK_SIZE in *; lia| |]; rewrite Es in Hnd |- *.
  - rewrite Hs in E. cbn [mbind option_bind] in E. rewrite app_nil_r in *.
    eapply (IH (blk + 1)); [done|done|lia|unfold BLOCK_SIZE in *; lia|by apply pass_inv_tick|exact Hnd|exact E].
  - rewrite Hs in E. destruct (sync_data _ _ _ _ _ _ _ _ _ _ _ _) as [m1|] eqn:Ed; [|done].
    cbn [mbind option_bind] in E.
    eapply (IH (blk + 1)); [done|done|lia|unfold BLOCK_SIZE in *; lia| |exact Hnd|exact E].
    eapply sync_data_inv; [by apply pass_inv_tick|done| |exact Ed].
    rewrite !fmap_app in Hnd. apply NoDup_app in Hnd as [Hnd _]. apply NoDup_app in Hnd as (_ & Hdis & _).
    intros Hin. apply (Hdis _ Hin). cbn. set_solver.
Qed.

Lemma sync_blocks_total fuel reader has_vss devno base now ver t0 n : ∀ blk l m,
  (∀ t, malloc_ok t = true) → honest reader → 0 ≤ base → 0 ≤ blk → base + (blk + Z.of_nat n) * BLOCK_SIZE ≤ 2 ^ 63 →
  pass_inv ver t0 l m → NoDup (l ++ (seqZ blk (Z.of_nat n) ≫= scan_one reader has_vss devno base)).*1 →
  q_count (cs_queue (is_c m)) + Z.of_nat n < BACKPRESSURE_QUEUE_DEPTH →
  ∃ m', sync_blocks realloc_ok malloc_ok clock wall running cfg (S fuel) reader has_vss devno base now ver n blk m = Some m' ∧
        q_count (cs_queue (is_c m')) ≤ q_count (cs_queue (is_c m)) + Z.of_nat n.
Proof.
  induction n as [|n IH]; intros blk l m Ha Hh Hb Hk Hr Hp Hnd Hc.
  { exists m. split; [done|lia]. }
  cbn [sync_blocks]. unfold is_running. rewrite always_running. cbn [negb].
  rewrite (seqZ_cons blk (Z.of_nat (S n))), bind_cons in Hnd by lia.
  replace (Z.succ blk) with (blk + 1) in Hnd by lia. replace (Z.pred (Z.of_nat (S n))) with (Z.of_nat n) in Hnd by lia.
  rewrite app_assoc in Hnd. pose proof (pass_inv_tick ver t0 l m Hp) as Hp1.
  destruct (scan_one_cases reader has_vss devno base blk) as [[Es Hs]|(b & Es & Hok & Hs)];
    [done|done|done|unfold BLOCK_SIZE in *; lia| |]; rewrite Es in Hnd; rewrite Hs.
  - rewrite app_nil_r in Hnd. cbn [mbind option_bind].
    destruct (IH (blk + 1) l (with_engine m (tick (is_c m)))) as (m' & E & Hm');
      [done|done|done|lia|unfold BLOCK_SIZE in *; lia|done|done|cbn in *; lia|].
    exists m'. split; [exact E|]. cbn in Hm'. lia.
  - destruct (sync_data_total fuel now ver t0 l b (with_engine m (tick (is_c m)))) as (m1 & Ed & Hm1);
      [done|done|done|cbn in *; lia|]. rewrite Ed. cbn [mbind option_bind].
    assert (Hn : b.1 ∉ l.*1).
    { rewrite !fmap_app in Hnd. apply NoDup_app in Hnd as [Hnd _]. apply NoDup_app in Hnd as (_ & Hdis & _).
      intros Hin. apply (Hdis _ Hin). cbn. set_solver. }
    destruct (IH (blk + 1) (l ++ [b]) m1) as (m' & E & Hm');
      [done|done|done|lia|unfold BLOCK_SIZE in *; lia|by eapply sync_data_inv|done|cbn in *; lia|].
    exists m'. split; [exact E|]. cbn in Hm1. lia.
Qed.

(** A volume inside a disk of less than 2^63 bytes whose readers are honest. *)
Definition vol_ok (v : volume_info) : Prop :=
  0 ≤ vi_partition_offset v ∧ 0 ≤ vi_block_count v ∧
  vi_partition_offset v + vi_block_count v * BLOCK_SIZE ≤ 2 ^ 63 ∧
  ∀ r u, open_volume open_reader v = Some (r, u) → honest r.

Lemma sync_volumes_inv fuel now ver t0 vols : ∀ l m m',
  Forall vol_ok vols → pass_inv ver t0 l m → NoDup (l ++ scan_list vols).*1 →
  sync_volumes realloc_ok malloc_ok clock wall running cfg open_reader fuel vols now ver m = Some m' →
  pass_inv ver t0 (l ++ scan_list vols) m'.
Proof.
  induction vols as [|v vols IH]; intros l m m' HF Hp Hnd E.
  { injection E as <-. unfold scan_list. cbn. by rewrite app_nil_r. }
  apply Forall_cons in HF as [(Hb & Hn & Hr & Hh) HF].
  unfold scan_list in *. rewrite bind_cons, app_assoc in *.
  cbn [sync_volumes] in E. unfold is_running in E. rewrite always_running in E. cbn [negb] in E.
  destruct (sync_volume _ _ _ _ _ _ _ _ _ _ _ _) as [m1|] eqn:Ev; [|done]. cbn [mbind option_bind] in E.
  eapply IH; [done| |done|exact E].
  unfold sync_volume in Ev. unfold scan_volume in Hnd |- *.
  destruct (open_volume open_reader v) as [[r u]|] eqn:Eo.
  - rewrite <- (Z2Nat.id (vi_block_count v)) in Hnd |- * by done.
    eapply sync_blocks_inv; [by eapply Hh|done|done|unfold BLOCK_SIZE in *; lia|by apply pass_inv_tick| |exact Ev].
    rewrite fmap_app in Hnd. by apply NoDup_app in Hnd as [? _].
  - injection Ev as <-. rewrite app_nil_r. by apply pass_inv_tick.
Qed.

Lemma sync_volumes_total fuel now ver t0 vols : ∀ l m,
  (∀ t, malloc_ok t = true) → Forall vol_ok vols → pass_inv ver t0 l m → NoDup (l ++ scan_list vols).*1 →
  q_count (cs_queue (is_c m)) + foldr (λ v n, vi_block_count v + n) 0 vols < BACKPRESSURE_QUEUE_DEPTH →
  ∃ m', sync_volumes realloc_ok malloc_ok clock wall running cfg open_reader (S fuel) vols now ver m = Some m'.
Proof.
  induction vols as [|v vols IH]; intros l m Ha HF Hp Hnd Hc; [by exists m|].
  apply Forall_cons in HF as [(Hb & Hn & Hr & Hh) HF].
  unfold scan_list in *. rewrite bind_cons, app_assoc in *. cbn [foldr] in Hc.
  assert (Hpos : 0 ≤ foldr (λ v n, vi_block_count v + n) 0 vols).
  { clear -HF. induction HF as [|x xs (_ & Hx & _) _ IH]; cbn; lia. }
  cbn [sync_volumes]. unfold is_running. rewrite always_running. cbn [negb].
  unfold sync_volume, scan_volume in *. pose proof (pass_inv_tick ver t0 l m Hp) as Hp1.
  destruct (open_volume open_reader v) as [[r u]|] eqn:Eo.
  - rewrite <- (Z2Nat.id (vi_block_count v)) in Hnd by done.
    assert (Hnd1 : NoDup (l ++ (seqZ 0 (Z.of_nat (Z.to_nat (vi_block_count v))) ≫= scan_one r u (vi_devno v) (vi_partition_offset v))).*1).
    { rewrite fmap_app in Hnd. by apply NoDup_app in Hnd as [? _]. }
    destruct (sync_blocks_total fuel r u (vi_devno v) (vi_partition_offset v) now ver t0 (Z.to_nat (vi_block_count v))
                0 l (with_engine m (tick (is_c m)))) as (m1 & E1 & Hc1);
      [done|by eapply Hh|done|done|unfold BLOCK_SIZE in *; lia|done|done|cbn; lia|].
    rewrite E1. cbn [mbind option_bind]. eapply IH; [done|done| |exact Hnd|cbn in *; lia].
    eapply sync_blocks_inv; [by eapply Hh|done|done|unfold BLOCK_SIZE in *; lia|done|done|exact E1].
  - cbn [mbind option_bind]. rewrite app_nil_r in Hnd. eapply IH; [done|done|done|done|cbn; lia].
Qed.

End Pass.

(** The keys of the blocks a pass reads are keys of the volumes' blocks. *)
Lemma scan_keys open_reader v : (scan_volume open_reader v).*1 `sublist_of` block_keys v.
Proof.
  unfold scan_volume. destruct (open_volume open_reader v) as [[r u]|]; [|apply sublist_nil_l].
  unfold block_keys, seqZ. generalize (seq 0 (Z.to_nat (vi_block_count v))). intros ids.
  induction ids as [|i ids IH]; [done|]. rewrite !fmap_cons, bind_cons, fmap_app.
  rewrite Z.add_0_r. unfold scan_one at 1. destruct (read_at _ _ _ _) as [[|x data]|]; cbn.
  - by apply sublist_cons.
  - by apply sublist_skip.
  - by apply sublist_cons.
Qed.

Lemma scan_list_keys open_reader vols : (scan_list open_reader vols).*1 `sublist_of` (vols ≫= block_keys).
Proof.
  induction vols as [|v vols IH]; [done|]. unfold scan_list in *. rewrite !bind_cons, fmap_app.
  apply sublist_app; [apply scan_keys|exact IH].
Qed.

(** ** Properties *)

(** C16 (incsync_scan_correct): a pass over volumes whose blocks have different
    keys, with memory, a working tracker, honest readers and no signal.  When it
    ends, every block that could be read has a row with the hash of the bytes
    read and the version of the pass, whether it was found unchanged or sent; no
    other row's hash or version has changed; the counters are the number of
    blocks read, of those whose hash the tracker already had, and of the others.
    It does end, whatever the network does, when fewer than forty blocks can be
    waiting. *)
Theorem incsync_scan_correct `{Zstd} realloc_ok malloc_ok clock wall running cfg open_reader vols c now ver :
  (∀ n, realloc_ok n = true) → (∀ t, malloc_ok t = true) → (∀ t, running t = true) → round_ok c →
  Forall (vol_ok open_reader) vols → NoDup (vols ≫= block_keys) →
  let run fuel := sync_volumes realloc_ok malloc_ok clock wall running cfg open_reader fuel vols now ver
                    (mk_is c 0 0 0 0) in
  let l := scan_list open_reader vols in
  let t := t_block (cs_db c) in
  (q_count (cs_queue c) + foldr (λ v n, vi_block_count v + n) 0 vols < BACKPRESSURE_QUEUE_DEPTH →
   ∀ fuel, is_Some (run (S fuel))) ∧
  (∀ fuel m, run fuel = Some m →
   let t' := t_block (cs_db (is_c m)) in
   (∀ d o data, (d, o, data) ∈ l →
      ∃ r, t' !! (d, o) = Some r ∧ u64 (r_hash r) = hash_block data (Z.land o 0xFFFFFFFF) ∧ r_version r = ver) ∧
   (∀ k, k ∉ l.*1 → content <$> t' !! k = content <$> t !! k) ∧
   is_scanned m = u64 (len l) ∧
   is_skipped m = u64 (len (filter (λ b, recorded t b = true) l)) ∧
   is_changed m = u64 (len (filter (λ b, recorded t b = false) l))).
Proof.
  intros Hmem Ha Hrun Hok HF Hnd run l t.
  assert (Hnd' : NoDup ([] ++ l).*1) by (eapply sublist_NoDup; [exact Hnd|apply scan_list_keys]).
  assert (Hinv : pass_inv ver t [] (mk_is c 0 0 0 0)).
  { constructor; try done. intros b Hb. by apply elem_of_nil in Hb. }
  split.
  - intros Hc fuel. destruct (sync_volumes_total realloc_ok malloc_ok clock wall running cfg open_reader Hmem Hrun
      fuel now ver t vols [] (mk_is c 0 0 0 0) Ha HF Hinv Hnd' Hc) as [m Em]. by exists m.
  - intros fuel m E.
    destruct (sync_volumes_inv realloc_ok malloc_ok clock wall running cfg open_reader Hmem Hrun
      fuel now ver t vols [] (mk_is c 0 0 0 0) m HF Hinv Hnd' E) as [_ H2 H3 H4 H5 H6].
    split; [intros d o data Hb; apply (H3 _ Hb)|]. done.
Qed.

Definition sync_vol (blocks : Z) : volume_info := demo_vol 0 [1] [] (string_bytes "Disk0Part1") 0 blocks false 1.

Definition sync_open (path : list Z) : option block_reader :=
  if bool_decide (path = [1]) then Some (device [1; 2; 3]) else None.

Lemma incsync_scan_correct_witness :
  ∃ m, sync_volumes (H := stored_zstd) alloc_always always midnight midnight always demo_cfg sync_open 1 [sync_vol 1]
         7 2 (mk_is (demo_cs [] []) 0 0 0 0) = Some m ∧
       is_changed m = u64 (len (filter (λ b, recorded ∅ b = false) [(0, 0, [1; 2; 3])])).
Proof.
  assert (Hv : Forall (vol_ok sync_open) [sync_vol 1]).
  { constructor; [|constructor]. split; [done|]. split; [done|]. split; [done|].
    intros r u E. vm_compute in E. injection E as <- <-. apply honest_device. }
  assert (Hok : round_ok (demo_cs [] [])).
  { constructor; [apply (queue_init_ok true)|vm_compute; split; congruence|done]. }
  assert (Hn : NoDup ([sync_vol 1] ≫= block_keys)) by (vm_compute; apply NoDup_singleton).
  destruct (incsync_scan_correct (H := stored_zstd) alloc_always always midnight midnight always demo_cfg sync_open
              [sync_vol 1] (demo_cs [] []) 7 2 (λ _, eq_refl) (λ _, eq_refl) (λ _, eq_refl) Hok Hv Hn) as [H1 H2].
  destruct (H1 ltac:(vm_compute; reflexivity) 0%nat) as [m Em]. exists m. split; [exact Em|].
  destruct (H2 _ _ Em) as (_ & _ & _ & _ & ->). reflexivity.
Defined.

(** C33 (incsync_push_live): when does the push loop of a pass end?  At once, with
    the block queued, while the queue stays below the backpressure depth.  At the
    depth, after one more turn, if the flush empties the queue.  But when no
    connection can send any more it never ends: each turn drops the oldest
    waiting block and queues the current one again. *)
Theorem incsync_push_live `{Zstd} malloc_ok clock wall cfg c d o h payload :
  (∀ t, malloc_ok t = true) → queue_ok (cs_queue c) → len payload ≤ QUEUE_ENTRY_MAX_PAYLOAD →
  cf_dry_run cfg = false →
  let e := mk_entry d o h (Some payload) (len payload) 1 in
  let push fuel := sync_push malloc_ok clock wall cfg fuel c d o h payload in
  (q_count (cs_queue c) + 1 < BACKPRESSURE_QUEUE_DEPTH → ∀ fuel,
     ∃ c', push (S fuel) = Some c' ∧ queue_ok (cs_queue c') ∧ fifo (cs_queue c') = fifo (cs_queue c) ++ [e]) ∧
  (BACKPRESSURE_QUEUE_DEPTH ≤ q_count (cs_queue c) + 1 →
     let c1 := flush_and_ack clock wall cfg (set_queue c (queue_push true (cs_queue c) d o h payload).2) in
     q_count (cs_queue c1) = 0 → ∀ fuel,
     ∃ c', push (S (S fuel)) = Some c' ∧ queue_ok (cs_queue c') ∧ fifo (cs_queue c') = [e]) ∧
  (BACKPRESSURE_QUEUE_DEPTH ≤ q_count (cs_queue c) + 1 → dead c → ∀ fuel, push fuel = None).
Proof.
  intros Ha Hq Hl Hdry e push. unfold BACKPRESSURE_QUEUE_DEPTH in *. split; [|split].
  - intros Hc fuel. destruct (sync_push_short malloc_ok clock wall cfg fuel c d o h payload) as (q & E & H1 & H2);
      [apply Ha|done|done|done|]. by eexists.
  - cbv zeta. intros Hc Hz fuel. unfold push. change (sync_push malloc_ok clock wall cfg (S (S fuel)) c d o h payload) with
      (let '(rc, q) := queue_push (malloc_ok (cs_tick c)) (cs_queue c) d o h payload in
       if rc =? 0 then Some (set_queue c q)
       else sync_push malloc_ok clock wall cfg (S fuel) (tick (flush_and_ack clock wall cfg (set_queue c q))) d o h payload).
    rewrite Ha. destruct (queue_push true (cs_queue c) d o h payload) as [rc q] eqn:E. cbn [snd] in Hz.
    pose proof (queue_push_ok _ _ _ _ _ _ _ _ Hq E) as [Hq' _].
    assert (Hrc : rc ≠ 0).
    { unfold queue_push in E. replace (_ <? len payload) with false in E by lia.
      destruct (QUEUE_CAPACITY <=? q_count (cs_queue c)); [by injection E as <- <-|].
      unfold BACKPRESSURE_QUEUE_DEPTH in E. replace (40 <=? _) with true in E by lia. by injection E as <- <-. }
    replace (rc =? 0) with false by lia.
    destruct (flush_and_ack_queue clock wall cfg (set_queue c q) Hq') as [Hq1 _].
    set (c2 := flush_and_ack clock wall cfg (set_queue c q)) in *.
    destruct (sync_push_short malloc_ok clock wall cfg fuel (tick c2) d o h payload) as (q2 & -> & H1 & H2);
      [apply Ha|done|cbn; rewrite Hz; done|done|]. eexists. split; [done|]. split; [done|].
    cbn. rewrite H2. cbn. by replace (fifo (cs_queue c2)) with (@nil queue_entry) by (unfold fifo; by rewrite Hz).
  - intros Hc Hd fuel. apply sync_push_spins; try done. unfold BACKPRESSURE_QUEUE_DEPTH. lia.
Qed.

(** Thirty-nine blocks waiting on connections that are gone. *)
Lemma incsync_push_live_witness :
  let c := mk_cs (cs_queue demo_full) (demo_db []) demo_pool ∅ (msgpack_writer_init alloc_always) 0 0 0 0 0 0 0 0 0 false in
  sync_push (H := stored_zstd) always midnight midnight demo_cfg 100 c 1 159744 9 [147; 1] = None.
Proof.
  intros c.
  assert (Hq : queue_ok (cs_queue c)).
  { constructor; vm_compute; try reflexivity; split; congruence. }
  apply (incsync_push_live (H := stored_zstd) always midnight midnight demo_cfg c 1 159744 9 [147; 1]
           (λ _, eq_refl) Hq ltac:(vm_compute; congruence) eq_refl).
  - vm_compute. congruence.
  - intros fd. reflexivity.
Defined.

(** ** A lost block *)

Definition lost_conf : incsync_conf := incsync_config None.
Definition lost_cfg : config := incsync_cfg (string_bytes "10.0.0.7:8443") lost_conf.

(** A run over the one-block disk [1; 2; 3] with the tracker's tables and the
    sockets given. *)
Definition lost_run (t : gmap (Z * Z) block_row) (vs : list version_row) (socks : gmap Z sock)
    : option (Z * option (Z * istate)) :=
  cmd_incsync (H := stored_zstd) alloc_always always midnight midnight always lost_cfg sync_open 2 lost_conf
    ([sync_vol 1], 0) (sqlite_open true true true true t vs) true true true alloc_always
    (Some <$> seqZ 5 7) socks false None.

Definition live_socks : gmap Z sock :=
  list_to_map ((λ fd, (fd, mk_sock [] (replicate 8 (SendRoom 1048576)) [])) <$> seqZ 5 7).

(** C35 (incsync_confirms_lost_block): the row of a changed block records its new
    hash before the block has reached the receiver.  When the connections are dead
    the first run transmits nothing and still ends with code 0; a second run, on
    connections that work, finds the recorded hash equal to the disk's, sends no
    block and marks the row acknowledged: the receiver never gets the data and the
    tracker says it has. *)
Theorem incsync_confirms_lost_block :
  ∃ m1 m2,
    lost_run ∅ [] ∅ = Some (0, Some (1, m1)) ∧
    is_changed m1 = 1 ∧ fifo (cs_queue (is_c m1)) = [] ∧
    (r_ack <$> t_block (cs_db (is_c m1)) !! (0, 0) = Some 0) ∧
    (sk_out ∘ csock (is_c m1) <$> seqZ 5 7 = replicate 7 []) ∧
    lost_run (t_block (cs_db (is_c m1))) (t_version (cs_db (is_c m1))) live_socks = Some (0, Some (2, m2)) ∧
    is_changed m2 = 0 ∧
    (r_ack <$> t_block (cs_db (is_c m2)) !! (0, 0) = Some 1) ∧
    concat (sk_out ∘ csock (is_c m2) <$> seqZ 5 7) =
      control_frame (ztake CTL_INCREMENTAL_LEN CTL_INCREMENTAL) ++
      control_frame (ztake CTL_END_INCREMENTAL_LEN CTL_END_INCREMENTAL).
Proof.
  eexists _, _. split; [vm_compute; reflexivity|]. split; [reflexivity|]. split; [reflexivity|].
  split; [vm_compute; reflexivity|]. split; [vm_compute; reflexivity|].
  split; [vm_compute; reflexivity|]. split; [reflexivity|]. split; vm_compute; reflexivity.
Qed.
