(* ===== verification/EndToEnd.v ===== *)
(** * Client and receiver together

    The two programs meet on a connection: what the client has put on its side
    arrives on the receiver's in pieces of any size, and the other way round.
    A block's journey (queue, frame, decoder, disk, acknowledgement, tracker)
    is the composition of the lemmas of Client.v and Server.v. *)

From S2P Require Import Prelude Protocol Net Zstd Msgpack Wire Session Decoder BlockWriter Ack Server Queue Pool Tracker Client.

(** The open descriptors of a pool. *)
Definition open_fds (cs : list pool_conn) : list Z := filter (λ fd, fd ≠ SOCKET_ERR) (c_fd <$> cs).

Lemma open_fds_eq cs : open_fds cs = c_fd <$> open_conns cs.
Proof.
  unfold open_fds, open_conns. induction cs as [|c cs IH]; [done|].
  cbn [fmap list_fmap]. rewrite !filter_cons. case_decide; cbn; by rewrite IH.
Qed.

Lemma silent_conns s : ∀ l,
  Forall (λ c, sk_in (csock s (c_fd c)) = []) l →
  ∃ rss, Forall2 (conn_holds s) l rss ∧ concat rss = [].
Proof.
  induction l as [|c l IH]; intros HF; [by exists []|]. apply Forall_cons in HF as [Hc HF].
  destruct (IH HF) as (rss & H1 & H2). exists ([] :: rss). split; [|done]. constructor; [|done].
  split; [done|]. rewrite Hc. constructor.
Qed.

(** Responses on one connection, silence on the others. *)
Lemma one_speaks s fd rs : ∀ l,
  NoDup (c_fd <$> l) → fd ∈ c_fd <$> l → Forall response_ok rs →
  delivers (sk_in (csock s fd)) (concat (response_bytes <$> rs)) [] →
  (∀ fd', fd' ∈ c_fd <$> l → fd' ≠ fd → sk_in (csock s fd') = []) →
  ∃ rss, Forall2 (conn_holds s) l rss ∧ concat rss = rs.
Proof.
  induction l as [|c l IH]; intros Hnd Hin Hok Hd Hq; [by apply elem_of_nil in Hin|].
  cbn [fmap list_fmap] in *. apply NoDup_cons in Hnd as [Hnin Hnd].
  apply elem_of_cons in Hin as [->|Hin].
  - destruct (silent_conns s l) as (rss & H1 & H2).
    { apply Forall_forall. intros c' Hc'. apply Hq; [right; by apply list_elem_of_fmap_2|].
      intros Heq. apply Hnin. rewrite <- Heq. by apply list_elem_of_fmap_2. }
    exists (rs :: rss). split; [by constructor|]. cbn. by rewrite H2, app_nil_r.
  - destruct (IH Hnd Hin Hok Hd) as (rss & H1 & H2); [intros fd' Hf'; apply Hq; by right|].
    exists ([] :: rss). split; [|done]. constructor; [|done]. split; [done|].
    rewrite Hq; [constructor|left|]. intros Heq. apply Hnin. by rewrite Heq.
Qed.

(** The client can send its oldest entry, a block, on slot [i]. *)
Record can_send `{Zstd} (wall : nat → Z) (cfg : config) (s : cstate) (d o : Z) (data : list Z)
    (l : list queue_entry) (i : Z) (p : socket_pool) : Prop := {
  cd_real : cf_dry_run cfg = false;
  cd_full : cf_tail_send cfg = false;
  cd_queue : queue_ok (cs_queue s);
  cd_head : ∃ h n, fifo (cs_queue s) = mk_entry d o h (Some (block_encoding d o data)) n 1 :: l;
  cd_block : in_s 32 d ∧ 0 ≤ o < 2 ^ 63 ∧ bytes_ok data ∧ len data ≤ BLOCK_SIZE;
  cd_db : db_events (cs_db s) = [];
  cd_conn : pool_acquire (wall (cs_tick s)) (cs_pool s) = (Some i, p) ∧ 0 ≤ i < len (pl_conns p);
  cd_scratch : c_scratch (conn_at p i) = Some SEND_SCRATCH_SIZE;
  cd_open : c_fd (conn_at p i) ≠ SOCKET_ERR ∧ NoDup (open_fds (pl_conns p));
  cd_room : ZSTD_COMPRESS_BOUND (len (block_encoding d o data)) + 7 ≤
            granted (sk_send (csock s (c_fd (conn_at p i))));
  cd_quiet : ∀ fd, fd ∈ open_fds (pl_conns p) → sk_in (csock s fd) = [];
}.

Lemma bound_scratch d o data :
  len data ≤ BLOCK_SIZE →
  len (block_encoding d o data) ≤ QUEUE_ENTRY_MAX_PAYLOAD ∧
  ZSTD_COMPRESS_BOUND (len (block_encoding d o data)) + 7 ≤ SEND_SCRATCH_SIZE.
Proof.
  intros Hl. pose proof (len_block_encoding d o data). unfold BLOCK_SIZE, QUEUE_ENTRY_MAX_PAYLOAD in *.
  split; [lia|]. unfold ZSTD_COMPRESS_BOUND, SEND_SCRATCH_SIZE.
  assert (len (block_encoding d o data) / 8 ≤ 131075) by (apply Z.div_le_upper_bound; lia). lia.
Qed.

(** Sending: the entry leaves the queue as one frame of its block. *)
Lemma client_sends `{ZstdOk} clock wall cfg s d o data l i p :
  can_send wall cfg s d o data l i p →
  let fd := c_fd (conn_at p i) in
  ∃ s1 frame, flush_one clock wall cfg s = (1, s1) ∧ wire_frame (DECODE_DATA_BLOCK d o data) frame ∧
    sk_out (csock s1 fd) = sk_out (csock s fd) ++ frame ∧ fifo (cs_queue s1) = l ∧
    cs_db s1 = cs_db s ∧ open_fds (pl_conns (cs_pool s1)) = open_fds (pl_conns p) ∧
    ∀ fd', fd ≠ fd' → csock s1 fd' = csock s fd'.
Proof.
  intros [Hdry Htail Hq (h & n & Hf) (Hd & Ho & Hb & Hl) He [Ha Hi] Hsc [Hop Hnd] Hg Hquiet] fd.
  destruct (bound_scratch d o data Hl) as [Hmax Hscr].
  destruct (flush_one_frame_sent clock wall cfg s (mk_entry d o h (Some (block_encoding d o data)) n 1) l
              (block_encoding d o data) i p SEND_SCRATCH_SIZE Hdry Hq Hf eq_refl
              (block_encoding_ok d o data Hb) Hmax Ha Hi Hsc Hscr Hg)
    as (c & s1 & H1 & H2 & H3 & H4 & H5 & H6 & H7 & _ & H9).
  exists s1, (data_frame c). split; [done|]. split.
  { eapply wf_block; [done|unfold in_s; cbn; lia|done|exact Hl|exact H2]. }
  split; [done|]. split; [done|]. split; [done|]. split; [|done]. unfold open_fds. by rewrite H9.
Qed.

(** ** Properties *)

(** C6 (block_reaches_disk): the journey of one block.  The client flushes the
    oldest entry of its queue; the receiver reads what the connection carries,
    in pieces of any size, on an idle session whose disk is ready; what it
    answers reaches the client, again in pieces of any size.  Then the
    receiver's disk is the old one with the block's bytes stored at its offset,
    and in the client's tracker exactly the row of that block has become
    acknowledged.  The compression library is any that satisfies its
    documented contract. *)
Theorem block_reaches_disk `{ZstdOk} clock wall cfg s d o data l i p :
  can_send wall cfg s d o data l i p →
  let fd := c_fd (conn_at p i) in
  ∃ s1 sent, flush_one clock wall cfg s = (1, s1) ∧ fifo (cs_queue s1) = l ∧
    sk_out (csock s1 fd) = sk_out (csock s fd) ++ sent ∧
    ∀ now sv j sess,
      g_sessions (sv_mgr sv) !! j = Some sess → s_recv_buf sess = [] →
      srv_ok (sv_bw sv) → disk_ready (sv_bw sv) d →
      let k := sock_of sv (s_fd sess) in
      only_data (sk_in k) → script_bytes (sk_in k) = sent → willing 20 (sk_send k) →
      let sv' := handle_session now true sv j in
      disk_content (sv_bw sv') d = store o data (disk_content (sv_bw sv) d) ∧
      ∃ reply, sk_out (sock_of sv' (s_fd sess)) = sk_out k ++ reply ∧
        ∀ ins, delivers ins reply [] →
          let s2 := set_sock s1 fd (mk_sock (sk_out (csock s1 fd)) (sk_send (csock s1 fd)) ins) in
          ∀ key, t_block (cs_db (process_ack cfg s2)) !! key =
                 if decide (key = (d, o)) then acked_row <$> t_block (cs_db s) !! key
                 else t_block (cs_db s) !! key.
Proof.
  intros Hcan fd. destruct (client_sends clock wall cfg s d o data l i p Hcan)
    as (s1 & frame & H1 & Hwf & H2 & H3 & Hdb & Hfds & Hother). fold fd in H2, Hother.
  pose proof Hcan as [Hdry Htail _ _ (Hd & Ho & Hb & Hl) He [_ Hi] _ [Hop Hnd] _ Hquiet].
  exists s1, frame. split; [done|]. split; [done|]. split; [done|].
  intros now sv j sess Hj Hbuf Hsrv Hready k Hdata Hscript Hw sv'.
  destruct (handle_session_stores now sv j sess [DECODE_DATA_BLOCK d o data] [frame]) as (Hdisk & Hout & _);
    [done|done|done| | |done|fold k; rewrite Hscript; symmetry; apply app_nil_r|done|].
  { constructor; [|done]. split; [done|]. split; [lia|done]. }
  { by constructor. }
  split. { rewrite Hdisk by done. unfold disk_after. cbn [foldl]. by rewrite Z.eqb_refl. }
  eexists. split; [exact Hout|]. intros ins Hins s2 key.
  set (ack := mk_response RESPONSE_ACK d (len data) o).
  assert (Hfd2 : csock s2 fd = mk_sock (sk_out (csock s1 fd)) (sk_send (csock s1 fd)) ins) by apply csock_set.
  destruct (one_speaks s2 fd [ack] (open_conns (pl_conns (cs_pool s2)))) as (rss & HF & Hcat).
  - rewrite <- open_fds_eq. change (cs_pool s2) with (cs_pool s1). by rewrite Hfds.
  - rewrite <- open_fds_eq. change (cs_pool s2) with (cs_pool s1). rewrite Hfds. unfold open_fds.
    apply list_elem_of_filter. split; [done|]. apply list_elem_of_fmap. exists (conn_at p i). split; [done|].
    apply list_elem_of_lookup_2 with (Z.to_nat i). by apply conn_at_lookup.
  - constructor; [|done]. unfold BLOCK_SIZE in Hl. pose proof (len_nonneg data).
    unfold response_ok, ack, in_s in *. cbn in *. unfold RESPONSE_ACK. lia.
  - rewrite Hfd2. exact Hins.
  - intros fd' Hin Hne. rewrite <- open_fds_eq in Hin. change (cs_pool s2) with (cs_pool s1) in Hin.
    rewrite Hfds in Hin. unfold s2. rewrite csock_set_ne by congruence. rewrite Hother by congruence. by apply Hquiet.
  - unfold process_ack. rewrite Hdry.
    destruct (ack_conns_responses cfg (pl_conns (cs_pool s2)) rss s2) as [m ->]; [|exact HF|].
    { rewrite <- open_fds_eq. change (cs_pool s2) with (cs_pool s1). by rewrite Hfds. }
    rewrite Hcat. cbn [with_socks cs_db].
    destruct (handle_responses_db cfg [ack] s2 Htail) as [_ Hk]; [cbn; by rewrite Hdb|].
    rewrite Hk. change (cs_db s2) with (cs_db s1). rewrite Hdb. cbn [omap list_omap].
    change (ack_of ack) with (Some (d, o)). cbn.
    rewrite (bool_decide_ext (key ∈ [(d, o)]) (key = (d, o))) by apply list_elem_of_singleton.
    by destruct (decide (key = (d, o))); case_bool_decide.
Qed.

(** A client with the block of Server.v's demonstration at the head of its queue. *)
Definition demo_client : cstate :=
  set_queue (demo_cs [((1, 4096), mk_row 3 9 0 0 0 [7])] [])
    (queue_push true (queue_init true).2 1 4096 9 demo_block).2.

Lemma demo_can_send :
  can_send (H := stored_zstd) midnight demo_cfg demo_client 1 4096 [7; 8; 9] [] 0 (pool_acquire 0 demo_pool).2.
Proof.
  constructor.
  - reflexivity.
  - reflexivity.
  - apply (push_fifo (queue_init true).2 1 4096 9 demo_block 0);
      [apply queue_init_ok|vm_compute; congruence|reflexivity|reflexivity].
  - exists 9, 19. reflexivity.
  - split; [vm_compute; split; congruence|]. split; [lia|]. split; [|vm_compute; congruence].
    repeat constructor; vm_compute; congruence.
  - reflexivity.
  - split; [reflexivity|vm_compute; split; congruence].
  - reflexivity.
  - split; [vm_compute; congruence|]. by apply (bool_decide_unpack _).
  - vm_compute. congruence.
  - intros fd Hfd. change (open_fds _) with [5; 6] in Hfd.
    apply elem_of_cons in Hfd as [->|Hfd]; [reflexivity|]. apply list_elem_of_singleton in Hfd as ->. reflexivity.
Qed.

Lemma block_reaches_disk_witness :
  ∃ s1, flush_one (H := stored_zstd) midnight midnight demo_cfg demo_client = (1, s1) ∧
    let sv := demo_server [RecvData (ztake 9 demo_frame); RecvData (zdrop 9 demo_frame)] in
    let sv' := handle_session (H := stored_zstd) 77 true sv 0 in
    disk_content (sv_bw sv') 1 = store 4096 [7; 8; 9] (disk_content (sv_bw sv) 1) ∧
    let ins := [RecvData (sk_out (sock_of sv' 9))] in
    let s2 := set_sock s1 5 (mk_sock (sk_out (csock s1 5)) (sk_send (csock s1 5)) ins) in
    t_block (cs_db (process_ack demo_cfg s2)) !! (1, 4096) = Some (mk_row 3 9 1 0 0 [7]).
Proof.
  destruct (block_reaches_disk midnight midnight demo_cfg demo_client 1 4096 [7; 8; 9] [] 0
              (pool_acquire 0 demo_pool).2 demo_can_send) as (s1 & sent & H1 & _ & H2 & H3).
  exists s1. split; [exact H1|]. intros sv sv'.
  assert (Hs : sent = demo_frame).
  { change (sk_out (csock s1 5) = sent) in H2. rewrite <- H2.
    replace s1 with (flush_one (H := stored_zstd) midnight midnight demo_cfg demo_client).2 by (by rewrite H1).
    vm_compute. reflexivity. }
  subst sent. destruct demo_ready as (_ & _ & Hr).
  destruct (H3 77 sv 0%nat demo_session) as (Hdisk & reply & Hout & Hack).
  - reflexivity.
  - reflexivity.
  - apply demo_srv_ok.
  - exact Hr.
  - repeat constructor; vm_compute; discriminate.
  - vm_compute. reflexivity.
  - split; [|vm_compute; discriminate].
    apply Forall_forall. intros e He. apply elem_of_replicate in He as [-> _]. reflexivity.
  - split; [exact Hdisk|]. intros ins s2.
    change (sk_out (sock_of sv (s_fd demo_session))) with (@nil Z) in Hout. cbn [app] in Hout.
    change (s_fd demo_session) with 9 in Hout. fold sv' in Hout.
    specialize (Hack ins). cbv zeta in Hack.
    change (c_fd (conn_at (pool_acquire 0 demo_pool).2 0)) with 5 in Hack. fold s2 in Hack.
    rewrite Hack; [reflexivity|]. unfold ins. rewrite Hout.
    replace (delivers [RecvData reply] reply []) with (delivers [RecvData reply] (reply ++ []) [])
      by (by rewrite app_nil_r).
    constructor; [|constructor]. intros ->. vm_compute in Hout. discriminate Hout.
Defined.
