(* ===== verification/Transfer.v ===== *)
(** * A queue of blocks carried over all connections

    EndToEnd.v follows one block.  Here the client empties its queue over its
    seven connections, one turn of the receiver's loop serves all of them, and
    the client collects what they answered.  The blocks of a connection are a
    share of the queue: the shares together are the queue, and because the
    blocks do not overlap the order in which the connections are served does
    not matter. *)

From S2P Require Import Prelude Protocol Net Zstd Msgpack Wire Session Decoder BlockWriter Ack Server Queue Pool Tracker.
From S2P Require Import Client EndToEnd.

(** A block: device, offset, data. *)
Notation block := (Z * Z * list Z)%type.

Definition msg_of (b : block) : decoded_msg := DECODE_DATA_BLOCK b.1.1 b.1.2 b.2.

Definition block_valid (b : block) : Prop :=
  in_s 32 b.1.1 ∧ 0 ≤ b.1.2 < 2 ^ 63 ∧ bytes_ok b.2 ∧ len b.2 ≤ BLOCK_SIZE.

(** Two blocks share no byte of a disk. *)
Definition blocks_apart (a b : block) : Prop :=
  a.1.1 ≠ b.1.1 ∨ a.1.2 + len a.2 ≤ b.1.2 ∨ b.1.2 + len b.2 ≤ a.1.2.

Definition all_apart (bs : list block) : Prop := NoDup bs ∧ ∀ a b, a ∈ bs → b ∈ bs → a ≠ b → blocks_apart a b.

(** ** Shares *)

(** The elements of [l] handed to [fd], [ws] being the descriptor of each. *)
Definition share {A} (fd : Z) (ws : list Z) (l : list A) : list A := snd <$> filter (λ p, p.1 = fd) (zip ws l).

Lemma share_cons {A} fd w ws (x : A) l :
  share fd (w :: ws) (x :: l) = if decide (w = fd) then x :: share fd ws l else share fd ws l.
Proof. unfold share. cbn [zip zip_with]. rewrite filter_cons. cbn. by case_decide. Qed.

Lemma share_Forall2 {A B} (P : A → B → Prop) fd ws : ∀ l k,
  Forall2 P l k → Forall2 P (share fd ws l) (share fd ws k).
Proof.
  induction ws as [|w ws IH]; intros l k HF; [constructor|].
  destruct HF as [|x y l k Hxy HF]; [constructor|]. rewrite !share_cons.
  case_decide; [constructor; [done|]|]; by apply IH.
Qed.

Lemma share_elem {A} fd ws (l : list A) x : x ∈ share fd ws l → x ∈ l.
Proof.
  unfold share. intros ([w y] & -> & [_ Hin]%list_elem_of_filter)%list_elem_of_fmap.
  by eapply elem_of_zip_r.
Qed.

Lemma share_Forall {A} (P : A → Prop) fd ws l : Forall P l → Forall P (share fd ws l).
Proof. rewrite !Forall_forall. intros HF x Hx. by eapply HF, share_elem. Qed.

Lemma share_length {A} fd ws (l : list A) : (length (share fd ws l) ≤ length l)%nat.
Proof.
  unfold share. rewrite length_fmap. etransitivity; [apply length_filter|].
  rewrite length_zip_with. lia.
Qed.

Lemma share_fmap {A B} (f : A → B) fd ws : ∀ l, share fd ws (f <$> l) = f <$> share fd ws l.
Proof.
  induction ws as [|w ws IH]; intros [|x l]; [done..|]. cbn [fmap list_fmap]. rewrite !share_cons.
  case_decide; by rewrite IH.
Qed.

(** A new element goes to one of the shares. *)
Lemma shares_cons {A} fds w ws (x : A) l :
  NoDup fds → w ∈ fds →
  concat ((λ fd, share fd (w :: ws) (x :: l)) <$> fds) ≡ₚ x :: concat ((λ fd, share fd ws l) <$> fds).
Proof.
  induction fds as [|fd fds IH]; intros Hnd Hin; [by apply elem_of_nil in Hin|].
  apply NoDup_cons in Hnd as [Hnin Hnd]. cbn [fmap list_fmap concat]. rewrite share_cons.
  apply elem_of_cons in Hin as [->|Hin].
  - rewrite decide_True by done. cbn [app]. constructor.
    rewrite (list_fmap_ext (λ fd0, share fd0 (fd :: ws) (x :: l)) (λ fd0, share fd0 ws l) fds); [done|].
    intros i fd0 Hi. rewrite share_cons, decide_False; [done|]. intros ->. by apply list_elem_of_lookup_2 in Hi.
  - rewrite decide_False by (by intros ->). rewrite IH by done. by rewrite Permutation_middle.
Qed.

Lemma shares_perm {A} fds : ∀ ws (l : list A),
  NoDup fds → length ws = length l → Forall (λ w, w ∈ fds) ws →
  concat ((λ fd, share fd ws l) <$> fds) ≡ₚ l.
Proof.
  intros ws. induction ws as [|w ws IH]; intros [|x l] Hnd Hlen HF; try done.
  - clear. induction fds as [|fd fds IH]; [done|]. cbn. exact IH.
  - apply Forall_cons in HF as [Hw HF]. rewrite shares_cons by done. constructor. apply IH; [done| |done]. cbn in Hlen. lia.
Qed.


(** ** Disjoint blocks can be stored in any order *)

Lemma store_comm o1 d1 o2 d2 c :
  o1 + len d1 ≤ o2 ∨ o2 + len d2 ≤ o1 → store o1 d1 (store o2 d2 c) = store o2 d2 (store o1 d1 c).
Proof. intros Ha. apply map_eq. intros x. rewrite !store_lookup. repeat case_test; (done || lia). Qed.

Lemma disk_after_app j ms ms' c : disk_after j (ms ++ ms') c = disk_after j ms' (disk_after j ms c).
Proof. apply foldl_app. Qed.

Lemma disk_after_swap j a b c :
  blocks_apart a b → disk_after j [msg_of a; msg_of b] c = disk_after j [msg_of b; msg_of a] c.
Proof.
  unfold blocks_apart, disk_after, msg_of. cbn [foldl]. intros Ha.
  destruct (Z.eqb_spec a.1.1 j), (Z.eqb_spec b.1.1 j); try done. apply store_comm. lia.
Qed.

Lemma disk_after_perm j bs bs' c :
  bs ≡ₚ bs' → all_apart bs → disk_after j (msg_of <$> bs) c = disk_after j (msg_of <$> bs') c.
Proof.
  intros Hp. revert c. induction Hp as [|x bs bs' Hp IH|x y bs|bs1 bs2 bs3 H1 IH1 H2 IH2]; intros c [Hnd Ha].
  - done.
  - apply NoDup_cons in Hnd as [_ Hnd]. apply (IH (disk_after j [msg_of x] c)). split; [done|].
    intros a b Hin1 Hin2. apply Ha; by right.
  - change (msg_of <$> y :: x :: bs) with ([msg_of y; msg_of x] ++ (msg_of <$> bs)).
    change (msg_of <$> x :: y :: bs) with ([msg_of x; msg_of y] ++ (msg_of <$> bs)).
    rewrite !disk_after_app. f_equal. apply disk_after_swap. apply Ha; [left|right; left|].
    apply NoDup_cons in Hnd as [Hnin _]. intros ->. apply Hnin. left.
  - rewrite IH1 by done. apply IH2. split; [by rewrite <- H1|]. intros a b. rewrite <- H1. apply Ha.
Qed.

(** ** The receiver: one turn over all sessions *)

Section Receiver.
Context `{ZstdOk} (now : Z).

Definition sock_in (socks : gmap Z sock) (fd : Z) : sock := default fresh_sock (socks !! fd).

(** An idle session whose socket holds the frames of [ms] and takes the answers. *)
Definition session_holds (b : writer_state) (socks : gmap Z sock) (s : session_t) (ms : list decoded_msg) : Prop :=
  s_recv_buf s = [] ∧ Forall (servable b) ms ∧
  let k := sock_in socks (s_fd s) in
  only_data (sk_in k) ∧ (∃ frames, Forall2 wire_frame ms frames ∧ script_bytes (sk_in k) = concat frames) ∧
  willing (20 * len (responses_to ms)) (sk_send k).

Lemma session_holds_ext b socks b' socks' s ms :
  g_disks b' = g_disks b → k_open (bw_kernel b') = k_open (bw_kernel b) →
  sock_in socks' (s_fd s) = sock_in socks (s_fd s) →
  session_holds b socks s ms → session_holds b' socks' s ms.
Proof.
  intros Hd Ho Hs (H1 & H2 & H3). split; [done|]. split; [|by rewrite Hs].
  eapply Forall_impl; [exact H2|]. intros m. by apply servable_ext.
Qed.

Lemma serve_sessions (fds : gset Z) : ∀ mss fuel i m b socks,
  (length (g_sessions m) ≤ fuel + i)%nat → NoDup (session_fds m) → srv_ok b →
  (∀ fd, fd ∈ session_fds m → fd ∈ fds) →
  Forall2 (session_holds b socks) (drop i (g_sessions m)) mss →
  let r := (foreach_loop (handle_active_cb now true fds) fuel i m (b, socks)).2 in
  (∀ j, disk_ready b j → disk_content r.1 j = disk_after j (concat mss) (disk_content b j)) ∧
  Forall2 (λ s ms, sk_out (sock_in r.2 (s_fd s)) =
                   sk_out (sock_in socks (s_fd s)) ++ responses_bytes (responses_to ms)) (drop i (g_sessions m)) mss ∧
  (∀ fd, fd ∉ (s_fd <$> drop i (g_sessions m)) → sock_in r.2 fd = sock_in socks fd).
Proof.
  induction mss as [|ms mss IH]; intros fuel i m b socks Hfuel Hnd Hb Hin HF; cbv zeta.
  - apply Forall2_nil_inv_r in HF. rewrite HF. assert (Hle := f_equal length HF). rewrite length_drop in Hle.
    rewrite foreach_end by (cbn in Hle; lia). by split; [|split].
  - apply Forall2_cons_inv_r in HF as (s & rest & Hs & HF & Hd).
    assert (Hi : g_sessions m !! i = Some s) by (rewrite <- (Nat.add_0_r i), <- lookup_drop, Hd; done).
    assert (Hlt := lookup_lt_Some _ _ _ Hi). destruct fuel as [|fuel]; [lia|].
    rewrite (drop_S _ _ _ Hi) in Hd |- *. injection Hd as <-.
    destruct Hs as (Hbuf & Hserv & Hdata & (frames & Hwf & Hbytes) & Hw).
    pose proof (handle_session_turn now (mk_server m b socks) i s ms frames Hi Hbuf Hb Hserv Hwf Hdata Hbytes Hw)
      as ((Hb' & Hdisks & Hopen) & Hcont & Hout & Hother & (s' & Hm' & _ & Hfd) & _).
    set (sv := handle_session now true (mk_server m b socks) i) in *. cbn [sv_mgr sv_bw sv_socks] in *.
    change (λ fd, sock_of sv fd) with (sock_in (sv_socks sv)) in *.
    rewrite foreach_step by done.
    replace (handle_active_cb now true fds m (b, socks) i) with (sv_mgr sv, (sv_bw sv, sv_socks sv), false)
      by (unfold handle_active_cb; rewrite Hi, bool_decide_true;
          [done|by eapply Hin, list_elem_of_fmap_2, list_elem_of_lookup_2]).
    assert (Hfds := session_fds_insert m (sv_mgr sv) i s s' Hi Hm' Hfd).
    assert (Hdrop : drop (S i) (g_sessions (sv_mgr sv)) = drop (S i) (g_sessions m))
      by (rewrite Hm', drop_insert_lt by lia; done).
    assert (Hnin := fd_not_later m i s Hnd Hi).
    assert (Hsame : ∀ x, x ∈ drop (S i) (g_sessions m) → sock_in (sv_socks sv) (s_fd x) = sock_in socks (s_fd x)).
    { intros x Hx. apply Hother. intros Heq. apply Hnin. rewrite <- Heq. by apply list_elem_of_fmap_2. }
    destruct (IH fuel (S i) (sv_mgr sv) (sv_bw sv) (sv_socks sv)) as (I1 & I2 & I3);
      [rewrite Hm', length_insert; lia|by rewrite Hfds|done|by rewrite Hfds| |].
    { rewrite Hdrop. eapply Forall2_impl_l; [|exact HF]. intros x y Hx.
      apply session_holds_ext; [done|done|by apply Hsame]. }
    rewrite Hdrop in I2, I3. split; [|split].
    + intros j Hj. rewrite I1 by (by eapply disk_ready_ext). cbn [concat]. by rewrite disk_after_app, Hcont.
    + constructor; [by rewrite I3|]. eapply Forall2_impl_l; [|exact I2]. intros x y Hx ->. by rewrite Hsame.
    + intros fd Hfd'. apply not_elem_of_cons in Hfd' as [Hne Hfd']. rewrite I3 by done. by apply Hother.
Qed.

(** A turn of the main loop in which every session is readable. *)
Lemma turn_serves_all listen_fd scfg sv ready mss :
  mgr_ok (sv_mgr sv) → srv_ok (sv_bw sv) → (∀ fd, fd ∈ session_fds (sv_mgr sv) → fd ∈ ready) →
  Forall2 (session_holds (sv_bw sv) (sv_socks sv)) (g_sessions (sv_mgr sv)) mss →
  let sv' := (server_iter now listen_fd scfg true sv (SelectReady ready None)).1 in
  (∀ j, disk_ready (sv_bw sv) j →
     disk_content (sv_bw sv') j = disk_after j (concat mss) (disk_content (sv_bw sv) j)) ∧
  Forall2 (λ s ms, sk_out (sock_of sv' (s_fd s)) =
                   sk_out (sock_of sv (s_fd s)) ++ responses_bytes (responses_to ms)) (g_sessions (sv_mgr sv)) mss.
Proof.
  intros Hm Hb Hready HF. cbv zeta. unfold server_iter. cbn [fst].
  set (fds := filter _ _).
  assert (Hfds : ∀ fd, fd ∈ session_fds (sv_mgr sv) → fd ∈ fds).
  { intros fd Hin. destruct (max_fd_covers (sv_mgr sv) listen_fd Hm) as [_ Hmax].
    apply elem_of_filter. split; [by eapply Forall_forall in Hmax|].
    apply elem_of_intersection. split; [|by apply Hready]. rewrite collect_all by done.
    apply elem_of_union_l. by apply elem_of_list_to_set. }
  replace (if bool_decide (listen_fd ∈ fds) then sv else sv) with sv by (by case_bool_decide).
  pose proof (serve_sessions fds mss (Z.to_nat MAX_SESSIONS) 0 (sv_mgr sv) (sv_bw sv) (sv_socks sv)) as Hserve.
  unfold session_foreach. destruct Hm as [Hc Hnd _]. cbv zeta in Hserve.
  destruct (foreach_loop _ _ _ _ _) as [m' [b' socks']]. cbn [fst snd sv_bw] in *.
  destruct Hserve as (H1 & H2 & _); [|done..|by split].
  unfold session_count, MAX_SESSIONS, len in *. lia.
Qed.

End Receiver.

(** ** The client: emptying the queue *)

Notation fds_of s := (c_fd <$> pl_conns (cs_pool s)).

(** A socket that takes at least a byte at every call or has the caller wait. *)
Definition eager (n : Z) (evs : list send_ev) : Prop :=
  Forall (λ ev, match ev with SendRoom k => 0 < k | SendAgain => True | _ => False end) evs ∧ n ≤ rooms evs.

Lemma eager_le n m evs : m ≤ n → eager n evs → eager m evs.
Proof. intros ? [? ?]. split; [done|lia]. Qed.

Lemma send_all_loop_eager evs : ∀ n data out,
  0 ≤ n → eager (len data + n) evs →
  ∃ evs', send_all_loop evs data out = (0, out ++ data, evs') ∧ eager n evs'.
Proof.
  induction evs as [|ev evs IH]; intros n data out Hn [Hp Hr];
    (destruct data as [|b data]; [eexists; simpl; rewrite app_nil_r; done|]);
    rewrite len_cons in Hr; pose proof (len_nonneg data).
  - cbn in Hr. lia.
  - apply Forall_cons in Hp as [Hev Hp].
    cbn [send_all_loop sys_send fst]. destruct ev as [k| | |]; cbn [fst]; try done.
    + cbn [rooms] in Hr. set (t := Z.min (Z.max 0 k) (len (b :: data))).
      assert (Ht : 0 < t) by (unfold t; simpl in Hev; rewrite len_cons; lia).
      replace (t =? 0) with false by lia.
      destruct (IH n (zdrop t (b :: data)) (out ++ ztake t (b :: data))) as (evs' & He & Hw); [done| |].
      { split; [done|]. rewrite len_zdrop, len_cons. lia. }
      exists evs'. split; [|done]. by rewrite He, <- app_assoc, ztake_zdrop.
    + apply IH; [done|]. split; [done|]. rewrite len_cons. by cbn [rooms] in Hr.
Qed.

(** Every connection is open, free and takes [n] more bytes. *)
Record fleet_ok (s : cstate) (n : Z) : Prop := {
  fl_len : len (pl_conns (cs_pool s)) = SOCKET_POOL_TARGET;
  fl_next : 0 ≤ pl_next_index (cs_pool s) < SOCKET_POOL_TARGET;
  fl_conns : Forall (λ c, c_fd c ≠ SOCKET_ERR ∧ c_in_use c = 0 ∧ c_scratch c = Some SEND_SCRATCH_SIZE)
               (pl_conns (cs_pool s));
  fl_nodup : NoDup (c_fd <$> pl_conns (cs_pool s));
  fl_eager : ∀ fd, fd ∈ (c_fd <$> pl_conns (cs_pool s)) → eager n (sk_send (csock s fd));
}.

(** What the frame of a block may take at most, and the frames of a queue. *)
Definition frame_room `{Zstd} (b : block) : Z := ZSTD_COMPRESS_BOUND (len (block_encoding b.1.1 b.1.2 b.2)) + 7.

Definition frames_room `{Zstd} (bs : list block) : Z := foldr (λ b n, frame_room b + n) 0 bs.

Lemma frame_room_nonneg `{Zstd} b : 0 ≤ frame_room b.
Proof.
  unfold frame_room, ZSTD_COMPRESS_BOUND. pose proof (len_nonneg (block_encoding b.1.1 b.1.2 b.2)).
  assert (0 ≤ len (block_encoding b.1.1 b.1.2 b.2) / 8) by (by apply Z.div_pos). lia.
Qed.

Lemma frames_room_nonneg `{Zstd} bs : 0 ≤ frames_room bs.
Proof.
  induction bs as [|b bs IH]; [done|]. change (0 ≤ frame_room b + frames_room bs).
  pose proof (frame_room_nonneg b). lia.
Qed.

(** The entry of a block. *)
Definition entry_holds (e : queue_entry) (b : block) : Prop :=
  ∃ h n, e = mk_entry b.1.1 b.1.2 h (Some (block_encoding b.1.1 b.1.2 b.2)) n 1.

Section Client.
Context `{ZstdOk} (clock wall : nat → Z) (cfg : config).

(** The next slot in the round is free. *)
Lemma fleet_acquire now s n :
  fleet_ok s n →
  let p := cs_pool s in
  let i := pl_next_index p in
  pool_acquire now p =
    (Some i, mk_pool (<[Z.to_nat i := with_in_use (conn_at p i) 1]> (pl_conns p)) (pl_count p)
               ((i + 1) mod SOCKET_POOL_TARGET) (pl_connects p) (pl_closed p)).
Proof.
  intros [Hlen Hnext Hconns _ _] p i. unfold pool_acquire. fold i p. fold p in Hlen, Hconns. fold p i in Hnext.
  change POOL_SLOTS with 7%nat. cbn [scan_free].
  replace ((i + 0) mod SOCKET_POOL_TARGET) with i by (rewrite Z.add_0_r, Z.mod_small; lia).
  rewrite Forall_forall in Hconns. destruct (Hconns (conn_at p i)) as (H1 & H2 & _).
  { eapply list_elem_of_lookup_2, conn_at_lookup. lia. }
  unfold conn_free. rewrite H2. replace (c_fd (conn_at p i) =? SOCKET_ERR) with false by lia. done.
Qed.

(** Replacing a connection by one like it. *)
Lemma fleet_set s s' n m i c :
  fleet_ok s n → 0 ≤ i < SOCKET_POOL_TARGET → m ≤ n →
  pl_conns (cs_pool s') = <[Z.to_nat i := c]> (pl_conns (cs_pool s)) →
  pl_next_index (cs_pool s') = (i + 1) mod SOCKET_POOL_TARGET →
  c_fd c = c_fd (conn_at (cs_pool s) i) → c_in_use c = 0 → c_scratch c = Some SEND_SCRATCH_SIZE →
  eager m (sk_send (csock s' (c_fd c))) →
  (∀ fd, c_fd c ≠ fd → csock s' fd = csock s fd) →
  c_fd <$> pl_conns (cs_pool s') = c_fd <$> pl_conns (cs_pool s) ∧ fleet_ok s' m.
Proof.
  intros [Hlen Hnext Hconns Hnd He] Hi Hmn Hcs Hn Hfd Hu Hsc Hc Hother.
  assert (Hfds : c_fd <$> pl_conns (cs_pool s') = c_fd <$> pl_conns (cs_pool s)).
  { rewrite Hcs. by apply (set_conn_fds (cs_pool s)). }
  split; [done|]. constructor.
  - rewrite Hcs. unfold len. by rewrite length_insert.
  - rewrite Hn. by apply Z.mod_pos_bound.
  - rewrite Hcs. apply Forall_insert; [done|]. rewrite Forall_forall in Hconns.
    split; [|done]. rewrite Hfd. apply Hconns. eapply list_elem_of_lookup_2, conn_at_lookup. lia.
  - by rewrite Hfds.
  - intros fd Hin. destruct (decide (c_fd c = fd)) as [<-|Hne]; [done|].
    rewrite Hother by done. eapply eager_le; [exact Hmn|]. apply He. by rewrite <- Hfds.
Qed.

Lemma set_conn_set p i c c' : set_conn (set_conn p i c) i c' = set_conn p i c'.
Proof. unfold set_conn. cbn. by rewrite list_insert_insert_eq. Qed.

(** Touched, counted and released. *)
Lemma sent_pool now i c p :
  0 ≤ i < len (pl_conns p) →
  pool_release (set_conn (pool_touch now p i) i c) i = set_conn p i (with_in_use c 0).
Proof.
  intros Hi. unfold pool_touch. rewrite set_conn_set. unfold pool_release.
  by rewrite conn_at_set, Z.eqb_refl, set_conn_set by lia.
Qed.

Lemma touch_at now p i : 0 ≤ i < len (pl_conns p) → conn_at (pool_touch now p i) i = touch_conn now (conn_at p i).
Proof. intros Hi. unfold pool_touch. by rewrite conn_at_set, Z.eqb_refl by lia. Qed.

(** The frame of a block leaves on an eager socket. *)
Lemma block_leaves level b n k :
  block_valid b → 0 ≤ n → eager (frame_room b + n) (sk_send k) →
  ∃ frame evs, wire_send k (block_encoding b.1.1 b.1.2 b.2) level SEND_SCRATCH_SIZE =
                 (0, mk_sock (sk_out k ++ frame) evs (sk_in k)) ∧
    wire_frame (msg_of b) frame ∧ eager n evs.
Proof.
  intros (Hd & Ho & Hb & Hl) Hn He. destruct (bound_scratch b.1.1 b.1.2 b.2 Hl) as [Hmax Hscr].
  set (payload := block_encoding b.1.1 b.1.2 b.2) in *.
  destruct (wire_send_frame k payload level SEND_SCRATCH_SIZE (block_encoding_ok _ _ _ Hb))
    as (c & Hc & Hlc & _ & Hws); [unfold QUEUE_ENTRY_MAX_PAYLOAD in Hmax; lia|done|].
  assert (Hlf : len (data_frame c) ≤ frame_room b)
    by (unfold frame_room, data_frame, FRAME_MAGIC, FRAME_MAGIC_LEN; fold payload; len_norm; lia).
  destruct (send_all_loop_eager (sk_send k) n (data_frame c) (sk_out k) Hn) as (evs & Hse & He').
  { eapply eager_le; [|exact He]. lia. }
  exists (data_frame c), evs. unfold id in Hws. rewrite Hws. unfold send_all. rewrite Hse.
  split; [done|]. split; [|done]. unfold msg_of. eapply wf_block; [done|unfold in_s; cbn; lia|done|exact Hl|exact Hc].
Qed.

(** One flush: the oldest block leaves as a frame on the next connection. *)
Lemma fleet_flush s e l b n :
  cf_dry_run cfg = false → queue_ok (cs_queue s) → fifo (cs_queue s) = e :: l → entry_holds e b → block_valid b →
  0 ≤ n → fleet_ok s (frame_room b + n) →
  let fd := c_fd (conn_at (cs_pool s) (pl_next_index (cs_pool s))) in
  ∃ s' frame evs, flush_one clock wall cfg s = (1, s') ∧ wire_frame (msg_of b) frame ∧
    fd ∈ (c_fd <$> pl_conns (cs_pool s)) ∧
    csock s' fd = mk_sock (sk_out (csock s fd) ++ frame) evs (sk_in (csock s fd)) ∧
    (∀ fd', fd ≠ fd' → csock s' fd' = csock s fd') ∧
    queue_ok (cs_queue s') ∧ fifo (cs_queue s') = l ∧ cs_db s' = cs_db s ∧
    c_fd <$> pl_conns (cs_pool s') = c_fd <$> pl_conns (cs_pool s) ∧ fleet_ok s' n.
Proof.
  intros Hdry Hq Hf (h & pn & ->) Hv Hn Hfleet.
  set (p := cs_pool s). set (i := pl_next_index p). intros fd.
  pose proof Hfleet as [Hlen Hnext Hconns Hnd Heager]. fold p in Hlen, Hconns, Hnd, Heager. fold p i in Hnext.
  assert (Hci : pl_conns p !! Z.to_nat i = Some (conn_at p i)) by (apply conn_at_lookup; lia).
  assert (Hin : fd ∈ (c_fd <$> pl_conns p)) by (by eapply list_elem_of_fmap_2, list_elem_of_lookup_2).
  pose proof (proj1 (Forall_lookup _ _) Hconns _ _ Hci) as (Hopen & Huse & Hsc).
  destruct (block_leaves (cf_zstd_level cfg) b n (csock s fd) Hv Hn (Heager fd Hin)) as (frame & evs & Hws & Hwf & He').
  pose proof (frame_room_nonneg b). unfold flush_one. destruct (queue_pop (cs_queue s)) as [r q] eqn:Eq.
  destruct (pop_fifo _ _ _ Hq Eq) as [Hq' Hpop]. rewrite Hf in Hpop. destruct Hpop as (-> & Hl' & _).
  rewrite Hdry. cbn [time_now]. unfold time_now. cbn [cs_pool tick set_queue cs_tick]. fold p.
  rewrite (fleet_acquire _ s _ Hfleet). fold p i. cbn [qe_payload qe_payload_len].
  set (p1 := mk_pool _ _ _ _ _).
  assert (Hi1 : 0 ≤ i < len (pl_conns p1)) by (unfold p1, len in *; cbn; rewrite length_insert; lia).
  assert (Hp1 : conn_at p1 i = with_in_use (conn_at p i) 1).
  { change (conn_at (set_conn p i (with_in_use (conn_at p i) 1)) i = with_in_use (conn_at p i) 1).
    rewrite conn_at_set, Z.eqb_refl; [done|lia|lia]. }
  rewrite Hp1. cbn [c_fd c_scratch with_in_use]. fold fd. rewrite Hsc. cbn [default].
  change (csock (set_pool (tick (set_queue s q)) p1) fd) with (csock s fd).
  unfold id. rewrite Hws. cbn [Z.eqb negb].
  eexists _, frame, evs. split; [reflexivity|]. split; [done|]. split; [done|].
  match goal with |- context [rate_account clock cfg ?x ?m] =>
    destruct (rate_account_keeps clock cfg x m) as (H1 & H2 & H3 & H4); set (s' := rate_account clock cfg x m) in * end.
  assert (Hsame : ∀ fd', fd ≠ fd' → csock s' fd' = csock s fd').
  { intros fd' Hne. rewrite H3. unfold csock. cbn. by rewrite lookup_insert_ne. }
  assert (Hat : csock s' fd = mk_sock (sk_out (csock s fd) ++ frame) evs (sk_in (csock s fd))).
  { rewrite H3. unfold csock. cbn. by rewrite lookup_insert_eq. }
  split; [exact Hat|]. split; [exact Hsame|]. rewrite H1, H2. split; [done|]. split; [done|]. split; [done|].
  rewrite (sent_pool _ _ _ (cs_pool (set_sock (set_pool (tick (set_queue s q)) p1) fd _)) Hi1) in H4.
  change (cs_pool (set_sock (set_pool (tick (set_queue s q)) p1) fd _)) with p1 in H4.
  eapply (fleet_set s s' (frame_room b + n) n i); [done|done|lia|rewrite H4; apply list_insert_insert_eq|by rewrite H4| | | | |].
  all: cbn [c_fd c_scratch c_in_use with_in_use]; rewrite ?touch_at, ?Hp1 by done; cbn [c_fd c_scratch with_in_use touch_conn]; fold fd.
  all: try done. by rewrite Hat.
Qed.

(** The drain loop empties the queue, each block a frame on one connection. *)
Lemma fleet_drain : ∀ bs fuel s,
  cf_dry_run cfg = false → queue_ok (cs_queue s) → Forall2 entry_holds (fifo (cs_queue s)) bs →
  Forall block_valid bs → fleet_ok s (frames_room bs) → (length bs < fuel)%nat →
  let s' := drain clock wall cfg fuel s in
  ∃ ws frames, Forall (λ w, w ∈ fds_of s) ws ∧ length ws = length bs ∧
    Forall2 wire_frame (msg_of <$> bs) frames ∧
    (∀ fd, sk_out (csock s' fd) = sk_out (csock s fd) ++ concat (share fd ws frames)) ∧
    (∀ fd, sk_in (csock s' fd) = sk_in (csock s fd)) ∧
    fifo (cs_queue s') = [] ∧ cs_db s' = cs_db s ∧ fds_of s' = fds_of s ∧ fleet_ok s' 0.
Proof.
  induction bs as [|b bs IH]; intros [|fuel] s Hdry Hq He Hv Hfl Hfuel; try (cbn in Hfuel; lia); cbv zeta.
  - apply Forall2_nil_inv_r in He. exists [], [].
    assert (E : drain clock wall cfg (S fuel) s = set_queue s (cs_queue s)).
    { cbn [drain]. unfold flush_one. destruct (queue_pop (cs_queue s)) as [r q] eqn:Eq.
      destruct (pop_fifo _ _ _ Hq Eq) as [_ Hpop]. rewrite He in Hpop. by destruct Hpop as [-> ->]. }
    rewrite E. split; [constructor|]. split; [done|]. split; [constructor|].
    split; [intros fd; symmetry; apply app_nil_r|]. split; [done|]. split; [done|]. split; [done|]. split; [done|].
    by destruct Hfl.
  - apply Forall2_cons_inv_r in He as (e & l & Heb & He & Hf). apply Forall_cons in Hv as [Hvb Hv].
    destruct (fleet_flush s e l b _ Hdry Hq Hf Heb Hvb (frames_room_nonneg bs) Hfl)
      as (s1 & frame & evs & E & Hwf & Hin & Hat & Hsame & Hq1 & Hf1 & Hdb & Hfds & Hfl1).
    set (fd := c_fd _) in *. cbn [drain]. rewrite E. cbn [Z.ltb Z.compare].
    destruct (IH fuel s1) as (ws & frames & Hws & Hlw & Hfr & Hout & Hsin & Hnil & Hdb' & Hfds' & Hfl2);
      [done|done|by rewrite Hf1|done|done|cbn in Hfuel; lia|].
    exists (fd :: ws), (frame :: frames). rewrite Hfds in Hws, Hfds'.
    split; [by constructor|]. split; [cbn; lia|]. split; [by constructor|]. split; [|split].
    + intros fd'. rewrite share_cons, Hout. case_decide as Hd.
      * subst fd'. rewrite Hat. cbn. by rewrite <- app_assoc.
      * by rewrite Hsame.
    + intros fd'. rewrite Hsin. destruct (decide (fd = fd')) as [<-|Hd]; [by rewrite Hat|by rewrite Hsame].
    + by rewrite Hdb' .
Qed.

(** ** The acknowledgements *)

Definition ack_for (b : block) : server_response_t := mk_response RESPONSE_ACK b.1.1 (len b.2) b.1.2.

Lemma responses_to_blocks bs : responses_to (msg_of <$> bs) = ack_for <$> bs.
Proof. unfold responses_to. induction bs as [|b bs IH]; [done|]. cbn. by f_equal. Qed.

Lemma acks_of_blocks bs : omap ack_of (ack_for <$> bs) = bs.*1.
Proof. induction bs as [|[[d o] data] bs IH]; [done|]. cbn. by f_equal. Qed.

Lemma ack_for_ok b : block_valid b → response_ok (ack_for b).
Proof.
  intros (Hd & Ho & _ & Hl). unfold BLOCK_SIZE in Hl. pose proof (len_nonneg b.2).
  unfold response_ok, ack_for, in_s in *. cbn in *. unfold RESPONSE_ACK. lia.
Qed.

Lemma all_open cs : SOCKET_ERR ∉ c_fd <$> cs → open_conns cs = cs.
Proof.
  unfold open_conns. induction cs as [|c cs IH]; intros Hn; [done|]. cbn in Hn.
  apply not_elem_of_cons in Hn as [Hc Hn]. rewrite filter_cons, decide_True by congruence. by rewrite IH.
Qed.

Lemma fleet_open s n : fleet_ok s n → SOCKET_ERR ∉ fds_of s.
Proof. intros [_ _ HF _ _] (c & Hc & Hin)%list_elem_of_fmap. rewrite Forall_forall in HF. by destruct (HF c Hin). Qed.

(** The connections hold acknowledgements of the blocks [l fd]: exactly their
    rows become acknowledged. *)
Lemma fleet_collects s (l : Z → list block) :
  cf_dry_run cfg = false → cf_tail_send cfg = false → NoDup (fds_of s) → SOCKET_ERR ∉ fds_of s →
  db_events (cs_db s) = [] →
  (∀ fd, fd ∈ fds_of s → Forall block_valid (l fd) ∧
     delivers (sk_in (csock s fd)) (responses_bytes (ack_for <$> l fd)) []) →
  ∀ key, t_block (cs_db (process_ack cfg s)) !! key =
         if bool_decide (key ∈ (concat (l <$> fds_of s)).*1) then acked_row <$> t_block (cs_db s) !! key
         else t_block (cs_db s) !! key.
Proof.
  intros Hdry Htail Hnd Hopen He Hl key. unfold process_ack. rewrite Hdry.
  destruct (ack_conns_responses cfg (pl_conns (cs_pool s)) ((λ c, ack_for <$> l (c_fd c)) <$> pl_conns (cs_pool s)) s)
    as [m ->].
  - by rewrite all_open.
  - rewrite all_open by done. apply Forall2_fmap_r, Forall_Forall2_diag, Forall_forall. intros c Hc.
    destruct (Hl (c_fd c)) as [Hv Hd]; [by apply list_elem_of_fmap_2|]. split; [|exact Hd].
    apply Forall_fmap. eapply Forall_impl; [exact Hv|]. apply ack_for_ok.
  - cbn [with_socks cs_db].
    destruct (handle_responses_db cfg (concat ((λ c, ack_for <$> l (c_fd c)) <$> pl_conns (cs_pool s))) s Htail He)
      as [_ ->].
    by rewrite <- (fmap_concat_with ack_for (λ c, l (c_fd c))), acks_of_blocks, <- (list_fmap_compose c_fd l).
Qed.

End Client.

(** ** From the queue to the disks *)

(** The idle session [sess] has read nothing yet of the bytes [sent], all of
    which have arrived, and can answer [n] blocks. *)
Definition carries (sv : server) (n : Z) (sent : list Z) (sess : session_t) : Prop :=
  s_recv_buf sess = [] ∧
  let k := sock_of sv (s_fd sess) in
  only_data (sk_in k) ∧ script_bytes (sk_in k) = sent ∧ willing (20 * n) (sk_send k).

Lemma carries_holds `{ZstdOk} sv bs ws frames fd sess :
  Forall block_valid bs → Forall (λ b, disk_ready (sv_bw sv) b.1.1) bs →
  Forall2 wire_frame (msg_of <$> bs) frames →
  carries sv (len bs) (concat (share fd ws frames)) sess →
  session_holds (sv_bw sv) (sv_socks sv) sess (msg_of <$> share fd ws bs).
Proof.
  intros Hv Hr Hf (Hbuf & Hdata & Hbytes & Hw). split; [done|]. split.
  - apply Forall_fmap. apply (share_Forall _ fd ws) in Hv, Hr.
    eapply Forall_impl; [exact (proj2 (Forall_and _ _) (conj Hv Hr))|].
    intros b [(_ & Ho & _ & Hl) Hrdy]. unfold msg_of, servable, BLOCK_SIZE_MAX. split; [done|lia].
  - split; [exact Hdata|]. split.
    + exists (share fd ws frames). split; [|exact Hbytes]. rewrite <- share_fmap. by apply share_Forall2.
    + eapply willing_le; [|exact Hw]. rewrite responses_to_blocks.
      pose proof (share_length fd ws bs). unfold len. rewrite length_fmap. lia.
Qed.

(** C5 (queue_reaches_disks): many blocks over many connections.  The client
    drains its queue of blocks that share no byte; every connection's bytes
    arrive, in pieces of any size, at an idle session of the receiver, whose
    main loop then makes one turn; what the sessions answer arrives back in
    pieces of any size.  Whatever the distribution over the connections was,
    every ready disk is the old one with all the blocks addressed to it stored
    (in the order of the queue), and in the client's tracker exactly the rows
    of the queued blocks have become acknowledged. *)
Theorem queue_reaches_disks `{ZstdOk} clock wall cfg s bs :
  cf_dry_run cfg = false → cf_tail_send cfg = false → db_events (cs_db s) = [] →
  queue_ok (cs_queue s) → Forall2 entry_holds (fifo (cs_queue s)) bs →
  Forall block_valid bs → all_apart bs → fleet_ok s (frames_room bs) →
  let s1 := drain_queue clock wall cfg s in
  fifo (cs_queue s1) = [] ∧ cs_db s1 = cs_db s ∧
  ∃ sent : Z → list Z,
    (∀ fd, sk_out (csock s1 fd) = sk_out (csock s fd) ++ sent fd) ∧
    ∀ now listen_fd scfg sv ready,
      mgr_ok (sv_mgr sv) → srv_ok (sv_bw sv) → (∀ fd, fd ∈ session_fds (sv_mgr sv) → fd ∈ ready) →
      Forall (λ b, disk_ready (sv_bw sv) b.1.1) bs →
      Forall2 (λ fd sess, carries sv (len bs) (sent fd) sess) (fds_of s) (g_sessions (sv_mgr sv)) →
      let sv' := (server_iter now listen_fd scfg true sv (SelectReady ready None)).1 in
      (∀ j, disk_ready (sv_bw sv) j →
         disk_content (sv_bw sv') j = disk_after j (msg_of <$> bs) (disk_content (sv_bw sv) j)) ∧
      ∃ reply : Z → list Z,
        Forall2 (λ fd sess, sk_out (sock_of sv' (s_fd sess)) = sk_out (sock_of sv (s_fd sess)) ++ reply fd)
          (fds_of s) (g_sessions (sv_mgr sv)) ∧
        ∀ m, let s2 := with_socks s1 m in
          (∀ fd, fd ∈ fds_of s → delivers (sk_in (csock s2 fd)) (reply fd) []) →
          ∀ key, t_block (cs_db (process_ack cfg s2)) !! key =
                 if bool_decide (key ∈ bs.*1) then acked_row <$> t_block (cs_db s) !! key
                 else t_block (cs_db s) !! key.
Proof.
  intros Hdry Htail He Hq Hents Hv Hap Hfl s1.
  destruct (fleet_drain clock wall cfg bs (S (Z.to_nat (q_count (cs_queue s)))) s)
    as (ws & frames & Hws & Hlw & Hfr & Hout & _ & Hnil & Hdb & Hfds & Hfl1); [done..| |].
  { apply Forall2_length in Hents. unfold fifo in Hents. rewrite length_fmap, length_seq in Hents. lia. }
  fold (drain_queue clock wall cfg s) in *. fold s1 in Hout, Hnil, Hdb, Hfds, Hfl1.
  split; [done|]. split; [done|]. exists (λ fd, concat (share fd ws frames)). split; [done|].
  intros now listen_fd scfg sv ready Hm Hsrv Hready Hrdy Hcar sv'.
  assert (Hperm := shares_perm (fds_of s) ws bs (fl_nodup _ _ Hfl) Hlw Hws).
  destruct (turn_serves_all now listen_fd scfg sv ready ((λ fd, msg_of <$> share fd ws bs) <$> fds_of s) Hm Hsrv Hready)
    as [Hdisk Hans].
  { apply Forall2_fmap_r, Forall2_flip. eapply Forall2_impl; [exact Hcar|].
    intros fd sess. by apply carries_holds. }
  split.
  - intros j Hj. unfold sv'. rewrite Hdisk by done. rewrite <- fmap_concat_with.
    symmetry. apply disk_after_perm; [by rewrite Hperm|done].
  - exists (λ fd, responses_bytes (ack_for <$> share fd ws bs)). split.
    + apply Forall2_flip. apply Forall2_fmap_r in Hans. eapply Forall2_impl; [exact Hans|].
      intros sess fd Heq. by rewrite <- responses_to_blocks.
    + intros m s2 Hdel key.
      rewrite (fleet_collects cfg s2 (λ fd, share fd ws bs) Hdry Htail).
      * change (cs_pool s2) with (cs_pool s1). change (cs_db s2) with (cs_db s1). rewrite Hfds, Hdb.
        rewrite (bool_decide_ext _ (key ∈ bs.*1)); [done|]. by rewrite Hperm.
      * apply (fl_nodup _ _ Hfl1).
      * apply (fleet_open _ _ Hfl1).
      * change (cs_db s2) with (cs_db s1). by rewrite Hdb.
      * intros fd Hin. change (cs_pool s2) with (cs_pool s1) in Hin. rewrite Hfds in Hin.
        split; [by apply share_Forall|by apply Hdel].
Qed.

(** Two blocks on the first two of seven connections. *)
Definition fleet_fds : list Z := seqZ 5 7.

Definition fleet_bs : list block := [(1, 4096, [7; 8; 9]); (1, 8192, [1; 2])].

Definition fleet_pool : socket_pool := mk_pool ((λ fd, demo_conn fd 0 100) <$> fleet_fds) 7 0 [] [].

Definition fleet_queue : send_queue :=
  foldl (λ q b, (queue_push true q b.1.1 b.1.2 9 (block_encoding b.1.1 b.1.2 b.2)).2) (queue_init true).2 fleet_bs.

Definition fleet_client : cstate :=
  set_pool (set_queue (with_socks (demo_cs ((λ b, (b.1, mk_row 3 9 0 0 0 [7])) <$> fleet_bs) [])
    (list_to_map ((λ fd, (fd, mk_sock [] (replicate 200 (SendRoom 2)) [])) <$> fleet_fds))) fleet_queue) fleet_pool.

Definition arrived (bs : list Z) : list recv_ev := match bs with [] => [] | _ => [RecvData bs] end.

Lemma arrived_delivers bs : delivers (arrived bs) bs [].
Proof.
  destruct bs as [|b bs]; [constructor|]. rewrite <- (app_nil_r (b :: bs)) at 2. by constructor; [|constructor].
Qed.

(** The receiver's end of the connections: session [fd + 20] for each. *)
Definition fleet_server (s : cstate) : server :=
  mk_server (mk_mgr ((λ fd, mk_session (fd + 20) [] 0 0 0 0 0 []) <$> fleet_fds) []) demo_writer
    (list_to_map ((λ fd, (fd + 20, mk_sock [] (replicate 60 (SendRoom 20)) (arrived (sk_out (csock s fd))))) <$> fleet_fds)).

Definition fleet_replies (sv : server) : gmap Z sock :=
  list_to_map ((λ fd, (fd, mk_sock [] [] (arrived (sk_out (sock_of sv (fd + 20)))))) <$> fleet_fds).

Lemma fleet_queue_ok : queue_ok fleet_queue.
Proof.
  set (push := λ q b, (queue_push true q b.1.1 b.1.2 9 (block_encoding b.1.1 b.1.2 b.2)).2).
  assert (Hpush : ∀ q (b : block), queue_ok q → len (block_encoding b.1.1 b.1.2 b.2) ≤ QUEUE_ENTRY_MAX_PAYLOAD →
                    q_count q < QUEUE_CAPACITY → queue_ok (push q b)).
  { intros q b Hq Hl Hc. by apply (push_fifo q b.1.1 b.1.2 9 _ _ _ Hq Hl Hc (surjective_pairing _)). }
  change fleet_queue with (push (push (queue_init true).2 (1, 4096, [7; 8; 9])) (1, 8192, [1; 2])).
  apply Hpush; [apply Hpush; [apply queue_init_ok| |done]| |vm_compute; done]; vm_compute; discriminate.
Qed.

Lemma fleet_cases (P : Z → Prop) : P 5 → P 6 → P 7 → P 8 → P 9 → P 10 → P 11 → ∀ fd, fd ∈ fleet_fds → P fd.
Proof.
  intros ??????? fd Hin%elem_of_seqZ.
  assert (fd = 5 ∨ fd = 6 ∨ fd = 7 ∨ fd = 8 ∨ fd = 9 ∨ fd = 10 ∨ fd = 11) as Hall by lia.
  by repeat (destruct Hall as [->|Hall]; [done|]); subst fd.
Qed.

Lemma fleet_client_ok : fleet_ok fleet_client (frames_room (H := stored_zstd) fleet_bs).
Proof.
  constructor; [done|done| |by apply (bool_decide_unpack _)|].
  - apply Forall_fmap, Forall_forall. apply fleet_cases; done.
  - intros fd Hin. change (fds_of fleet_client) with fleet_fds in Hin.
    assert (Hs : sk_send (csock fleet_client fd) = replicate 200 (SendRoom 2))
      by (revert fd Hin; apply fleet_cases; reflexivity).
    rewrite Hs. split; [|vm_compute; discriminate].
    apply Forall_forall. intros ev [-> _]%elem_of_replicate. done.
Qed.

Lemma arrived_data bs : only_data (arrived bs) ∧ script_bytes (arrived bs) = bs.
Proof. destruct bs as [|b bs]; [by split; [constructor|]|]. split; [by repeat constructor|]. apply app_nil_r. Qed.

Lemma fleet_server_carries s :
  Forall2 (λ fd sess, carries (fleet_server s) 2 (sk_out (csock s fd)) sess) fleet_fds
    (g_sessions (sv_mgr (fleet_server s))).
Proof.
  apply Forall2_fmap_r, Forall_Forall2_diag, Forall_forall. intros fd Hin. split; [done|].
  assert (Hk : sock_of (fleet_server s) (fd + 20) =
               mk_sock [] (replicate 60 (SendRoom 20)) (arrived (sk_out (csock s fd))))
    by (revert fd Hin; apply fleet_cases; reflexivity).
  cbn [s_fd]. rewrite Hk. destruct (arrived_data (sk_out (csock s fd))) as [H1 H2].
  split; [done|]. split; [done|]. split; [|vm_compute; discriminate].
  apply Forall_forall. intros e [-> _]%elem_of_replicate. done.
Qed.

Lemma fleet_server_silent s fd : fd ∈ fleet_fds → sk_out (sock_of (fleet_server s) (fd + 20)) = [].
Proof. revert fd. by apply fleet_cases. Qed.

Lemma fleet_replies_at s sv fd :
  fd ∈ fleet_fds → sk_in (csock (with_socks s (fleet_replies sv)) fd) = arrived (sk_out (sock_of sv (fd + 20))).
Proof. revert fd. by apply fleet_cases. Qed.

Lemma fleet_bs_valid : Forall block_valid fleet_bs.
Proof.
  repeat constructor; cbn; try lia; vm_compute; discriminate.
Qed.

Lemma fleet_bs_apart : all_apart fleet_bs.
Proof.
  split; [by apply (bool_decide_unpack _)|]. intros a b Ha Hb Hne.
  apply elem_of_cons in Ha as [->|Ha%list_elem_of_singleton]; apply elem_of_cons in Hb as [->|Hb%list_elem_of_singleton];
    subst; try done; right; cbn; [left|right]; vm_compute; discriminate.
Qed.

Lemma queue_reaches_disks_witness :
  let s1 := drain_queue (H := stored_zstd) midnight midnight demo_cfg fleet_client in
  let sv := fleet_server s1 in
  let sv' := (server_iter (H := stored_zstd) 77 3 default_config true sv
                (SelectReady (list_to_set (session_fds (sv_mgr sv))) None)).1 in
  let s2 := with_socks s1 (fleet_replies sv') in
  disk_content (sv_bw sv') 1 = store 8192 [1; 2] (store 4096 [7; 8; 9] (disk_content (sv_bw sv) 1)) ∧
  t_block (cs_db (process_ack demo_cfg s2)) !! (1, 4096) = Some (mk_row 3 9 1 0 0 [7]) ∧
  t_block (cs_db (process_ack demo_cfg s2)) !! (1, 8192) = Some (mk_row 3 9 1 0 0 [7]).
Proof.
  intros s1 sv sv' s2. destruct demo_ready as (_ & _ & Hr).
  destruct (queue_reaches_disks midnight midnight demo_cfg fleet_client fleet_bs)
    as (_ & _ & sent & Hsent & Hturn).
  - reflexivity.
  - reflexivity.
  - reflexivity.
  - apply fleet_queue_ok.
  - repeat constructor; exists 9; eexists; reflexivity.
  - apply fleet_bs_valid.
  - apply fleet_bs_apart.
  - apply fleet_client_ok.
  - destruct (Hturn 77 3 default_config sv (list_to_set (session_fds (sv_mgr sv)))) as (Hdisk & reply & Hout & Hack).
    + constructor; [vm_compute; discriminate|by apply (bool_decide_unpack _)|].
      apply Forall_fmap, Forall_forall. intros fd _. vm_compute. discriminate.
    + apply demo_srv_ok.
    + intros fd Hin. by apply elem_of_list_to_set.
    + constructor; [exact Hr|]. constructor; [exact Hr|constructor].
    + eapply Forall2_impl_l; [|apply (fleet_server_carries s1)]. intros fd sess Hin.
      enough (sent fd = sk_out (csock s1 fd)) as -> by done.
      unfold s1. rewrite Hsent. revert fd Hin. by apply fleet_cases.
    + split; [by rewrite Hdisk|].
      enough (Hdel : ∀ fd, fd ∈ fleet_fds → delivers (sk_in (csock s2 fd)) (reply fd) [])
        by (split; rewrite (Hack (fleet_replies sv') Hdel); reflexivity).
      intros fd Hin. apply Forall2_fmap_r in Hout. destruct (proj1 (list_elem_of_lookup _ _) Hin) as [i Hi].
      assert (Hr' := Forall2_lookup_lr _ _ _ i fd fd Hout Hi Hi).
      assert (Hq : sk_out (sock_of sv (fd + 20)) = []) by (exact (fleet_server_silent s1 fd Hin)).
      change (sk_out (sock_of sv' (fd + 20)) = sk_out (sock_of sv (fd + 20)) ++ reply fd) in Hr'.
      rewrite Hq in Hr'. cbn [app] in Hr'. rewrite <- Hr'.
      unfold s2. rewrite (fleet_replies_at s1 sv' fd Hin). apply arrived_delivers.
Defined.
