(* ===== verification/Stream.v ===== *)
(** * Connections that can break

    What travels on a connection while sends may fail on either side: a stream
    of frames of which the last may be cut off, in which case nothing follows it
    because the connection stays broken.  [steady] says that of a socket; the
    code relies on it, since neither side closes a connection on which it has
    sent only a part of a frame or of a response. *)

From S2P Require Import Prelude Protocol Net Zstd Msgpack Wire Session Decoder BlockWriter Ack Server Pool Client.

(** ** Sockets whose failures last *)

(** What makes [send_all] of wire.c give up, and [send_response] of ack.c. *)
Definition client_gives_up (ev : send_ev) : Prop :=
  match ev with SendRoom n => n ≤ 0 | SendAgain => False | SendIntr | SendFail => True end.

Definition server_gives_up (ev : send_ev) : Prop :=
  match ev with SendRoom _ | SendIntr => False | SendAgain | SendFail => True end.

(** After a send that fails every send fails. *)
Fixpoint steady (fails : send_ev → Prop) (evs : list send_ev) : Prop :=
  match evs with
  | [] => True
  | ev :: r => (fails ev → Forall fails r) ∧ steady fails r
  end.

(** What a send of [data] does on a steady socket. *)
Definition sent_steadily (fails : send_ev → Prop) (evs : list send_ev) (data out : list Z)
    (rc : Z) (out' : list Z) (evs' : list send_ev) : Prop :=
  steady fails evs' ∧
  ((rc = 0 ∧ out' = out ++ data) ∨
   (rc = -1 ∧ Forall fails evs' ∧ ∃ sent rest, out' = out ++ sent ∧ data = sent ++ rest ∧ rest ≠ [])) ∧
  (Forall fails evs → data ≠ [] → Forall fails evs' ∧ out' = out ∧ rc = -1).

Lemma steady_more fails evs chunk data out rc out' evs' :
  chunk ≠ [] → sent_steadily fails evs data (out ++ chunk) rc out' evs' →
  steady fails evs' ∧
  ((rc = 0 ∧ out' = out ++ chunk ++ data) ∨
   (rc = -1 ∧ Forall fails evs' ∧ ∃ sent rest, out' = out ++ sent ∧ chunk ++ data = sent ++ rest ∧ rest ≠ [])).
Proof.
  intros Hc (Hs & Ho & _). split; [done|]. destruct Ho as [[-> ->]|(-> & Hf & sent & rest & -> & -> & Hr)].
  - left. by rewrite <- app_assoc.
  - right. split; [done|]. split; [done|]. exists (chunk ++ sent), rest. by rewrite <- !app_assoc.
Qed.

Lemma send_all_steady evs : ∀ data out rc out' evs',
  steady client_gives_up evs → send_all_loop evs data out = (rc, out', evs') →
  sent_steadily client_gives_up evs data out rc out' evs'.
Proof.
  induction evs as [|ev evs IH]; intros data out rc out' evs' Hst E;
    (destruct data as [|b data]; [cbn in E; injection E as <- <- <-; split; [done|split; [left; by rewrite app_nil_r|done]]|]).
  - cbn in E. injection E as <- <- <-. split; [done|]. split; [|done]. right. split; [done|]. split; [done|].
    exists [], (b :: data). by rewrite app_nil_r.
  - destruct Hst as [Hev Hst]. cbn [send_all_loop sys_send fst] in E.
    assert (Hstop : Forall client_gives_up evs → (rc, out', evs') = (-1, out, evs) →
              sent_steadily client_gives_up (ev :: evs) (b :: data) out rc out' evs').
    { intros Hf [= -> -> ->]. split; [done|]. split; [|done]. right. split; [done|]. split; [done|].
      exists [], (b :: data). by rewrite app_nil_r. }
    destruct ev as [n| | |]; cbn [fst] in E.
    + set (t := Z.min (Z.max 0 n) (len (b :: data))) in *. destruct (Z.eqb_spec t 0) as [Ht|Ht].
      * apply Hstop; [|done]. apply Hev. cbn. unfold t in Ht. rewrite len_cons in Ht. pose proof (len_nonneg data). lia.
      * apply IH in E; [|done]. assert (Hc : ztake t (b :: data) ≠ []).
        { intros Hn. assert (Hlt : len (ztake t (b :: data)) = t) by (rewrite len_ztake; lia).
          rewrite Hn, len_nil in Hlt. lia. }
        destruct (steady_more _ _ _ _ _ _ _ _ Hc E) as [H1 H2]. rewrite ztake_zdrop in H2.
        split; [done|]. split; [done|]. intros Hall _. apply Forall_cons in Hall as [Hn _]. cbn in Hn.
        unfold t in Ht. pose proof (len_nonneg (b :: data)). lia.
    + apply IH in E as (H1 & H2 & H3); [|done]. split; [done|]. split; [done|].
      intros Hall Hne. apply Forall_cons in Hall as [[] _].
    + apply Hstop; [by apply Hev|done].
    + apply Hstop; [by apply Hev|done].
Qed.

Lemma send_response_steady evs : ∀ data out rc out' evs',
  steady server_gives_up evs → send_response_loop evs data out = (rc, out', evs') →
  sent_steadily server_gives_up evs data out rc out' evs'.
Proof.
  induction evs as [|ev evs IH]; intros data out rc out' evs' Hst E;
    (destruct data as [|b data]; [cbn in E; injection E as <- <- <-; split; [done|split; [left; by rewrite app_nil_r|done]]|]).
  - cbn in E. injection E as <- <- <-. split; [done|]. split; [|done]. right. split; [done|]. split; [done|].
    exists [], (b :: data). by rewrite app_nil_r.
  - destruct Hst as [Hev Hst]. cbn [send_response_loop sys_send fst] in E.
    destruct ev as [n| | |]; cbn [fst] in E.
    + set (t := Z.min (Z.max 0 n) (len (b :: data))) in *.
      apply IH in E as (H1 & H2 & _); [|done]. split; [done|]. split.
      * destruct H2 as [[-> ->]|(-> & Hf & sent & rest & -> & Hd & Hr)].
        -- left. split; [done|]. by rewrite <- app_assoc, ztake_zdrop.
        -- right. split; [done|]. split; [done|]. exists (ztake t (b :: data) ++ sent), rest.
           split; [by rewrite <- app_assoc|]. split; [|done]. by rewrite <- app_assoc, <- Hd, ztake_zdrop.
      * intros Hall _. apply Forall_cons in Hall as [[] _].
    + injection E as <- <- <-. split; [done|]. split; [|by intros [_ ?]%Forall_cons]. right. split; [done|].
      split; [by apply Hev|]. exists [], (b :: data). by rewrite app_nil_r.
    + apply IH in E as (H1 & H2 & H3); [|done]. split; [done|]. split; [done|].
      intros Hall Hne. apply Forall_cons in Hall as [[] _].
    + injection E as <- <- <-. split; [done|]. split; [|by intros [_ ?]%Forall_cons]. right. split; [done|].
      split; [by apply Hev|]. exists [], (b :: data). by rewrite app_nil_r.
Qed.

Lemma send_all_sock_steady fd data rc fd' :
  steady client_gives_up (sk_send fd) → send_all fd data = (rc, fd') →
  sk_in fd' = sk_in fd ∧
  sent_steadily client_gives_up (sk_send fd) data (sk_out fd) rc (sk_out fd') (sk_send fd').
Proof.
  unfold send_all. intros Hst. destruct (send_all_loop _ _ _) as [[r out] evs] eqn:E. intros [= <- <-].
  split; [done|]. by apply send_all_steady.
Qed.

(** ** A stream of frames *)

Section FrameStream.
Context `{ZstdOk} (K : decoded_msg → Prop).

(** The bytes [buf] of a receive buffer and [rest] on their way to it are the
    frames of messages in [K], the last of them perhaps cut off if [torn]. *)
Definition stream_ok (torn : Prop) (buf rest : list Z) : Prop :=
  ∃ ms fs t, Forall2 frame_of ms fs ∧ Forall K ms ∧ buf ++ rest ++ t = concat fs ∧ short_of buf fs ∧
    (t = [] ∨ torn).

Lemma stream_empty torn : stream_ok torn [] [].
Proof. exists [], [], []. repeat split; try constructor. done. Qed.

Lemma stream_torn (torn torn' : Prop) buf rest : (torn → torn') → stream_ok torn buf rest → stream_ok torn' buf rest.
Proof. intros Ht (ms & fs & t & H1 & H2 & H3 & H4 & H5). exists ms, fs, t. tauto. Qed.

Lemma short_of_snoc buf fs f : 0 < len f → short_of buf fs → short_of buf (fs ++ [f]).
Proof. destruct fs as [|g fs]; [|done]. cbn. by intros Hf ->. Qed.

(** A frame is sent on a steady socket. *)
Lemma stream_send evs evs' m frame out rc out' buf pre :
  frame_of m frame → K m → steady client_gives_up evs →
  sent_steadily client_gives_up evs frame out rc out' evs' →
  stream_ok (Forall client_gives_up evs) buf (pre ++ out) →
  stream_ok (Forall client_gives_up evs') buf (pre ++ out').
Proof.
  intros Hf Hm Hst (_ & Ho & Hstuck) (ms & fs & t & H1 & H2 & H3 & H4 & H5).
  assert (Hlen : 0 < len frame) by (apply frame_of_len in Hf; lia).
  destruct (decide (t = [])) as [->|Ht].
  - assert (Happ : Forall2 frame_of (ms ++ [m]) (fs ++ [frame])) by (by apply Forall2_app; [|constructor]).
    assert (HK : Forall K (ms ++ [m])) by (apply Forall_app; split; [done|by constructor]).
    rewrite app_nil_r in H3.
    destruct Ho as [[-> ->]|(-> & Hfail & sent & rest & -> & -> & Hr)].
    + exists (ms ++ [m]), (fs ++ [frame]), []. split; [done|]. split; [done|].
      split; [|split; [by apply short_of_snoc|by left]].
      rewrite concat_app, <- H3, app_nil_r. cbn. by rewrite app_nil_r, <- !app_assoc.
    + exists (ms ++ [m]), (fs ++ [sent ++ rest]), rest. split; [done|]. split; [done|].
      split; [|split; [by apply short_of_snoc|by right]].
      rewrite concat_app, <- H3. cbn. by rewrite app_nil_r, <- !app_assoc.
  - destruct H5 as [->|Hall]; [done|]. destruct (Hstuck Hall) as (Hall' & -> & _).
    { intros Hn. rewrite Hn in Hlen. done. }
    exists ms, fs, t. auto 10.
Qed.

(** The bytes arrive in the receiver's socket. *)
Lemma stream_moves torn buf pre bs out : stream_ok torn buf (pre ++ bs ++ out) → stream_ok torn buf ((pre ++ bs) ++ out).
Proof. by rewrite <- app_assoc. Qed.

(** One read, whatever the socket answers. *)
Lemma sys_recv_bytes cap evs :
  match sys_recv cap evs with
  | (RcvBytes c, evs') => c ++ script_bytes evs' = script_bytes evs ∧ (0 ≤ cap → len c ≤ cap)
  | (_, evs') => script_bytes evs' = script_bytes evs
  end.
Proof.
  destruct evs as [|[bs| |] evs]; cbn [sys_recv]; [done| |done|done]. case_test; cbn [script_bytes].
  - split; [by rewrite app_assoc, ztake_zdrop|]. rewrite len_ztake. pose proof (len_nonneg bs). lia.
  - split; [done|lia].
Qed.

(** The receive loop on a stream of frames, the socket answering anything: it
    serves a first part of the messages and leaves the rest of the stream. *)
Lemma recv_loop_stream now fuel : ∀ evs w s ms fs t,
  Forall2 frame_of ms fs → s_recv_buf s ++ script_bytes evs ++ t = concat fs → short_of (s_recv_buf s) fs →
  let '(evs', w', s', _) := recv_loop now fuel evs w s in
  ∃ ms1 ms2 fs2, ms = ms1 ++ ms2 ∧ Forall2 frame_of ms2 fs2 ∧
    s_recv_buf s' ++ script_bytes evs' ++ t = concat fs2 ∧ short_of (s_recv_buf s') fs2 ∧
    w' = (run_msgs (handle_msg now) w s ms1).1 ∧ s_fd s' = s_fd s.
Proof.
  induction fuel as [|fuel IH]; intros evs w s ms fs t HF Hs Hsh.
  { cbn. exists [], ms, fs. done. }
  assert (Hdone : ∀ evs', script_bytes evs' = script_bytes evs →
    ∃ ms1 ms2 fs2, ms = ms1 ++ ms2 ∧ Forall2 frame_of ms2 fs2 ∧
      s_recv_buf s ++ script_bytes evs' ++ t = concat fs2 ∧ short_of (s_recv_buf s) fs2 ∧
      w = (run_msgs (handle_msg now) w s ms1).1 ∧ s_fd s = s_fd s).
  { intros evs' ->. exists [], ms, fs. done. }
  rewrite recv_loop_S. pose proof (sys_recv_bytes RECV_CHUNK evs) as Hr.
  destruct (sys_recv RECV_CHUNK evs) as [[c| |] evs']; [|by apply Hdone..].
  destruct Hr as [Hc Hcap]. destruct c as [|x c]; [by apply Hdone|]. set (chunk := x :: c) in *.
  pose proof RECV_CHUNK_val as [HR0 HR].
  destruct (decode_chunks_frames (handle_msg now) (handle_msg_buf now) [chunk] ms fs w s (script_bytes evs' ++ t) HF)
    as (ms1 & ms2 & fs2 & b & -> & HF2 & Hb & Hsh2 & Hdec); [|change (concat [chunk]) with (chunk ++ []); by rewrite app_nil_r, (app_assoc chunk), Hc|done|].
  { constructor; [|constructor]. specialize (Hcap ltac:(lia)). lia. }
  cbn [decode_chunks] in Hdec. destruct (decode_chunk (handle_msg now) w s chunk) as [[w1 s1] ok].
  unfold after_msgs in Hdec. destruct ok; [|discriminate Hdec]. injection Hdec as -> ->.
  specialize (IH evs' (run_msgs (handle_msg now) w s ms1).1 (with_recv_buf (run_msgs (handle_msg now) w s ms1).2 b)
                ms2 fs2 t HF2 Hb Hsh2).
  destruct (recv_loop _ _ _ _ _) as [[[evs2 w2] s2] alive].
  destruct IH as (ms3 & ms4 & fs4 & -> & HF4 & Hb4 & Hsh4 & -> & Hfd).
  exists (ms1 ++ ms3), ms4, fs4. split; [by rewrite app_assoc|]. split; [done|]. split; [done|]. split; [done|].
  split.
  - rewrite run_msgs_buf by apply handle_msg_buf. unfold run_msgs. rewrite foldl_app.
    by destruct (foldl _ (w, s) ms1).
  - rewrite Hfd. cbn. apply run_msgs_fd.
Qed.

End FrameStream.
