(* ===== verification/Replica.v ===== *)
(** * What the receiver's disks say of a source

    A source is an image per device, cut into blocks.  A receiver that is sent
    blocks of a source, whatever its disks, its sockets and the order in which
    things happen, only ever acknowledges a block that is on its disk. *)

From S2P Require Import Prelude Protocol Net Zstd Msgpack Wire Session Decoder BlockWriter Ack Server Pool Client.
From S2P Require Import Stream.

(** [src_at d x]: the byte at position [x] of device [d]; [src_len d o]: the
    length of the block that starts at [o]. *)
Record source := mk_source {
  src_at : Z → Z → Z;
  src_len : Z → Z → Z;
}.

Definition block_of (src : source) (d o : Z) : list Z := src_at src d <$> seqZ o (src_len src d o).

Record source_ok (src : source) : Prop := {
  so_bytes : ∀ d x, byte_ok (src_at src d x);
  so_len : ∀ d o, 0 ≤ src_len src d o ≤ BLOCK_SIZE;
}.

(** A message of a client that copies the source. *)
Definition of_source (src : source) (m : decoded_msg) : Prop :=
  match m with
  | DECODE_DATA_BLOCK d o data => in_s 32 d ∧ 0 ≤ o < 2 ^ 63 ∧ data = block_of src d o
  | _ => True
  end.

(** The block at [o] of device [d] is on its disk. *)
Definition copied (src : source) (b : writer_state) (d o : Z) : Prop :=
  disk_ready b d ∧
  ∀ x, o ≤ x < o + src_len src d o → disk_content b d !! x = Some (src_at src d x).

(** Every registered disk whose descriptor is set is open. *)
Definition disks_open (b : writer_state) : Prop :=
  ∀ j, 0 ≤ j < MAX_TARGET_DISKS → registered b j → 0 ≤ d_fd (disk_at b j) →
       is_Some (k_open (bw_kernel b) !! d_fd (disk_at b j)).

Record replica_ok (b : writer_state) : Prop := {
  ro_bw : bw_ok b;
  ro_pending : g_pending_bytes b = 0;
  ro_apart : disks_apart b;
  ro_open : disks_open b;
}.

(** Nothing copied is lost. *)
Definition advances (src : source) (b b' : writer_state) : Prop :=
  g_disks b' = g_disks b ∧ k_open (bw_kernel b') = k_open (bw_kernel b) ∧
  ∀ d o, copied src b d o → copied src b' d o.

#[export] Instance advances_preorder src : PreOrder (advances src).
Proof.
  split; [by intros b|]. intros b1 b2 b3 (H1 & H2 & H3) (H4 & H5 & H6).
  split; [congruence|]. split; [congruence|]. auto.
Qed.

Lemma disks_open_ext b b' :
  g_disks b' = g_disks b → k_open (bw_kernel b') = k_open (bw_kernel b) → disks_open b → disks_open b'.
Proof. unfold disks_open, registered, disk_at. by intros -> ->. Qed.

(** Same files, same disks: everything stays. *)
Lemma advances_files src b b' :
  g_disks b' = g_disks b → k_files (bw_kernel b') = k_files (bw_kernel b) →
  k_open (bw_kernel b') = k_open (bw_kernel b) → advances src b b'.
Proof.
  intros Hd Hf Ho. split; [done|]. split; [done|]. intros d o [Hr Hc].
  split; [by eapply disk_ready_ext|]. intros x Hx. rewrite (disk_content_ext b b') by done. by apply Hc.
Qed.

Lemma len_block_of src d o : 0 ≤ src_len src d o → len (block_of src d o) = src_len src d o.
Proof. intros Hl. unfold block_of, len. rewrite length_fmap, length_seqZ. lia. Qed.

Lemma block_of_lookup src d o i :
  0 ≤ i < src_len src d o → block_of src d o !! Z.to_nat i = Some (src_at src d (o + i)).
Proof.
  intros Hi. unfold block_of. rewrite list_lookup_fmap, lookup_seqZ_lt by lia. cbn. do 2 f_equal. lia.
Qed.

(** What a part of the source's block does to a disk. *)
Lemma store_source src d o sent rest c x :
  0 ≤ src_len src d o → block_of src d o = sent ++ rest →
  (c : content) !! x = Some (src_at src d x) → store o sent c !! x = Some (src_at src d x).
Proof.
  intros Hl Hd Hc. rewrite store_lookup. destruct (_ && _) eqn:E; [|done].
  assert (Hs : len sent + len rest = src_len src d o) by (rewrite <- len_app, <- Hd; by apply len_block_of).
  pose proof (len_nonneg rest).
  rewrite <- (lookup_app_l sent rest) by (unfold len in *; lia).
  rewrite <- Hd, block_of_lookup by lia. do 2 f_equal. lia.
Qed.

Lemma store_block src d o c x :
  0 ≤ src_len src d o → o ≤ x < o + src_len src d o → store o (block_of src d o) c !! x = Some (src_at src d x).
Proof.
  intros Hl Hx. rewrite store_lookup, len_block_of by done.
  replace (_ && _) with true by lia. rewrite block_of_lookup by lia. do 2 f_equal. lia.
Qed.

(** A disk that is not ready refuses the write. *)
Lemma write_refused b d o data rc b' :
  disks_open b → ¬ (disk_ready b d ∧ 0 ≤ o) → block_writer_write b d o data = (rc, b') → rc = -1 ∧ b' = b.
Proof.
  intros Ho Hn E. unfold block_writer_write in E.
  do 3 (case_test_in E; [by injection E as <- <-|]).
  exfalso. apply Hn. split; [|lia].
  assert (Hd : 0 ≤ d < MAX_TARGET_DISKS) by lia.
  assert (Hr : registered b d) by (unfold registered; lia).
  split; [done|]. split; [done|]. split; [lia|]. apply Ho; [done|done|lia].
Qed.

Lemma ready_dec b d o : (disk_ready b d ∧ 0 ≤ o) ∨ ¬ (disk_ready b d ∧ 0 ≤ o).
Proof.
  unfold disk_ready. destruct (k_open (bw_kernel b) !! d_fd (disk_at b d)) eqn:E.
  - destruct (decide (0 ≤ d < MAX_TARGET_DISKS ∧ d_registered (disk_at b d) ≠ 0 ∧ 0 ≤ d_fd (disk_at b d) ∧ 0 ≤ o))
      as [Hd|Hd]; [left|right]; [|tauto]. split; [|tauto]. repeat split; try tauto. by eexists.
  - right. intros [(_ & _ & _ & [p Hp]) _]. done.
Qed.

(** Writing a block of the source, however it ends. *)
Lemma write_replica src b d o rc b' :
  source_ok src → replica_ok b → block_writer_write b d o (block_of src d o) = (rc, b') →
  advances src b b' ∧ bw_ok b' ∧ disks_apart b' ∧ disks_open b' ∧ (rc = 0 ∨ rc = -1) ∧
  g_pending_bytes b' = (if rc =? 0 then src_len src d o else 0) ∧ (rc = 0 → copied src b' d o).
Proof.
  intros Hs [Hb Hp Ha Ho] E. pose proof (so_len _ Hs d o) as Hl. unfold BLOCK_SIZE in Hl.
  destruct (ready_dec b d o) as [[Hr Hpos]|Hn].
  - destruct (write_spec b d o (block_of src d o) rc b' Hb ltac:(rewrite len_block_of by lia; lia) Hr Hpos E)
      as (Hb' & Hd & Hk & Hother & sent & rest & Hcut & Hc & Hrc).
    assert (Hr' : disk_ready b' d) by (by eapply disk_ready_ext).
    split; [|split; [done|split; [by eapply disks_apart_ext|split; [by eapply disks_open_ext|]]]].
    + split; [done|]. split; [done|]. intros d' o' [Hrd Hcp]. split; [by eapply disk_ready_ext|]. intros x Hx.
      destruct (decide (d' = d)) as [->|Hne].
      * rewrite Hc. apply (store_source src d o sent rest); [lia|done|by apply Hcp].
      * rewrite Hother by (by apply Ha). by apply Hcp.
    + destruct Hrc as [(-> & -> & _ & _ & Hpend)|(-> & _ & _ & _ & Hpend)].
      * split; [by left|]. cbn. rewrite len_block_of in Hpend by lia. split; [lia|]. intros _. split; [done|].
        intros x Hx. rewrite Hc, <- (app_nil_r sent), <- Hcut. apply store_block; lia.
      * split; [by right|]. cbn. split; [lia|done].
  - destruct (write_refused b d o _ rc b' Ho Hn E) as [-> ->]. split; [reflexivity|].
    split; [done|]. split; [done|]. split; [done|]. split; [by right|]. by split.
Qed.

(** ** Responses *)

(** An acknowledgement names a block that is on its disk. *)
Definition honest (src : source) (b : writer_state) (r : server_response_t) : Prop :=
  response_ok r ∧ ∀ d o, ack_of r = Some (d, o) → copied src b d o.

Lemma honest_advances src b b' r : advances src b b' → honest src b r → honest src b' r.
Proof. intros (_ & _ & Hc) [H1 H2]. split; [done|]. intros d o Ho. by apply Hc, H2. Qed.

(** What a socket of the receiver holds: honest responses, the last one perhaps
    cut off if [torn]. *)
Definition answers_ok (src : source) (b : writer_state) (torn : Prop) (out : list Z) : Prop :=
  ∃ rs t, Forall (honest src b) rs ∧ out ++ t = concat (response_bytes <$> rs) ∧ (t = [] ∨ torn).

Lemma answers_advances src b b' torn out : advances src b b' → answers_ok src b torn out → answers_ok src b' torn out.
Proof.
  intros Ha (rs & t & H1 & H2). exists rs, t. split; [|done]. eapply Forall_impl; [exact H1|].
  intros r. by apply honest_advances.
Qed.

Definition sock_answers (src : source) (b : writer_state) (k : sock) : Prop :=
  steady server_gives_up (sk_send k) ∧ answers_ok src b (Forall server_gives_up (sk_send k)) (sk_out k).

Lemma response_nonempty r : response_bytes r ≠ [].
Proof. intros Hn. pose proof (len_response_bytes r) as Hl. by rewrite Hn in Hl. Qed.

Lemma concat_response r : concat (response_bytes <$> [r]) = response_bytes r.
Proof. apply app_nil_r. Qed.

Lemma send_response_answers src b k r :
  honest src b r → sock_answers src b k → sock_answers src b (send_response k r).2.
Proof.
  intros Hr [Hst (rs & t & H1 & H2 & H3)]. unfold send_response.
  destruct (send_response_loop _ _ _) as [[rc out] evs] eqn:E. cbn [snd].
  apply send_response_steady in E as (Hst' & Ho & Hstuck); [|done]. split; [done|]. cbn [sk_send sk_out].
  destruct (decide (t = [])) as [->|Ht].
  - assert (HF : Forall (honest src b) (rs ++ [r])) by (apply Forall_app; split; [done|by constructor]).
    rewrite app_nil_r in H2. destruct Ho as [[-> ->]|(-> & Hfail & sent & rest & -> & Hb & Hne)].
    + exists (rs ++ [r]), []. split; [done|]. split; [|by left].
      by rewrite fmap_app, concat_app, <- H2, concat_response, app_nil_r.
    + exists (rs ++ [r]), rest. split; [done|]. split; [|by right].
      by rewrite fmap_app, concat_app, <- H2, concat_response, Hb, app_assoc.
  - destruct H3 as [->|Hall]; [done|]. destruct (Hstuck Hall (response_nonempty r)) as (Hall' & -> & _).
    exists rs, t. auto.
Qed.

(** Serving a message of the source on any receiver. *)
Lemma handle_msg_replica `{Zstd} src now b k s m :
  source_ok src → of_source src m → replica_ok b → sock_answers src b k →
  let w := (handle_msg now (b, k) s m).1 in
  replica_ok w.1 ∧ advances src b w.1 ∧ sock_answers src w.1 w.2 ∧ sk_in w.2 = sk_in k.
Proof.
  intros Hs Hm Hb [Hst Ha]. cbv zeta. unfold handle_msg. destruct m as [d o data| |].
  - destruct Hm as (Hd & Ho & ->). pose proof (so_len _ Hs d o) as Hl. unfold BLOCK_SIZE in Hl.
    destruct (block_writer_write b d o (block_of src d o)) as [rc b1] eqn:E.
    destruct (write_replica src b d o rc b1 Hs Hb E) as (Hadv & Hb1 & Hap1 & Hop1 & Hrc & Hpend & Hcp).
    assert (Ha1 : sock_answers src b1 k) by (split; [done|by eapply answers_advances]).
    rewrite len_block_of by lia. destruct Hrc as [->| ->]; cbn [Z.eqb] in *.
    + assert (Hh : honest src b1 (mk_response RESPONSE_ACK d (src_len src d o) o)).
      { split; [unfold response_ok, in_s in *; cbn; unfold RESPONSE_ACK; lia|]. intros d' o' [= <- <-]. by apply Hcp. }
      pose proof (send_response_answers src b1 k _ Hh Ha1) as Hk.
      unfold ack_send_block. rewrite s32_small by lia.
      destruct (send_response k _) as [rc2 k2] eqn:Ek. pose proof Ek as [Hin _]%send_response_spec.
      unfold block_writer_pending_bytes, BINLOG_SIZE_LIMIT.
      replace (_ <=? g_pending_bytes b1) with false by lia. cbn [fst snd].
      set (b2 := mk_bw _ _ _ _ _ _).
      assert (Hadv2 : advances src b1 b2) by (by apply advances_files). destruct Hk as [Hk1 Hk2].
      split; [|split; [by transitivity b1|split; [split; [done|by eapply answers_advances]|done]]].
      destruct Hb1. constructor; [by constructor|done|by apply (disks_apart_ext b1)|by apply (disks_open_ext b1)].
    + cbn [fst snd]. split; [by constructor|]. done.
  - cbn. split; [done|]. split; [reflexivity|]. done.
  - unfold block_writer_fsync_all. pose proof (fsync_loop_files (g_disks b) 0 (bw_kernel b)) as [Hff Hfo].
    destruct (fsync_loop (g_disks b) 0 (bw_kernel b)) as [frc k1]. cbn [snd] in Hff, Hfo.
    set (b1 := with_kernel b k1). assert (Hadv : advances src b b1) by (by apply advances_files).
    assert (Hh : honest src b1 (mk_response RESPONSE_SERVER_DONE 0 0 0)) by (split; [by repeat split|done]).
    assert (Ha1 : sock_answers src b1 k) by (split; [done|by eapply answers_advances]).
    pose proof (send_response_answers src b1 k _ Hh Ha1) as Hk. unfold ack_send_done.
    destruct (send_response k _) as [rc2 k2] eqn:Ek. pose proof Ek as [Hin _]%send_response_spec. cbn [fst snd].
    split; [|by split]. destruct Hb as [[] ? ? ?].
    constructor; [by constructor|done|by apply (disks_apart_ext b)|by apply (disks_open_ext b)].
Qed.

Lemma run_msgs_replica `{Zstd} src now ms : ∀ b k s,
  source_ok src → Forall (of_source src) ms → replica_ok b → sock_answers src b k →
  let w := (run_msgs (handle_msg now) (b, k) s ms).1 in
  replica_ok w.1 ∧ advances src b w.1 ∧ sock_answers src w.1 w.2 ∧ sk_in w.2 = sk_in k.
Proof.
  unfold run_msgs. induction ms as [|m ms IH]; intros b k s Hs HF Hb Hk; [by split; [|split; [reflexivity|]]|].
  apply Forall_cons in HF as [Hm HF]. cbn [foldl fst snd].
  destruct (handle_msg_replica src now b k s m Hs Hm Hb Hk) as (H1 & H2 & H3 & H4).
  destruct (handle_msg now (b, k) s m) as [[b1 k1] s1]. cbn [fst snd] in *.
  destruct (IH b1 k1 s1 Hs HF H1 H3) as (H5 & H6 & H7 & H8).
  split; [done|]. split; [by transitivity b1|]. split; [done|]. congruence.
Qed.
