(* ===== verification/System.v ===== *)
(** * The whole system: an acknowledged block is on the target's disk

    Client, receiver and the connections between them as one transition system.
    A step is an operation of the client's engine, a turn of the receiver's main
    loop, or the network moving bytes.  The steps happen in any order and number;
    sends, reads, writes, allocations and the tracker may fail as their scripts
    say.  In every reachable world each row of the client's tracker that is
    acknowledged names a block that is on the receiver's disk. *)

From S2P Require Import Prelude Protocol Net Zstd Msgpack Wire Session Decoder BlockWriter Ack Server Queue Pool.
From S2P Require Import Tracker BlockIO Hash Client EndToEnd Transfer Stream Replica.

(** An entry of the queue that still has its payload holds a block of the source. *)
Definition entry_of_source (src : source) (e : queue_entry) : Prop :=
  ∀ p, qe_payload e = Some p →
    in_s 32 (qe_devno e) ∧ 0 ≤ qe_offset e < 2 ^ 63 ∧
    p = block_encoding (qe_devno e) (qe_offset e) (block_of src (qe_devno e) (qe_offset e)).

(** What holds of the client, whatever operation runs next, while the receiver is
    [b]; [ups fd buf pre] says that of the bytes sent on [fd] the receiver has
    [buf] in a session's buffer and [pre] in its socket. *)
Record client_ok `{ZstdOk} (src : source) (b : writer_state) (ups : Z → list Z → list Z → Prop)
    (s : cstate) : Prop := {
  co_entries : Forall (entry_of_source src) (q_entries (cs_queue s));
  co_writer : writer_ok (cs_writer s);
  co_rows : ∀ d o r, t_block (cs_db s) !! (d, o) = Some r → r_ack r ≠ 0 → copied src b d o;
  co_steady : ∀ fd, steady client_gives_up (sk_send (csock s fd));
  co_in : ∀ fd, ∃ rs, Forall (honest src b) rs ∧
                      delivers (sk_in (csock s fd)) (concat (response_bytes <$> rs)) [];
  co_up : ∀ fd buf pre, ups fd buf pre →
            stream_ok (of_source src) (Forall client_gives_up (sk_send (csock s fd))) buf
              (pre ++ sk_out (csock s fd));
}.

Section ClientSteps.
Context `{ZstdOk} (src : source) (b : writer_state) (ups : Z → list Z → list Z → Prop).
Context (src_ok : source_ok src).
Context (realloc_ok : Z → bool) (malloc_ok : nat → bool).
Context (clock wall : nat → Z) (running : nat → bool).
Context (cfg : config) (real : cf_dry_run cfg = false).

Notation ok := (client_ok src b ups).

(** Updates that leave all of that alone. *)
Lemma ok_ext s s' :
  cs_queue s' = cs_queue s → cs_writer s' = cs_writer s → t_block (cs_db s') = t_block (cs_db s) →
  cs_socks s' = cs_socks s → ok s → ok s'.
Proof.
  intros Hq Hw Hd Hk [H1 H2 H3 H4 H5 H6].
  assert (Hs : ∀ fd, csock s' fd = csock s fd) by (intros fd; unfold csock; by rewrite Hk).
  constructor; [by rewrite Hq|by rewrite Hw|by rewrite Hd|..]; intros fd; rewrite Hs; auto.
Qed.

Lemma ok_queue s q : Forall (entry_of_source src) (q_entries q) → ok s → ok (set_queue s q).
Proof. intros Hq [H1 H2 H3 H4 H5 H6]. by constructor. Qed.

Lemma ok_writer s w : writer_ok w → ok s → ok (set_writer s w).
Proof. intros Hw [H1 H2 H3 H4 H5 H6]. by constructor. Qed.

(** The tracker: every row the new table calls acknowledged was one before or
    names a block that is there. *)
Lemma ok_db s db :
  (∀ d o r, t_block db !! (d, o) = Some r → r_ack r ≠ 0 →
     copied src b d o ∨ ∃ r', t_block (cs_db s) !! (d, o) = Some r' ∧ r_ack r' ≠ 0) →
  ok s → ok (set_db s db).
Proof.
  intros Hdb [H1 H2 H3 H4 H5 H6]. constructor; try done. intros d o r Hr Ha.
  destruct (Hdb d o r Hr Ha) as [|(r' & Hr' & Ha')]; [done|by eapply H3].
Qed.

Lemma db_query_blocks {A} db (p : A) q f : t_block (db_query db p q f).2 = t_block db.
Proof. unfold db_query, db_next. by destruct (db_events db) as [|[] ?]. Qed.

Lemma db_update_blocks db f :
  t_block (db_update db f).2 = t_block db ∨
  ∃ db0, t_block db0 = t_block db ∧ t_block (db_update db f).2 = t_block (f db0).
Proof.
  unfold db_update, db_next. destruct (db_events db) as [|[] ?]; cbn; [right|right|by left|by left];
    (eexists; split; [|reflexivity]; done).
Qed.

Lemma ok_mark_acked s d o : copied src b d o → ok s → ok (set_db s (sqlite_block_mark_acked (cs_db s) d o).2).
Proof.
  intros Hc. apply ok_db. intros d' o' r Hr Ha. unfold sqlite_block_mark_acked in Hr.
  destruct (db_update_blocks (cs_db s) (λ db, with_blocks db (alter acked_row (d, o) (t_block db))))
    as [E|(db0 & E0 & E)]; rewrite E in Hr; [eauto|]. cbn in Hr. rewrite E0 in Hr.
  destruct (decide ((d, o) = (d', o'))) as [[= <- <-]|Hne]; [by left|].
  rewrite lookup_alter_ne in Hr by done. eauto.
Qed.

Lemma ok_upsert s d o n h v : ok s → ok (set_db s (sqlite_block_upsert_v (cs_db s) d o n h 0 v).2).
Proof.
  apply ok_db. intros d' o' r Hr Ha. unfold sqlite_block_upsert_v in Hr.
  match type of Hr with context [db_update ?db ?f] => destruct (db_update_blocks db f) as [E|(db0 & E0 & E)] end;
    rewrite E in Hr; [eauto|]. cbn in Hr. rewrite E0 in Hr.
  destruct (decide ((d, o) = (d', o'))) as [[= <- <-]|Hne].
  - rewrite lookup_insert_eq in Hr. injection Hr as <-. done.
  - rewrite lookup_insert_ne in Hr by done. eauto.
Qed.

Lemma ok_query {A} s (p : A) q f : ok s → ok (set_db s (db_query (cs_db s) p q f).2).
Proof. apply ok_db. intros d o r Hr Ha. rewrite db_query_blocks in Hr. eauto. Qed.

(** The queue's operations. *)
Lemma entries_ack q d o :
  Forall (entry_of_source src) (q_entries q) → Forall (entry_of_source src) (q_entries (queue_ack q d o)).
Proof.
  unfold queue_ack. cbn [q_entries]. induction 1 as [|e es He HF IH]; [constructor|]. cbn [ack_scan].
  case_test; constructor; try done.
Qed.

Lemma entries_push mok q d o h p :
  in_s 32 d → 0 ≤ o < 2 ^ 63 → p = block_encoding d o (block_of src d o) →
  Forall (entry_of_source src) (q_entries q) → Forall (entry_of_source src) (q_entries (queue_push mok q d o h p).2).
Proof.
  intros Hd Ho Hp HF. unfold queue_push. repeat case_test; try done; cbn [snd q_entries];
    apply Forall_insert; try done; by intros p' [= <-].
Qed.

Lemma entries_pop q e q' :
  Forall (entry_of_source src) (q_entries q) → queue_pop q = (e, q') →
  Forall (entry_of_source src) (q_entries q') ∧ ∀ x, e = Some x → entry_of_source src x.
Proof.
  intros HF E. unfold queue_pop in E. case_test_in E; injection E as <- <-; [done|]. split; [done|].
  intros x [= <-]. unfold q_slot. rewrite nth_lookup.
  destruct (q_entries q !! _) as [y|] eqn:Hy; [by eapply Forall_lookup_1|]. by intros p.
Qed.

(** process_ack *)

Lemma ok_ack_block s d o : copied src b d o → ok s → ok (ack_block cfg s d o).
Proof.
  intros Hc Hs. unfold ack_block.
  assert (Hq : ok (set_queue s (queue_ack (cs_queue s) d o))) by (apply ok_queue; [by apply entries_ack, Hs|done]).
  destruct (cf_tail_send cfg); [done|]. by apply ok_mark_acked.
Qed.

Lemma ok_response s r : honest src b r → ok s → ok (handle_response cfg s r).
Proof.
  intros [_ Hr] Hs. unfold handle_response. unfold ack_of in Hr.
  destruct (_ || _); [by apply ok_ack_block; [apply Hr|]|]. case_test; [|done]. by apply (ok_ext s).
Qed.

Lemma ok_responses rs : ∀ s, Forall (honest src b) rs → ok s → ok (handle_responses cfg s rs).
Proof.
  unfold handle_responses. induction rs as [|r rs IH]; intros s HF Hs; [done|].
  apply Forall_cons in HF as [Hr HF]. cbn. apply IH; [done|]. by apply ok_response.
Qed.

(** Everything that arrived on a connection has been read. *)
Lemma ok_drained s fd : ok s → ok (set_sock s fd (mk_sock (sk_out (csock s fd)) (sk_send (csock s fd)) [])).
Proof.
  intros [H1 H2 H3 H4 H5 H6]. constructor; try done; intros fd';
    (destruct (decide (fd = fd')) as [<-|Hne]; [rewrite csock_set|by rewrite csock_set_ne; auto]); cbn; auto.
  exists []. split; constructor.
Qed.

Lemma ok_ack_conn s fd : ok s → ok (ack_conn cfg (ack_fuel (csock s fd)) fd s).
Proof.
  intros Hs. destruct (co_in _ _ _ _ Hs fd) as (rs & Hh & Hd).
  rewrite (ack_conn_responses cfg fd rs); [| |exact Hd|].
  - destruct (handle_responses_flags cfg rs s) as (_ & _ & Hk).
    replace (csock s fd) with (csock (handle_responses cfg s rs) fd) by (unfold csock; by rewrite Hk).
    by apply ok_drained, ok_responses.
  - eapply Forall_impl; [exact Hh|]. by intros r [].
  - apply delivers_script in Hd. rewrite len_responses in Hd. unfold ack_fuel, len in *. lia.
Qed.

Lemma ok_process_ack s : ok s → ok (process_ack cfg s).
Proof.
  intros Hs. unfold process_ack. rewrite real. generalize (pl_conns (cs_pool s)). intros cs. revert s Hs.
  induction cs as [|c cs IH]; intros s Hs; cbn [ack_conns]; [done|].
  case_test; [by apply IH|]. by apply IH, ok_ack_conn.
Qed.

(** Sending: the socket of [fd] has taken all or part of a frame. *)
Lemma ok_sends s fd k m frame rc :
  frame_of m frame → of_source src m → sk_in k = sk_in (csock s fd) →
  sent_steadily client_gives_up (sk_send (csock s fd)) frame (sk_out (csock s fd)) rc (sk_out k) (sk_send k) →
  ok s → ok (set_sock s fd k).
Proof.
  intros Hf Hm Hin Hsent [H1 H2 H3 H4 H5 H6].
  constructor; try done; intros fd'; (destruct (decide (fd = fd')) as [<-|Hne];
    [rewrite csock_set|rewrite csock_set_ne by done; auto]).
  - apply Hsent.
  - rewrite Hin. auto.
  - intros buf pre Hu. eapply stream_send; [exact Hf|exact Hm|apply H4|exact Hsent|by apply H6].
Qed.

(** flush_one and the loops around it *)

Lemma block_frame d o level c :
  in_s 32 d → 0 ≤ o < 2 ^ 63 →
  ZSTD_compress (ZSTD_COMPRESS_BOUND (len (block_encoding d o (block_of src d o))))
    (block_encoding d o (block_of src d o)) level = Some c →
  frame_of (DECODE_DATA_BLOCK d o (block_of src d o)) (data_frame c) ∧
  of_source src (DECODE_DATA_BLOCK d o (block_of src d o)).
Proof.
  intros Hd Ho Hc. pose proof (so_len _ src_ok d o) as Hl. split; [|done].
  apply wire_frame_of, (wf_block d o _ level c); [done|unfold in_s; lia| | |done].
  - apply Forall_fmap, Forall_true. intros x. apply src_ok.
  - rewrite len_block_of by lia. unfold BLOCK_SIZE_MAX. lia.
Qed.

(** [wire_send] of a block, with any scratch buffer. *)
Lemma ok_wire_send s fd d o level cap :
  in_s 32 d → 0 ≤ o < 2 ^ 63 → ok s →
  ok (set_sock s fd (wire_send (csock s fd) (block_encoding d o (block_of src d o)) level cap).2).
Proof.
  intros Hd Ho Hs. pose proof (so_len _ src_ok d o) as Hl. pose proof (len_block_encoding d o (block_of src d o)) as He.
  rewrite len_block_of in He by lia. unfold BLOCK_SIZE in Hl.
  assert (Hsame : ok (set_sock s fd (csock s fd))).
  { destruct Hs as [H1 H2 H3 H4 H5 H6]. constructor; try done; intros fd';
      (destruct (decide (fd = fd')) as [<-|Hne]; [rewrite csock_set|rewrite csock_set_ne by done]); auto. }
  set (msg := block_encoding d o (block_of src d o)) in *.
  destruct (Z.le_gt_cases (ZSTD_COMPRESS_BOUND (len msg) + 7) cap) as [Hcap|Hcap].
  - destruct (wire_send_frame (csock s fd) msg level cap) as (c & Hc & _ & _ & ->); [|lia|done|].
    { apply block_encoding_ok, Forall_fmap, Forall_true. intros x. apply src_ok. }
    destruct (block_frame d o level c Hd Ho Hc) as [Hf Hm].
    destruct (send_all (csock s fd) (data_frame c)) as [rc k] eqn:E.
    apply send_all_sock_steady in E as [Hin Hsent]; [|apply Hs]. cbn [snd]. by eapply ok_sends.
  - unfold wire_send, FRAME_MAGIC_LEN, TCP_FRAME_HEADER_SIZE. replace (cap <? _) with true by lia. exact Hsame.
Qed.

Lemma ok_rate_account s n : ok s → ok (rate_account clock cfg s n).
Proof. intros Hs. unfold rate_account, timer_now. repeat case_test; try done; by apply (ok_ext s). Qed.

Lemma ok_flush_one s : ok s → ok (flush_one clock wall cfg s).2.
Proof.
  intros Hs. unfold flush_one. destruct (queue_pop (cs_queue s)) as [[e|] q] eqn:Eq;
    destruct (entries_pop _ _ _ (co_entries _ _ _ _ Hs) Eq) as [Hq He]; [|by apply ok_queue].
  rewrite real. unfold time_now. destruct (pool_acquire _ _) as [[i|] p]; cbn [snd];
    [|apply (ok_ext (set_queue s q)); try done; by apply ok_queue].
  destruct (qe_payload e) as [payload|] eqn:Ep;
    [|cbn; apply (ok_ext (set_queue s q)); try done; by apply ok_queue].
  destruct (He e eq_refl payload Ep) as (Hd & Ho & ->).
  set (s1 := set_pool _ p). assert (Hs1 : ok s1) by (apply (ok_ext (set_queue s q)); try done; by apply ok_queue).
  pose proof (ok_wire_send s1 (c_fd (conn_at p i)) (qe_devno e) (qe_offset e) (cf_zstd_level cfg)
    (default 0 (c_scratch (conn_at p i))) Hd Ho Hs1) as Hk. unfold id in *.
  destruct (wire_send _ _ _ _) as [rc k]. cbn [snd] in Hk.
  destruct (negb (rc =? 0)); cbn [snd]; [by apply (ok_ext (set_sock s1 (c_fd (conn_at p i)) k))|].
  apply ok_rate_account. by apply (ok_ext (set_sock s1 (c_fd (conn_at p i)) k)).
Qed.

Lemma ok_drain fuel : ∀ s, ok s → ok (drain clock wall cfg fuel s).
Proof.
  induction fuel as [|fuel IH]; intros s Hs; cbn [drain]; [done|].
  pose proof (ok_flush_one s Hs) as Hf. destruct (flush_one clock wall cfg s) as [rc s1]. cbn in Hf.
  case_test; [by apply IH|done].
Qed.

Lemma ok_tick s : ok s → ok (tick s).
Proof. by apply ok_ext. Qed.

Lemma ok_force_drain fuel : ∀ s, ok s → ok (force_drain clock wall running cfg fuel s).
Proof.
  induction fuel as [|fuel IH]; intros s Hs; cbn [force_drain]; [done|].
  unfold is_running. case_test; [|done]. pose proof (ok_tick s Hs).
  destruct (running (cs_tick s)); [|done].
  by apply IH, ok_process_ack, ok_drain.
Qed.

(** send_block *)

Lemma ok_push_retry d o h p fuel : ∀ retry s,
  in_s 32 d → 0 ≤ o < 2 ^ 63 → p = block_encoding d o (block_of src d o) → ok s →
  ok (push_retry malloc_ok clock wall running cfg fuel retry s d o h p).2.
Proof.
  induction fuel as [|fuel IH]; intros retry s Hd Ho Hp Hs; cbn [push_retry]; [done|].
  destruct (queue_push _ _ _ _ _ _) as [rc q] eqn:Eq.
  assert (Hq : ok (set_queue s q)).
  { apply ok_queue; [|done]. replace q with (queue_push (malloc_ok (cs_tick s)) (cs_queue s) d o h p).2 by (by rewrite Eq).
    apply entries_push; try done. apply Hs. }
  case_test; [done|]. unfold is_running. apply ok_tick in Hq.
  destruct (running _); cbn [negb]; [|done].
  case_test; apply IH; try done; [|by apply ok_process_ack, ok_drain].
  by apply ok_force_drain, ok_process_ack, ok_drain.
Qed.

(** The reader holds the source's block where [send_block] looks. *)
Definition reads_source (reader : block_reader) (devno disk_offset reader_offset : Z) : Prop :=
  ∀ data, block_reader_read reader reader_offset BLOCK_SIZE = Some data → data ≠ [] →
    in_s 32 devno ∧ 0 ≤ s64 disk_offset ∧ data = block_of src devno (s64 disk_offset).

Lemma ok_send_block s reader devno disk_offset reader_offset :
  reads_source reader devno disk_offset reader_offset → ok s →
  ok (send_block realloc_ok malloc_ok clock wall running cfg s reader devno disk_offset reader_offset).2.
Proof.
  intros Hr Hs. unfold send_block. destruct (block_reader_read _ _ _) as [data|] eqn:Er; [|done].
  specialize (Hr data Er). destruct (Z.eqb_spec (len data) 0) as [|Hlen]; [done|].
  destruct Hr as (Hd & Ho & Hdata); [by intros ->|]. set (off := s64 disk_offset) in *.
  assert (Hoff : 0 ≤ off < 2 ^ 63) by (split; [done|]; pose proof (wrapS_range 64 disk_offset ltac:(lia)) as Hw;
    unfold in_s in Hw; unfold off, s64; lia).
  pose proof (so_len _ src_ok devno off) as Hl. unfold BLOCK_SIZE in Hl.
  destruct (sqlite_block_acked (cs_db s) devno off) as [acked db1] eqn:Ea.
  assert (Hs1 : ok (set_db s db1)).
  { replace db1 with (sqlite_block_acked (cs_db s) devno off).2 by (by rewrite Ea). by apply ok_query. }
  case_test; [done|]. set (s1 := set_db s db1) in *. set (h := hash_block _ _).
  assert (Htail : ∀ s2, ok s2 →
    ok (match msgpack_encode_block realloc_ok (cs_writer s2) devno off data with
        | None => (-1, s2)
        | Some w =>
            let '(ok, s) := push_retry malloc_ok clock wall running cfg PUSH_FUEL 0 (set_writer s2 w) devno off h (wr_data w) in
            if (ok : bool) then
              (0, set_db s (sqlite_block_upsert_v (cs_db s) devno off (len data) h 0 (cs_inc_version s)).2)
            else (-1, s)
        end).2).
  { intros s2 Hs2. destruct (msgpack_encode_block _ _ _ _ _) as [w|] eqn:Ew; [|done].
    pose proof (co_writer _ _ _ _ Hs2) as Hwr. unfold writer_ok, wr_written in Hwr.
    pose proof (len_nonneg (wr_data (cs_writer s2))).
    apply encode_block_data in Ew as [Hw Hwok]; [|lia..|rewrite Hdata, len_block_of by lia; lia].
    pose proof (ok_push_retry devno off h (wr_data w) PUSH_FUEL 0 (set_writer s2 w) Hd Hoff
                  ltac:(by rewrite Hw, Hdata) (ok_writer s2 w Hwok Hs2)) as Hp.
    destruct (push_retry _ _ _ _ _ _ _ _ _ _ _ _) as [done_ s3]. cbn [snd] in Hp.
    destruct done_; [|done]. cbn [snd]. by apply ok_upsert. }
  destruct (cf_tail_send cfg); [|by apply Htail].
  destruct (sqlite_block_lookup (cs_db s1) devno off) as [[rc stored] db2] eqn:El.
  assert (Hs2 : ok (set_db s1 db2)).
  { replace db2 with (sqlite_block_lookup (cs_db s1) devno off).2 by (by rewrite El). by apply ok_query. }
  case_bool_decide; [done|]. by apply Htail.
Qed.

(** Control frames *)

Lemma sent_steadily_app evs d1 out out1 evs1 d2 rc out2 evs2 :
  d1 ≠ [] → sent_steadily client_gives_up evs d1 out 0 out1 evs1 →
  sent_steadily client_gives_up evs1 d2 out1 rc out2 evs2 →
  sent_steadily client_gives_up evs (d1 ++ d2) out rc out2 evs2.
Proof.
  intros Hd1 (_ & H1 & Hst1) (Hst2 & H2 & _). split; [done|]. split.
  - destruct H1 as [[_ ->]|(? & _)]; [|done]. destruct H2 as [[-> ->]|(-> & Hf & sent & rest & -> & -> & Hr)].
    + left. by rewrite <- app_assoc.
    + right. split; [done|]. split; [done|]. exists (d1 ++ sent), rest. by rewrite <- !app_assoc.
  - intros Hall _. by destruct (Hst1 Hall Hd1) as (_ & _ & ?).
Qed.

Lemma sent_steadily_cut evs d1 d2 out out' evs' :
  d1 ≠ [] → sent_steadily client_gives_up evs d1 out (-1) out' evs' →
  sent_steadily client_gives_up evs (d1 ++ d2) out (-1) out' evs'.
Proof.
  intros Hd1 (Hst & H1 & Hall). split; [done|]. split; [|by intros Ha _; apply Hall].
  destruct H1 as [[? _]|(_ & Hf & sent & rest & -> & -> & Hr)]; [done|]. right. split; [done|]. split; [done|].
  exists sent, (rest ++ d2). rewrite app_assoc. split; [done|]. split; [done|]. by destruct rest.
Qed.

Lemma send_control_steady k str n rc k' :
  0 ≤ n < 2 ^ 32 → n ≤ len str → steady client_gives_up (sk_send k) → wire_send_control k str n = (rc, k') →
  sk_in k' = sk_in k ∧ ∃ rc', sent_steadily client_gives_up (sk_send k) (control_frame (ztake n str)) (sk_out k) rc'
                                (sk_out k') (sk_send k').
Proof.
  intros Hn Hl Hst E. unfold wire_send_control in E. unfold control_frame.
  rewrite len_ztake. replace (Z.min _ _) with n by lia. rewrite host_to_be32_id in E by lia.
  assert (Hh : be_bytes 4 n ≠ []) by (intros Hnil; pose proof (length_be_bytes 4 n) as Hb; by rewrite Hnil in Hb).
  destruct (send_all k (be_bytes 4 n)) as [rc1 k1] eqn:E1.
  apply send_all_sock_steady in E1 as [Hin1 Hs1]; [|done].
  destruct (Z.eqb_spec rc1 0) as [->|Hrc]; cbn [negb] in E.
  - destruct (send_all k1 (ztake n str)) as [rc2 k2] eqn:E2.
    apply send_all_sock_steady in E2 as [Hin2 Hs2]; [|apply Hs1].
    assert (k' = k2) as -> by (destruct (negb (rc2 =? 0)); by injection E as <- <-).
    split; [congruence|]. exists rc2. by eapply sent_steadily_app.
  - injection E as <- <-. split; [done|]. exists (-1). apply sent_steadily_cut; [done|].
    destruct Hs1 as (H1 & [[? _]|(-> & H2)] & H3); [done|]. split; [done|]. split; [by right|done].
Qed.

(** The two control frames of the protocol. *)
Definition is_control (str : list Z) (n : Z) : Prop :=
  (str = CTL_INCREMENTAL ∧ n = CTL_INCREMENTAL_LEN) ∨ (str = CTL_END_INCREMENTAL ∧ n = CTL_END_INCREMENTAL_LEN).

Lemma ok_wire_send_control s fd str n :
  is_control str n → ok s → ok (set_sock s fd (wire_send_control (csock s fd) str n).2).
Proof.
  intros Hc Hs. destruct (wire_send_control (csock s fd) str n) as [rc k] eqn:E.
  assert (Hm : ∃ m, frame_of m (control_frame (ztake n str)) ∧ of_source src m).
  { destruct Hc as [[-> ->]|[-> ->]]; eexists; (split; [apply wire_frame_of|]);
      [apply wf_incremental|done|apply wf_end_incremental|done]. }
  destruct Hm as (m & Hf & Hm).
  apply send_control_steady in E as (Hin & rc' & Hsent);
    [|by destruct Hc as [[-> ->]|[-> ->]]|by destruct Hc as [[-> ->]|[-> ->]]|apply Hs].
  cbn [snd]. by eapply ok_sends.
Qed.

End ClientSteps.

(** ** The world *)

Record world := mk_world {
  w_client : cstate;
  w_server : server;
}.

(** The connections: the receiver's socket at the other end of a client's. *)
Record network := mk_net {
  net_link : Z → option Z;
  net_inj : ∀ a a' z, net_link a = Some z → net_link a' = Some z → a = a';
}.

(** A connection the receiver has not accepted yet. *)
Definition waiting (m : session_mgr) (z : Z) : Prop := z ∉ session_fds m ∧ z ∉ sm_closed m.

(** What the receiver has in hand of the bytes sent on [fd]. *)
Definition in_hand (net : network) (sv : server) (fd : Z) (buf pre : list Z) : Prop :=
  ∃ z, net_link net fd = Some z ∧ pre = script_bytes (sk_in (sock_of sv z)) ∧
    ((∃ s, s ∈ g_sessions (sv_mgr sv) ∧ s_fd s = z ∧ buf = s_recv_buf s) ∨ (waiting (sv_mgr sv) z ∧ buf = [])).

Record world_ok `{ZstdOk} (src : source) (net : network) (w : world) : Prop := {
  wo_mgr : mgr_ok (sv_mgr (w_server w));
  wo_linked : ∀ s, s ∈ g_sessions (sv_mgr (w_server w)) → ∃ fd, net_link net fd = Some (s_fd s);
  wo_replica : replica_ok (sv_bw (w_server w));
  wo_answers : ∀ fd, sock_answers src (sv_bw (w_server w)) (sock_of (w_server w) fd);
  wo_client : client_ok src (sv_bw (w_server w)) (in_hand net (w_server w)) (w_client w);
}.

(** Bytes on their way: [rest] is what stays behind. *)
Definition net_up (w : world) (fd z : Z) (rest : list Z) (evs : list recv_ev) : world :=
  let kc := csock (w_client w) fd in
  let sv := w_server w in
  let ks := sock_of sv z in
  mk_world (set_sock (w_client w) fd (mk_sock rest (sk_send kc) (sk_in kc)))
    (mk_server (sv_mgr sv) (sv_bw sv) (<[z := mk_sock (sk_out ks) (sk_send ks) (sk_in ks ++ evs)]> (sv_socks sv))).

Definition net_down (w : world) (fd z : Z) (rest : list Z) (evs : list recv_ev) : world :=
  let kc := csock (w_client w) fd in
  let sv := w_server w in
  let ks := sock_of sv z in
  mk_world (set_sock (w_client w) fd (mk_sock (sk_out kc) (sk_send kc) (sk_in kc ++ evs)))
    (mk_server (sv_mgr sv) (sv_bw sv) (<[z := mk_sock rest (sk_send ks) (sk_in ks)]> (sv_socks sv))).

Section Receiving.
Context `{ZstdOk} (src : source) (src_ok : source_ok src) (net : network) (now : Z).

Lemma client_ok_moves b b' ups ups' c :
  advances src b b' → client_ok src b ups c →
  (∀ fd buf pre, ups' fd buf pre → stream_ok (of_source src) (Forall client_gives_up (sk_send (csock c fd))) buf
     (pre ++ sk_out (csock c fd))) →
  client_ok src b' ups' c.
Proof.
  intros Ha [H1 H2 H3 H4 H5 _] Hu. constructor; try done.
  - intros d o r Hr Hack. destruct Ha as (_ & _ & Hc). by eapply Hc, H3.
  - intros fd. destruct (H5 fd) as (rs & Hh & Hd). exists rs. split; [|done].
    eapply Forall_impl; [exact Hh|]. intros r. by apply honest_advances.
Qed.

Lemma session_remove_elem m fd x : x ∈ g_sessions (session_remove m fd) → x ∈ g_sessions m.
Proof.
  unfold session_remove. destruct (fd_index _ _) as [i|]; [|done]. cbn. intros Hx.
  by eapply list_elem_of_delete_inv.
Qed.

Lemma insert_elem (l : list session_t) i s s' x :
  NoDup (s_fd <$> l) → l !! i = Some s → s_fd s' = s_fd s → x ∈ <[i := s']> l →
  x = s' ∨ (x ∈ l ∧ s_fd x ≠ s_fd s).
Proof.
  intros Hnd Hi Hfd [j Hj]%list_elem_of_lookup. destruct (decide (i = j)) as [<-|Hne].
  - rewrite list_lookup_insert_eq in Hj by (by eapply lookup_lt_Some). left. congruence.
  - rewrite list_lookup_insert_ne in Hj by done. right. split; [by eapply list_elem_of_lookup_2|].
    intros Heq. apply Hne. eapply NoDup_lookup; [exact Hnd| |]; rewrite list_lookup_fmap;
      [by rewrite Hi|by rewrite Hj, <- Heq].
Qed.

Lemma session_remove_waiting m fd z : mgr_ok m → waiting (session_remove m fd) z → waiting m z.
Proof.
  intros Hm [H1 H2]. rewrite session_remove_fds in H1 by done. unfold session_remove in H2.
  destruct (fd_index (g_sessions m) fd) as [i|] eqn:E.
  - cbn in H2. apply not_elem_of_app in H2 as [H2 H3]. split; [|done]. intros Hin. apply H1.
    apply list_elem_of_filter. split; [|done]. intros ->. apply H3. by left.
  - split; [|done]. intros Hin. apply H1, list_elem_of_filter. split; [|done]. intros ->.
    by apply fd_index_None in E.
Qed.

Lemma sock_of_set sv m b z k fd :
  sock_of (mk_server m b (<[z := k]> (sv_socks sv))) fd = if decide (fd = z) then k else sock_of sv fd.
Proof.
  unfold sock_of. cbn. destruct (decide (fd = z)) as [->|Hne]; [by rewrite lookup_insert_eq|by rewrite lookup_insert_ne].
Qed.

(** A session that is dropped. *)
Lemma session_dropped_world c sv fd :
  world_ok src net (mk_world c sv) → mgr_ok (session_remove (sv_mgr sv) fd) →
  world_ok src net (mk_world c (mk_server (session_remove (sv_mgr sv) fd) (sv_bw sv) (sv_socks sv))).
Proof.
  intros [Hm Hl Hr Ha Hc] Hm'. cbn [w_client w_server] in *.
  constructor; cbn [w_client w_server sv_mgr sv_bw]; try done.
  - intros x Hx. by eapply Hl, session_remove_elem.
  - eapply client_ok_moves; [reflexivity|done|]. intros fd' buf pre (z & Hz & -> & Hu). apply Hc.
    exists z. split; [done|]. split; [done|]. destruct Hu as [(x & Hx & Hu)|[Hwait ->]]; [left|right].
    + exists x. split; [by eapply session_remove_elem|done].
    + split; [by eapply session_remove_waiting|done].
Qed.

(** A session's turn. *)
Lemma handle_session_world calloc_ok c sv i :
  world_ok src net (mk_world c sv) →
  world_ok src net (mk_world c (handle_session now calloc_ok sv i)) ∧
  advances src (sv_bw sv) (sv_bw (handle_session now calloc_ok sv i)).
Proof.
  intros [Hm Hl Hr Ha Hc]. cbn [w_client w_server] in *.
  destruct (handle_session_mgr now calloc_ok sv i Hm) as [Hm' _]. unfold handle_session in *.
  destruct (g_sessions (sv_mgr sv) !! i) as [s|] eqn:Hi; [|by split].
  destruct calloc_ok; cbn [negb] in *.
  2: { split; [by apply session_dropped_world|reflexivity]. }
  set (k := sock_of sv (s_fd s)) in *.
  assert (Hs : s ∈ g_sessions (sv_mgr sv)) by (by eapply list_elem_of_lookup_2).
  destruct (Hl s Hs) as [fd0 Hfd0].
  destruct (co_up _ _ _ _ Hc fd0 (s_recv_buf s) (script_bytes (sk_in k))) as (ms & fs & t & HF & HK & Hcat & Hsh & Ht);
    [exists (s_fd s); split; [done|split; [done|left; by exists s]]|].
  rewrite <- app_assoc in Hcat.
  pose proof (recv_loop_stream now (recv_fuel (sk_in k)) (sk_in k) (sv_bw sv, k) s ms fs _ HF Hcat Hsh) as Hloop.
  destruct (recv_loop _ _ _ _ _) as [[[evs [b k']] s'] alive].
  destruct Hloop as (ms1 & ms2 & fs2 & -> & HF2 & Hcat2 & Hsh2 & Hw & Hfd).
  apply Forall_app in HK as [HK1 HK2].
  pose proof (run_msgs_replica src now ms1 (sv_bw sv) k s src_ok HK1 Hr (Ha (s_fd s))) as (R1 & R2 & R3 & R4).
  rewrite <- Hw in R1, R2, R3. cbn [fst snd] in R1, R2, R3.
  set (k2 := mk_sock _ _ evs) in *. set (m1 := if alive then _ else _) in *.
  assert (Helem : ∀ x, x ∈ g_sessions m1 → x = s' ∨ (x ∈ g_sessions (sv_mgr sv) ∧ s_fd x ≠ s_fd s)).
  { intros x Hx. apply (insert_elem (g_sessions (sv_mgr sv)) i); [apply Hm|done|done|].
    unfold m1 in Hx. destruct alive; [exact Hx|]. by apply session_remove_elem in Hx. }
  assert (Hwt : ∀ z, waiting m1 z → waiting (sv_mgr sv) z).
  { intros z Hz. set (m0 := mk_mgr (<[i := s']> (g_sessions (sv_mgr sv))) (sm_closed (sv_mgr sv))) in *.
    assert (Hfds : session_fds m0 = session_fds (sv_mgr sv)) by (by eapply session_fds_insert).
    assert (Hz0 : waiting m0 z).
    { unfold m1 in Hz. destruct alive; [done|]. eapply session_remove_waiting; [|exact Hz].
      apply (session_update_ok _ i s); [done..|]. unfold recv_len.
      pose proof (short_of_bound _ _ _ HF2 Hsh2). lia. }
    split; [by rewrite <- Hfds; apply Hz0|apply Hz0]. }
  split; [|exact R2]. constructor; cbn [w_client w_server sv_mgr sv_bw]; try done.
  - intros x Hx. destruct (Helem x Hx) as [->|[Hx' _]]; [rewrite Hfd; eauto|by apply Hl].
  - intros fd. rewrite sock_of_set. case_decide; [exact R3|]. destruct (Ha fd) as [A1 A2]. split; [done|].
    by eapply answers_advances.
  - eapply client_ok_moves; [exact R2|done|]. intros fd buf pre (z & Hz & -> & Hu). rewrite sock_of_set.
    cbn [sv_mgr] in Hu. destruct Hu as [(x & Hx & <- & ->)|[Hwait ->]].
    + destruct (Helem x Hx) as [->|[Hx' Hne]].
      * rewrite Hfd in Hz |- *. rewrite decide_True by done. cbn [sk_in].
        assert (fd = fd0) as -> by (eapply (net_inj net); [exact Hz|exact Hfd0]).
        exists ms2, fs2, t. split; [done|]. split; [done|]. split; [by rewrite <- app_assoc|]. done.
      * rewrite decide_False by done. apply Hc. exists (s_fd x). split; [done|]. split; [done|]. left. by exists x.
    + assert (Hwait' : waiting (sv_mgr sv) z) by (by apply Hwt).
      rewrite decide_False; [|intros ->; by apply (proj1 Hwait'), list_elem_of_fmap_2].
      apply Hc. exists z. split; [done|]. split; [done|]. by right.
Qed.

(** What [accept] hands out: a connection that has been made and was not
    accepted before, with what has arrived on it. *)
Definition accept_ok (sv : server) (ev : select_ev) : Prop :=
  match ev with
  | SelectReady _ (Some (z, _, k)) =>
      waiting (sv_mgr sv) z ∧ (∃ fd, net_link net fd = Some z) ∧ k = sock_of sv z
  | _ => True
  end.

Lemma same_socks_world c sv sv' :
  sv_bw sv' = sv_bw sv → (∀ fd, sock_of sv' fd = sock_of sv fd) → mgr_ok (sv_mgr sv') →
  (∀ s, s ∈ g_sessions (sv_mgr sv') → s ∈ g_sessions (sv_mgr sv) ∨
     (waiting (sv_mgr sv) (s_fd s) ∧ (∃ fd, net_link net fd = Some (s_fd s)) ∧ s_recv_buf s = [])) →
  (∀ z, waiting (sv_mgr sv') z → waiting (sv_mgr sv) z) →
  world_ok src net (mk_world c sv) → world_ok src net (mk_world c sv').
Proof.
  intros Hb Hk Hm' Hs Hw [Hm Hl Hr Ha Hc]. cbn [w_client w_server] in *.
  constructor; cbn [w_client w_server]; rewrite ?Hb; try done.
  - intros s Hin. destruct (Hs s Hin) as [|(_ & ? & _)]; [by apply Hl|done].
  - intros fd. rewrite Hk. apply Ha.
  - eapply client_ok_moves; [reflexivity|done|]. intros fd buf pre (z & Hz & -> & Hu). rewrite Hk.
    apply Hc. exists z. split; [done|]. split; [done|]. destruct Hu as [(s & Hin & <- & ->)|[Hwait ->]]; [|right; auto].
    destruct (Hs s Hin) as [|(Hwait & _ & ->)]; [left; by exists s|by right].
Qed.

(** The part of a turn in which a connection is accepted. *)
Lemma accept_world c sv z addr k calloc_ok maxc :
  (waiting (sv_mgr sv) z ∧ (∃ fd, net_link net fd = Some z) ∧ k = sock_of sv z) →
  world_ok src net (mk_world c sv) →
  let refused m := mk_server (mk_mgr (g_sessions m) (sm_closed m ++ [z])) (sv_bw sv) (sv_socks sv) in
  world_ok src net (mk_world c
    (if maxc <=? session_count (sv_mgr sv) then refused (sv_mgr sv)
     else match session_create calloc_ok now (sv_mgr sv) z addr with
          | (None, m) => refused m
          | (Some _, m) => mk_server m (sv_bw sv) (<[z := k]> (sv_socks sv))
          end)).
Proof.
  intros (Hwait & Hfd & ->) Hw. cbv zeta.
  assert (Href : world_ok src net (mk_world c
    (mk_server (mk_mgr (g_sessions (sv_mgr sv)) (sm_closed (sv_mgr sv) ++ [z])) (sv_bw sv) (sv_socks sv)))).
  { apply (same_socks_world c sv); try done; [|by left|].
    - destruct (wo_mgr _ _ _ Hw). by constructor.
    - intros z' [H1 H2]. split; [done|]. cbn in H2. by apply not_elem_of_app in H2 as [? _]. }
  case_test; [done|].
  pose proof (session_create_ok calloc_ok now (sv_mgr sv) z addr (wo_mgr _ _ _ Hw) (proj1 Hwait)) as Hm.
  unfold session_create in *. repeat case_test; [done|done|].
  apply (same_socks_world c sv); try done; cbn [sv_mgr g_sessions sm_closed].
  - intros fd. unfold sock_of. cbn. destruct (decide (z = fd)) as [<-|Hne];
      [by rewrite lookup_insert_eq|by rewrite lookup_insert_ne].
  - intros s [Hin| ->%list_elem_of_singleton]%elem_of_app; [by left|right]. done.
  - intros z' [H1 H2]. split; [|done]. unfold session_fds in *. cbn in H1. rewrite fmap_app in H1.
    by apply not_elem_of_app in H1 as [? _].
Qed.

(** A turn of the main loop. *)
Lemma server_iter_world c sv listen_fd scfg calloc_ok ev :
  accept_ok sv ev → world_ok src net (mk_world c sv) →
  world_ok src net (mk_world c (server_iter now listen_fd scfg calloc_ok sv ev).1).
Proof.
  intros Hacc Hw. unfold server_iter. destruct ev as [| |ready accepted]; [done|done|].
  set (fds := filter _ _). set (sv1 := if bool_decide _ then _ else sv).
  assert (Hw1 : world_ok src net (mk_world c sv1)).
  { unfold sv1. destruct (bool_decide _); [|done]. destruct accepted as [[[z addr] k]|]; [|done].
    by apply accept_world. }
  pose proof (foreach_loop_inv (handle_active_cb now calloc_ok fds)
    (λ m r, world_ok src net (mk_world c (mk_server m r.1 r.2))) (Z.to_nat MAX_SESSIONS) 0 (sv_mgr sv1)
    (sv_bw sv1, sv_socks sv1)) as Hloop.
  unfold session_foreach. destruct (foreach_loop _ _ _ _ _) as [m [b socks]]. cbn [fst snd] in *.
  apply Hloop; [|by destruct sv1].
  intros m1 [b1 k1] i Hw2 _. unfold handle_active_cb. destruct (g_sessions m1 !! i); [|done].
  case_test; [|done]. destruct (handle_session_world calloc_ok c (mk_server m1 b1 k1) i Hw2) as [Hx _].
  cbn [fst snd]. by destruct (handle_session now calloc_ok (mk_server m1 b1 k1) i).
Qed.

(** The network. *)

Lemma script_bytes_app e1 e2 : script_bytes (e1 ++ e2) = script_bytes e1 ++ script_bytes e2.
Proof. induction e1 as [|[bs| |] e1 IH]; cbn; [done|by rewrite IH, app_assoc|done|done]. Qed.

(** Bytes of the client arrive, in pieces and with pauses as the network likes;
    the connection may also end. *)
Lemma up_world c sv fd z bs rest evs :
  net_link net fd = Some z → sk_out (csock c fd) = bs ++ rest → script_bytes evs = bs →
  world_ok src net (mk_world c sv) → world_ok src net (net_up (mk_world c sv) fd z rest evs).
Proof.
  intros Hz Hout Hevs [Hm Hl Hr Ha Hc]. unfold net_up. cbn [w_client w_server] in *. cbv zeta.
  constructor; cbn [w_client w_server sv_mgr sv_bw]; try done.
  - intros fd'. rewrite sock_of_set. case_decide; [subst|]; apply Ha.
  - destruct Hc as [H1 H2 H3 H4 H5 H6].
    constructor; try done; intros fd'; (destruct (decide (fd = fd')) as [<-|Hne];
      [rewrite csock_set; cbn [sk_send sk_in]|rewrite csock_set_ne by done]); try exact (H4 _); try exact (H5 _).
    + intros buf pre (z' & Hz' & -> & Hu). replace z' with z in * by congruence. rewrite sock_of_set, decide_True by done.
      cbn [sk_in sk_out sk_send]. rewrite script_bytes_app, Hevs. apply stream_moves.
      rewrite <- Hout. apply H6. by exists z.
    + intros buf pre (z' & Hz' & -> & Hu). rewrite sock_of_set, decide_False.
      * apply H6. by exists z'.
      * intros ->. apply Hne. by eapply (net_inj net).
Qed.

Lemma delivers_trans e1 b1 e2 b2 : delivers e1 b1 [] → delivers e2 b2 [] → delivers (e1 ++ e2) (b1 ++ b2) [].
Proof.
  intros Hd. remember (@nil recv_ev) as r eqn:Er. revert Er.
  induction Hd as [rest|ps bs evs rest Hps Hd IH]; intros ->; [done|]. intros H2.
  cbn [app]. rewrite <- app_assoc. constructor; [done|]. by apply IH.
Qed.

(** Whole responses at the front of a socket. *)
Lemma whole_responses (P : server_response_t → Prop) rs : ∀ bs rest,
  Forall P rs → bs ++ rest = concat (response_bytes <$> rs) → (SERVER_RESPONSE_SIZE | len bs) →
  ∃ rs1 rs2, Forall P rs1 ∧ Forall P rs2 ∧ bs = concat (response_bytes <$> rs1) ∧ rest = concat (response_bytes <$> rs2).
Proof.
  induction rs as [|r rs IH]; intros bs rest HF Hcat Hlen.
  - cbn in Hcat. apply app_eq_nil in Hcat as [-> ->]. by exists [], [].
  - destruct bs as [|x bs].
    { exists [], (r :: rs). by repeat split. }
    apply Forall_cons in HF as [Hr HF].
    assert (H20 : SERVER_RESPONSE_SIZE ≤ len (x :: bs)).
    { apply Z.divide_pos_le; [|done]. rewrite len_cons. pose proof (len_nonneg bs). lia. }
    destruct (IH (zdrop SERVER_RESPONSE_SIZE (x :: bs)) rest) as (rs1 & rs2 & H1 & H2 & H3 & H4); [done| | |].
    + cbn [fmap list_fmap concat] in Hcat. rewrite <- (zdrop_app_le SERVER_RESPONSE_SIZE) by done.
      rewrite Hcat. apply zdrop_app_exact. by rewrite len_response_bytes.
    + rewrite len_zdrop. replace (Z.max 0 _) with (len (x :: bs) - SERVER_RESPONSE_SIZE) by (unfold SERVER_RESPONSE_SIZE in *; lia).
      apply Z.divide_sub_r; [done|reflexivity].
    + exists (r :: rs1), rs2. split; [by constructor|]. split; [done|]. split; [|done].
      cbn [fmap list_fmap concat]. rewrite <- H3. rewrite <- (ztake_zdrop SERVER_RESPONSE_SIZE (x :: bs)) at 1. f_equal.
      cbn [fmap list_fmap concat] in Hcat. rewrite <- (ztake_app_le SERVER_RESPONSE_SIZE _ rest) by done.
      rewrite Hcat. apply ztake_app_exact. by rewrite len_response_bytes.
Qed.

(** Whole responses of the receiver arrive. *)
Lemma down_world c sv fd z bs rest evs :
  net_link net fd = Some z → sk_out (sock_of sv z) = bs ++ rest → (SERVER_RESPONSE_SIZE | len bs) →
  delivers evs bs [] →
  world_ok src net (mk_world c sv) → world_ok src net (net_down (mk_world c sv) fd z rest evs).
Proof.
  intros Hz Hout Hlen Hevs [Hm Hl Hr Ha Hc]. unfold net_down. cbn [w_client w_server] in *. cbv zeta.
  destruct (Ha z) as [Hst (rs & t & Hh & Hcat & Ht)]. rewrite Hout, <- app_assoc in Hcat.
  destruct (whole_responses _ rs bs (rest ++ t) Hh Hcat Hlen) as (rs1 & rs2 & Hh1 & Hh2 & Hbs & Hrest).
  constructor; cbn [w_client w_server sv_mgr sv_bw]; try done.
  - intros fd'. rewrite sock_of_set. case_decide; [subst|apply Ha]. split; [done|]. by exists rs2, t.
  - destruct Hc as [H1 H2 H3 H4 H5 H6].
    constructor; try done; intros fd'; (destruct (decide (fd = fd')) as [<-|Hne];
      [rewrite csock_set; cbn [sk_send sk_in]|rewrite csock_set_ne by done]); try exact (H4 _); try exact (H5 _).
    + destruct (H5 fd) as (rs0 & Hh0 & Hd0). exists (rs0 ++ rs1). split; [by apply Forall_app|].
      rewrite fmap_app, concat_app, <- Hbs. by apply delivers_trans.
    + intros buf pre (z' & Hz' & -> & Hu). rewrite sock_of_set. apply H6. exists z'. split; [done|].
      split; [by case_decide; subst|done].
    + intros buf pre (z' & Hz' & -> & Hu). rewrite sock_of_set. apply H6. exists z'. split; [done|].
      split; [by case_decide; subst|done].
Qed.

End Receiving.

(** ** The transition system *)

(** The receiver's main loop and the network: what moves besides the client. *)
Inductive env_step `{Zstd} (net : network) : world → world → Prop :=
  | env_turn now listen_fd scfg calloc_ok c sv ev :
      accept_ok net sv ev →
      env_step net (mk_world c sv) (mk_world c (server_iter now listen_fd scfg calloc_ok sv ev).1)
  | env_up w fd z bs rest evs :
      net_link net fd = Some z → sk_out (csock (w_client w) fd) = bs ++ rest → script_bytes evs = bs →
      env_step net w (net_up w fd z rest evs)
  | env_down w fd z bs rest evs :
      net_link net fd = Some z → sk_out (sock_of (w_server w) z) = bs ++ rest →
      (SERVER_RESPONSE_SIZE | len bs) → delivers evs bs [] →
      env_step net w (net_down w fd z rest evs).

Section Steps.
Context `{ZstdOk} (src : source) (net : network) (cfg : config).

Inductive sys_step : world → world → Prop :=
  (* the client: main.c *)
  | sys_send_block realloc_ok malloc_ok clock wall running c sv reader devno disk_offset reader_offset :
      reads_source src reader devno disk_offset reader_offset →
      sys_step (mk_world c sv)
        (mk_world (send_block realloc_ok malloc_ok clock wall running cfg c reader devno disk_offset reader_offset).2 sv)
  | sys_push malloc_ok c sv d o h :
      in_s 32 d → 0 ≤ o < 2 ^ 63 →
      sys_step (mk_world c sv)
        (mk_world (set_queue c (queue_push malloc_ok (cs_queue c) d o h (block_encoding d o (block_of src d o))).2) sv)
  | sys_record c sv d o n h v :
      sys_step (mk_world c sv) (mk_world (set_db c (sqlite_block_upsert_v (cs_db c) d o n h 0 v).2) sv)
  | sys_flush clock wall c sv :
      sys_step (mk_world c sv) (mk_world (flush_one clock wall cfg c).2 sv)
  | sys_ack c sv :
      sys_step (mk_world c sv) (mk_world (process_ack cfg c) sv)
  | sys_control c sv fd str n :
      is_control str n →
      sys_step (mk_world c sv) (mk_world (set_sock c fd (wire_send_control (csock c fd) str n).2) sv)
  | sys_encode c sv w :
      writer_ok w →
      sys_step (mk_world c sv) (mk_world (set_writer c w) sv)
  | sys_other c c' sv :
      cs_queue c' = cs_queue c → cs_writer c' = cs_writer c → t_block (cs_db c') = t_block (cs_db c) →
      cs_socks c' = cs_socks c →
      sys_step (mk_world c sv) (mk_world c' sv)
  (* the receiver: main.c; the network *)
  | sys_env w w' :
      env_step net w w' → sys_step w w'.

(** Before anything has been sent: no block is queued; the rows that an earlier
    run left acknowledged name blocks that are there. *)
Record initial (w : world) : Prop := {
  in_queue : Forall (λ e, qe_payload e = None) (q_entries (cs_queue (w_client w)));
  in_writer : writer_ok (cs_writer (w_client w));
  in_rows : ∀ d o r, t_block (cs_db (w_client w)) !! (d, o) = Some r → r_ack r ≠ 0 →
              copied src (sv_bw (w_server w)) d o;
  in_csocks : map_Forall (λ _ k, sk_out k = [] ∧ sk_in k = [] ∧ steady client_gives_up (sk_send k))
                (cs_socks (w_client w));
  in_mgr : mgr_ok (sv_mgr (w_server w));
  in_sessions : Forall (λ s, s_recv_buf s = [] ∧ ∃ fd, net_link net fd = Some (s_fd s)) (g_sessions (sv_mgr (w_server w)));
  in_replica : replica_ok (sv_bw (w_server w));
  in_ssocks : map_Forall (λ _ k, sk_out k = [] ∧ script_bytes (sk_in k) = [] ∧ steady server_gives_up (sk_send k))
                (sv_socks (w_server w));
}.

Lemma initial_csock c fd :
  map_Forall (λ _ k, sk_out k = [] ∧ sk_in k = [] ∧ steady client_gives_up (sk_send k)) (cs_socks c) →
  sk_out (csock c fd) = [] ∧ sk_in (csock c fd) = [] ∧ steady client_gives_up (sk_send (csock c fd)).
Proof. intros Hc. unfold csock. destruct (cs_socks c !! fd) as [k|] eqn:E; [by apply (Hc fd)|done]. Qed.

Lemma initial_ssock sv fd :
  map_Forall (λ _ k, sk_out k = [] ∧ script_bytes (sk_in k) = [] ∧ steady server_gives_up (sk_send k)) (sv_socks sv) →
  sk_out (sock_of sv fd) = [] ∧ script_bytes (sk_in (sock_of sv fd)) = [] ∧
  steady server_gives_up (sk_send (sock_of sv fd)).
Proof. intros Hc. unfold sock_of. destruct (sv_socks sv !! fd) as [k|] eqn:E; [by apply (Hc fd)|done]. Qed.

Lemma initial_world w : initial w → world_ok src net w.
Proof.
  intros [H1 H2 H3 H4 H5 H6 H7 H8]. constructor; [done| |done| |].
  - intros s Hs. rewrite Forall_forall in H6. by apply H6.
  - intros fd. destruct (initial_ssock (w_server w) fd H8) as (E1 & _ & E2). split; [done|].
    exists [], []. rewrite E1. auto.
  - constructor; [|done|..].
    + eapply Forall_impl; [exact H1|]. intros e He p. by rewrite He.
    + exact H3.
    + intros fd. apply (initial_csock _ fd H4).
    + intros fd. exists []. split; [constructor|]. destruct (initial_csock (w_client w) fd H4) as (_ & -> & _). constructor.
    + intros fd buf pre (z & Hz & -> & Hu). destruct (initial_csock (w_client w) fd H4) as (-> & _).
      destruct (initial_ssock (w_server w) z H8) as (_ & -> & _).
      assert (buf = []) as ->; [|apply stream_empty].
      destruct Hu as [(s & Hs & _ & ->)|[_ ->]]; [|done]. rewrite Forall_forall in H6. by apply H6.
Qed.

Lemma env_step_ok w w' : source_ok src → env_step net w w' → world_ok src net w → world_ok src net w'.
Proof.
  intros Hs. destruct 1 as [now listen_fd scfg calloc_ok c sv ev Ha|[c sv]|[c sv]].
  - by apply server_iter_world.
  - by eapply up_world.
  - by eapply down_world.
Qed.

Lemma sys_step_ok w w' :
  source_ok src → cf_dry_run cfg = false → sys_step w w' → world_ok src net w → world_ok src net w'.
Proof.
  intros Hs Hreal Hstep Hw.
  assert (Hclient : ∀ c c' sv, (client_ok src (sv_bw sv) (in_hand net sv) c → client_ok src (sv_bw sv) (in_hand net sv) c') →
            world_ok src net (mk_world c sv) → world_ok src net (mk_world c' sv)).
  { intros c c' sv Hc [W1 W2 W3 W4 W5]. by constructor; [..|apply Hc]. }
  destruct Hstep; revert Hw; try (apply Hclient; intros Hc).
  - by apply ok_send_block.
  - apply ok_queue; [|done]. apply entries_push; try done. apply Hc.
  - by apply ok_upsert.
  - by apply ok_flush_one.
  - by apply ok_process_ack.
  - by eapply ok_wire_send_control.
  - by apply ok_writer.
  - by apply (ok_ext src _ _ c).
  - by apply env_step_ok.
Qed.

Lemma reachable_ok w w' :
  source_ok src → cf_dry_run cfg = false → rtc sys_step w w' → world_ok src net w → world_ok src net w'.
Proof. intros Hs Hreal. induction 1 as [|w1 w2 w3 Hstep _ IH]; [done|]. intros Hw. by eapply IH, sys_step_ok. Qed.

End Steps.

(** ** Properties *)

(** C2 (acked_is_stored): a client copies a source (every block it reads or
    queues is the source's) to a receiver over any number of connections, from a
    clean start, by the operations of a transfer: it queues and records blocks,
    flushes, reads answers and sends control frames.  In whatever order these, the
    receiver's turns and the network's deliveries come (with sends that break off
    in the middle of a frame and stay broken, short and failing writes, sessions
    that end or cannot be allocated, failing tracker operations, any cutting of the
    stream to the receiver), a row of the tracker that is acknowledged names a
    block whose every byte is on the receiver's disk.  Three things are assumed.
    A connection on which a send has failed keeps failing, since neither side
    closes it ([initial]; [torn_frame_acknowledged] shows what happens otherwise).
    What arrives at the client between two of its reads are whole responses, since
    it drops a part of one ([env_down]; [recv_ack_loses_partial]).  And no incremental round and no incsync
    runs: they acknowledge a row without an answer of the receiver
    ([incsync_confirms_lost_block]). *)
Theorem acked_is_stored `{ZstdOk} src net cfg w w' :
  source_ok src → cf_dry_run cfg = false → initial src net w → rtc (sys_step src net cfg) w w' →
  ∀ d o r, t_block (cs_db (w_client w')) !! (d, o) = Some r → r_ack r ≠ 0 →
    copied src (sv_bw (w_server w')) d o.
Proof.
  intros Hs Hreal Hi Hr d o r. apply (co_rows _ _ _ _ (wo_client _ _ _ (reachable_ok src net cfg w w' Hs Hreal Hr (initial_world src net w Hi)))).
Qed.

(** Seven connections, two queued blocks of a source. *)
Definition fleet_source : source :=
  mk_source (λ _ x, if (4096 <=? x) && (x <? 4099) then x - 4089
                    else if (8192 <=? x) && (x <? 8194) then x - 8191 else 0)
            (λ _ o, if o =? 4096 then 3 else if o =? 8192 then 2 else 0).

Lemma fleet_source_ok : source_ok fleet_source.
Proof. split; intros d o; cbn; unfold byte_ok, BLOCK_SIZE; repeat case_test; lia. Qed.

Lemma fleet_inj a a' z : Some (a + 20) = Some z → Some (a' + 20) = Some z → a = a'.
Proof. intros [= <-] [= ?]. lia. Qed.

Definition fleet_net : network := mk_net (λ fd, Some (fd + 20)) fleet_inj.

Definition fleet_start : cstate :=
  set_queue (with_socks (set_pool (demo_cs ((λ b, (b.1, mk_row (len b.2) 9 0 0 0 [7])) <$> fleet_bs) []) fleet_pool)
    (list_to_map ((λ fd, (fd, mk_sock [] (replicate 200 (SendRoom 2)) [])) <$> fleet_fds))) (queue_init true).2.

Definition fleet_w0 : world := mk_world fleet_start (fleet_server fleet_start).

(** Both blocks queued and flushed, everything delivered, one turn, everything
    delivered back, the answers read. *)
Definition fleet_push (w : world) (d o : Z) : world :=
  mk_world (set_queue (w_client w)
    (queue_push true (cs_queue (w_client w)) d o 9 (block_encoding d o (block_of fleet_source d o))).2) (w_server w).
Definition fleet_flush_once (w : world) : world :=
  mk_world (flush_one (H := stored_zstd) midnight midnight demo_cfg (w_client w)).2 (w_server w).
Definition fleet_up (w : world) (fd : Z) : world :=
  net_up w fd (fd + 20) [] (arrived (sk_out (csock (w_client w) fd))).
Definition fleet_turn (w : world) : world :=
  mk_world (w_client w) (server_iter (H := stored_zstd) 77 3 default_config true (w_server w)
    (SelectReady {[25; 26]} None)).1.
Definition fleet_down (w : world) (fd : Z) : world :=
  net_down w fd (fd + 20) [] (arrived (sk_out (sock_of (w_server w) (fd + 20)))).
Definition fleet_collect (w : world) : world := mk_world (process_ack demo_cfg (w_client w)) (w_server w).

Definition fleet_w1 : world :=
  fleet_up (fleet_up (fleet_flush_once (fleet_flush_once (fleet_push (fleet_push fleet_w0 1 4096) 1 8192))) 5) 6.
Definition fleet_w2 : world := fleet_turn fleet_w1.
Definition fleet_end : world := fleet_collect (fleet_down (fleet_down fleet_w2 5) 6).

Lemma steady_rooms fails n r : (¬ fails (SendRoom r)) → steady fails (replicate n (SendRoom r)).
Proof. intros Hn. by induction n as [|n IH]. Qed.

Lemma fleet_map_Forall (P : sock → Prop) (key : Z → Z) (f : Z → sock) :
  (∀ fd, P (f fd)) → map_Forall (λ _ k, P k) (list_to_map ((λ fd, (key fd, f fd)) <$> fleet_fds) : gmap Z sock).
Proof.
  intros HP z k Hk%elem_of_list_to_map_2. apply list_elem_of_fmap in Hk as (fd & [= -> ->] & _). apply HP.
Qed.

Lemma fleet_csocks :
  map_Forall (λ _ k, sk_out k = [] ∧ sk_in k = [] ∧ steady client_gives_up (sk_send k)) (cs_socks fleet_start).
Proof. apply (fleet_map_Forall _ id). intros fd. split; [done|]. split; [done|]. apply steady_rooms. cbn. lia. Qed.

Lemma fleet_initial : initial fleet_source fleet_net fleet_w0.
Proof.
  constructor.
  - by apply Forall_forall; intros e [-> _]%elem_of_replicate.
  - vm_compute. split; discriminate.
  - intros d o r Hr Ha. destruct Ha. cbn in Hr.
    apply lookup_insert_Some in Hr as [[_ <-]|[_ Hr]]; [done|]. by apply lookup_insert_Some in Hr as [[_ <-]|[_ Hr]].
  - apply fleet_csocks.
  - constructor; [vm_compute; discriminate|by apply (bool_decide_unpack _)|].
    apply Forall_fmap, Forall_forall. intros fd _. vm_compute. discriminate.
  - apply Forall_fmap, Forall_forall. intros fd _. split; [done|]. by exists fd.
  - pose proof demo_srv_ok as [H1 H2 _ H3]. constructor; [done|done|done|].
    intros j Hj Hreg Hfd. assert (Hcase : j = 0 ∨ j = 1).
    { unfold disk_at in Hfd. destruct (decide (j = 0)); [by left|]. destruct (decide (j = 1)); [by right|]. exfalso.
      unfold registered, disk_at in Hreg. unfold MAX_TARGET_DISKS in Hj. apply Hreg. cbn [sv_bw w_server fleet_w0].
      change (g_disks _) with (mk_disk 5 [97] 1 :: mk_disk 6 [98] 1 :: replicate 14 (mk_disk (-1) [] 0)).
      replace (Z.to_nat j) with (S (S (Z.to_nat (j - 2)))) by lia. cbn [nth]. by rewrite nth_lookup, lookup_replicate_2 by lia. }
    destruct Hcase as [->| ->]; by eexists.
  - apply (fleet_map_Forall _ (λ fd, fd + 20)). intros fd. split; [done|]. split; [|apply steady_rooms; cbn; tauto].
    cbn [sk_in]. rewrite (proj2 (arrived_data _)). apply (initial_csock fleet_start fd fleet_csocks).
Qed.

(** Each of them is a step of the system. *)
Notation fleet_step := (sys_step (Z1 := stored_zstd) fleet_source fleet_net demo_cfg).

Lemma step_push w d o : in_s 32 d → 0 ≤ o < 2 ^ 63 → fleet_step w (fleet_push w d o).
Proof. destruct w. apply sys_push. Qed.

Lemma step_flush w : fleet_step w (fleet_flush_once w).
Proof. destruct w. apply sys_flush. Qed.

Lemma move_up w fd : env_step fleet_net w (fleet_up w fd).
Proof. apply (env_up fleet_net w fd (fd + 20) _ [] _ eq_refl (eq_sym (app_nil_r _))), arrived_data. Qed.

Lemma move_turn w : env_step (H := stored_zstd) fleet_net w (fleet_turn w).
Proof. destruct w as [c sv]. by apply (env_turn _ 77 3 default_config true c sv (SelectReady {[25; 26]} None)). Qed.

Lemma move_down w fd :
  (SERVER_RESPONSE_SIZE | len (sk_out (sock_of (w_server w) (fd + 20)))) → env_step fleet_net w (fleet_down w fd).
Proof.
  intros Hl. apply (env_down fleet_net w fd (fd + 20) _ [] _ eq_refl (eq_sym (app_nil_r _)) Hl), arrived_delivers.
Qed.

Lemma step_up w fd : fleet_step w (fleet_up w fd).
Proof. apply sys_env, move_up. Qed.

Lemma step_turn w : fleet_step w (fleet_turn w).
Proof. apply sys_env, move_turn. Qed.

Lemma step_down w fd : (SERVER_RESPONSE_SIZE | len (sk_out (sock_of (w_server w) (fd + 20)))) → fleet_step w (fleet_down w fd).
Proof. intros Hl. by apply sys_env, move_down. Qed.

Lemma step_collect w : fleet_step w (fleet_collect w).
Proof. destruct w. apply sys_ack. Qed.

Lemma fleet_reach : rtc fleet_step fleet_w0 fleet_end.
Proof.
  eapply rtc_l; [by apply (step_push _ 1 4096)|]. eapply rtc_l; [by apply (step_push _ 1 8192)|].
  eapply rtc_l; [apply step_flush|]. eapply rtc_l; [apply step_flush|].
  eapply rtc_l; [apply (step_up _ 5)|]. eapply rtc_l; [apply (step_up _ 6)|].
  eapply rtc_l; [apply step_turn|].
  eapply rtc_l; [apply (step_down _ 5); exists 1; vm_compute; reflexivity|].
  eapply rtc_l; [apply (step_down _ 6); exists 1; vm_compute; reflexivity|].
  apply rtc_once, step_collect.
Qed.

Lemma fleet_row : t_block (cs_db (w_client fleet_end)) !! (1, 4096) = Some (mk_row 3 9 1 0 0 [7]).
Proof. vm_compute. reflexivity. Qed.

Lemma acked_is_stored_witness :
  rtc fleet_step fleet_w0 fleet_end ∧
  t_block (cs_db (w_client fleet_end)) !! (1, 4096) = Some (mk_row 3 9 1 0 0 [7]) ∧
  copied fleet_source (sv_bw (w_server fleet_end)) 1 4096.
Proof.
  split; [exact fleet_reach|]. split; [exact fleet_row|].
  apply (acked_is_stored fleet_source fleet_net demo_cfg fleet_w0 fleet_end fleet_source_ok eq_refl
           fleet_initial fleet_reach 1 4096 _ fleet_row).
  discriminate.
Defined.

(** Two blocks on one connection whose first send is interrupted after 25 of the
    frame's 27 bytes; what [k] is for a connection that stays as it is. *)
Definition torn_pool : socket_pool := mk_pool ((λ fd, demo_conn fd (if fd =? 5 then 0 else 1) 100) <$> fleet_fds) 7 0 [] [].

Definition torn_w0 (k : sock) : world :=
  mk_world (set_sock (set_pool fleet_start torn_pool) 5 k) (fleet_server fleet_start).

Definition torn_w1 : world :=
  fleet_flush_once (fleet_flush_once (fleet_push (fleet_push (torn_w0 (mk_sock [] [SendRoom 25; SendIntr; SendRoom 100] []))
    1 4096) 1 8192)).
Definition torn_w2 : world := fleet_turn (fleet_up torn_w1 5).
Definition torn_end : world := fleet_collect (fleet_down torn_w2 5).

(** C34 (torn_frame_acknowledged): that a connection whose send has failed keeps
    failing is needed, and the code does not see to it.  Here one send of a block
    is interrupted in the middle of its frame: [send_all] gives up, [flush_one]
    returns the connection to the pool as it is, and the next block's frame is
    sent on it.  The receiver completes the first frame with the first bytes of
    the second, stores the result, which is not the source's, and acknowledges
    it: the row of the block ends up acknowledged, its bytes on the disk wrong.
    With the connection's sends in order, the same world is a clean start. *)
Theorem torn_frame_acknowledged :
  (∀ k, sk_out k = [] → sk_in k = [] → steady client_gives_up (sk_send k) →
     initial fleet_source fleet_net (torn_w0 k)) ∧
  rtc fleet_step (torn_w0 (mk_sock [] [SendRoom 25; SendIntr; SendRoom 100] [])) torn_end ∧
  (∃ r, t_block (cs_db (w_client torn_end)) !! (1, 4096) = Some r ∧ r_ack r = 1) ∧
  ¬ copied fleet_source (sv_bw (w_server torn_end)) 1 4096.
Proof.
  split; [|split; [|split]].
  - intros k H1 H2 H3. destruct fleet_initial as [I1 I2 I3 I4 I5 I6 I7 I8]. constructor; try done.
    intros fd k' Hk. unfold torn_w0 in Hk. cbn in Hk. apply lookup_insert_Some in Hk as [[_ <-]|[_ Hk]]; [done|].
    by apply (I4 fd).
  - eapply rtc_l; [by apply (step_push _ 1 4096)|]. eapply rtc_l; [by apply (step_push _ 1 8192)|].
    eapply rtc_l; [apply step_flush|]. eapply rtc_l; [apply step_flush|].
    eapply rtc_l; [apply (step_up _ 5)|]. eapply rtc_l; [apply step_turn|].
    eapply rtc_l; [apply (step_down _ 5); exists 1; vm_compute; reflexivity|].
    apply rtc_once, step_collect.
  - eexists. split; vm_compute; reflexivity.
  - intros [_ Hc]. specialize (Hc 4097 ltac:(cbn; lia)). vm_compute in Hc. discriminate Hc.
Qed.
