(* ===== verification/Interleave.v ===== *)
(** * Programs among moving surroundings

    A program of Prog.v run while the receiver and the network move: before each
    of its operations, and after the last, any number of their steps may happen.
    Triples over such runs, whose assertions are about the world (the client's
    state and the receiver) and hold whatever the surroundings do. *)

From S2P Require Import Prelude Net Zstd Server Client Migrate Prog System.

(** The run's state and the receiver. *)
Definition scene : Type := mstate * server.

Definition world_of (w : scene) : world := mk_world (ms_c w.1) w.2.

Section Interleaved.
Context `{Zstd} (net : network).

(** The surroundings move: the client's state changes at its sockets only. *)
Definition env_moves (w w' : scene) : Prop :=
  ∃ c, w'.1 = with_c w.1 c ∧ rtc (env_step net) (world_of w) (mk_world c w'.2).

#[export] Instance env_moves_preorder : PreOrder env_moves.
Proof.
  split.
  - intros w. exists (ms_c w.1). split; [by destruct w as [[] ?]|]. reflexivity.
  - intros w1 w2 w3 (c & H1 & H2) (c' & H3 & H4). exists c'. split; [by rewrite H3, H1|].
    etransitivity; [exact H2|]. replace (mk_world c w2.2) with (world_of w2) by (unfold world_of; by rewrite H1). exact H4.
Qed.

(** The runs of a program: result and final state. *)
Fixpoint irun {A} (p : prog A) (w : scene) (a : A) (w' : scene) : Prop :=
  match p with
  | Ret x => a = x ∧ env_moves w w'
  | Stuck => False
  | Op f k => ∃ w1, env_moves w w1 ∧ let '(b, m) := f w1.1 in irun (k b) (m, w1.2) a w'
  end.

Lemma irun_bind {A B} (p : prog A) (k : A → prog B) w b w' :
  irun (p ≫= k) w b w' → ∃ a w1, irun p w a w1 ∧ irun (k a) w1 b w'.
Proof.
  revert w. induction p as [x| |C f k' IH]; intros w Hr.
  - exists x, w. split; [split; reflexivity|exact Hr].
  - done.
  - destruct Hr as (w1 & He & Hr). destruct (f w1.1) as [c m] eqn:E.
    destruct (IH _ _ Hr) as (a & w2 & H1 & H2). exists a, w2. split; [|exact H2].
    exists w1. split; [exact He|]. by rewrite E.
Qed.

Lemma irun_after {A} (p : prog A) w w1 a w' : env_moves w w1 → irun p w1 a w' → irun p w a w'.
Proof.
  intros He. destruct p as [x| |B f k]; [|done|].
  - intros [-> He']. split; [done|]. by etransitivity.
  - intros (w2 & He' & Hr). exists w2. split; [by etransitivity|exact Hr].
Qed.

Lemma irun_seq {A B} (p : prog A) (k : A → prog B) w a w1 b w' :
  irun p w a w1 → irun (k a) w1 b w' → irun (p ≫= k) w b w'.
Proof.
  intros Hp Hk. revert w Hp. induction p as [x| |C f k' IH]; intros w Hp; [|done|].
  - destruct Hp as [-> He]. by eapply irun_after.
  - destruct Hp as (w2 & He & Hr). exists w2. split; [exact He|]. destruct (f w2.1) as [c m]. by apply IH.
Qed.

(** Nothing else need move. *)
Lemma run_irun {A} (p : prog A) sv a : ∀ m m', run p m = Some (a, m') → irun p (m, sv) a (m', sv).
Proof.
  induction p as [x| |C f k IH]; intros m m' E; cbn [run] in E; [|done|].
  - injection E as <- <-. split; reflexivity.
  - exists (m, sv). split; [reflexivity|]. cbn [fst snd]. destruct (f m) as [b m1]. by apply IH.
Qed.

(** ** Triples *)

(** What the surroundings leave alone. *)
Class Stable (P : world → Prop) := stable w w' : env_step net w w' → P w → P w'.

Lemma stable_moves P `{!Stable P} w w' : env_moves w w' → P (world_of w) → P (world_of w').
Proof.
  intros (c & E & Hr). assert (Hw : world_of w' = mk_world c w'.2) by (unfold world_of; by rewrite E).
  rewrite Hw. clear Hw E. induction Hr as [|w1 w2 w3 Hs _ IH]; [done|]. intros HP. by eapply IH, stable.
Qed.

Definition triple {A} (P : world → Prop) (p : prog A) (Q : A → world → Prop) : Prop :=
  ∀ w a w', P (world_of w) → irun p w a w' → Q a (world_of w').

Lemma triple_ret {A} (x : A) P Q `{!Stable (Q x)} : (∀ w, P w → Q x w) → triple P (Ret x) Q.
Proof. intros HP w a w' Hw [-> He]. apply (stable_moves (Q x) w w' He). by apply HP. Qed.

Lemma triple_stuck {A} P Q : triple (A := A) P Stuck Q.
Proof. by intros w a w' _ Hr. Qed.

Lemma triple_op {A B} P (f : mstate → B * mstate) (k : B → prog A) (Q' : B → world → Prop) Q `{!Stable P} :
  (∀ m sv, P (mk_world (ms_c m) sv) → Q' (f m).1 (mk_world (ms_c (f m).2) sv)) →
  (∀ b, triple (Q' b) (k b) Q) → triple P (Op f k) Q.
Proof.
  intros Hf Hk w a w' Hw (w1 & He & Hr). assert (H1 := stable_moves P _ _ He Hw). specialize (Hf w1.1 w1.2 H1).
  destruct (f w1.1) as [b m]. by apply (Hk b (m, w1.2) a w' Hf).
Qed.

Lemma triple_bind {A B} P (p : prog A) (k : A → prog B) Q' Q :
  triple P p Q' → (∀ a, triple (Q' a) (k a) Q) → triple P (p ≫= k) Q.
Proof. intros Hp Hk w b w' Hw (a & w1 & H1 & H2)%irun_bind. eapply Hk; [|exact H2]. by eapply Hp. Qed.

Lemma triple_conseq {A} P P' (p : prog A) Q Q' :
  triple P' p Q' → (∀ w, P w → P' w) → (∀ a w, Q' a w → Q a w) → triple P p Q.
Proof. intros Hp HP HQ w a w' Hw Hr. eapply HQ, Hp; [|exact Hr]. by apply HP. Qed.

Lemma triple_pre {A} P P' (p : prog A) Q : (∀ w, P w → P' w) → triple P' p Q → triple P p Q.
Proof. intros HP Hp. by eapply triple_conseq. Qed.

(** A precondition that is a fact. *)
Lemma triple_pure {A} (φ : Prop) P (p : prog A) Q : (φ → triple P p Q) → triple (λ w, φ ∧ P w) p Q.
Proof. intros Hp w a w' [Hφ Hw] Hr. by eapply Hp. Qed.

(** An operation of the engine. *)
Lemma triple_eng {A B} P (f : cstate → B * cstate) (k : B → prog A) (Q' : B → world → Prop) Q `{!Stable P} :
  (∀ c sv, P (mk_world c sv) → Q' (f c).1 (mk_world (f c).2 sv)) →
  (∀ b, triple (Q' b) (k b) Q) → triple P (eng f ≫= k) Q.
Proof.
  intros Hf Hk. apply (triple_op P _ _ Q' Q); [|exact Hk]. intros m sv HP. specialize (Hf (ms_c m) sv HP).
  by destruct (f (ms_c m)) as [b c].
Qed.

Lemma triple_eng_last {B} P (f : cstate → B * cstate) (Q : B → world → Prop) `{!Stable P} `{!∀ b, Stable (Q b)} :
  (∀ c sv, P (mk_world c sv) → Q (f c).1 (mk_world (f c).2 sv)) → triple P (eng f) Q.
Proof.
  intros Hf. apply (triple_op P _ _ Q Q); [|intros b; by apply triple_ret].
  intros m sv HP. specialize (Hf (ms_c m) sv HP). by destruct (f (ms_c m)) as [b c].
Qed.

#[export] Instance stable_and P P' `{!Stable P} `{!Stable P'} : Stable (λ w, P w ∧ P' w).
Proof. intros w w' Hs [H1 H2]. split; by eapply stable. Qed.

#[export] Instance stable_fact (φ : Prop) : Stable (λ _, φ).
Proof. by intros w w' _. Qed.

(** Anything about the client but its sockets. *)
Lemma env_step_client w w' :
  env_step net w w' →
  ∃ ks, w_client w' = with_socks (w_client w) ks.
Proof.
  destruct 1; cbn [w_client]; [|eexists; reflexivity..]. exists (cs_socks c). by destruct c.
Qed.

Lemma stable_client (P : cstate → Prop) : (∀ c ks, P c → P (with_socks c ks)) → Stable (λ w, P (w_client w)).
Proof. intros HP w w' (ks & E)%env_step_client Hw. rewrite E. by apply HP. Qed.

End Interleaved.
