(* ===== verification/Run.v ===== *)
(** * What a migration does, operation by operation

    The program of Prog.v, among the moves of the receiver and the network, is
    composed of few operations: a push of a block of the source, its row, a flush,
    the reading of answers, a control frame, a statement of the tracker, and
    changes of the pool, the clock and the counters.  A relation between worlds
    that holds across each of them and across the surroundings' moves
    ([RunFrame]) therefore holds across the run ([kept_transfer]).  The first
    instance is the transition system of System.v: an interleaved run is a
    sequence of its steps. *)

From S2P Require Import Prelude Protocol Hash Net Zstd Msgpack Wire Session Decoder BlockWriter Ack Server Queue Timer Pool.
From S2P Require Import Tracker BlockIO Client Incremental Migrate Prog EndToEnd Transfer Stream Replica System Interleave.

(** A reader of the source: a disk's offsets are the device's, a snapshot's
    start at its partition. *)
Definition entry_of_disk (src : source) (e : reader_entry) : Prop :=
  ∀ off, 0 ≤ off < 2 ^ 64 →
    reads_source src (re_reader e) (re_devno e)
      (if re_is_vss e then re_partition_offset e + off else off) off.

Definition disk_of_source (src : source) (r : block_reader) (devno : Z) : Prop :=
  ∀ off, 0 ≤ off < 2 ^ 64 → reads_source src r devno off off.

Lemma reads_wrapped src r d off off' ro :
  u64 off = u64 off' → reads_source src r d off ro → reads_source src r d off' ro.
Proof.
  intros Hu Hr. unfold reads_source in *.
  replace (s64 off') with (s64 off); [done|]. unfold s64, u64 in *.
  rewrite <- (wrapS_wrapU 64 off), <- (wrapS_wrapU 64 off') by lia. by rewrite Hu.
Qed.

Lemma find_reader_source src readers d off e ro :
  Forall (entry_of_disk src) readers → 0 ≤ off < 2 ^ 64 →
  Forall (λ e, 0 ≤ re_partition_offset e) readers →
  find_reader readers d off = Some (e, ro) → e ∈ readers ∧ reads_source src (re_reader e) d off ro.
Proof.
  intros HF Hoff Hpart. induction readers as [|x readers IH]; cbn [find_reader]; [done|].
  apply Forall_cons in HF as [Hx HF]. apply Forall_cons in Hpart as [Hp Hpart].
  intros E. case_test_in E; [destruct (IH HF Hpart E); split; [by right|done]|].
  case_test_in E; [|destruct (IH HF Hpart E); split; [by right|done]]. injection E as <- <-. split; [by left|].
  replace d with (re_devno x) by lia. specialize (Hx (if re_is_vss x then off - re_partition_offset x else off)).
  destruct (re_is_vss x); [|by apply Hx]. replace (re_partition_offset x + (off - re_partition_offset x)) with off in Hx by lia.
  apply Hx. lia.
Qed.

Lemma block_offsets_source src e blk disk_offset reader_offset :
  entry_of_disk src e → 0 ≤ blk < 2 ^ 44 → block_offsets e blk = (disk_offset, reader_offset) →
  reads_source src (re_reader e) (re_devno e) disk_offset reader_offset.
Proof.
  intros He Hb. unfold block_offsets. intros [= <- <-]. unfold BLOCK_SIZE. specialize (He (blk * 0x100000)) as Hv.
  specialize (He (u64 (re_partition_offset e + blk * 0x100000)) (wrapU_range 64 _ ltac:(lia))).
  destruct (re_is_vss e); [|done]. eapply reads_wrapped; [|exact (Hv ltac:(lia))].
  unfold u64, wrapU. by rewrite Zmod_mod.
Qed.

(** The disks behind the entries. *)
Definition disks_of_source (src : source) (open_reader : list Z → option block_reader) (readers : list reader_entry) : Prop :=
  (∀ d r, open_reader (physical_drive d) = Some r → disk_of_source src r d ∧ 0 ≤ block_reader_size r < 2 ^ 64) ∧
  Forall (λ e, 0 ≤ block_reader_size (re_reader e) < 2 ^ 64) readers.

(** What a run needs of the readers: they and the disks behind them hold the
    source; the numbers are those of real disks. *)
Record readers_ok (src : source) (open_reader : list Z → option block_reader) (readers : list reader_entry) : Prop := {
  ro_entries : Forall (entry_of_disk src) readers;
  ro_parts : Forall (λ e, 0 ≤ re_partition_offset e) readers;
  ro_disks : disks_of_source src open_reader readers;
  ro_blocks : Forall (λ e, n_blocks e ≤ 2 ^ 44) readers;
}.

(** ** What holds across the operations *)

(** [I]: what is known of the world all along. *)
Class RunFrame `{Zstd} (src : source) (net : network) (malloc_ok : nat → bool) (clock wall : nat → Z) (cfg : config)
    (I : world → Prop) (R : relation world) := {
  rf_preorder :: PreOrder R;
  rf_inv w w' : R w w' → I w → I w';
  rf_writer w : I w → writer_ok (cs_writer (w_client w));
  rf_env w w' : env_step net w w' → I w → R w w';
  rf_other c c' sv :
    cs_queue c' = cs_queue c → cs_writer c' = cs_writer c → cs_db c' = cs_db c → cs_socks c' = cs_socks c →
    R (mk_world c sv) (mk_world c' sv);
  rf_query B c sv (p : B) q f : R (mk_world c sv) (mk_world (set_db c (db_query (cs_db c) p q f).2) sv);
  rf_ack c sv : I (mk_world c sv) → R (mk_world c sv) (mk_world (process_ack cfg c) sv);
  rf_flush c sv : I (mk_world c sv) → R (mk_world c sv) (mk_world (flush_one clock wall cfg c).2 sv);
  rf_push c sv d o h :
    in_s 32 d → 0 ≤ o < 2 ^ 63 → I (mk_world c sv) →
    R (mk_world c sv)
      (mk_world (set_queue c (queue_push (malloc_ok (cs_tick c)) (cs_queue c) d o h
                                (block_encoding d o (block_of src d o))).2) sv);
  rf_record c sv d o n h v : R (mk_world c sv) (mk_world (set_db c (sqlite_block_upsert_v (cs_db c) d o n h 0 v).2) sv);
  rf_encode c sv w : writer_ok w → R (mk_world c sv) (mk_world (set_writer c w) sv);
  rf_control c sv fd str n :
    is_control str n → R (mk_world c sv) (mk_world (set_sock c fd (wire_send_control (csock c fd) str n).2) sv);
}.

Section Framed.
Context `{Zstd} (src : source) (src_ok : source_ok src) (net : network).
Context (realloc_ok : Z → bool) (malloc_ok : nat → bool).
Context (clock wall : nat → Z) (running : nat → bool).
Context (cfg : config) (open_reader : list Z → option block_reader).
Context (I : world → Prop) (R : relation world) `{!RunFrame src net malloc_ok clock wall cfg I R}.

(** The worlds [w0] leads to. *)
Definition since (w0 w : world) : Prop := I w ∧ R w0 w.

#[local] Instance since_stable w0 : Stable net (since w0).
Proof.
  intros w w' Hs [Hi Hr]. pose proof (rf_env w w' Hs Hi) as Hw. split; [by eapply rf_inv|]. by etransitivity.
Qed.

Lemma since_trans w0 w w' : since w0 w → R w w' → since w0 w'.
Proof. intros [Hi Hr] Hw. split; [by eapply rf_inv|]. by etransitivity. Qed.

(** The program keeps to [R], and its result is as [Q] says. *)
Definition framed {A} (p : prog A) (Q : A → Prop) : Prop :=
  ∀ w0, triple net (since w0) p (λ a w, Q a ∧ since w0 w).

Notation kept p := (framed p (λ _, True)).

Lemma framed_ret {A} (x : A) (Q : A → Prop) : Q x → framed (Ret x) Q.
Proof. intros Hx w0. apply (triple_ret net); [apply _|done]. Qed.

Lemma framed_stuck {A} (Q : A → Prop) : framed Stuck Q.
Proof. intros w0. apply triple_stuck. Qed.

Lemma framed_bind {A B} (p : prog A) (k : A → prog B) (Q' : A → Prop) Q :
  framed p Q' → (∀ a, Q' a → framed (k a) Q) → framed (p ≫= k) Q.
Proof. intros Hp Hk w0. eapply triple_bind; [apply Hp|]. intros a. apply triple_pure. intros Ha. by apply Hk. Qed.

Lemma kept_seq {A B} (p : prog A) (k : A → prog B) : kept p → (∀ a, kept (k a)) → kept (p ≫= k).
Proof. intros Hp Hk. eapply framed_bind; [exact Hp|]. intros a _. apply Hk. Qed.

(** An operation of the engine. *)
Lemma framed_eng {B} (f : cstate → B * cstate) (Q : B → Prop) :
  (∀ c sv, I (mk_world c sv) → R (mk_world c sv) (mk_world (f c).2 sv) ∧ Q (f c).1) → framed (eng f) Q.
Proof.
  intros Hf w0. apply (triple_eng_last net); [apply _..|]. intros c sv Hw. destruct (Hf c sv (proj1 Hw)) as [H1 H2].
  split; [exact H2|]. by eapply since_trans.
Qed.

Lemma kept_eng {B} (f : cstate → B * cstate) :
  (∀ c sv, I (mk_world c sv) → R (mk_world c sv) (mk_world (f c).2 sv)) → kept (eng f).
Proof. intros Hf. apply framed_eng. intros c sv Hi. split; [by apply Hf|done]. Qed.

(** One that leaves the engine alone. *)
Lemma kept_op {B} (f : mstate → B * mstate) : (∀ m, ms_c (f m).2 = ms_c m) → kept (Op f Ret).
Proof.
  intros Hf w0. apply (triple_op net (since w0) f Ret (λ _, since w0)); [apply _| |intros b; apply (triple_ret net); [apply _|done]].
  intros m sv Hw. by rewrite Hf.
Qed.

Lemma kept_look {B} (f : cstate → B) : kept (look f).
Proof. apply kept_eng. intros c sv _. reflexivity. Qed.

Lemma kept_ask : kept (ask_running running).
Proof. apply kept_eng. intros c sv _. by apply rf_other. Qed.

(** ** The engine *)

Lemma kept_drain fuel : kept (drain_prog clock wall cfg fuel).
Proof.
  induction fuel as [|fuel IH]; cbn [drain_prog]; [by apply framed_ret|].
  apply kept_seq; [apply kept_eng, rf_flush|]. intros rc. case_test; [exact IH|by apply framed_ret].
Qed.

Lemma kept_drain_queue : kept (drain_queue_prog clock wall cfg).
Proof. apply kept_seq; [apply kept_look|]. intros n. apply kept_drain. Qed.

Lemma kept_ack : kept (ack_prog cfg).
Proof. apply kept_eng. intros c sv Hi. by apply rf_ack. Qed.

Lemma kept_force_drain fuel : kept (force_drain_prog clock wall running cfg fuel).
Proof.
  induction fuel as [|fuel IH]; cbn [force_drain_prog]; [by apply framed_ret|].
  apply kept_seq; [apply kept_look|]. intros [|]; [|by apply framed_ret].
  apply kept_seq; [apply kept_ask|]. intros [|]; [|by apply framed_ret].
  apply kept_seq; [apply kept_drain_queue|]. intros _. apply kept_seq; [apply kept_ack|]. intros _. exact IH.
Qed.

Lemma kept_push_retry fuel d o h : ∀ retry,
  in_s 32 d → 0 ≤ o < 2 ^ 63 →
  kept (push_retry_prog malloc_ok clock wall running cfg fuel retry d o h (block_encoding d o (block_of src d o))).
Proof.
  induction fuel as [|fuel IH]; intros retry Hd Ho; cbn [push_retry_prog]; [by apply framed_ret|].
  apply kept_seq.
  { apply kept_eng. intros c sv Hi. pose proof (rf_push c sv d o h Hd Ho Hi) as Hp. by destruct (queue_push _ _ _ _ _ _). }
  intros rc. case_test; [by apply framed_ret|]. apply kept_seq; [apply kept_ask|]. intros [|]; cbn [negb]; [|by apply framed_ret].
  apply kept_seq; [apply kept_drain_queue|]. intros _. apply kept_seq; [apply kept_ack|]. intros _.
  case_test; [|by apply IH]. apply kept_seq; [|intros _; by apply IH].
  apply kept_seq; [apply kept_look|]. intros n. apply kept_force_drain.
Qed.

(** The payload in the encoder's buffer is the block's message. *)
Lemma framed_encode d o data :
  len data < 2 ^ 32 →
  framed (eng (encode_op realloc_ok d o data)) (λ p, ∀ payload, p = Some payload → payload = block_encoding d o data).
Proof.
  intros Hl. apply framed_eng. intros c sv Hi. pose proof (rf_writer _ Hi) as Hw. cbn [w_client] in Hw.
  pose proof (len_nonneg (wr_data (cs_writer c))). unfold encode_op.
  destruct (msgpack_encode_block _ _ _ _ _) as [w|] eqn:E; cbn [fst snd]; [|split; [reflexivity|done]].
  unfold writer_ok, wr_written in Hw. apply encode_block_data in E as [H1 H2]; [|lia..].
  split; [by apply rf_encode|]. by intros payload [= <-].
Qed.

Lemma kept_send_block reader d disk_offset reader_offset :
  reads_source src reader d disk_offset reader_offset →
  kept (send_block_prog realloc_ok malloc_ok clock wall running cfg reader d disk_offset reader_offset).
Proof.
  intros Hr. unfold send_block_prog. destruct (block_reader_read _ _ _) as [data|] eqn:Er; [|by apply framed_ret].
  specialize (Hr data Er). destruct (Z.eqb_spec (len data) 0) as [|Hlen]; [by apply framed_ret|].
  destruct Hr as (Hd & Ho & Hdata); [by intros ->|]. set (off := s64 disk_offset) in *.
  assert (Hoff : 0 ≤ off < 2 ^ 63) by (split; [done|]; pose proof (wrapS_range 64 disk_offset ltac:(lia)) as Hw;
    unfold in_s in Hw; unfold off, s64; lia).
  assert (Hl : len data < 2 ^ 32).
  { pose proof (so_len _ src_ok d off) as Hl. unfold BLOCK_SIZE in Hl. rewrite Hdata, len_block_of by lia. lia. }
  apply kept_seq.
  { apply kept_eng. intros c sv _. unfold sqlite_block_acked.
    match goal with |- context [db_query ?db ?p ?q ?f] =>
      pose proof (rf_query _ c sv p q f) as Hq; by destruct (db_query db p q f) end. }
  intros acked. case_test; [by apply framed_ret|]. apply kept_seq.
  { destruct (cf_tail_send cfg); [|by apply framed_ret]. apply kept_eng. intros c sv _. unfold sqlite_block_lookup.
    match goal with |- context [db_query ?db ?p ?q ?f] =>
      pose proof (rf_query _ c sv p q f) as Hq; by destruct (db_query db p q f) as [[? ?] ?] end. }
  intros [|]; [by apply framed_ret|]. eapply framed_bind; [by apply framed_encode|].
  intros [payload|] Hp; [|by apply framed_ret]. rewrite (Hp payload eq_refl), Hdata.
  apply kept_seq; [by apply kept_push_retry|]. intros [|]; [|by apply framed_ret].
  apply kept_seq; [|intros _; by apply framed_ret]. apply kept_eng. intros c sv _. apply rf_record.
Qed.


(** ** The run *)

Context (real : cf_dry_run cfg = false).
Context (readers : list reader_entry) (readers_src : readers_ok src open_reader readers).

Notation ask := (ask_running running).
Notation flush_and_ack := (drain_queue_prog clock wall cfg;; ack_prog cfg).

Lemma kept_retransmit blocks :
  kept (retransmit_prog realloc_ok malloc_ok clock wall running cfg blocks readers).
Proof.
  destruct readers_src as [Hes Hps _ _]. induction blocks as [|[d o] blocks IH]; cbn [retransmit_prog]; [by apply framed_ret|].
  apply kept_seq; [apply kept_ask|]. intros [|]; cbn [negb]; [|by apply framed_ret].
  destruct (find_reader readers d (u64 o)) as [[e ro]|] eqn:E; [|exact IH].
  apply (find_reader_source src) in E as [_ Hr]; [|done|apply wrapU_range; lia|done].
  apply kept_seq; [by apply kept_send_block|]. intros _. exact IH.
Qed.

Lemma kept_do_retransmit : kept (do_retransmit_prog realloc_ok malloc_ok clock wall running cfg readers).
Proof.
  apply kept_seq; [|intros blocks; apply kept_retransmit]. apply kept_eng. intros c sv _. unfold sqlite_get_unacked, db_rows.
  match goal with |- context [db_query ?db ?p ?q ?f] =>
    pose proof (rf_query _ c sv p q f) as Hq; by destruct (db_query db p q f) as [[? ?] ?] end.
Qed.

Lemma kept_do_reconnect fuel : kept (do_reconnect_prog wall fuel).
Proof.
  apply kept_seq.
  { apply kept_eng. intros c sv _. unfold time_now. destruct (pool_reap_stale _ _) as [n p]. by apply rf_other. }
  intros _. induction fuel as [|fuel IH]; cbn [reconnect_prog]; [apply framed_stuck|].
  apply kept_seq; [apply kept_look|]. intros [|]; [|by apply framed_ret]. apply kept_seq.
  { apply kept_eng. intros c sv _. unfold reconnect_turn, time_now. destruct (pool_acquire _ _) as [[i|] p]; by apply rf_other. }
  intros [|]; [exact IH|by apply framed_ret].
Qed.

Lemma kept_progress l : kept (progress_prog l).
Proof.
  induction l as [|e l IH]; cbn [progress_prog]; [by apply framed_ret|].
  apply kept_seq; [|intros _; exact IH]. apply kept_eng. intros c sv _. apply rf_query.
Qed.

Lemma kept_backpressure : kept (backpressure_prog clock wall running cfg).
Proof.
  apply kept_seq; [apply kept_look|]. intros n. induction n as [|n IH]; cbn [bp_wait_prog]; [by apply framed_ret|].
  apply kept_seq; [apply kept_look|]. intros [|]; [|by apply framed_ret].
  apply kept_seq; [apply kept_ask|]. intros [|]; [|by apply framed_ret].
  apply kept_seq; [apply kept_ack|]. intros _. apply kept_seq; [apply kept_drain_queue|]. intros _. exact IH.
Qed.

Lemma kept_now : kept (now_prog clock).
Proof. apply kept_eng. intros c sv _. by apply rf_other. Qed.

Lemma kept_timers n fuel : ∀ now,
  kept (timers_prog realloc_ok malloc_ok clock wall running cfg n fuel readers now).
Proof.
  induction n as [|n IH]; intros now; cbn [timers_prog]; [apply framed_stuck|].
  apply kept_seq; [by apply kept_op|]. intros ev.
  assert (Hev : kept (event_prog realloc_ok malloc_ok clock wall running cfg fuel readers ev;; t ← now_prog clock;
    upd (λ m, with_timer m (timer_reset t (ms_timer m) ev));; now ← now_prog clock;
    timers_prog realloc_ok malloc_ok clock wall running cfg n fuel readers now)).
  { apply kept_seq.
    - destruct ev; cbn [event_prog]; rewrite ?real; try (by apply framed_ret);
        [apply kept_do_retransmit|apply kept_do_reconnect|apply kept_progress].
    - intros _. apply kept_seq; [apply kept_now|]. intros t. apply kept_seq; [by apply kept_op|]. intros _.
      apply kept_seq; [apply kept_now|]. intros now'. apply IH. }
  destruct ev; [by apply framed_ret|exact Hev..].
Qed.

Lemma kept_send_and_flush reader d disk_offset reader_offset :
  reads_source src reader d disk_offset reader_offset →
  kept (send_and_flush_prog realloc_ok malloc_ok clock wall running cfg reader d disk_offset reader_offset).
Proof.
  intros Hr. apply kept_seq; [by apply kept_send_block|]. intros rc.
  apply kept_seq; [apply kept_op; intros m; by destruct (rc =? 0)|]. intros _.
  apply kept_seq; [apply kept_drain_queue|]. intros _. apply kept_ack.
Qed.

Lemma kept_block fuel e n : ∀ blk,
  entry_of_disk src e → 0 ≤ blk → blk + Z.of_nat n ≤ 2 ^ 44 →
  kept (block_prog realloc_ok malloc_ok clock wall running cfg fuel readers e n blk).
Proof.
  induction n as [|n IH]; intros blk He Hb Hn; cbn [block_prog]; [by apply framed_ret|].
  apply kept_seq; [apply kept_ask|]. intros [|]; cbn [negb]; [|by apply framed_ret].
  apply kept_seq; [apply kept_backpressure|]. intros _. apply kept_seq.
  { apply kept_send_and_flush, (block_offsets_source src e blk); [done|lia|by destruct (block_offsets e blk)]. }
  intros _. apply kept_seq; [apply kept_now|]. intros now. apply kept_seq; [apply kept_timers|]. intros _.
  apply IH; [done|lia|lia].
Qed.

Lemma kept_full fuel todo :
  Forall (λ e, entry_of_disk src e ∧ n_blocks e ≤ 2 ^ 44) todo →
  kept (full_prog realloc_ok malloc_ok clock wall running cfg fuel readers todo).
Proof.
  induction 1 as [|e todo [He Hn] _ IH]; cbn [full_prog]; [by apply framed_ret|].
  apply kept_seq; [apply kept_ask|]. intros [|]; cbn [negb]; [|by apply framed_ret].
  apply kept_seq; [by apply kept_op|]. intros _. apply kept_seq; [apply kept_block; [done|lia|lia]|]. intros _. exact IH.
Qed.

Lemma kept_gpt disk d :
  disk_of_source src disk d → 0 ≤ block_reader_size disk < 2 ^ 64 →
  kept (gpt_prog realloc_ok malloc_ok clock wall running cfg disk d).
Proof.
  intros Hd Hs. unfold gpt_prog. apply kept_seq; [apply kept_send_and_flush, (Hd 0); lia|]. intros _.
  case_test; [|by apply framed_ret]. set (aligned_end := block_reader_size disk / BLOCK_SIZE * BLOCK_SIZE) in *.
  assert (Hend : aligned_end < 2 ^ 64).
  { unfold aligned_end, BLOCK_SIZE. pose proof (Z.mul_div_le (block_reader_size disk) 0x100000 ltac:(lia)). lia. }
  assert (Ht : Z.of_nat 2 * BLOCK_SIZE ≤ aligned_end) by lia. revert Ht. generalize 2%nat. unfold BLOCK_SIZE.
  intros t. induction t as [|t IH]; intros Ht; cbn [footer_prog]; [by apply framed_ret|].
  apply kept_seq; [apply kept_ask|]. intros [|]; cbn [negb]; [|by apply framed_ret].
  apply kept_seq; [|intros _; apply IH; lia]. apply kept_send_and_flush, Hd. unfold BLOCK_SIZE. lia.
Qed.

Lemma kept_backup todo : ∀ seen,
  (∀ e, e ∈ todo → e ∈ readers) →
  kept (backup_prog realloc_ok malloc_ok clock wall running cfg open_reader seen todo).
Proof.
  destruct readers_src as [Hes _ [Hd1 Hd2] _]. rewrite Forall_forall in Hes, Hd2.
  induction todo as [|e todo IH]; intros seen Hin; cbn [backup_prog]; [by apply framed_ret|].
  assert (Hin' : ∀ x, x ∈ todo → x ∈ readers) by (intros x Hx; apply Hin; by right).
  assert (He : e ∈ readers) by (apply Hin; by left).
  apply kept_seq; [apply kept_ask|]. intros [|]; cbn [negb]; [|by apply framed_ret].
  case_bool_decide; [by apply IH|].
  destruct (if re_is_vss e then _ else _) as [disk|] eqn:Ed; [|by apply IH].
  apply kept_seq; [|intros _; by apply IH]. destruct (re_is_vss e) eqn:Ev.
  - destruct (Hd1 _ _ Ed). by apply kept_gpt.
  - injection Ed as <-. apply kept_gpt; [|by apply Hd2]. intros off Hoff.
    pose proof (Hes e He off Hoff) as Hr. by rewrite Ev in Hr.
Qed.

Lemma kept_final_drain n : kept (final_drain_prog clock wall cfg n).
Proof.
  induction n as [|n IH]; cbn [final_drain_prog]; [by apply framed_ret|].
  apply kept_seq; [apply kept_look|]. intros [|]; [|by apply framed_ret].
  apply kept_seq; [apply kept_drain_queue|]. intros _. apply kept_seq; [apply kept_ack|]. intros _. exact IH.
Qed.

Lemma kept_finish : kept (finish_prog wall cfg).
Proof.
  unfold finish_prog. rewrite real. apply kept_seq.
  { apply kept_eng. intros c sv _. unfold control_acquire, time_now. destruct (pool_acquire _ _) as [i p]. by apply rf_other. }
  intros [i|]; [|by apply framed_ret]. apply kept_seq.
  { apply kept_eng. intros c sv _. apply rf_control. by right. }
  intros _. apply kept_seq; [apply kept_eng; intros c sv _; by apply rf_other|]. intros _.
  generalize 300%nat. intros n. induction n as [|n IH]; [by apply framed_ret|]. rewrite Nat.iter_succ.
  apply kept_seq; [apply kept_ack|]. intros _. exact IH.
Qed.

Lemma kept_tail : kept (tail_prog realloc_ok malloc_ok clock wall running cfg open_reader readers).
Proof.
  unfold tail_prog. apply kept_seq; [by apply kept_backup|]. intros _. apply kept_seq; [apply kept_final_drain|]. intros _. apply kept_finish.
Qed.

(** What precedes them. *)
Lemma kept_transfer fuel :
  kept (transfer_prog realloc_ok malloc_ok clock wall running cfg open_reader fuel readers).
Proof.
  unfold transfer_prog. apply kept_seq; [apply kept_progress|]. intros _. apply kept_seq; [by apply kept_op|]. intros _.
  apply kept_seq; [|intros _; apply kept_tail]. apply kept_full. destruct readers_src as [Hes _ _ Hn]. by apply Forall_and.
Qed.

(** For a run from the beginning. *)
Lemma kept_run {A} (p : prog A) (w w' : scene) a :
  kept p → I (world_of w) → irun net p w a w' → I (world_of w') ∧ R (world_of w) (world_of w').
Proof.
  intros Hp Hi Hr. apply (Hp (world_of w) w a w'); [|exact Hr]. split; [done|reflexivity].
Qed.

End Framed.

(** ** A run is a sequence of the system's steps *)

(** What draining and acknowledging leave alone. *)
Definition same_writer (s s' : cstate) : Prop := cs_writer s' = cs_writer s.

#[export] Instance same_writer_frame : EngineFrame same_writer.
Proof. constructor; try (intros; unfold same_writer; done). split; unfold same_writer; [done|congruence]. Qed.

Definition writer_known (w : world) : Prop := writer_ok (cs_writer (w_client w)).

(** The system's steps, the encoder's buffer well formed. *)
Definition steps `{ZstdOk} (src : source) (net : network) (cfg : config) (w w' : world) : Prop :=
  rtc (sys_step src net cfg) w w' ∧ (writer_known w → writer_known w').

Lemma steps_once `{ZstdOk} src net cfg w w' :
  sys_step src net cfg w w' → (writer_known w → writer_known w') → steps src net cfg w w'.
Proof. intros Hs Hw. split; [by apply rtc_once|done]. Qed.

#[export] Instance steps_frame `{ZstdOk} src net malloc_ok clock wall cfg :
  RunFrame src net malloc_ok clock wall cfg writer_known (steps src net cfg).
Proof.
  constructor; unfold writer_known.
  - split; [intros w; by split|]. intros w1 w2 w3 [H1 H2] [H3 H4]. split; [by etransitivity|auto].
  - intros w w' [_ Hw]. exact Hw.
  - done.
  - intros w w' Hs Hi. apply steps_once; [by apply sys_env|]. destruct (env_step_client net w w' Hs) as [ks E]. unfold writer_known. by rewrite E.
  - intros c c' sv H1 H2 H3 H4. apply steps_once; [apply sys_other; congruence|]. unfold writer_known. cbn. by rewrite H2.
  - intros B c sv p q f. apply steps_once; [|done]. apply sys_other; try done. apply db_query_blocks.
  - intros c sv Hi. apply steps_once; [apply sys_ack|]. unfold writer_known. cbn.
    by rewrite (process_ack_frame cfg same_writer c).
  - intros c sv Hi. apply steps_once; [apply sys_flush|]. unfold writer_known. cbn.
    by rewrite (flush_one_frame clock wall cfg same_writer c).
  - intros c sv d o h Hd Ho Hi. apply steps_once; [by apply sys_push|done].
  - intros. apply steps_once; [apply sys_record|done].
  - intros c sv w Hw. apply steps_once; [by apply sys_encode|done].
  - intros c sv fd str n Hc. apply steps_once; [by apply sys_control|done].
Qed.

(** ** Properties *)


(** One block of the source of System.v, read from a disk whose reads are short,
    with an empty tracker.  When the blocks have been pushed and flushed, the
    network delivers, the receiver takes its turn, and the answers travel back:
    the run's last loops find them. *)
Definition tour_reader : reader_entry :=
  mk_rentry (mk_reader (4096 + BLOCK_SIZE) (λ off _, Some (if off =? 4096 then [7; 8; 9] else []))) None 1 4096 false 1.

Definition tour_w0 : world := mk_world (set_db fleet_start (demo_db [])) (fleet_server fleet_start).
Definition tour_start : mstate := mk_ms (w_client tour_w0) (timer_init 0) 0 0 0.

#[local] Notation tour_progress := (progress_prog [tour_reader]).
#[local] Notation tour_full :=
  (full_prog (H := stored_zstd) alloc_always always midnight midnight always demo_cfg 30 [tour_reader] [tour_reader]).
#[local] Notation tour_tail :=
  (tail_prog (H := stored_zstd) alloc_always always midnight midnight always demo_cfg (λ _, None) [tour_reader]).
#[local] Notation tour_prog :=
  (transfer_prog (H := stored_zstd) alloc_always always midnight midnight always demo_cfg (λ _, None) 30 [tour_reader]).

(** Where a program ends. *)
Definition end_of {A} (p : prog A) (m : mstate) : mstate := default m (snd <$> run p m).

Definition tour_counted : mstate := end_of tour_progress tour_start.
Definition tour_reset : mstate := mk_ms (ms_c tour_counted) (ms_timer tour_counted) 0 0 0.
Definition tour_sent : mstate := end_of tour_full tour_reset.
Definition tour_w1 : world := mk_world (ms_c tour_sent) (w_server tour_w0).
Definition tour_w2 : world := fleet_turn (fleet_up tour_w1 5).
Definition tour_w3 : world := fleet_down tour_w2 5.
Definition tour_ms : mstate := end_of tour_tail (with_c tour_sent (w_client tour_w3)).

Lemma tour_readers : readers_ok fleet_source (λ _, None) [tour_reader].
Proof.
  constructor; [|by apply Forall_singleton|split; [done|by apply Forall_singleton]|by apply Forall_singleton].
  apply Forall_singleton. intros off Hoff data Hr Hd. cbn in Hr. unfold block_reader_read in Hr. cbn in Hr.
  case_test_in Hr; injection Hr as <-; [|done]. replace off with 4096 by lia.
  split; [unfold in_s; cbn; lia|]. split; [by vm_compute|]. by vm_compute.
Qed.

Lemma tour_counting : run tour_progress tour_start = Some (tt, tour_counted).
Proof. vm_compute. reflexivity. Qed.

Lemma tour_resetting :
  run (upd (λ m, mk_ms (ms_c m) (ms_timer m) 0 0 0)) tour_counted = Some (tt, tour_reset).
Proof. done. Qed.

Lemma tour_sending : run tour_full tour_reset = Some (tt, tour_sent).
Proof. vm_compute. reflexivity. Qed.

Lemma tour_ending : run tour_tail (with_c tour_sent (w_client tour_w3)) = Some (tt, tour_ms).
Proof. vm_compute. reflexivity. Qed.

(** What happens between the sending and the tail. *)
Lemma tour_meanwhile : env_moves (H := stored_zstd) fleet_net (tour_sent, w_server tour_w0)
                         (with_c tour_sent (w_client tour_w3), w_server tour_w3).
Proof.
  exists (w_client tour_w3). split; [done|]. change (mk_world _ (_, w_server tour_w3).2) with tour_w3.
  change (world_of _) with tour_w1.
  eapply rtc_l; [apply (move_up _ 5)|]. eapply rtc_l; [apply move_turn|].
  apply rtc_once, (move_down _ 5). exists 1. vm_compute. reflexivity.
Qed.

Lemma tour_run : irun (H := stored_zstd) fleet_net tour_prog (tour_start, w_server tour_w0) tt (tour_ms, w_server tour_w3).
Proof.
  unfold transfer_prog. eapply irun_seq; [exact (run_irun _ _ _ _ _ _ tour_counting)|].
  eapply irun_seq; [exact (run_irun _ _ _ _ _ _ tour_resetting)|].
  eapply irun_seq; [exact (run_irun _ _ _ _ _ _ tour_sending)|].
  eapply irun_after; [exact tour_meanwhile|exact (run_irun _ _ _ _ _ _ tour_ending)].
Qed.

