(* ===== verification/Complete.v ===== *)
(** * A run that is confirmed has copied everything

    Undisturbed (memory, a working tracker, readable blocks, no signal), the full
    transfer leaves a row of the tracker for every block of every reader, and
    nothing that happens later takes a row away.  With the soundness of the
    acknowledgements (System.v) that gives the promise of the tool: when no row
    is left unacknowledged, the target holds every block of the source. *)

From S2P Require Import Prelude Protocol Net Zstd Msgpack Wire Session Decoder BlockWriter Ack Server Queue Timer Pool.
From S2P Require Import Tracker BlockIO Hash Client Incremental Migrate Prog EndToEnd Transfer Stream Replica System Interleave Run.

(** The tracker has a row for the block. *)
Definition recorded (s : cstate) (k : Z * Z) : Prop := is_Some (t_block (cs_db s) !! k).

Definition keeps_rows (s s' : cstate) : Prop := ∀ k, recorded s k → recorded s' k.

Lemma db_update_kept db f k :
  (∀ db0, t_block db0 = t_block db → is_Some (t_block (f db0) !! k)) → is_Some (t_block db !! k) →
  is_Some (t_block (db_update db f).2 !! k).
Proof. intros Hf Hk. destruct (db_update_blocks db f) as [->|(db0 & E0 & ->)]; [done|by apply Hf]. Qed.

Lemma keeps_acked s d o : keeps_rows s (set_db s (sqlite_block_mark_acked (cs_db s) d o).2).
Proof.
  intros k Hk. apply db_update_kept; [|done]. intros db0 E. cbn. rewrite E, lookup_alter.
  case_decide; [subst; by apply fmap_is_Some|done].
Qed.

Lemma keeps_upsert s d o n h v : keeps_rows s (set_db s (sqlite_block_upsert_v (cs_db s) d o n h 0 v).2).
Proof.
  intros k Hk. unfold recorded, sqlite_block_upsert_v. cbn [cs_db set_db]. apply db_update_kept; [|done].
  intros db0 E. cbn. rewrite E, lookup_insert. case_decide; [by eexists|done].
Qed.

Lemma keeps_query {A} s (p : A) q f : keeps_rows s (set_db s (db_query (cs_db s) p q f).2).
Proof. intros k. unfold recorded. cbn [cs_db set_db]. by rewrite db_query_blocks. Qed.

#[export] Instance keeps_rows_frame : EngineFrame keeps_rows.
Proof.
  constructor; try (intros; unfold keeps_rows; done).
  - split; [by intros s k|]. intros s1 s2 s3 H1 H2 k Hk. by apply H2, H1.
  - intros s d o. apply keeps_acked.
Qed.

Section Rows.
Context `{Zstd} (realloc_ok : Z → bool) (malloc_ok : nat → bool).
Context (clock wall : nat → Z) (running : nat → bool) (cfg : config).

(** Whatever fails, [send_block] takes no row away. *)
Lemma send_block_keeps_rows s reader d disk_offset reader_offset :
  keeps_rows s (send_block realloc_ok malloc_ok clock wall running cfg s reader d disk_offset reader_offset).2.
Proof.
  unfold send_block. destruct (block_reader_read _ _ _) as [data|]; [|reflexivity]. case_test; [reflexivity|].
  destruct (sqlite_block_acked (cs_db s) d (s64 disk_offset)) as [acked db1] eqn:Ea.
  assert (H1 : keeps_rows s (set_db s db1)).
  { replace db1 with (sqlite_block_acked (cs_db s) d (s64 disk_offset)).2 by (by rewrite Ea). apply keeps_query. }
  case_test; [exact H1|].
  match goal with |- keeps_rows _ (let '(_, _) := ?x in _).2 => set (r := x); assert (H2 : keeps_rows s r.2) end.
  { unfold r. destruct (cf_tail_send cfg); [|exact H1].
    destruct (sqlite_block_lookup (cs_db (set_db s db1)) d (s64 disk_offset)) as [[rc stored] db2] eqn:El. cbn [snd].
    replace db2 with (sqlite_block_lookup (cs_db (set_db s db1)) d (s64 disk_offset)).2 by (by rewrite El).
    etransitivity; [exact H1|apply keeps_query]. }
  destruct r as [same s2]. cbn [snd] in H2. destruct same; [exact H2|].
  destruct (msgpack_encode_block _ _ _ _ _) as [w|]; [|exact H2].
  match goal with |- context [push_retry _ _ _ _ _ _ _ ?x ?a ?b ?c ?e] =>
    pose proof (push_retry_frame malloc_ok clock wall running cfg keeps_rows PUSH_FUEL 0 x a b c e) as H3 end.
  destruct (push_retry _ _ _ _ _ _ _ _ _ _ _ _) as [ok s3]. cbn [snd] in H3.
  assert (H4 : keeps_rows s s3) by (etransitivity; [exact H2|exact H3]).
  destruct ok; [|exact H4]. etransitivity; [exact H4|apply keeps_upsert].
Qed.

End Rows.

(** Nor does anything else that happens. *)
Lemma sys_step_keeps_rows `{ZstdOk} src net cfg w w' :
  sys_step src net cfg w w' → keeps_rows (w_client w) (w_client w').
Proof.
  destruct 1; cbn [w_client].
  - apply send_block_keeps_rows.
  - by intros k.
  - apply keeps_upsert.
  - apply (flush_one_frame clock wall cfg keeps_rows).
  - apply (process_ack_frame cfg keeps_rows).
  - by intros k.
  - by intros k.
  - intros k. unfold recorded. congruence.
  - intros k. by destruct (env_step_client net w w' H0) as [ks ->].
Qed.

Lemma reachable_keeps_rows `{ZstdOk} src net cfg w w' :
  rtc (sys_step src net cfg) w w' → keeps_rows (w_client w) (w_client w').
Proof.
  induction 1 as [w|w1 w2 w3 Hs _ IH]; [by intros k|]. intros k Hk. by eapply IH, sys_step_keeps_rows.
Qed.

(** ** Undisturbed operation *)

(** What the engine needs to go on: a well-formed queue and encoder buffer, a
    tracker whose operations succeed. *)
Record healthy (s : cstate) : Prop := {
  he_queue : queue_ok (cs_queue s);
  he_writer : writer_ok (cs_writer s);
  he_db : db_events (cs_db s) = [];
}.

Lemma healthy_frame s s' :
  same_writer s s' → db_kept s s' → queue_ok (cs_queue s') → healthy s → healthy s'.
Proof. intros Hw (Hd & _) Hq [H1 H2 H3]. constructor; [done|by rewrite Hw|by apply Hd]. Qed.

(** The engine goes on and no row is lost. *)
Definition going (w : world) : Prop := healthy (w_client w).
Definition progress (w w' : world) : Prop := (going w → going w') ∧ keeps_rows (w_client w) (w_client w').

Section Undisturbed.
Context `{Zstd} (src : source) (src_ok : source_ok src) (net : network).
Context (realloc_ok : Z → bool) (malloc_ok : nat → bool).
Context (clock wall : nat → Z) (running : nat → bool) (cfg : config).
Context (memory : ∀ n, realloc_ok n = true) (memory' : ∀ t, malloc_ok t = true).
Context (no_signal : ∀ t, running t = true).

Lemma block_fits d o : len (block_encoding d o (block_of src d o)) ≤ QUEUE_ENTRY_MAX_PAYLOAD.
Proof.
  pose proof (so_len _ src_ok d o) as Hl. pose proof (len_block_encoding d o (block_of src d o)) as He.
  rewrite len_block_of in He by lia. unfold BLOCK_SIZE in Hl. unfold QUEUE_ENTRY_MAX_PAYLOAD. lia.
Qed.

#[local] Instance progress_frame : RunFrame src net malloc_ok clock wall cfg going progress.
Proof.
  constructor; unfold going.
  - split; [by intros w; split|]. intros w1 w2 w3 [H1 H2] [H3 H4]. split; [auto|by etransitivity].
  - intros w w' [Hw _]. exact Hw.
  - intros w Hw. apply Hw.
  - intros w w' (ks & E)%env_step_client Hw. unfold progress, going. rewrite E. split; [|by intros k].
    intros [A1 A2 A3]. by constructor.
  - intros c c' sv H1 H2 H3 H4. split; [intros [A1 A2 A3]; constructor; cbn in *; congruence|].
    intros k. unfold recorded. cbn. congruence.
  - intros B c sv p q f. split; [|apply keeps_query]. intros [A1 A2 A3]. constructor; try done.
    cbn [w_client cs_db set_db] in *. by rewrite db_query_ok.
  - intros c sv Hc. split; [intros _|apply (process_ack_frame cfg keeps_rows)].
    apply (healthy_frame c); [apply (process_ack_frame cfg same_writer)|apply (process_ack_frame cfg db_kept)| |done].
    by apply process_ack_queue, Hc.
  - intros c sv Hc. split; [intros _|apply (flush_one_frame clock wall cfg keeps_rows)].
    apply (healthy_frame c); [apply (flush_one_frame clock wall cfg same_writer)|apply (flush_one_frame clock wall cfg db_kept)| |done].
    cbn [w_client]. destruct (flush_one clock wall cfg c) as [rc c'] eqn:E. apply flush_one_queue in E; [apply E|apply Hc].
  - intros c sv d o h Hd Ho Hc. split; [|by intros k]. intros _. destruct Hc as [A1 A2 A3]. constructor; try done.
    cbn [w_client cs_queue set_queue]. rewrite memory'.
    destruct (queue_push _ _ _ _ _ _) as [rc q] eqn:E. by apply (push_turn running d o h _ (block_fits d o) c) in E as [Hq _].
  - intros c sv d o n h v. split; [|apply keeps_upsert]. intros [A1 A2 A3]. constructor; try done.
    unfold sqlite_block_upsert_v. by rewrite db_update_ok.
  - intros c sv w Hw. split; [|by intros k]. intros [A1 A2 A3]. by constructor.
  - intros c sv fd str n Hc. split; [|by intros k]. intros [A1 A2 A3]. by constructor.
Qed.

(** The engine going, with rows for the keys [K]. *)
Definition holding (K : Z * Z → Prop) (c : cstate) : Prop := healthy c ∧ ∀ k, K k → recorded c k.

Lemma holding_socks K c ks : holding K c → holding K (with_socks c ks).
Proof. intros [[A1 A2 A3] HK]. split; [by constructor|exact HK]. Qed.

(** The programs whose operations keep to [progress]. *)
Notation kept p := (framed net going progress p (λ _, True)).

Definition at_client (P : cstate → Prop) (w : world) : Prop := P (w_client w).

Lemma kept_holding {A} (p : prog A) K :
  kept p → triple net (at_client (holding K)) p (λ _, at_client (holding K)).
Proof.
  intros Hp w a w' [Hh HK] Hr. destruct (kept_run src net malloc_ok clock wall cfg going progress p w w' a Hp Hh Hr) as [H1 [_ H2]].
  split; [exact H1|]. intros k Hk. by apply H2, HK.
Qed.

(** *** The push loop of [send_block] ends with the block in the queue *)

(** At most [n] entries in the queue. *)
Definition short (K : Z * Z → Prop) (n : Z) (c : cstate) : Prop := holding K c ∧ q_count (cs_queue c) ≤ n.

Lemma stable_short K n : Stable net (at_client (short K n)).
Proof. apply stable_client. intros c ks [Hc Hn]. split; [by apply holding_socks|exact Hn]. Qed.

Lemma stable_holding K : Stable net (at_client (holding K)).
Proof. apply stable_client. intros c ks. apply holding_socks. Qed.

#[local] Existing Instances stable_short stable_holding.

(** An operation of a program that keeps to [progress], with what it does to the
    queue. *)
Lemma holding_op K c c' sv : holding K c → progress (mk_world c sv) (mk_world c' sv) → holding K c'.
Proof. intros [Hc HK] [H1 H2]. split; [by apply H1|]. intros k Hk. by apply H2, HK. Qed.

Lemma short_flush K n c (sv : server) :
  short K n c → short K (Z.max 0 (n - 1)) (flush_one clock wall cfg c).2.
Proof.
  intros [Hc Hn]. pose proof (rf_flush c sv (proj1 Hc)) as Hp. split; [by eapply holding_op|].
  destruct (flush_one clock wall cfg c) as [rc c'] eqn:E. apply flush_one_queue in E as (_ & _ & E); [|apply Hc]. cbn [snd]. lia.
Qed.

Lemma drain_short fuel : ∀ K n,
  0 ≤ n → triple net (at_client (short K n)) (drain_prog clock wall cfg fuel) (λ _, at_client (short K n)).
Proof.
  induction fuel as [|fuel IH]; intros K n Hn; cbn [drain_prog]; [apply (triple_ret net); [apply _|done]|].
  eapply (triple_eng net _ _ _ (λ _, at_client (short K n))).
  - apply _.
  - intros c sv Hc. apply (short_flush K n c sv) in Hc as [H1 H2]. split; [exact H1|]. cbn [w_client]. lia.
  - intros rc. case_test; [by apply IH|]. apply (triple_ret net); [apply _|done].
Qed.

Lemma drain_queue_short K n :
  0 ≤ n →
  triple net (at_client (short K n)) (drain_queue_prog clock wall cfg) (λ _, at_client (short K (Z.max 0 (n - 1)))).
Proof.
  intros Hn. unfold drain_queue_prog, look.
  apply (triple_eng net _ _ _ (λ x w, (∃ f, x = S f) ∧ at_client (short K n) w)); [apply _|by intros c sv Hc; split; [eexists|]|].
  intros x. apply triple_pure. intros [fuel ->]. cbn [drain_prog].
  apply (triple_eng net _ _ _ (λ _, at_client (short K (Z.max 0 (n - 1))))); [apply _|intros c sv; apply (short_flush K n c sv)|].
  intros rc. case_test; [apply drain_short; lia|]. apply (triple_ret net); [apply _|done].
Qed.

Lemma ack_short K n : triple net (at_client (short K n)) (ack_prog cfg) (λ _, at_client (short K n)).
Proof.
  apply (triple_eng_last net); [apply _..|]. intros c sv [Hc Hn]. pose proof (rf_ack c sv (proj1 Hc)) as Hp.
  split; [by eapply holding_op|]. cbn [fst snd w_client]. by rewrite (proj1 (proj2 (process_ack_queue cfg c (he_queue c (proj1 Hc))))).
Qed.

Lemma ask_holding (P : cstate → Prop) `{!Stable net (at_client P)} {A} (k : bool → prog A) Q :
  (∀ c, P c → P (tick c)) → triple net (at_client P) (k true) Q →
  triple net (at_client P) (ask_running running ≫= k) Q.
Proof.
  intros HP Hk. apply (triple_eng net _ _ _ (λ b w, b = true ∧ at_client P w)); [apply _| |].
  - intros c sv Hc. split; [apply no_signal|by apply HP].
  - intros b. apply triple_pure. by intros ->.
Qed.

Lemma short_tick K n c : short K n c → short K n (tick c).
Proof. intros [[[A1 A2 A3] HK] Hn]. split; [|exact Hn]. split; [by constructor|exact HK]. Qed.

Lemma force_drain_empties K fuel :
  triple net (at_client (short K (Z.of_nat fuel))) (force_drain_prog clock wall running cfg fuel)
    (λ _, at_client (short K 0)).
Proof.
  induction fuel as [|fuel IH]; cbn [force_drain_prog]; [apply (triple_ret net); [apply _|done]|].
  apply (triple_eng net _ _ _ (λ b w, (b = false → at_client (short K 0) w) ∧ at_client (short K (Z.of_nat (S fuel))) w));
    [apply _| |].
  - intros c sv [Hc Hn]. split; [|by split]. cbn [fst snd w_client]. unfold queue_count. intros Hz. split; [exact Hc|]. cbn. lia.
  - intros [|].
    + apply (triple_pre net _ (at_client (short K (Z.of_nat (S fuel))))); [by intros w Hw; apply Hw|].
      apply (ask_holding (short K (Z.of_nat (S fuel)))); [apply short_tick|].
      eapply triple_bind; [apply drain_queue_short; lia|]. intros []. replace (Z.max 0 _) with (Z.of_nat fuel) by lia.
      eapply triple_bind; [apply ack_short|]. intros []. exact IH.
    + apply (triple_pre net _ (at_client (short K 0))); [by intros w Hw; apply Hw|]. apply (triple_ret net); [apply _|done].
Qed.

Section Push.
Context (K : Z * Z → Prop) (d o h : Z) (Hd : in_s 32 d) (Ho : 0 ≤ o < 2 ^ 63).

Notation payload := (block_encoding d o (block_of src d o)).
Notation pushing := (push_retry_prog malloc_ok clock wall running cfg).

(** A push: what it leaves, and that it succeeds on an empty queue. *)
Lemma push_holding n c (sv : server) :
  short K n c →
  let r := queue_push (malloc_ok (cs_tick c)) (cs_queue c) d o h payload in
  holding K (set_queue c r.2) ∧ (n ≤ 0 → r.1 = 0).
Proof.
  intros [Hc Hn]. cbv zeta. pose proof (rf_push c sv d o h Hd Ho (proj1 Hc)) as Hp.
  split; [by eapply holding_op|]. intros Hz.
  destruct (queue_push _ _ _ _ _ _) as [rc q] eqn:E. rewrite memory' in E.
  apply (push_turn running d o h _ (block_fits d o) c) in E as (_ & _ & E); [|apply Hc]. apply E.
  destruct (he_queue c (proj1 Hc)) as [_ _ Hcnt _ _]. lia.
Qed.

(** From an empty queue one push is enough. *)
Lemma push_empty fuel retry :
  triple net (at_client (short K 0)) (pushing (S fuel) retry d o h payload)
    (λ ok w, ok = true ∧ at_client (holding K) w).
Proof.
  cbn [push_retry_prog].
  apply (triple_eng net _ _ _ (λ rc w, rc = 0 ∧ at_client (holding K) w)); [apply _| |].
  - intros c sv Hc. destruct (push_holding 0 c sv Hc) as [H1 H2]. specialize (H2 ltac:(lia)).
    destruct (queue_push _ _ _ _ _ _) as [rc q]. by split.
  - intros rc. apply triple_pure. intros ->. cbn [Z.eqb]. apply (triple_ret net); [apply _|done].
Qed.

Lemma push_retry_succeeds fuel : ∀ retry,
  0 ≤ retry ≤ BACKPRESSURE_RETRIES → BACKPRESSURE_RETRIES + 2 - retry ≤ Z.of_nat fuel →
  triple net (at_client (holding K)) (pushing fuel retry d o h payload)
    (λ ok w, ok = true ∧ at_client (holding K) w).
Proof.
  unfold BACKPRESSURE_RETRIES. induction fuel as [|fuel IH]; intros retry Hr Hf; [lia|]. cbn [push_retry_prog].
  apply (triple_eng net _ _ _ (λ _, at_client (holding K))); [apply _| |].
  { intros c sv Hc. pose proof (push_holding (q_count (cs_queue c)) c sv (conj Hc (Z.le_refl _))) as [H1 _].
    by destruct (queue_push _ _ _ _ _ _) as [rc q]. }
  intros rc. case_test; [apply (triple_ret net); [apply _|done]|].
  apply (ask_holding (holding K)).
  { intros c [[A1 A2 A3] HK]. split; [by constructor|exact HK]. }
  cbn [negb]. eapply triple_bind; [apply kept_holding, (kept_drain_queue src net malloc_ok clock wall cfg going progress)|]. intros [].
  eapply triple_bind; [apply kept_holding, (kept_ack src net malloc_ok clock wall cfg going progress)|]. intros [].
  unfold BACKPRESSURE_RETRIES. case_test; [|apply IH; lia].
  eapply triple_bind with (Q' := λ _, at_client (short K 0)).
  - unfold drain_all_prog, look.
    apply (triple_eng net _ _ _ (λ n, at_client (short K (Z.of_nat n)))); [apply _| |apply force_drain_empties].
    intros c sv Hc. split; [exact Hc|]. cbn. destruct (he_queue c (proj1 Hc)) as [_ _ Hcnt _ _]. lia.
  - intros []. destruct fuel as [|fuel]; [lia|]. apply push_empty.
Qed.

End Push.

(** *** Every block gets its row *)

Context (open_reader : list Z → option block_reader).
Context (real : cf_dry_run cfg = false) (full : cf_tail_send cfg = false).
Context (readers : list reader_entry) (readers_src : readers_ok src open_reader readers).

(** A read that gives data. *)
Definition readable (reader : block_reader) (reader_offset : Z) : Prop :=
  ∃ data, block_reader_read reader reader_offset BLOCK_SIZE = Some data ∧ data ≠ [].

(** The keys [K] and one more. *)
Definition adding (K : Z * Z → Prop) (k : Z * Z) (k' : Z * Z) : Prop := K k' ∨ k' = k.

Lemma holding_adding K k c : holding K c → recorded c k → holding (adding K k) c.
Proof. intros [Hc HK] Hk. split; [exact Hc|]. intros k' [Hk'| ->]; [by apply HK|exact Hk]. Qed.

(** The end of [send_block]: the row. *)
Lemma upsert_records K d o n h v c (sv : server) :
  holding K c → holding (adding K (d, o)) (set_db c (sqlite_block_upsert_v (cs_db c) d o n h 0 v).2).
Proof.
  intros Hc. apply holding_adding; [by eapply (holding_op K c _ sv), rf_record|].
  unfold sqlite_block_upsert_v, recorded. rewrite db_update_ok by apply Hc. cbn [snd cs_db set_db t_block with_blocks].
  rewrite lookup_insert_eq. by eexists.
Qed.

Lemma send_block_records K reader d disk_offset reader_offset :
  reads_source src reader d disk_offset reader_offset → readable reader reader_offset →
  triple net (at_client (holding K))
    (send_block_prog realloc_ok malloc_ok clock wall running cfg reader d disk_offset reader_offset)
    (λ _, at_client (holding (adding K (d, s64 disk_offset)))).
Proof.
  intros Hr (data & Hread & Hne). unfold send_block_prog. rewrite Hread, full.
  destruct (Hr data Hread Hne) as (Hd & Ho & Hdata). set (off := s64 disk_offset) in *.
  assert (Hoff : 0 ≤ off < 2 ^ 63) by (split; [done|]; pose proof (wrapS_range 64 disk_offset ltac:(lia)) as Hw;
    unfold in_s in Hw; unfold off, s64; lia).
  destruct (Z.eqb_spec (len data) 0) as [Hz|_]; [by apply len_zero_nil in Hz|].
  apply (triple_eng net _ _ _ (λ acked w, (acked = 1 → at_client (holding (adding K (d, off))) w) ∧ at_client (holding K) w));
    [apply _| |].
  { intros c sv Hc. unfold sqlite_block_acked, at_client in *. rewrite db_query_ok by apply Hc.
    cbn [fst snd w_client] in *. rewrite set_db_same. split; [|exact Hc]. intros Hacked. apply holding_adding; [exact Hc|].
    unfold recorded. destruct (t_block (cs_db c) !! (d, off)) as [r|]; [by eexists|done]. }
  intros acked. destruct (Z.eqb_spec acked 1) as [->|_].
  { apply (triple_pre net _ (at_client (holding (adding K (d, off))))); [by intros w Hw; apply Hw|].
    apply (triple_ret net); [apply _|done]. }
  apply (triple_pre net _ (at_client (holding K))); [by intros w Hw; apply Hw|]. cbn [mbind prog_bind].
  set (h := hash_block data _). set (enc := block_encoding d off (block_of src d off)).
  apply (triple_eng net _ _ _ (λ p w, p = Some enc ∧ at_client (holding K) w)); [apply _| |].
  { intros c sv Hc. unfold encode_op. destruct (encode_block_total realloc_ok (cs_writer c) d off data memory) as [w Ew].
    rewrite Ew. pose proof (he_writer c (proj1 Hc)) as Hwr. unfold writer_ok, wr_written in Hwr.
    pose proof (len_nonneg (wr_data (cs_writer c))). pose proof (so_len _ src_ok d off) as Hl. unfold BLOCK_SIZE in Hl.
    apply encode_block_data in Ew as [H1 H2]; [|lia..|rewrite Hdata, len_block_of by lia; lia].
    split; [cbn; by rewrite H1, Hdata|]. by eapply (holding_op K c _ sv), rf_encode. }
  intros p. apply triple_pure. intros ->.
  eapply triple_bind; [by apply push_retry_succeeds|]. intros ok. apply triple_pure. intros ->. cbn [mbind prog_bind].
  apply (triple_eng net _ _ _ (λ _, at_client (holding (adding K (d, off))))); [apply _| |].
  - intros c sv Hc. by apply upsert_records.
  - intros _. apply (triple_ret net); [apply _|done].
Qed.

(** A lemma of Run.v for [progress]. *)
Ltac by_frame lem := eapply lem; try apply _; try eassumption; try done.

(** The key of an entry's block, and that its blocks can be read. *)
Definition block_key (e : reader_entry) (blk : Z) : Z * Z := (re_devno e, s64 (block_offsets e blk).1).

Definition all_readable (e : reader_entry) : Prop :=
  ∀ blk, 0 ≤ blk < n_blocks e → readable (re_reader e) (block_offsets e blk).2.

(** [K] with the keys of the blocks from [lo] up to [hi]. *)
Definition with_blocks_of (e : reader_entry) (lo hi : Z) (K : Z * Z → Prop) (k : Z * Z) : Prop :=
  K k ∨ ∃ b, lo ≤ b < hi ∧ k = block_key e b.

Lemma holding_weaken (K K' : Z * Z → Prop) c : (∀ k, K' k → K k) → holding K c → holding K' c.
Proof. intros HK [Hc Hr]. split; [done|]. intros k Hk. by apply Hr, HK. Qed.

Lemma send_and_flush_records K reader d disk_offset reader_offset :
  reads_source src reader d disk_offset reader_offset → readable reader reader_offset →
  triple net (at_client (holding K))
    (send_and_flush_prog realloc_ok malloc_ok clock wall running cfg reader d disk_offset reader_offset)
    (λ _, at_client (holding (adding K (d, s64 disk_offset)))).
Proof.
  intros Hr Hread. unfold send_and_flush_prog. eapply triple_bind; [by apply send_block_records|]. intros rc. cbv beta.
  apply (kept_holding (upd (λ m, if rc =? 0 then count_sent m else m);; drain_queue_prog clock wall cfg;; ack_prog cfg)).
  apply (kept_seq net going progress); [eapply kept_op; [apply _|]; intros m; by destruct (rc =? 0)|].
  intros _. apply (kept_seq net going progress); [by_frame kept_drain_queue|]. intros _. by_frame kept_ack.
Qed.

Lemma block_records fuel e n : ∀ blk K,
  entry_of_disk src e → 0 ≤ blk → blk + Z.of_nat n ≤ 2 ^ 44 →
  (∀ b, blk ≤ b < blk + Z.of_nat n → readable (re_reader e) (block_offsets e b).2) →
  triple net (at_client (holding K))
    (block_prog realloc_ok malloc_ok clock wall running cfg fuel readers e n blk)
    (λ _, at_client (holding (with_blocks_of e blk (blk + Z.of_nat n) K))).
Proof.
  induction n as [|n IH]; intros blk K He Hb Hn Hread; cbn [block_prog].
  { apply (triple_ret net); [apply _|]. intros w Hw. eapply holding_weaken; [|exact Hw].
    intros k [Hk|(b & Hlt & _)]; [done|lia]. }
  apply (ask_holding (holding K)); [by intros c [[A1 A2 A3] HK]; split; [constructor|]|]. cbn [negb].
  eapply triple_bind; [apply kept_holding; by_frame kept_backpressure|].
  intros []. eapply triple_bind.
  { apply send_and_flush_records; [|apply Hread; lia].
    apply (block_offsets_source src e blk); [done|lia|by destruct (block_offsets e blk)]. }
  intros []. change (re_devno e, s64 (block_offsets e blk).1) with (block_key e blk).
  eapply triple_bind; [apply kept_holding; by_frame kept_now|].
  intros now. eapply triple_bind.
  { apply kept_holding. by_frame kept_timers. }
  intros []. eapply triple_conseq; [apply (IH (blk + 1)); [done|lia|lia|]|done|].
  - intros b Hlt. apply Hread. lia.
  - intros [] w Hw. eapply holding_weaken; [|exact Hw]. intros k [Hk|(b & Hlt & ->)]; [by left; left|].
    destruct (decide (b = blk)) as [->|]; [by left; right|]. right. exists b. split; [lia|done].
Qed.

(** [K] with the keys of all the blocks of the entries. *)
Definition with_entries (l : list reader_entry) (K : Z * Z → Prop) (k : Z * Z) : Prop :=
  K k ∨ ∃ e b, e ∈ l ∧ 0 ≤ b < n_blocks e ∧ k = block_key e b.

Lemma full_records fuel todo : ∀ K,
  Forall (λ e, entry_of_disk src e ∧ n_blocks e ≤ 2 ^ 44) todo → Forall all_readable todo →
  triple net (at_client (holding K)) (full_prog realloc_ok malloc_ok clock wall running cfg fuel readers todo)
    (λ _, at_client (holding (with_entries todo K))).
Proof.
  induction todo as [|e todo IH]; intros K HF HR; cbn [full_prog].
  { apply (triple_ret net); [apply _|]. intros w Hw. eapply holding_weaken; [|exact Hw].
    intros k [Hk|(e & b & He & _)]; [done|by apply elem_of_nil in He]. }
  apply Forall_cons in HF as [[He Hn] HF]. apply Forall_cons in HR as [Hre HR].
  apply (ask_holding (holding K)); [by intros c [[A1 A2 A3] HK]; split; [constructor|]|]. cbn [negb].
  eapply triple_bind; [apply kept_holding; by_frame kept_op|].
  intros []. eapply triple_bind.
  { apply (block_records fuel e (Z.to_nat (n_blocks e)) 0); [done|lia|lia|]. intros b Hb. apply Hre. lia. }
  intros []. eapply triple_conseq; [by apply IH|done|].
  intros [] w Hw. eapply holding_weaken; [|exact Hw].
  intros k [Hk|(e' & b & [->|He']%elem_of_cons & Hb & ->)]; [by left; left|left; right|right].
  - exists b. split; [lia|done].
  - by exists e', b.
Qed.

Lemma transfer_records fuel K :
  Forall all_readable readers →
  triple net (at_client (holding K)) (transfer_prog realloc_ok malloc_ok clock wall running cfg open_reader fuel readers)
    (λ _, at_client (holding (with_entries readers K))).
Proof.
  intros HR. unfold transfer_prog.
  eapply triple_bind; [apply kept_holding; by_frame kept_progress|].
  intros []. eapply triple_bind; [apply kept_holding; by_frame kept_op|].
  intros []. eapply triple_bind.
  { apply full_records; [|exact HR]. destruct readers_src as [Hes _ _ Hn]. by apply Forall_and. }
  intros []. apply kept_holding. by_frame kept_tail.
Qed.

End Undisturbed.

(** ** Properties *)


(** The run of Run.v: the answers are in before it ends. *)
Lemma tour_initial : initial fleet_source fleet_net tour_w0.
Proof. destruct fleet_initial as [H1 H2 _ H4 H5 H6 H7 H8]. constructor; try done. Qed.

Lemma tour_readable : Forall all_readable [tour_reader].
Proof.
  constructor; [|constructor]. intros blk Hblk. change (n_blocks tour_reader) with 1 in Hblk.
  replace blk with 0 by lia. exists [7; 8; 9]. split; [vm_compute; reflexivity|discriminate].
Qed.

Lemma tour_healthy : healthy (ms_c tour_start).
Proof. constructor; [apply queue_init_ok|vm_compute; split; discriminate|done]. Qed.

Lemma tour_answered : map_Forall (λ _ r, r_ack r ≠ 0) (t_block (cs_db (ms_c tour_ms))).
Proof. apply (bool_decide_unpack _). vm_compute. exact I. Qed.

