(* ===== verification/Returns.v ===== *)
(** * When a transfer returns

    Total correctness of the programs of Prog.v among moving surroundings.  The
    loops over blocks, entries and answers end by themselves; the timer loop ends
    because every event it handles uses up a part of the time there is; what
    remains is the loop of [do_reconnect], and a transfer that does not return
    is in it. *)

From S2P Require Import Prelude Protocol Net Zstd Msgpack Wire Queue Timer Pool Tracker BlockIO Client Incremental Migrate.
From S2P Require Import Prog System Interleave Run.

(** ** Every run of a program *)

Section Total.
Context `{Zstd} (net : network) (L : world → Prop).

(** Every run ends in [Q], or in [L] where the fuel of an unbounded loop has run
    out. *)
Fixpoint wp {A} (p : prog A) (Q : A → scene → Prop) (w : scene) : Prop :=
  match p with
  | Ret x => ∀ w', env_moves net w w' → Q x w'
  | Stuck => L (world_of w)
  | Op f k => ∀ w1, env_moves net w w1 → let '(b, m) := f w1.1 in wp (k b) Q (m, w1.2)
  end.

Lemma wp_mono {A} (p : prog A) (Q Q' : A → scene → Prop) : (∀ a w, Q a w → Q' a w) → ∀ w, wp p Q w → wp p Q' w.
Proof.
  intros HQ. induction p as [x| |B f k IH]; intros w Hw; [by intros w' He; apply HQ, Hw|exact Hw|].
  intros w1 He. specialize (Hw w1 He). destruct (f w1.1) as [b m]. by apply IH.
Qed.

Lemma wp_bind {A B} (p : prog A) (k : A → prog B) Q w :
  wp p (λ a, wp (k a) Q) w → wp (p ≫= k) Q w.
Proof.
  revert w. induction p as [x| |C f k' IH]; intros w Hw; [apply (Hw w); reflexivity|exact Hw|].
  intros w1 He. specialize (Hw w1 He). destruct (f w1.1) as [c m]. by apply IH.
Qed.

(** One operation. *)
Lemma wp_op {A B} (f : mstate → B * mstate) (k : B → prog A) Q w :
  (∀ w1, env_moves net w w1 → wp (k (f w1.1).1) Q ((f w1.1).2, w1.2)) → wp (Op f Ret ≫= k) Q w.
Proof. intros Hf w1 He. specialize (Hf w1 He). by destruct (f w1.1). Qed.

Lemma wp_eng {A B} (f : cstate → B * cstate) (k : B → prog A) Q w :
  (∀ w1, env_moves net w w1 → wp (k (f (ms_c w1.1)).1) Q (with_c w1.1 (f (ms_c w1.1)).2, w1.2)) →
  wp (eng f ≫= k) Q w.
Proof. intros Hf. apply wp_op. intros w1 He. specialize (Hf w1 He). by destruct (f (ms_c w1.1)). Qed.

Lemma wp_look {A B} (f : cstate → B) (k : B → prog A) Q w :
  (∀ w1, env_moves net w w1 → wp (k (f (ms_c w1.1))) Q w1) → wp (look f ≫= k) Q w.
Proof.
  intros Hf. apply wp_eng. intros w1 He. cbn [fst snd]. rewrite with_c_same. destruct w1. by apply Hf.
Qed.

End Total.

Lemma wp_weaken `{Zstd} net (L L' : world → Prop) {A} (p : prog A) Q :
  (∀ w, L w → L' w) → ∀ w, wp net L p Q w → wp net L' p Q w.
Proof.
  intros HL. induction p as [x| |B f k IH]; intros w Hw; [exact Hw|by apply HL|].
  intros w1 He. specialize (Hw w1 He). destruct (f w1.1) as [b m]. by apply IH.
Qed.

(** Where no loop runs out, every run satisfies the postcondition. *)
Lemma wp_irun `{Zstd} net {A} (p : prog A) Q w a w' :
  wp net (λ _, False) p Q w → irun net p w a w' → Q a w'.
Proof.
  revert w. induction p as [x| |B f k IH]; intros w Hw Hr; [destruct Hr as [-> He]; by apply Hw|done|].
  destruct Hr as (w1 & He & Hr). specialize (Hw w1 He). destruct (f w1.1) as [b m]. by eapply IH.
Qed.

(** ** Operations that leave the timers alone *)

(** The pool stays well formed, time does not run back, no timer is set. *)
Record calm (m m' : mstate) : Prop := {
  calm_pool : pool_ok (cs_pool (ms_c m)) → pool_ok (cs_pool (ms_c m'));
  calm_tick : (cs_tick (ms_c m) ≤ cs_tick (ms_c m'))%nat;
  calm_timer : ms_timer m' = ms_timer m;
}.

#[export] Instance calm_preorder : PreOrder calm.
Proof.
  split; [by intros m; constructor|]. intros m1 m2 m3 [P1 T1 E1] [P2 T2 E2].
  constructor; [auto|lia|by rewrite E2].
Qed.

Lemma calm_moves `{Zstd} net w w' : env_moves net w w' → calm w.1 w'.1.
Proof.
  intros (c & E & Hr). rewrite E.
  assert (Hc : ∀ x y, rtc (env_step net) x y → cs_pool (w_client y) = cs_pool (w_client x) ∧ cs_tick (w_client y) = cs_tick (w_client x)).
  { induction 1 as [|x y z Hs _ IH]; [done|]. apply env_step_client in Hs as [ks Ey]. rewrite Ey in IH. exact IH. }
  apply Hc in Hr as [Hp Ht]. cbn in Hp, Ht. constructor; cbn; [by rewrite Hp|lia|done].
Qed.

(** A program of calm operations without an unbounded loop. *)
Fixpoint calm_prog {A} (p : prog A) : Prop :=
  match p with
  | Ret _ => True
  | Stuck => False
  | Op f k => (∀ m, calm m (f m).2) ∧ ∀ b, calm_prog (k b)
  end.

Lemma calm_bind {A B} (p : prog A) (k : A → prog B) : calm_prog p → (∀ a, calm_prog (k a)) → calm_prog (p ≫= k).
Proof.
  intros Hp Hk. induction p as [x| |C f k' IH]; [apply Hk|done|]. destruct Hp as [Hf Hp]. split; [exact Hf|]. intros b. by apply IH.
Qed.

Lemma calm_wp `{Zstd} net L {A} (p : prog A) (Q : A → scene → Prop) : calm_prog p → ∀ w,
  (∀ a w', calm w.1 w'.1 → Q a w') → wp net L p Q w.
Proof.
  induction p as [x| |B f k IH]; intros Hp w HQ; [intros w' He; by apply HQ, (calm_moves net)|done|].
  destruct Hp as [Hf Hp]. intros w1 He. specialize (Hf w1.1). destruct (f w1.1) as [b m].
  apply IH; [apply Hp|]. intros a w' Hw. apply HQ. etransitivity; [by apply (calm_moves net)|]. by etransitivity.
Qed.

(** An operation of the engine. *)
Definition calm_client (c c' : cstate) : Prop :=
  (pool_ok (cs_pool c) → pool_ok (cs_pool c')) ∧ (cs_tick c ≤ cs_tick c')%nat.

Lemma calm_eng {B} (f : cstate → B * cstate) : (∀ c, calm_client c (f c).2) → calm_prog (eng f).
Proof.
  intros Hf. split; [|done]. intros m. destruct (Hf (ms_c m)) as [H1 H2]. destruct (f (ms_c m)) as [b c]. by constructor.
Qed.

Lemma calm_act (f : cstate → cstate) : (∀ c, calm_client c (f c)) → calm_prog (act f).
Proof. intros Hf. by apply calm_eng. Qed.

Lemma calm_look {B} (f : cstate → B) : calm_prog (look f).
Proof. by apply calm_eng. Qed.

Lemma calm_same c c' : cs_pool c' = cs_pool c → cs_tick c' = cs_tick c → calm_client c c'.
Proof. intros E1 E2. split; [by rewrite E1|lia]. Qed.

Section Calm.
Context `{Zstd} (realloc_ok : Z → bool) (malloc_ok : nat → bool).
Context (clock wall : nat → Z) (running : nat → bool) (cfg : config).

Lemma ack_block_calm c d o : calm_client c (ack_block cfg c d o).
Proof. unfold ack_block. destruct (cf_tail_send cfg); by apply calm_same. Qed.

Lemma calm_trans c1 c2 c3 : calm_client c1 c2 → calm_client c2 c3 → calm_client c1 c3.
Proof. intros [P1 T1] [P2 T2]. split; [auto|lia]. Qed.

Lemma handle_response_calm c r : calm_client c (handle_response cfg c r).
Proof.
  unfold handle_response. case_test; [apply ack_block_calm|]. case_test; by apply calm_same.
Qed.

Lemma ack_conn_calm fuel fd : ∀ c, calm_client c (ack_conn cfg fuel fd c).
Proof.
  induction fuel as [|fuel IH]; intros c; cbn [ack_conn]; [by apply calm_same|].
  destruct (pool_recv_ack (csock c fd)) as [[| |resp] k]; [by apply calm_same..|].
  eapply calm_trans; [|apply IH]. eapply calm_trans; [|apply handle_response_calm]. by apply calm_same.
Qed.

Lemma process_ack_calm c : calm_client c (process_ack cfg c).
Proof.
  unfold process_ack. destruct (cf_dry_run cfg).
  - generalize (queue_get_pending (cs_queue c) 256). intros l. revert c.
    induction l as [|[d o] l IH]; intros c; [by apply calm_same|]. eapply calm_trans; [apply ack_block_calm|apply IH].
  - generalize (pl_conns (cs_pool c)). intros cs. revert c.
    induction cs as [|x cs IH]; intros c; cbn [ack_conns]; [by apply calm_same|].
    case_test; [apply IH|]. eapply calm_trans; [apply ack_conn_calm|apply IH].
Qed.

Lemma rate_account_calm c n : calm_client c (rate_account clock cfg c n).
Proof. unfold rate_account, timer_now. repeat case_test; split; cbn; auto. Qed.

Lemma flush_one_calm c : calm_client c (flush_one clock wall cfg c).2.
Proof.
  unfold flush_one. destruct (queue_pop (cs_queue c)) as [[entry|] q]; [|by apply calm_same].
  destruct (cf_dry_run cfg).
  { cbn [snd]. eapply calm_trans; [|apply ack_block_calm]. by apply calm_same. }
  unfold time_now. cbn [cs_pool set_queue tick cs_tick].
  pose proof (acquire_ok (wall (cs_tick c)) (cs_pool c)) as Hp.
  destruct (pool_acquire (wall (cs_tick c)) (cs_pool c)) as [[i|] p]; cbn [fst snd] in Hp; cbn [snd];
    [|split; [intros Hc; by apply Hp|cbn; lia]].
  destruct (qe_payload entry); [|split; [intros Hc; by apply Hp|cbn; lia]].
  destruct (wire_send _ _ _ _) as [rc k]. destruct (negb (rc =? 0)); cbn [snd].
  { split; [|cbn; lia]. intros Hc. apply Hp in Hc as [Hp' _]. by apply release_ok, touch_ok. }
  eapply calm_trans; [|apply rate_account_calm]. split; [|cbn; lia].
  intros Hc. apply Hp in Hc as [Hp' _]. apply release_ok, set_slot_ok; [by apply touch_ok|done].
Qed.

(** ** The loops that end by themselves *)

Lemma calm_ask : calm_prog (ask_running running).
Proof. apply calm_eng. intros c. split; cbn; auto. Qed.

Lemma calm_drain fuel : calm_prog (drain_prog clock wall cfg fuel).
Proof.
  induction fuel as [|fuel IH]; cbn [drain_prog]; [done|].
  apply calm_bind; [apply calm_eng, flush_one_calm|]. intros rc. by case_test.
Qed.

Lemma calm_drain_queue : calm_prog (drain_queue_prog clock wall cfg).
Proof. apply calm_bind; [apply calm_look|]. intros n. apply calm_drain. Qed.

Lemma calm_ack : calm_prog (ack_prog cfg).
Proof. apply calm_act, process_ack_calm. Qed.

Lemma calm_force_drain fuel : calm_prog (force_drain_prog clock wall running cfg fuel).
Proof.
  induction fuel as [|fuel IH]; cbn [force_drain_prog]; [done|].
  apply calm_bind; [apply calm_look|]. intros [|]; [|done]. apply calm_bind; [apply calm_ask|]. intros [|]; [|done].
  apply calm_bind; [apply calm_drain_queue|]. intros _. apply calm_bind; [apply calm_ack|]. intros _. exact IH.
Qed.

Lemma calm_push_retry fuel d o h payload : ∀ retry,
  calm_prog (push_retry_prog malloc_ok clock wall running cfg fuel retry d o h payload).
Proof.
  induction fuel as [|fuel IH]; intros retry; cbn [push_retry_prog]; [done|]. apply calm_bind.
  { apply calm_eng. intros c. destruct (queue_push _ _ _ _ _ _). by apply calm_same. }
  intros rc. case_test; [done|]. apply calm_bind; [apply calm_ask|]. intros [|]; cbn [negb]; [|done].
  apply calm_bind; [apply calm_drain_queue|]. intros _. apply calm_bind; [apply calm_ack|]. intros _.
  case_test; [|apply IH]. apply calm_bind; [|intros _; apply IH].
  apply calm_bind; [apply calm_look|]. intros n. apply calm_force_drain.
Qed.

Lemma calm_send_block reader d disk_offset reader_offset :
  calm_prog (send_block_prog realloc_ok malloc_ok clock wall running cfg reader d disk_offset reader_offset).
Proof.
  unfold send_block_prog. destruct (block_reader_read _ _ _) as [data|]; [|done]. case_test; [done|]. apply calm_bind.
  { apply calm_eng. intros c. destruct (sqlite_block_acked _ _ _). by apply calm_same. }
  intros acked. case_test; [done|]. apply calm_bind.
  { destruct (cf_tail_send cfg); [|done]. apply calm_eng. intros c.
    destruct (sqlite_block_lookup _ _ _) as [[??]?]. by apply calm_same. }
  intros [|]; [done|]. apply calm_bind.
  { apply calm_eng. intros c. unfold encode_op. destruct (msgpack_encode_block _ _ _ _ _); by apply calm_same. }
  intros [payload|]; [|done]. apply calm_bind; [apply calm_push_retry|]. intros [|]; [|done].
  apply calm_bind; [|done]. apply calm_act. intros c. by apply calm_same.
Qed.

Lemma calm_send_and_flush reader d disk_offset reader_offset :
  calm_prog (send_and_flush_prog realloc_ok malloc_ok clock wall running cfg reader d disk_offset reader_offset).
Proof.
  apply calm_bind; [apply calm_send_block|]. intros rc. apply calm_bind.
  { split; [|done]. intros m. destruct (rc =? 0); by constructor. }
  intros _. apply calm_bind; [apply calm_drain_queue|]. intros _. apply calm_ack.
Qed.

Lemma calm_do_retransmit readers : calm_prog (do_retransmit_prog realloc_ok malloc_ok clock wall running cfg readers).
Proof.
  apply calm_bind.
  { apply calm_eng. intros c. destruct (sqlite_get_unacked _ _ _) as [[??]?]. by apply calm_same. }
  intros blocks. induction blocks as [|[d o] blocks IH]; cbn [retransmit_prog]; [done|].
  apply calm_bind; [apply calm_ask|]. intros [|]; cbn [negb]; [|done].
  destruct (find_reader readers d (u64 o)) as [[e ro]|]; [|exact IH].
  apply calm_bind; [apply calm_send_block|]. intros _. exact IH.
Qed.

Lemma calm_progress l : calm_prog (progress_prog l).
Proof.
  induction l as [|e l IH]; cbn [progress_prog]; [done|]. apply calm_bind; [|intros _; exact IH].
  apply calm_act. intros c. by apply calm_same.
Qed.

Lemma calm_backpressure : calm_prog (backpressure_prog clock wall running cfg).
Proof.
  apply calm_bind; [apply calm_look|]. intros n. induction n as [|n IH]; cbn [bp_wait_prog]; [done|].
  apply calm_bind; [apply calm_look|]. intros [|]; [|done]. apply calm_bind; [apply calm_ask|]. intros [|]; [|done].
  apply calm_bind; [apply calm_ack|]. intros _. apply calm_bind; [apply calm_drain_queue|]. intros _. exact IH.
Qed.

Lemma calm_footer t disk d aligned_end :
  calm_prog (footer_prog realloc_ok malloc_ok clock wall running cfg t disk d aligned_end).
Proof.
  induction t as [|t IH]; cbn [footer_prog]; [done|]. apply calm_bind; [apply calm_ask|].
  intros [|]; cbn [negb]; [|done]. apply calm_bind; [apply calm_send_and_flush|]. intros _. exact IH.
Qed.

Lemma calm_backup open_reader todo : ∀ seen,
  calm_prog (backup_prog realloc_ok malloc_ok clock wall running cfg open_reader seen todo).
Proof.
  induction todo as [|e todo IH]; intros seen; cbn [backup_prog]; [done|]. apply calm_bind; [apply calm_ask|].
  intros [|]; cbn [negb]; [|done]. case_bool_decide; [apply IH|].
  destruct (if re_is_vss e then _ else _) as [disk|]; [|apply IH]. apply calm_bind; [|intros _; apply IH].
  unfold gpt_prog. apply calm_bind; [apply calm_send_and_flush|]. intros _. case_test; [apply calm_footer|done].
Qed.

Lemma calm_final_drain n : calm_prog (final_drain_prog clock wall cfg n).
Proof.
  induction n as [|n IH]; cbn [final_drain_prog]; [done|]. apply calm_bind; [apply calm_look|]. intros [|]; [|done].
  apply calm_bind; [apply calm_drain_queue|]. intros _. apply calm_bind; [apply calm_ack|]. intros _. exact IH.
Qed.

Lemma calm_finish : calm_prog (finish_prog wall cfg).
Proof.
  unfold finish_prog. destruct (cf_dry_run cfg); [done|]. apply calm_bind.
  { apply calm_eng. intros c. unfold control_acquire, time_now. cbn [cs_pool tick].
    pose proof (acquire_ok (wall (cs_tick c)) (cs_pool c)) as Hp. destruct (pool_acquire _ _) as [r p]. cbn [fst snd] in Hp.
    split; [intros Hc; by apply Hp|cbn; lia]. }
  intros [i|]; [|done]. apply calm_bind; [apply calm_act; intros c; by apply calm_same|]. intros _. apply calm_bind.
  { apply calm_act. intros c. split; [|cbn; lia]. intros Hc. by apply release_ok, touch_ok. }
  intros _. generalize 300%nat. intros n. induction n as [|n IH]; [done|]. rewrite Nat.iter_succ.
  apply calm_bind; [apply calm_ack|]. intros _. exact IH.
Qed.

Lemma calm_tail open_reader readers :
  calm_prog (tail_prog realloc_ok malloc_ok clock wall running cfg open_reader readers).
Proof.
  unfold tail_prog. apply calm_bind; [apply calm_backup|]. intros _. apply calm_bind; [apply calm_final_drain|].
  intros _. apply calm_finish.
Qed.

End Calm.

(** ** do_reconnect *)

(** The loop of [do_reconnect] never returns from here. *)
Definition reconnecting (wall : nat → Z) (w : world) : Prop := ∀ fuel, reconnect_loop wall fuel (w_client w) = None.

Lemma release_free p i :
  pool_ok p → 0 ≤ i < SOCKET_POOL_TARGET → c_fd (conn_at p i) ≠ SOCKET_ERR → has_free (pool_release p i).
Proof.
  intros [Hl _ _] Hi Hfd. exists i. split; [exact Hi|]. unfold pool_release. rewrite conn_at_set, Z.eqb_refl by lia.
  unfold conn_free. cbn. lia.
Qed.

Section Reconnect.
Context `{Zstd} (net : network) (wall : nat → Z).
Notation wp := (wp net (reconnecting wall)).

Lemma moves_pool w w1 : env_moves net w w1 → cs_pool (ms_c w1.1) = cs_pool (ms_c w.1).
Proof.
  intros (c & E & Hr). rewrite E. cbn [ms_c with_c].
  assert (Hc : ∀ x y, rtc (env_step net) x y → cs_pool (w_client y) = cs_pool (w_client x)).
  { induction 1 as [|x y z Hs _ IH]; [done|]. apply env_step_client in Hs as [ks Ey]. by rewrite IH, Ey. }
  by apply Hc in Hr.
Qed.

(** A turn of the loop from a well-formed pool: no connection, or one is free
    afterwards; with one free before, the pool stays as it is. *)
Lemma turn_ok c :
  pool_ok (cs_pool c) →
  calm_client c (reconnect_turn wall c).2 ∧
  ((reconnect_turn wall c).1 = true → has_free (cs_pool (reconnect_turn wall c).2)) ∧
  (has_free (cs_pool c) → (reconnect_turn wall c).1 = true ∧ pl_count (cs_pool (reconnect_turn wall c).2) = pl_count (cs_pool c)).
Proof.
  intros Hp. unfold reconnect_turn, time_now. cbn [cs_pool tick].
  pose proof (acquire_ok (wall (cs_tick c)) (cs_pool c) Hp) as [H1 H2].
  pose proof (Client.reconnect_turn (wall (cs_tick c)) (cs_pool c) Hp) as H3.
  destruct (pool_acquire _ _) as [[i|] p]; cbn [fst snd] in *; (split; [split; [|cbn; lia]|split]).
  - intros _. by apply release_ok.
  - intros _. destruct (H2 i eq_refl) as [Hi Hfd]. by apply release_free.
  - intros Hf. destruct (H3 Hf) as (i' & p' & [= <- <-] & _ & H4 & _). split; [done|exact H4].
  - done.
  - done.
  - intros Hf. by destruct (H3 Hf) as (i' & p' & [=] & _).
Qed.

Lemma wp_reconnect_free fuel (Q : unit → scene → Prop) : ∀ w,
  pool_ok (cs_pool (ms_c w.1)) → has_free (cs_pool (ms_c w.1)) →
  (fuel = 0%nat → pl_count (cs_pool (ms_c w.1)) < SOCKET_POOL_TARGET) →
  (∀ w', calm w.1 w'.1 → Q tt w') → wp (reconnect_prog wall fuel) Q w.
Proof.
  induction fuel as [|fuel IH]; intros w Hp Hf Hc HQ; cbn [reconnect_prog].
  { intros fuel. apply reconnect_loop_diverges; auto. }
  apply wp_look. intros w1 He. apply (calm_moves net) in He as Hw1. apply (moves_pool w) in He.
  unfold pool_count. rewrite He. case_test.
  - apply wp_eng. intros w2 He2. apply (moves_pool _ w2) in He2 as Hp2. rewrite He in Hp2. apply (calm_moves net) in He2.
    destruct (turn_ok (ms_c w2.1)) as (H1 & H2 & H3); [by rewrite Hp2|].
    rewrite Hp2 in H3. destruct (H3 Hf) as [H4 H5]. rewrite H4. apply IH; cbn [fst ms_c with_c].
    + apply H1. by rewrite Hp2.
    + by apply H2.
    + intros _. by rewrite H5.
    + intros w' Hw'. apply HQ. transitivity w1.1; [done|]. transitivity w2.1; [done|].
      etransitivity; [|exact Hw']. by destruct H1; constructor.
  - intros w' He2. apply HQ. transitivity w1.1; [done|]. by apply (calm_moves net) in He2.
Qed.

Lemma wp_reconnect fuel (Q : unit → scene → Prop) w :
  pool_ok (cs_pool (ms_c w.1)) → (2 ≤ fuel)%nat → (∀ w', calm w.1 w'.1 → Q tt w') → wp (reconnect_prog wall fuel) Q w.
Proof.
  intros Hp Hfuel HQ. destruct fuel as [|fuel]; [lia|]. cbn [reconnect_prog].
  apply wp_look. intros w1 He. apply (calm_moves net) in He as Hw1. case_test.
  - apply wp_eng. intros w2 He2. apply (calm_moves net) in He2. assert (Hw2 : calm w.1 w2.1) by by transitivity w1.1.
    apply (calm_pool _ _ Hw2) in Hp as Hp2. destruct (turn_ok (ms_c w2.1) Hp2) as (H1 & H2 & _).
    assert (Hw3 : calm w.1 (with_c w2.1 (reconnect_turn wall (ms_c w2.1)).2)).
    { etransitivity; [exact Hw2|]. by destruct H1; constructor. }
    destruct (reconnect_turn wall (ms_c w2.1)).1.
    + apply wp_reconnect_free; [by apply H1|by apply H2|lia|]. intros w' Hw'. apply HQ. by etransitivity.
    + intros w' He3. apply HQ. etransitivity; [exact Hw3|]. by apply (calm_moves net) in He3.
  - intros w' He2. apply HQ. transitivity w1.1; [done|]. by apply (calm_moves net) in He2.
Qed.

Lemma wp_do_reconnect fuel (Q : unit → scene → Prop) w :
  pool_ok (cs_pool (ms_c w.1)) → (2 ≤ fuel)%nat → (∀ w', calm w.1 w'.1 → Q tt w') → wp (do_reconnect_prog wall fuel) Q w.
Proof.
  intros Hp Hfuel HQ. apply wp_bind, calm_wp.
  { apply calm_act. intros c. unfold time_now. cbn [cs_pool tick].
    pose proof (reap_stale_ok (wall (cs_tick c)) (cs_pool c)) as Hr. destruct (pool_reap_stale _ _) as [n p].
    split; [exact Hr|cbn; lia]. }
  intros _ w1 Hw1. apply wp_reconnect; [by apply Hw1|done|]. intros w' Hw'. apply HQ. by transitivity w1.1.
Qed.

End Reconnect.

(** ** The timers *)

(** Up to [T] the timer fires at most [n] times more.  [f] is when it fired last,
    below zero when its start was set back beyond the machine's. *)
Definition fires (T now : Z) (t : timer) (n : Z) : Prop :=
  ∃ f, last_fire t = u64 f ∧ f ≤ now ∧ T - f < 2 ^ 64 ∧ 0 < interval t ∧ (T - f) / interval t ≤ n.

Lemma fires_nonneg T now t n : now ≤ T → fires T now t n → 0 ≤ n.
Proof. intros Hn (f & _ & H1 & _ & H2 & H3). pose proof (Z.div_pos (T - f) (interval t)). lia. Qed.

Lemma fires_later T now now' t n : now ≤ now' → fires T now t n → fires T now' t n.
Proof. intros Hn (f & H1 & H2 & H3). exists f. split; [done|]. split; [lia|done]. Qed.

(** A timer that is due and is set again has one turn less. *)
Lemma fires_reset T now t n t' :
  timer_due now t = true → fires T now t n → now ≤ t' ≤ T → 0 ≤ t' → T < 2 ^ 64 →
  fires T t' (mk_timer t' (interval t)) (n - 1).
Proof.
  intros Hdue (f & H1 & H2 & H3 & H4 & H5) Ht Hp HT.
  destruct t as [last iv]. cbn [last_fire interval] in *. subst last.
  rewrite timer_due_elapsed in Hdue by lia. apply Z.leb_le in Hdue.
  exists t'. cbn [last_fire interval]. split; [symmetry; apply (wrapU_id 64); unfold in_u; lia|].
  split; [lia|]. split; [lia|]. split; [done|].
  assert (Hd : (T - t') / iv ≤ (T - f + (-1) * iv) / iv) by (apply Z.div_le_mono; lia).
  rewrite Z.div_add in Hd by lia. lia.
Qed.

Definition budget (T now : Z) (tm : timer_mgr_t) (n : Z) : Prop :=
  ∃ n1 n2 n3 n4, fires T now (tm_retransmit tm) n1 ∧ fires T now (tm_reconnect tm) n2 ∧
    fires T now (tm_action tm) n3 ∧ fires T now (tm_incremental tm) n4 ∧ n1 + n2 + n3 + n4 ≤ n.

Lemma budget_nonneg T now tm n : now ≤ T → budget T now tm n → 0 ≤ n.
Proof.
  intros Hn (n1 & n2 & n3 & n4 & H1 & H2 & H3 & H4 & H5).
  apply fires_nonneg in H1, H2, H3, H4; [lia|done..].
Qed.

Lemma budget_later T now now' tm n : now ≤ now' → budget T now tm n → budget T now' tm n.
Proof.
  intros Hn (n1 & n2 & n3 & n4 & H1 & H2 & H3 & H4 & H5).
  exists n1, n2, n3, n4. split_and!; [by eapply fires_later..|exact H5].
Qed.

(** An event that was reported and reset. *)
Lemma budget_reset T now tm n t' :
  timer_check tm now ≠ TIMER_NONE → budget T now tm n → now ≤ t' ≤ T → 0 ≤ t' → T < 2 ^ 64 →
  budget T t' (timer_reset t' tm (timer_check tm now)) (n - 1).
Proof.
  intros Hev (n1 & n2 & n3 & n4 & H1 & H2 & H3 & H4 & H5) Ht Hp HT.
  assert (Hl : ∀ t k, fires T now t k → fires T t' t k) by (intros t k; apply fires_later; lia).
  assert (Hr : ∀ t k, timer_due now t = true → fires T now t k → fires T t' (mk_timer t' (interval t)) (k - 1))
    by (intros t k Hd Hk; by eapply fires_reset).
  unfold timer_check, timer_events, budget in *. cbn [check_from timer_get] in *.
  destruct (timer_due now (tm_retransmit tm)) eqn:E1; [|destruct (timer_due now (tm_reconnect tm)) eqn:E2;
    [|destruct (timer_due now (tm_action tm)) eqn:E3; [|destruct (timer_due now (tm_incremental tm)) eqn:E4; [|done]]]];
    cbn [timer_reset tm_retransmit tm_reconnect tm_action tm_incremental].
  - exists (n1 - 1), n2, n3, n4. split_and!; auto; lia.
  - exists n1, (n2 - 1), n3, n4. split_and!; auto; lia.
  - exists n1, n2, (n3 - 1), n4. split_and!; auto; lia.
  - exists n1, n2, n3, (n4 - 1). split_and!; auto; lia.
Qed.

(** The schedule [timer_init] sets. *)
Lemma budget_init T t0 now :
  0 ≤ t0 ≤ now → now ≤ T → T + 5000 < 2 ^ 64 → budget T now (timer_init t0) (4 * ((T - t0) / 10000 + 1)).
Proof.
  intros H0 Hn HT. unfold timer_init, RETRANSMIT_TIMER_MS, RECONNECT_TIMER_MS, ACTION_TIMER_MS.
  set (k := (T - t0) / 10000).
  assert (Hf : ∀ iv, 10000 ≤ iv → fires T now (mk_timer t0 iv) (k + 1)).
  { intros iv Hiv. exists t0. cbn [last_fire interval]. split; [symmetry; apply (wrapU_id 64); unfold in_u; lia|].
    split; [lia|]. split; [lia|]. split; [lia|].
    assert ((T - t0) / iv ≤ k) by (apply Z.div_le_compat_l; lia). lia. }
  exists (k + 1), (k + 1), (k + 1), (k + 1). cbn [tm_retransmit tm_reconnect tm_action tm_incremental].
  split_and!; [apply Hf; lia..| |apply Hf; lia|lia].
  exists (t0 + 5000 - 10000). cbn [last_fire interval]. split; [done|]. split; [lia|]. split; [lia|]. split; [lia|].
  assert (Hd : (T - (t0 + 5000 - 10000)) / 10000 ≤ (T - t0 + 1 * 10000) / 10000) by (apply Z.div_le_mono; lia).
  rewrite Z.div_add in Hd by lia. fold k in Hd. lia.
Qed.

(** ** The transfer *)

Section Transfer.
Context `{Zstd} (net : network) (realloc_ok : Z → bool) (malloc_ok : nat → bool).
Context (clock wall : nat → Z) (running : nat → bool) (cfg : config) (open_reader : list Z → option block_reader).
Context (T : Z) (T_range : T + 5000 < 2 ^ 64) (clock_range : ∀ t, 0 ≤ clock t ≤ T).
Context (clock_mono : ∀ s t, (s ≤ t)%nat → clock s ≤ clock t).

(** Where a transfer may be that does not return. *)
Definition hanging (w : world) : Prop := cf_dry_run cfg = false ∧ reconnecting wall w.

Notation wp := (wp net hanging).

(** The pool is well formed and at most [n] events are still to come. *)
Definition fit (n : Z) (m : mstate) : Prop :=
  pool_ok (cs_pool (ms_c m)) ∧ budget T (clock (cs_tick (ms_c m))) (ms_timer m) n.

Lemma fit_calm n m m' : calm m m' → fit n m → fit n m'.
Proof.
  intros [H1 H2 H3] [Hp Hb]. split; [auto|]. rewrite H3. eapply budget_later; [by apply clock_mono|exact Hb].
Qed.

Lemma fit_more k n m : k ≤ n → fit k m → fit n m.
Proof. intros Hk (Hp & n1 & n2 & n3 & n4 & H1 & H2 & H3 & H4 & H5). split; [done|]. exists n1, n2, n3, n4. split_and!; auto; lia. Qed.

(** The events still to come stay within the bound. *)
Definition keeps (n : Z) {A} (p : prog A) : Prop := ∀ w, fit n w.1 → wp p (λ _ w', fit n w'.1) w.

Lemma keeps_bind n {A B} (p : prog A) (k : A → prog B) : keeps n p → (∀ a, keeps n (k a)) → keeps n (p ≫= k).
Proof. intros Hp Hk w Hw. apply wp_bind. eapply wp_mono; [|by apply Hp]. intros a w'. apply Hk. Qed.

Lemma keeps_calm n {A} (p : prog A) : calm_prog p → keeps n p.
Proof. intros Hp w Hw. apply calm_wp; [done|]. intros _ w' Hc. by eapply fit_calm. Qed.

Context (fuel : nat) (readers : list reader_entry).
Notation timers := (timers_prog realloc_ok malloc_ok clock wall running cfg).

Lemma wp_event ev (Q : unit → scene → Prop) w :
  (2 ≤ fuel)%nat → pool_ok (cs_pool (ms_c w.1)) → (∀ w', calm w.1 w'.1 → Q tt w') →
  wp (event_prog realloc_ok malloc_ok clock wall running cfg fuel readers ev) Q w.
Proof.
  intros Hf Hp HQ. assert (HQ' : ∀ a w', calm w.1 w'.1 → Q a w') by (intros []; exact HQ).
  destruct ev; cbn [event_prog]; try (by apply calm_wp); [apply calm_wp; [apply calm_do_retransmit|done]|
    |apply calm_wp; [apply calm_progress|done]].
  destruct (cf_dry_run cfg) eqn:E; [by apply calm_wp|].
  eapply wp_weaken; [|by apply wp_do_reconnect]. intros w1 Hw1. by split.
Qed.

(** Every event handled uses up one of those to come. *)
Lemma wp_timers n : ∀ k now w,
  (2 ≤ fuel)%nat → k < Z.of_nat n → pool_ok (cs_pool (ms_c w.1)) → budget T now (ms_timer w.1) k →
  0 ≤ now ≤ clock (cs_tick (ms_c w.1)) →
  wp (timers n fuel readers now) (λ _ w', fit k w'.1) w.
Proof.
  induction n as [|n IH]; intros k now w Hf Hk Hp Hb Hnow; pose proof (clock_range (cs_tick (ms_c w.1))) as HT.
  { apply budget_nonneg in Hb; lia. }
  cbn [timers_prog]. apply wp_op. intros w1 He. apply (calm_moves net) in He as [Hp1 Ht1 Hm1]. cbn [fst snd]. rewrite Hm1.
  specialize (Hp1 Hp). pose proof (clock_mono _ _ Ht1) as Hc1.
  destruct (decide (timer_check (ms_timer w.1) now = TIMER_NONE)) as [E|E].
  { rewrite E. intros w' He. apply (calm_moves net) in He. cbn [fst] in He. eapply fit_calm; [exact He|].
    split; [done|]. rewrite Hm1. eapply budget_later; [|exact Hb]. lia. }
  set (ev := timer_check (ms_timer w.1) now) in *.
  assert (Hgoal : wp (event_prog realloc_ok malloc_ok clock wall running cfg fuel readers ev;; t ← now_prog clock;
      upd (λ m, with_timer m (timer_reset t (ms_timer m) ev));; now ← now_prog clock; timers n fuel readers now)
      (λ _ w', fit k w'.1) (w1.1, w1.2)); [|by destruct ev].
  apply wp_bind, wp_event; [done|done|]. intros w2 [Hp2 Ht2 Hm2]. cbn [fst] in *.
  apply wp_eng. intros w3 He. apply (calm_moves net) in He as [Hp3 Ht3 Hm3]. cbn [timer_now fst snd].
  set (t := clock (cs_tick (ms_c w3.1))).
  apply wp_op. intros w4 He. apply (calm_moves net) in He as [Hp4 Ht4 Hm4]. cbn [fst snd with_c ms_c ms_timer tick cs_tick cs_pool] in *.
  apply wp_eng. intros w5 He. apply (calm_moves net) in He as [Hp5 Ht5 Hm5].
  cbn [timer_now fst snd with_timer ms_c ms_timer] in *.
  rewrite Hm4, Hm3, Hm2, Hm1 in Hm5. pose proof (clock_range (cs_tick (ms_c w3.1))) as HT3.
  assert (Ht : clock (cs_tick (ms_c w.1)) ≤ t) by (apply clock_mono; lia).
  assert (Ht' : t ≤ clock (cs_tick (ms_c w5.1))) by (apply clock_mono; lia).
  assert (Hb' : budget T (clock (cs_tick (ms_c w5.1))) (timer_reset t (ms_timer w.1) ev) (k - 1)).
  { eapply budget_later; [exact Ht'|]. apply budget_reset; [done|done|lia|lia|lia]. }
  eapply wp_mono; [|apply (IH (k - 1))]; [| |lia|cbn; auto|cbn; by rewrite Hm5|].
  - intros a w'. apply fit_more. lia.
  - done.
  - cbn. pose proof (clock_range (cs_tick (ms_c w5.1))). split; [lia|]. apply clock_mono. lia.
Qed.

Lemma keeps_timers n {A} (k : prog A) :
  (2 ≤ fuel)%nat → n < Z.of_nat fuel → keeps n k → keeps n (now ← now_prog clock; timers fuel fuel readers now;; k).
Proof.
  intros Hf Hn Hk w Hw. apply wp_eng. intros w1 He. apply (calm_moves net) in He.
  destruct (fit_calm n _ _ He Hw) as [Hp Hb]. cbn [timer_now fst snd].
  apply wp_bind. eapply wp_mono; [intros a w'; apply Hk|]. pose proof (clock_range (cs_tick (ms_c w1.1))).
  apply wp_timers; [done|done|done|done|]. cbn. split; [lia|]. apply clock_mono. lia.
Qed.

Context (n : Z) (fuel_enough : n < Z.of_nat fuel) (fuel_two : (2 ≤ fuel)%nat).

Lemma keeps_blocks e k : ∀ blk,
  keeps n (block_prog realloc_ok malloc_ok clock wall running cfg fuel readers e k blk).
Proof.
  induction k as [|k IH]; intros blk; cbn [block_prog]; [by apply keeps_calm|].
  apply keeps_bind; [apply keeps_calm, calm_ask|]. intros [|]; cbn [negb]; [|by apply keeps_calm].
  apply keeps_bind; [apply keeps_calm, calm_backpressure|]. intros _.
  apply keeps_bind; [apply keeps_calm, calm_send_and_flush|]. intros _. by apply keeps_timers.
Qed.

Lemma keeps_full todo : keeps n (full_prog realloc_ok malloc_ok clock wall running cfg fuel readers todo).
Proof.
  induction todo as [|e todo IH]; cbn [full_prog]; [by apply keeps_calm|].
  apply keeps_bind; [apply keeps_calm, calm_ask|]. intros [|]; cbn [negb]; [|by apply keeps_calm].
  apply keeps_bind; [by apply keeps_calm; split|]. intros _. apply keeps_bind; [apply keeps_blocks|]. intros _. exact IH.
Qed.

Lemma keeps_transfer : keeps n (transfer_prog realloc_ok malloc_ok clock wall running cfg open_reader fuel readers).
Proof.
  unfold transfer_prog. apply keeps_bind; [apply keeps_calm, calm_progress|]. intros _.
  apply keeps_bind; [by apply keeps_calm; split|]. intros _. apply keeps_bind; [apply keeps_full|]. intros _.
  apply keeps_calm, calm_tail.
Qed.

End Transfer.

(** ** Properties *)

(** The connections of System.v's example, all open. *)
Lemma tour_pool : pool_ok (cs_pool (ms_c tour_start)).
Proof. constructor; [reflexivity|vm_compute; reflexivity|vm_compute; split; congruence]. Qed.


