(* ===== verification/Tests.v ===== *)
(** * The repository's own tests on the model (src/test/test_protocol.c)

    Each test is the list of its checks in order; a failing check ends the test.
    That all of them hold of the definitions of this library, as they do of the
    program, is a test of the library: the two agree on every value the program's
    authors wrote down. *)

From S2P Require Import Prelude Protocol Hash Msgpack Queue.

(** [g_passed] and [g_failed] *)
Record test_tally := mk_test_tally {
  g_passed : Z;
  g_failed : Z;
}.

(** RUN counts the test as passed before it runs; CHECK and CHECK_EQ take that
    back and return when the condition is false. *)
Definition RUN (t : test_tally) (checks : list bool) : test_tally :=
  let t := mk_test_tally (g_passed t + 1) (g_failed t) in
  if forallb id checks then t else mk_test_tally (g_passed t - 1) (g_failed t + 1).

Definition CHECK_EQ (a b : Z) : bool := a =? b.

Definition test_protocol_constants : list bool :=
  [ CHECK_EQ (len (response_bytes (mk_response 0 0 0 0))) 20;
    CHECK_EQ SERVER_RESPONSE_SIZE 20;
    CHECK_EQ BLOCK_SIZE 0x100000;
    CHECK_EQ FRAME_MAGIC_LEN 3;
    CHECK_EQ TCP_FRAME_HEADER_SIZE 4;
    CHECK_EQ MSGPACK_FIXMAP_3 0x93;
    CHECK_EQ MSGPACK_BIN8 0xc4;
    CHECK_EQ MSGPACK_BIN16 0xc5;
    CHECK_EQ MSGPACK_BIN32 0xc6;
    CHECK_EQ MSGPACK_INT8 0xd0;
    CHECK_EQ MSGPACK_INT16 0xd1;
    CHECK_EQ MSGPACK_INT32 0xd2;
    CHECK_EQ MSGPACK_INT64 0xd3 ].

(** ** The encoder *)

Section Encoder.
Context (realloc_ok : Z → bool).

(** [msgpack_encode_block] as the tests call it: the code and the writer. *)
Definition test_encode (w : msgpack_writer) (devno offset : Z) (data : list Z) : Z * msgpack_writer :=
  match msgpack_encode_block realloc_ok w devno offset data with Some w => (0, w) | None => (-1, w) end.

Definition test_writer : msgpack_writer := msgpack_writer_init realloc_ok.

(** [w.buf[i]] *)
Definition test_buf (w : msgpack_writer) (i : Z) : Z := nth (Z.to_nat i) (wr_data w) 0.

Definition memset (b n : Z) : list Z := replicate (Z.to_nat n) b.

(** [for (i = 0; i < n; i++) data[i] = (uint8_t)(i & 0xFF)] *)
Definition counting (n : Z) : list Z := (λ i, u8 (Z.land i 0xFF)) <$> seqZ 0 n.

Definition find_byte_in_buf (bs : list Z) (target : Z) : bool := existsb (λ b, b =? target) bs.

Definition test_msgpack_fixint_positive : list bool :=
  let '(rc, w) := test_encode test_writer 0 0 [0xAA] in
  [ CHECK_EQ rc 0; 10 <? wr_written w; CHECK_EQ (test_buf w 0) 0x93; CHECK_EQ (test_buf w 1) 0x00;
    CHECK_EQ (test_buf w 2) 0x00; CHECK_EQ (test_buf w 3) 0x01 ].

Definition test_msgpack_devno_127_boundary : list bool :=
  let '(rc, w) := test_encode test_writer 127 0 (memset 0xBB 10) in [ CHECK_EQ rc 0; CHECK_EQ (test_buf w 2) 0x7F ].

Definition test_msgpack_devno_128_not_fixint : list bool :=
  let '(rc, w) := test_encode test_writer 128 0 (memset 0xBB 10) in
  [ CHECK_EQ rc 0; CHECK_EQ (test_buf w 2) MSGPACK_INT16; CHECK_EQ (test_buf w 3) 0x00; CHECK_EQ (test_buf w 4) 0x80 ].

Definition test_msgpack_devno_negative : list bool :=
  let '(rc, w) := test_encode test_writer (-1) 0 (memset 0xBB 10) in [ CHECK_EQ rc 0; CHECK_EQ (test_buf w 2) 0xFF ].

Definition test_msgpack_bin8_small_data : list bool :=
  let '(rc, w) := test_encode test_writer 0 0 (memset 0xCC 100) in
  [ CHECK_EQ rc 0; find_byte_in_buf (wr_data w) MSGPACK_BIN8 ].

(** [malloc_ok]: the test's megabyte can be allocated. *)
Definition test_msgpack_bin32_large_data (malloc_ok : bool) : list bool :=
  let '(rc, w) := test_encode test_writer 0 0x100000 (memset 0xDD BLOCK_SIZE) in
  [ malloc_ok; CHECK_EQ rc 0; BLOCK_SIZE <? wr_written w; find_byte_in_buf (wr_data w) MSGPACK_BIN32 ].

Definition test_msgpack_writer_reset : list bool :=
  let data := memset 0xEE 50 in
  let w := (test_encode test_writer 0 0 data).2 in
  let first_len := wr_written w in
  let w' := msgpack_writer_reset w in
  let w'' := (test_encode w' 0 0 data).2 in
  [ 0 <? first_len; CHECK_EQ (wr_written w') 0; CHECK_EQ (wr_written w'') first_len ].

(** Ten blocks one after the other: the codes. *)
Fixpoint test_encodes (n : Z) (count : nat) (w : msgpack_writer) (data : list Z) : list bool :=
  match count with
  | O => []
  | S count =>
      let '(rc, w) := test_encode (msgpack_writer_reset w) n (n * BLOCK_SIZE) data in
      CHECK_EQ rc 0 :: test_encodes (n + 1) count w data
  end.

Definition test_msgpack_multiple_encodes : list bool := test_encodes 0 10 test_writer (counting 256).

Definition test_msgpack_round_trip_structure : list bool :=
  let data := counting 512 in
  let '(rc, w) := test_encode test_writer 3 0x12345678 data in
  [ CHECK_EQ rc 0; CHECK_EQ (test_buf w 0) 0x93; CHECK_EQ (test_buf w 1) 0x00; CHECK_EQ (test_buf w 2) 0x03; CHECK_EQ (test_buf w 3) 0x01;
    CHECK_EQ (test_buf w 4) MSGPACK_INT64; CHECK_EQ (test_buf w 12) 0x78; CHECK_EQ (test_buf w 13) 0x02;
    CHECK_EQ (test_buf w 14) MSGPACK_BIN16; CHECK_EQ (test_buf w 15) 0x02; CHECK_EQ (test_buf w 16) 0x00;
    CHECK_EQ (test_buf w 17) (nth 0 data 0); CHECK_EQ (test_buf w (17 + 511)) (nth 511 data 0) ].

End Encoder.

(** ** The hash *)

Definition test_hash_deterministic : list bool :=
  let data := counting 1024 in
  [ CHECK_EQ (hash_block data 0) (hash_block data 0); negb (hash_block data 0 =? hash_block data 42) ].

Definition test_hash_short_data : list bool :=
  [ CHECK_EQ (hash_block (memset 0 16) 0) (u64 (16 + HASH_INIT_SHORT + 0)) ].

Definition test_hash_different_data : list bool :=
  [ negb (hash_block (counting 256) 0 =? hash_block ((λ i, 255 - i) <$> seqZ 0 256) 0) ].

Definition test_hash_empty_input : list bool := [ CHECK_EQ (hash_block [] 0) (u64 (0 + HASH_INIT_SHORT + 0)) ].

Definition test_hash_boundary_32 : list bool :=
  [ negb (hash_block (memset 0xAA 31) 0 =? hash_block (memset 0xAA 32) 0) ].

(** ** The queue *)

Section SendQueue.
Context (malloc_ok : bool).

Definition test_push (q : send_queue) (devno offset hash : Z) (payload : list Z) : send_queue :=
  (queue_push malloc_ok q devno offset hash payload).2.

(** The code of [queue_pop] and what its argument holds afterwards. *)
Definition test_pop (q : send_queue) (e : queue_entry) : Z * queue_entry * send_queue :=
  match queue_pop q with (Some e, q) => (0, e, q) | (None, q) => (-1, e, q) end.

Definition test_queue_push_pop_order : list bool :=
  let p := memset 0x11 100 in
  let q := test_push (test_push (test_push (queue_init malloc_ok).2 0 0 0xAAA p) 0 0x100000 0xBBB p) 0 0x200000 0xCCC p in
  let '(r1, e1, q1) := test_pop q empty_entry in
  let '(r2, e2, q2) := test_pop q1 e1 in
  let '(r3, e3, q3) := test_pop q2 e2 in
  let '(r4, _, _) := test_pop q3 e3 in
  [ CHECK_EQ (queue_count q) 3;
    CHECK_EQ r1 0; CHECK_EQ (qe_offset e1) 0; CHECK_EQ (qe_hash e1) 0xAAA;
    CHECK_EQ r2 0; CHECK_EQ (qe_offset e2) 0x100000; CHECK_EQ (qe_hash e2) 0xBBB;
    CHECK_EQ r3 0; CHECK_EQ (qe_offset e3) 0x200000; CHECK_EQ (qe_hash e3) 0xCCC;
    CHECK_EQ (queue_count q3) 0; CHECK_EQ r4 (-1) ].

Definition test_queue_ack : list bool :=
  let p := memset 0x22 100 in
  let q := test_push (test_push (queue_init malloc_ok).2 1 0x500000 0x111 p) 1 0x600000 0x222 p in
  let q1 := queue_ack q 1 0x500000 in
  let q2 := queue_ack q1 1 0x600000 in
  [ CHECK_EQ (queue_count q) 2; CHECK_EQ (len (queue_get_pending q1 10)) 1;
    CHECK_EQ (nth 0 (queue_get_pending q1 10) (0, 0)).2 0x600000; CHECK_EQ (len (queue_get_pending q2 10)) 0 ].

Definition test_queue_pop_then_ack : list bool :=
  let p := memset 0x33 100 in
  let q := test_push (test_push (queue_init malloc_ok).2 2 0xA00000 0xDEAD p) 2 0xB00000 0xBEEF p in
  let '(_, e1, q1) := test_pop q empty_entry in
  let '(_, e2, _) := test_pop (queue_ack q1 2 0xA00000) e1 in
  [ CHECK_EQ (qe_hash e1) 0xDEAD; CHECK_EQ (qe_hash e2) 0xBEEF ].

(** [n] test_pushes from number [i] on: the checks of their codes and the queue. *)
Fixpoint test_pushes (n : nat) (i : Z) (q : send_queue) (p : list Z) : list bool * send_queue :=
  match n with
  | O => ([], q)
  | S n =>
      let '(rc, q) := queue_push malloc_ok q 0 (i * BLOCK_SIZE) i p in
      let '(checks, q) := test_pushes n (i + 1) q p in
      (CHECK_EQ rc 0 :: checks, q)
  end.

Definition test_queue_backpressure : list bool :=
  let p := memset 0x44 100 in
  let '(checks, q) := test_pushes (Z.to_nat (BACKPRESSURE_QUEUE_DEPTH - 1)) 0 (queue_init malloc_ok).2 p in
  let '(rc, q1) := queue_push malloc_ok q 0 ((BACKPRESSURE_QUEUE_DEPTH - 1) * BLOCK_SIZE) BACKPRESSURE_QUEUE_DEPTH p in
  let '(_, _, q2) := test_pop q1 empty_entry in
  checks ++ [ queue_should_backpressure q =? 0; CHECK_EQ rc 2; negb (queue_should_backpressure q1 =? 0);
              queue_should_backpressure q2 =? 0 ].

End SendQueue.

(** ** The entry point *)

Definition test_list (realloc_ok : Z → bool) (malloc_ok : bool) : list (list bool) :=
  [ test_protocol_constants;
    test_msgpack_fixint_positive realloc_ok; test_msgpack_devno_127_boundary realloc_ok;
    test_msgpack_devno_128_not_fixint realloc_ok; test_msgpack_devno_negative realloc_ok;
    test_msgpack_bin8_small_data realloc_ok; test_msgpack_bin32_large_data realloc_ok malloc_ok;
    test_msgpack_writer_reset realloc_ok; test_msgpack_multiple_encodes realloc_ok;
    test_hash_deterministic; test_hash_short_data; test_hash_different_data; test_hash_empty_input;
    test_hash_boundary_32;
    test_queue_push_pop_order malloc_ok; test_queue_ack malloc_ok; test_queue_pop_then_ack malloc_ok;
    test_queue_backpressure malloc_ok;
    test_msgpack_round_trip_structure realloc_ok ].

(** The exit code and the counters. *)
Definition test_main (realloc_ok : Z → bool) (malloc_ok : bool) : Z * test_tally :=
  let t := foldl RUN (mk_test_tally 0 0) (test_list realloc_ok malloc_ok) in
  (if 0 <? g_failed t then 1 else 0, t).

(** ** Properties *)

Lemma RUN_foldl l : ∀ t,
  g_failed (foldl RUN t l) = g_failed t + len (filter (λ cs, ¬ Forall Is_true cs) l) ∧
  g_passed (foldl RUN t l) = g_passed t + len (filter (Forall Is_true) l).
Proof.
  induction l as [|cs l IH]; intros t; cbn [foldl]; [unfold len; cbn; lia|].
  destruct (IH (RUN t cs)) as [-> ->]. rewrite !filter_cons. unfold RUN.
  assert (Hcs : Forall Is_true cs ↔ forallb id cs = true).
  { rewrite forallb_forall, Forall_forall. split; intros HF b Hb; apply Is_true_true, HF; by apply list_elem_of_In. }
  destruct (forallb id cs); cbn [g_passed g_failed];
    [rewrite decide_False, decide_True by tauto|rewrite decide_True, decide_False by (rewrite Hcs; done)];
    unfold len; cbn [length]; lia.
Qed.

(** [test_main_counts]: the exit code is 0 exactly when every check of every
    test holds, and the counters are the numbers of the tests whose checks all
    hold and of the others. *)
Theorem test_main_counts realloc_ok malloc_ok :
  let '(rc, t) := test_main realloc_ok malloc_ok in
  (rc = 0 ↔ Forall (Forall Is_true) (test_list realloc_ok malloc_ok)) ∧
  g_passed t = len (filter (Forall Is_true) (test_list realloc_ok malloc_ok)) ∧
  g_failed t = len (filter (λ cs, ¬ Forall Is_true cs) (test_list realloc_ok malloc_ok)).
Proof.
  unfold test_main. generalize (test_list realloc_ok malloc_ok). intros l.
  destruct (RUN_foldl l (mk_test_tally 0 0)) as [Hf Hp]. cbn [g_failed g_passed] in *.
  split; [|split; lia]. rewrite Hf.
  assert (Hall : filter (λ cs, ¬ Forall Is_true cs) l = [] ↔ Forall (Forall Is_true) l).
  { rewrite Forall_forall. split.
    - intros Hnil cs Hin. destruct (decide (Forall Is_true cs)) as [|Hc]; [done|].
      assert (cs ∈ filter (λ cs, ¬ Forall Is_true cs) l) as Hx by (by apply list_elem_of_filter).
      rewrite Hnil in Hx. by apply elem_of_nil in Hx.
    - intros HF. apply elem_of_nil_inv. intros cs [Hc Hin]%list_elem_of_filter. by apply Hc, HF. }
  rewrite <- Hall. destruct (filter (λ cs, ¬ Forall Is_true cs) l) as [|cs r]; [by split|].
  unfold len. cbn [length]. replace (0 <? _) with true by lia. by split.
Qed.

(** The megabyte's test, from the encoder's specification. *)
Lemma large_data_passes : test_msgpack_bin32_large_data alloc_always true = [true; true; true; true].
Proof.
  unfold test_msgpack_bin32_large_data, test_encode, test_writer.
  set (data := memset 0xDD BLOCK_SIZE).
  assert (Hlen : len data = BLOCK_SIZE) by (unfold data, memset, len; rewrite length_replicate; unfold BLOCK_SIZE; lia).
  destruct (encode_block_total alloc_always (msgpack_writer_init alloc_always) 0 0x100000 data ltac:(done)) as [w Ew].
  rewrite Ew. unfold BLOCK_SIZE in *.
  apply encode_block_data in Ew as [Hw _]; [|vm_compute; discriminate..|rewrite Hlen; reflexivity].
  pose proof (len_block_encoding 0 0x100000 data) as Hl. rewrite <- Hw, Hlen in Hl.
  unfold wr_written. replace (_ <? len (wr_data w)) with true by lia. unfold find_byte_in_buf.
  rewrite Hw. unfold block_encoding. rewrite Hlen, !existsb_app, !orb_true_intro; [done|]. vm_compute. tauto.
Qed.

Lemma deterministic_passes : test_hash_deterministic = [true; true].
Proof.
  unfold test_hash_deterministic, CHECK_EQ. rewrite Z.eqb_refl.
  assert (Hne : (hash_block (counting 1024) 0 =? hash_block (counting 1024) 42) = false) by (vm_compute; reflexivity).
  by rewrite Hne.
Qed.

(** [protocol_tests_pass]: with memory the nineteen tests pass. *)
Theorem protocol_tests_pass : test_main alloc_always true = (0, mk_test_tally 19 0).
Proof. unfold test_main, test_list. rewrite large_data_passes, deterministic_passes. vm_compute. reflexivity. Qed.
